(* ===== verification/_CoqProject ===== *)
-Q . S2P
Prelude.v
Const.v
Logging.v
Encode.v
Options.v
Dir.v
Crypto.v
Capsule.v
DcServer.v
Middleware.v
Backend.v
Cache.v
CacheSpec.v
CacheEquiv.v
InodeSpec.v
Progress.v
Dcfs.v
MidSpec.v
CommitSpec.v
Commits.v
BackendSpec.v
Reopen.v
Inodes.v
DcfsSpec.v
Types.v
FileOps.v
RefCount.v
Session.v
Threads.v
ThreadSpec.v
ThreadInv.v
ClientComm.v
DcClient.v
Listener.v
NetServer.v
Main.v
Termination.v
DcClientSpec.v
Callers.v
NetSpec.v
NetLaws.v
NetFiles.v
Concrete.v
Witnesses.v
ThreadWitnesses.v
NetWitnesses.v
