(* ===== verification/Prelude.v ===== *)
(** * A verified model of the dcfs client

    dcfs is a FUSE file system whose files are DataCapsules: chains of records,
    each named by the SHA-256 hash of its header, kept by remote servers. This
    library models the client in [src/src] and proves what it does.

    ** The program and the library

    The layers of the program from the bottom up, each with the files that
    model it and the files that prove things of it:

    - [util/encode], [util/options], [util/logging], [util/crypto],
      [fs/const.hpp], [fs/errno.hpp]: [Encode], [Options], [Logging], [Crypto],
      [Const]. One Definition per C++ function; integers of machine width are
      [N] or [Z] with the wrap-around written out ([u64], [to_int]).
    - [dc-client/proto]: [Capsule], the messages as Records.
    - [class DCServer] of [fs/backend.hpp]: the class [DCServer] of
      [DcServer.v], with its laws in [DCServerLaws] (what is read is what is
      stored, a write changes no record of another name, and a call stops the
      process only with a fault of [server_fault]), in [DCServerAnswers] (a
      call does not fail, but may stop the client with a fault of [down]) and in
      [DCServerReliable] (no fault is one of those: the server is up). [DCServerSim] is the module [Sim] of the same file, over a
      disk of directories and files; [DCServerNet] is the module [Net] of
      [NetServer.v], over the client of [dc-client]. Both are instances of the
      class; the components above are written against it.
    - [class DCFSMidSim] of [fs/backend_sim.cpp]: [Middleware.v]. Its state is
      the Record [DCFSMidSim]; with the server, the clock and the random source
      it makes the [world] that its operations pass on. [Modify] is a
      composition of the steps the C++ body takes. [MidSpec], [CommitSpec] and
      [Commits] prove it.
    - [class StorageBackend] of [fs/backend.cpp]: [Backend.v], an instance of
      the class [Storage] that the inodes use; [BackendSpec] discharges its
      laws [StorageLaws], [Commits] shows that its requests verify.
    - [class Inode] and [class RecordCache] of [fs/inode.cpp]: [Cache.v].
      [CacheSpec], [CacheEquiv], [InodeSpec], [Progress] and [Inodes] prove
      them against the abstract file that [contents] and [i_size_] describe.
    - [class Directory] of [fs/dir.cpp] and the callbacks of [fs/dcfs.cpp] with
      the inode table: [Dir.v], [Dcfs.v]. The state is the Record [fs_state];
      pointers to inodes are keys of its table, so that two descriptors of one
      file share one inode. [DcfsSpec] has the step relation [fs_step], one
      rule per entry of the table [dcfs_oper], and what is [reachable] by it;
      [Types], [FileOps], [RefCount], [Reopen], [Session] and [Termination]
      prove the theorems about whole callbacks.
    - The same callbacks in threads: [Threads.v]. libfuse calls them from
      several threads; a callback is a sequence of steps ([Thr.step]) on the
      Record [memory] that the threads share, where an inode is reached through
      an address that another thread may free and the allocator give out again.
      What the mutex of the inode table guards is one step. A function that
      changes unlocked memory is entered in one step and left in another, and
      the run stops with [DataRace] when another thread comes to that memory in
      between; [fd = ++fd_cnt] is a load and a store. [pool_step] lets any
      thread take the next step. [ThreadSpec] relates the steps to the
      operations of [Dcfs.v], [ThreadInv] proves what every interleaving keeps,
      [ThreadWitnesses] has runs in which the missing locks show.
    - [dc-client]: [ClientComm.v] (construction and sending), [DcClient.v]
      ([Put], [Get] and the handlers as steps of two threads, [net_step]),
      [Listener.v] (the polling loop). [DcClientSpec] proves the two-thread
      semantics, [Callers] lets any number of callers have operations under way,
      one step at a time, and [NetSpec] proves [DCServerNet] against it. [NetLaws] shows that its states
      keep [DCServerLaws], and [NetFiles] applies what is proved of files over
      these laws to the program as it is built.
    - [main], mounting and [dcfs_destroy]: [Main.v].

    A computation of the program is an [outcome]: it returns, or it stops the
    process with a [fault]. Faults are what the code risks: a failed [assert],
    an access out of bounds, through a null pointer or to a deleted object, a
    value that was never written, a wait that nothing ends. An error the code handles is a value of
    [result]. A cell of memory is [None] until it is written, so that reading
    it before can be told. [wp F m Q] says that [m] stops only with a fault in
    [F] and otherwise returns a value in [Q].

    ** What is proved

    - Commits ([Commits]): a [Modify] that succeeds named the head of the
      capsule, stores a chain of blocks, a block map and an inode record, and
      touches nothing else; on a server that is up a correctly signed one
      succeeds; a refused or failed one moves no head; of two from one head one
      commits at most; the offsets of the blocks are ignored, and the file key
      is damaged by the second commit.
    - Files ([Inodes], [FileOps], [CacheEquiv]): [Read] and [Write] against the
      abstract file, by themselves and through a descriptor in every state that
      whole callbacks reach; the three ways in which they copy are one; a read
      after a write; the byte too many that a request across blocks copies.
      [Write_correct] and [dcfs_read_correct] hold for buffers of any length and
      say when they are overrun; theorems that need a byte to spare behind the
      request have the premise [size + 1 <= nlen buf]. [FlushCache] refines its
      specification.
    - Whole files ([Reopen], [Session]): what is flushed is what a later [open]
      finds, and create, write, flush, open, read gives back what was written.
    - The file system ([DcfsSpec], [FileOps], [RefCount], [Types],
      [Termination]): an invariant and a type of all states that whole
      callbacks, called one at a time, can reach ([reachable]); each callback against a description of its result and of the state after it,
      errors included; that the reference counts are the numbers of open
      handles, for a kernel that flushes each handle once; and that every
      callback ends.
    - Threads ([ThreadSpec], [ThreadInv]): a callback that nobody disturbs is
      the operation of [Dcfs.v]; if the kernel waits for each answer, the
      threads implement that sequential file system; in every interleaving, up
      to a data race, the inode table points to live objects under their own
      names and a file has one object. What does not hold is shown by runs: two
      entries of one name, one descriptor for two files, an inode used after it
      was deleted, a reference counted on the inode that has its address now,
      and a file that is not found because two searches share one iterator.
    - Servers ([DcServer], [BackendSpec], [NetSpec], [NetLaws], [NetFiles]): a
      record written is read back, on the disk and over the network;
      [DCServerNet] keeps the contract of [class DCServer] when the servers keep
      only what this client stores; a file that was flushed through it is what
      a later [open] finds, and a whole session of callbacks over it gives back
      what was written or stops with one of five faults ([net_session]).
    - The network client ([DcClientSpec], [Callers], [Listener], [NetSpec]): a
      [Put] returns only after its acknowledgement and a [Get] only what was
      received for it, also when several operations are under way and their
      steps alternate; each may wait forever, and when: a first write returns
      once it is acknowledged, a second [Put] of one hash never does; the
      listener and the blocking calls refine the two-thread semantics. A whole
      session runs over the network server ([session_over_net]).
    - Formats ([Encode], [MidSpec], [ClientComm]): hex strings, block maps and
      the list of servers are parsed back to what was printed.

    Theorems about names of records do not assume that SHA-256 has no
    collisions: where two names have to differ the theorem says which, as a
    list that can be computed ([new_names], [flush_names]).

    [Concrete.v] has an instance of every parameter below, with its laws;
    [Witnesses.v], [NetWitnesses.v] and [ThreadWitnesses.v] apply each theorem
    that has hypotheses to it.

    ** Parameters

    Code outside the repository is a class, and what the program relies on is a
    class of laws: OpenSSL ([OpenSSL], [OpenSSLLaws]), protobuf ([Protobuf],
    [ProtobufLaws]: well-formed messages are parsed back), the clock and the
    random source ([RunEnv], [RunEnvOk]), the host's file system ([HostFs],
    [HostFsBenign]), the servers behind the sockets ([Remote],
    [HonestRemote], and [ExclusiveRemote] where no other client stores
    records), libfuse ([Fuse]), and [operator new] where threads share memory
    ([Allocator], [AllocatorLaws]: it gives out no address that is in use).

    ** Loops and fuel

    Loops that run over data are structural. Three run on fuel, each with what
    is enough and the proof of it in [Termination]: [Dir.scan_fuel] is one more
    than the number of entries, because every round moves the iterator;
    [split_hashes] gets one more than the length of the payload, of which
    every round takes 32 bytes; [server_list] gets one more than the length of
    the string, of which every round passes a comma. [to_string] has a digit
    for every bit, which is enough for any number. The listener's polling loop
    has no bound in the source: its model takes the rounds it runs as a list,
    and the theorems hold for every list. A callback in a thread ends
    within [alone_fuel] steps when it is left alone ([callbacks_alone]).

    ** Not modelled

    - What FUSE, ZeroMQ, OpenSSL and protobuf do inside.
    - What [dcfs_destroy] does in fact: [~StorageBackend] deletes through base
      classes without a virtual destructor, which has no defined behaviour
      ([destroy_undefined]). [~DCServerNet] itself is [Net.delete_DCServerNet].
    - The socket to a proxy of [OUTGOING_MODE] 3; the mode is 1, and the code
      of the other is not compiled.
    - The calls of [Logger::log] in other functions. They read no state that
      matters to the program ([Logging] has what they write); but after errors
      three of them add an [int] to a string literal ([fs/inode.cpp] line 34,
      [fs/dcfs.cpp] lines 252 and 289), which has no defined behaviour, and the
      models return the error there.
    - Code in comments, such as [generate_evp_pkey_dsa].
    - What follows a data race, and weak memory. The threads of [Threads.v] stop
      where two of them meet in the directory, in an inode or in a slot of
      [fd_table], and one of them changes it. Two calls of the backend at the
      same time, for different inodes, are modelled one after the other. Callers
      and listener of the network client share maps and sockets that the source
      does not lock, and for which it assumes a single thread; a step of
      [net_step] is atomic, and threads inside the client at the same time are
      not covered.
    - The overflow of [m_recv_ack_map]'s counters, after 2^31 acknowledgements
      of one name.
    - Wrap-around of [i_ref_count_] in its conversion to [int] by [Unref]: a
      file has at most one reference per descriptor.
    - The programs under [test].

    [StorageBackend] is built over [DCServerNet]; the line that would use
    [DCServerSim] is commented out in the source. Theorems that need
    [DCServerLaws] hold over both: [DCServerSim] has these laws in every state,
    [DCServerNet] in the states of [good], which its constructor makes and its
    operations keep ([DCServer_good_laws]). Progress is proved once for servers
    that answer ([DCServerAnswers]), as a [wp] with the faults of [down]:
    [DCServerSim] on a disk without faults has none, so that commits and
    sessions succeed; [DCServerNet] has those of [net_fault], because a call may
    wait forever, and the second [Put] of one record does. Theorems without laws
    of a server, among them termination, the refusals of [Modify] and its
    failures, hold over any. *)

From Stdlib Require Import NArith ZArith Lia.
From Stdlib Require Strings.Byte.
From Stdlib Require Import Strings.String.
From stdpp Require Import base list gmap option numbers countable strings.

(** ** Bytes and byte strings

    A C++ [char], [unsigned char] or [uint8_t] is a [byte]; a [std::string]
    (which may hold arbitrary bytes, NUL included) is a [list byte]. *)

Abbreviation byte := Byte.byte.
Abbreviation bytes := (list Byte.byte).

#[global] Instance byte_eq_dec : EqDecision byte := Byte.byte_eq_dec.

#[global] Program Instance byte_countable : Countable byte :=
  inj_countable Byte.to_N Byte.of_N _.
Next Obligation. intros b. apply Byte.of_to_N. Qed.

(** A string literal of the source, as the bytes the compiler emits for it. *)
Definition lit (s : string) : bytes := String.list_byte_of_string s.

(** ** Outcomes: a C++ computation returns or stops the process *)

Inductive fault :=
  | AssertFailed      (* assert(...) is false: abort() *)
  | OutOfBounds       (* access outside an array, vector or string *)
  | NullDeref         (* access through a null pointer *)
  | UseAfterFree      (* access to an object that was deleted *)
  | Indeterminate     (* a value that was never written is used *)
  | DivByZero         (* integer division by zero *)
  | InvalidFree       (* delete[] of memory that new[] did not return *)
  | Thrown            (* an uncaught C++ exception *)
  | Exited            (* exit(1) *)
  | Unspecified       (* the result depends on the platform *)
  | Blocked           (* a wait that nothing ends *)
  | DataRace          (* two threads in memory that one of them changes *)
  | OutOfFuel.        (* a bounded loop of the model was too short *)

#[global] Instance fault_eq_dec : EqDecision fault.
Proof. solve_decision. Defined.

Inductive outcome (A : Type) :=
  | Ret (a : A)
  | Crash (f : fault).
Arguments Ret {A} a.
Arguments Crash {A} f.

#[global] Instance outcome_ret : MRet outcome := @Ret.
#[global] Instance outcome_bind : MBind outcome := λ A B k m,
  match m with Ret a => k a | Crash f => Crash f end.

#[global] Instance outcome_fmap : FMap outcome := λ A B f m,
  match m with Ret a => Ret (f a) | Crash e => Crash e end.

(** Sequencing is associative, and does not see the difference between two
    continuations that agree on every value. *)
Lemma bind_assoc {A B C} (m : outcome A) (f : A → outcome B) (g : B → outcome C) :
  (m ≫= f) ≫= g = m ≫= (λ x, f x ≫= g).
Proof. by destruct m. Qed.

#[global] Instance bind_proper {A B} :
  Proper (pointwise_relation A (=) ==> (=) ==> (=)) (mbind (M := outcome) (A := A) (B := B)).
Proof. intros f g Hfg m ? <-. destruct m; [apply Hfg|done]. Qed.

(** [assert(b)] *)
Definition c_assert (b : bool) : outcome unit :=
  if b then Ret tt else Crash AssertFailed.

(** ** Weakest preconditions of an outcome

    [wp F m Q]: [m] returns a value that satisfies [Q], or stops with a fault
    that [F] allows. *)
Definition wp {A} (F : fault → Prop) (m : outcome A) (Q : A → Prop) : Prop :=
  match m with Ret a => Q a | Crash f => F f end.

(** No fault at all; only a failed assertion; any fault. *)
Definition no_fault : fault → Prop := λ _, False.
Definition may_abort : fault → Prop := λ f, f = AssertFailed.
Definition any_fault : fault → Prop := λ _, True.

(** Fewer faults and a stronger postcondition prove more. *)
#[global] Instance wp_proper {A} :
  Proper (pointwise_relation fault impl ==> (=) ==> pointwise_relation A impl ==> impl) (wp (A := A)).
Proof. intros F G HFG m ? <- P Q HPQ. destruct m; [apply HPQ|apply HFG]. Qed.

Section wp_rules.
Context {A B : Type}.
Implicit Types (F : fault → Prop) (m : outcome A) (k : A → outcome B).

Lemma wp_ret F (Q : A → Prop) a : Q a → wp F (Ret a) Q.
Proof. done. Qed.

Lemma wp_bind F m k (P : A → Prop) (Q : B → Prop) :
  wp F m P → (∀ a, P a → wp F (k a) Q) → wp F (m ≫= k) Q.
Proof. destruct m; simpl; auto. Qed.

Lemma wp_bind_ret F m k a (Q : B → Prop) :
  m = Ret a → wp F (k a) Q → wp F (m ≫= k) Q.
Proof. by intros ->. Qed.

Lemma wp_mono F m (P Q : A → Prop) :
  wp F m P → (∀ a, P a → Q a) → wp F m Q.
Proof. destruct m; simpl; auto. Qed.

Lemma wp_fault_mono F G m (Q : A → Prop) :
  (∀ f, F f → G f) → wp F m Q → wp G m Q.
Proof. destruct m; simpl; auto. Qed.

Lemma wp_conj F m (P Q : A → Prop) :
  wp F m P → wp F m Q → wp F m (λ a, P a ∧ Q a).
Proof. destruct m; simpl; auto. Qed.

Lemma wp_elim F m (Q : A → Prop) a : wp F m Q → m = Ret a → Q a.
Proof. intros H ->. apply H. Qed.

Lemma wp_total m (Q : A → Prop) : wp no_fault m Q ↔ ∃ a, m = Ret a ∧ Q a.
Proof.
  split.
  - destruct m as [a|f]; [by exists a | by intros []].
  - by intros (a & -> & H).
Qed.

(** A computation that stops with no fault at all returns. *)
Lemma wp_always F m (Q : A → Prop) : (∀ f, ¬ F f) → wp F m Q → ∃ a, m = Ret a ∧ Q a.
Proof. destruct m as [a|f]; [by exists a|]. intros HF Hf. by destruct (HF f). Qed.

(** The value comes from the computation. *)
Lemma wp_value F m (Q : A → Prop) : wp F m Q → wp F m (λ a, m = Ret a ∧ Q a).
Proof. destruct m; simpl; auto. Qed.

Lemma bind_ret_inv m k b :
  m ≫= k = Ret b → ∃ a, m = Ret a ∧ k a = Ret b.
Proof. destruct m as [a|f]; [by exists a | done]. Qed.

Lemma wp_assert F b (o : outcome B) (Q : B → Prop) :
  (b = false → F AssertFailed) → (b = true → wp F o Q) →
  wp F (_ ← c_assert b; o) Q.
Proof. destruct b; simpl; auto. Qed.
End wp_rules.

(** [m_run] runs the next step of a computation whose value is known;
    [m_bind H] does the converse: it splits every [m ≫= k = Ret b] hypothesis [H] is made of. *)
Tactic Notation "m_run" := cbn [mbind outcome_bind].
Tactic Notation "m_run" "in" hyp(H) := cbn [mbind outcome_bind] in H.
Ltac m_bind H :=
  let a := fresh "r" in let H1 := fresh "Hm" in
  apply bind_ret_inv in H; destruct H as (a & H1 & H).

(** ** Machine integers *)

(** [uint64_t] and [size_t] are [N] below 2^64; sums and products the code
    can push past it are wrapped with [u64]. *)
Definition u64 (n : N) : N := (n `mod` 18446744073709551616)%N.

Lemma u64_small n : (n < 18446744073709551616)%N → u64 n = n.
Proof. apply N.mod_small. Qed.

Lemma u64_bound n : (u64 n < 18446744073709551616)%N.
Proof. by apply N.mod_lt. Qed.

(** An unsigned value converted to [int], 32 bits in two's complement. *)
Definition to_int (n : N) : Z :=
  let m := (Z.of_N n mod 4294967296)%Z in
  if (m <? 2147483648)%Z then m else (m - 4294967296)%Z.

Lemma to_int_small n : (n < 2147483648)%N → to_int n = Z.of_N n.
Proof.
  intros Hn. unfold to_int. rewrite Z.mod_small by lia.
  by rewrite (proj2 (Z.ltb_lt _ _)) by lia.
Qed.

Lemma to_int_le n : (to_int n <= Z.of_N n)%Z.
Proof.
  unfold to_int. pose proof (Z.mod_pos_bound (Z.of_N n) 4294967296 ltac:(lia)).
  pose proof (Z.mod_le (Z.of_N n) 4294967296 ltac:(lia) ltac:(lia)). case_match; lia.
Qed.

(** [a / b] and [a % b] on unsigned integers: dividing by zero traps. *)
Definition udiv (a b : N) : outcome N :=
  if (b =? 0)%N then Crash DivByZero else Ret (a / b)%N.
Definition umod (a b : N) : outcome N :=
  if (b =? 0)%N then Crash DivByZero else Ret (a `mod` b)%N.

Lemma udiv_ok a b : b ≠ 0%N → udiv a b = Ret (a / b)%N.
Proof. intros H. unfold udiv. by apply N.eqb_neq in H as ->. Qed.

Lemma umod_ok a b : b ≠ 0%N → umod a b = Ret (a `mod` b)%N.
Proof. intros H. unfold umod. by apply N.eqb_neq in H as ->. Qed.

(** ** Loops

    [for_loop cnt i body s] runs [body] for the counters [i], [i + 1], ...,
    [i + cnt - 1] on the loop state; [inr r] is an early [return r]. *)
Fixpoint for_loop {S R : Type} (cnt : nat) (i : N)
    (body : N → S → outcome (S + R)) (s : S) : outcome (S + R) :=
  match cnt with
  | O => Ret (inl s)
  | S cnt' =>
      r ← body i s;
      match r with
      | inl s' => for_loop cnt' (i + 1)%N body s'
      | inr e => Ret (inr e)
      end
  end.

(** A loop whose body never returns early. *)
Fixpoint for_each {S : Type} (cnt : nat) (i : N)
    (body : N → S → outcome S) (s : S) : outcome S :=
  match cnt with
  | O => Ret s
  | S cnt' => s' ← body i s; for_each cnt' (i + 1)%N body s'
  end.

(** Number of iterations of [for (i = lo; i < hi; i++)]. *)
Definition iters (lo hi : N) : nat := N.to_nat (hi - lo).

Lemma for_loop_inv {S R} (F : fault → Prop) (I : N → S → Prop) (E : R → Prop)
    (body : N → S → outcome (S + R)) cnt i s :
  I i s →
  (∀ j s', (i ≤ j < i + N.of_nat cnt)%N → I j s' →
     wp F (body j s') (λ r, match r with inl t => I (j + 1)%N t | inr e => E e end)) →
  wp F (for_loop cnt i body s)
    (λ r, match r with inl t => I (i + N.of_nat cnt)%N t | inr e => E e end).
Proof.
  revert i s. induction cnt as [|cnt IH]; intros i s HI Hbody; simpl.
  { by rewrite N.add_0_r. }
  eapply wp_bind; [apply Hbody; [lia|done]|].
  intros [t|e] Ht; [|done].
  replace (i + N.of_nat (Datatypes.S cnt))%N with ((i + 1) + N.of_nat cnt)%N by lia.
  apply IH; [done|]. intros j s' Hj. apply Hbody. lia.
Qed.

Lemma for_each_inv {S} (F : fault → Prop) (I : N → S → Prop)
    (body : N → S → outcome S) cnt i s :
  I i s →
  (∀ j s', (i ≤ j < i + N.of_nat cnt)%N → I j s' → wp F (body j s') (I (j + 1)%N)) →
  wp F (for_each cnt i body s) (I (i + N.of_nat cnt)%N).
Proof.
  revert i s. induction cnt as [|cnt IH]; intros i s HI Hbody; simpl.
  { by rewrite N.add_0_r. }
  eapply wp_bind; [apply Hbody; [lia|done]|].
  intros t Ht.
  replace (i + N.of_nat (Datatypes.S cnt))%N with ((i + 1) + N.of_nat cnt)%N by lia.
  apply IH; [done|]. intros j s' Hj. apply Hbody. lia.
Qed.

(** ** Memory

    A memory cell holds a byte, or [None] while it has not been written
    ([new char[n]] leaves its cells indeterminate). An array is a list of
    cells; [memcpy] checks both ranges. *)
Abbreviation cell := (option Byte.byte).

Definition slice {A} (l : list A) (off n : nat) : list A := take n (drop off l).
Definition splice {A} (l : list A) (off : nat) (src : list A) : list A :=
  take off l ++ src ++ drop (off + length src) l.

Definition nlen {A} (l : list A) : N := N.of_nat (length l).

Lemma to_nat_nlen {A} (l : list A) : N.to_nat (nlen l) = length l.
Proof. unfold nlen. lia. Qed.

Lemma nlen_app {A} (l k : list A) : nlen (l ++ k) = (nlen l + nlen k)%N.
Proof. unfold nlen. rewrite length_app. lia. Qed.

Lemma nlen_fmap {A B} (f : A → B) (l : list A) : nlen (f <$> l) = nlen l.
Proof. unfold nlen. by rewrite length_fmap. Qed.

Definition mem_read {A} (src : list A) (off n : N) : outcome (list A) :=
  if (off + n <=? nlen src)%N
  then Ret (slice src (N.to_nat off) (N.to_nat n)) else Crash OutOfBounds.

Definition mem_write {A} (dst : list A) (off : N) (src : list A) : outcome (list A) :=
  if (off + nlen src <=? nlen dst)%N
  then Ret (splice dst (N.to_nat off) src) else Crash OutOfBounds.

(** [memcpy(dst + doff, src + soff, n)] *)
Definition memcpy {A} (dst : list A) (doff : N) (src : list A) (soff n : N) :
    outcome (list A) :=
  l ← mem_read src soff n; mem_write dst doff l.

(** [new char[n]] *)
Definition new_array (n : N) : list cell := replicate (N.to_nat n) None.

(** [memset(dst, 0, n)] *)
Definition memset0 (dst : list cell) (n : N) : outcome (list cell) :=
  mem_write dst 0 (replicate (N.to_nat n) (Some Byte.x00)).

(** The bytes of initialised cells. *)
Definition cells_bytes (l : list cell) : outcome bytes :=
  match mapM (M := option) id l with
  | Some b => Ret b
  | None => Crash Indeterminate
  end.

(** [std::string::c_str()]: the characters and a terminating NUL. *)
Definition c_str (s : bytes) : bytes := s ++ [Byte.x00].

(** [strcmp(a, b) == 0] on two arrays. *)
Fixpoint strcmp_eq (a b : list cell) : outcome bool :=
  match a, b with
  | [], _ | _, [] => Crash OutOfBounds
  | None :: _, _ | _, None :: _ => Crash Indeterminate
  | Some x :: a', Some y :: b' =>
      if decide (x = y) then
        if decide (x = Byte.x00) then Ret true else strcmp_eq a' b'
      else Ret false
  end.

(** [std::vector] access by index; out of range is undefined behaviour. *)
Definition vec_get {A} (v : list A) (i : N) : outcome A :=
  if (i <? nlen v)%N then
    match v !! N.to_nat i with Some a => Ret a | None => Crash OutOfBounds end
  else Crash OutOfBounds.
Definition vec_set {A} (v : list A) (i : N) (a : A) : outcome (list A) :=
  if (i <? nlen v)%N then Ret (<[N.to_nat i := a]> v) else Crash OutOfBounds.

Section memory.
Context {A : Type}.
Implicit Types l src dst : list A.

Lemma length_slice l off n :
  (off + n ≤ length l)%nat → length (slice l off n) = n.
Proof. intros H. unfold slice. rewrite length_take, length_drop. lia. Qed.

Lemma lookup_slice l off n i :
  (i < n)%nat → slice l off n !! i = l !! (off + i)%nat.
Proof. intros H. unfold slice. by rewrite lookup_take_lt, lookup_drop. Qed.

Lemma slice_full l : slice l 0 (length l) = l.
Proof. unfold slice. rewrite drop_0. by apply take_ge. Qed.

Lemma slice_app l off n m :
  slice l off (n + m) = slice l off n ++ slice l (off + n) m.
Proof. unfold slice. rewrite <-drop_drop. symmetry. apply take_take_drop. Qed.

Lemma length_splice l off src :
  (off + length src ≤ length l)%nat → length (splice l off src) = length l.
Proof.
  intros H. unfold splice. rewrite !length_app, length_take, length_drop. lia.
Qed.

Lemma lookup_splice l off src i :
  (off + length src ≤ length l)%nat →
  splice l off src !! i =
    if decide (off ≤ i < off + length src)%nat then src !! (i - off)%nat else l !! i.
Proof.
  intros H. unfold splice. case_decide as Hi.
  - rewrite lookup_app_r; rewrite length_take_le by lia; [|lia].
    by rewrite lookup_app_l by lia.
  - destruct (decide (i < off)%nat).
    + by rewrite lookup_app_l, lookup_take_lt by (rewrite ?length_take; lia).
    + rewrite lookup_app_r; rewrite length_take_le by lia; [|lia].
      rewrite lookup_app_r by lia. rewrite lookup_drop. f_equal. lia.
Qed.

Lemma splice_0 l src : splice l 0 src = src ++ drop (length src) l.
Proof. done. Qed.

(** Two adjacent copies are one copy. *)
Lemma splice_splice l off s1 s2 :
  (off + length s1 + length s2 ≤ length l)%nat →
  splice (splice l off s1) (off + length s1) s2 = splice l off (s1 ++ s2).
Proof.
  intros H. apply list_eq. intros i.
  rewrite !lookup_splice; rewrite ?length_splice, ?length_app; try lia.
  repeat case_decide; try lia; rewrite ?lookup_app_l, ?lookup_app_r by lia; try done.
  f_equal. lia.
Qed.

Lemma mem_read_ok l off n :
  (off + n ≤ nlen l)%N → mem_read l off n = Ret (slice l (N.to_nat off) (N.to_nat n)).
Proof. intros H. unfold mem_read. by apply N.leb_le in H as ->. Qed.

Lemma mem_write_ok dst off src :
  (off + nlen src ≤ nlen dst)%N → mem_write dst off src = Ret (splice dst (N.to_nat off) src).
Proof. intros H. unfold mem_write. by apply N.leb_le in H as ->. Qed.

Lemma memcpy_ok dst doff src soff n :
  (soff + n ≤ nlen src)%N → (doff + n ≤ nlen dst)%N →
  memcpy dst doff src soff n =
    Ret (splice dst (N.to_nat doff) (slice src (N.to_nat soff) (N.to_nat n))).
Proof.
  intros H1 H2. unfold memcpy. rewrite mem_read_ok by done. simpl.
  apply mem_write_ok. unfold nlen in *. rewrite length_slice by lia. lia.
Qed.

Lemma vec_get_ok (v : list A) i a : v !! N.to_nat i = Some a → vec_get v i = Ret a.
Proof.
  intros H. unfold vec_get, nlen. pose proof (lookup_lt_Some _ _ _ H).
  by rewrite (proj2 (N.ltb_lt _ _)), H by lia.
Qed.

Lemma vec_set_ok (v : list A) i a :
  (i < nlen v)%N → vec_set v i a = Ret (<[N.to_nat i := a]> v).
Proof. intros H. unfold vec_set. by apply N.ltb_lt in H as ->. Qed.

(** What an access that succeeded says. *)
Lemma vec_get_inv (v : list A) i a : vec_get v i = Ret a → v !! N.to_nat i = Some a.
Proof. unfold vec_get. destruct (_ <? _)%N; [|done]. by destruct (v !! _); intros [= <-]. Qed.

Lemma vec_set_inv (v v' : list A) i a :
  vec_set v i a = Ret v' → v' = <[N.to_nat i := a]> v ∧ (i < nlen v)%N.
Proof. unfold vec_set. destruct (N.ltb_spec i (nlen v)); [|done]. by intros [= <-]. Qed.

Lemma mem_write_length dst off src dst' :
  mem_write dst off src = Ret dst' → length dst' = length dst.
Proof.
  unfold mem_write. destruct (N.leb_spec (off + nlen src) (nlen dst)); [|done].
  intros [= <-]. apply length_splice. unfold nlen in *. lia.
Qed.

Lemma memcpy_length dst doff src soff n dst' :
  memcpy dst doff src soff n = Ret dst' → length dst' = length dst.
Proof. unfold memcpy. intros Hm. m_bind Hm. by eapply mem_write_length. Qed.
End memory.

Lemma cells_bytes_ok b : cells_bytes (Some <$> b) = Ret b.
Proof.
  unfold cells_bytes. replace (mapM id (Some <$> b)) with (Some b); [done|].
  symmetry. apply mapM_fmap_Some; auto.
Qed.

Lemma cells_bytes_inv l b : cells_bytes l = Ret b → l = Some <$> b.
Proof.
  unfold cells_bytes. destruct (mapM id l) as [b'|] eqn:E; [|done].
  intros [= ->]. apply mapM_Some in E. induction E; simpl; [done|]. by f_equal.
Qed.

Lemma cells_bytes_length l b : cells_bytes l = Ret b → length b = length l.
Proof. intros ->%cells_bytes_inv. by rewrite length_fmap. Qed.

Lemma length_new_array n : length (new_array n) = N.to_nat n.
Proof. apply length_replicate. Qed.



(** A [char *] argument is the bytes up to its first NUL; [cstr s] is what a
    C function sees of the characters [s]. *)
Fixpoint cstr (s : bytes) : bytes :=
  match s with
  | [] => []
  | c :: s' => if decide (c = Byte.x00) then [] else c :: cstr s'
  end.

Lemma cstr_idemp s : cstr (cstr s) = cstr s.
Proof.
  induction s as [|c s IH]; [done|]. simpl.
  case_decide as Hc; [done|]. simpl. rewrite decide_False by done. by rewrite IH.
Qed.

(** [std::to_string] of an unsigned number: its decimal digits. *)
Definition dec_digit (n : N) : byte :=
  default Byte.x30 (Byte.of_N (48 + n `mod` 10)%N).

Fixpoint dec_digits (fuel : nat) (n : N) (acc : bytes) : bytes :=
  match fuel with
  | O => acc
  | S fuel' =>
      let acc := dec_digit n :: acc in
      if (n <? 10)%N then acc else dec_digits fuel' (n / 10)%N acc
  end.

Definition to_string (n : N) : bytes := dec_digits (S (N.to_nat (N.log2 n))) n [].

(** A native [uint64_t] in memory: eight bytes, least significant first (the
    build targets x86-64). *)
Fixpoint le_bytes (k : nat) (n : N) : bytes :=
  match k with
  | O => []
  | S k' => default Byte.x00 (Byte.of_N (n `mod` 256)) :: le_bytes k' (n / 256)%N
  end.

Fixpoint le_value (b : bytes) : N :=
  match b with
  | [] => 0
  | c :: b' => Byte.to_N c + 256 * le_value b'
  end%N.

Lemma length_le_bytes k n : length (le_bytes k n) = k.
Proof. revert n. induction k as [|k IH]; intros n; simpl; auto. Qed.

Lemma byte_of_N_small n :
  (n < 256)%N → ∃ b, Byte.of_N n = Some b ∧ Byte.to_N b = n.
Proof.
  intros Hn. destruct (Byte.of_N n) as [b|] eqn:E.
  - exists b. split; [done|]. by apply Byte.to_of_N_iff in E.
  - apply Byte.of_N_None_iff in E. lia.
Qed.

Lemma le_value_bytes k n : le_value (le_bytes k n) = (n `mod` 256 ^ N.of_nat k)%N.
Proof.
  revert n. induction k as [|k IH]; intros n; simpl.
  { by rewrite N.mod_1_r. }
  destruct (byte_of_N_small (n `mod` 256)) as (b & -> & Hb); [by apply N.mod_lt|].
  simpl. rewrite Hb, IH, Nat2N.inj_succ, N.pow_succ_r by lia.
  rewrite N.Div0.mod_mul_r. done.
Qed.

(** An 8-byte field read back. *)
Lemma le_value_u64 n : (n < 18446744073709551616)%N → le_value (le_bytes 8 n) = n.
Proof. intros H. rewrite le_value_bytes. by apply N.mod_small. Qed.

(** [n_cmp] decides one comparison of [N] in the goal with what is known. *)
Ltac n_cmp :=
  match goal with
  | |- context [N.ltb ?a ?b] =>
      first [ rewrite (proj2 (N.ltb_lt a b)) by (lia || assumption)
            | rewrite (proj2 (N.ltb_ge a b)) by (lia || assumption) ]
  | |- context [N.leb ?a ?b] =>
      first [ rewrite (proj2 (N.leb_le a b)) by (lia || assumption)
            | rewrite (proj2 (N.leb_gt a b)) by (lia || assumption) ]
  end.

(** ** Automation

    The database [dcfs] proves the side conditions of copies and of list
    updates; [lengths] computes the length of what the list operations build. *)
Create HintDb dcfs.
#[export] Hint Resolve wp_ret mem_read_ok mem_write_ok memcpy_ok vec_get_ok vec_set_ok
  cells_bytes_ok u64_small u64_bound : dcfs.

Create Rewrite HintDb lengths.
#[export] Hint Rewrite @length_app @length_fmap @length_insert @length_alter @length_replicate
  length_new_array length_le_bytes : lengths.

(** Arithmetic on lengths. *)
Ltac len_lia := unfold nlen in *; simpl; autorewrite with lengths; (done || lia || congruence).

(** [lia] with quotients and remainders of [N] as opaque variables (they keep
    the facts the context states about them). *)
Ltac nlia :=
  repeat match goal with
  | H : context [N.modulo ?a ?b] |- _ =>
      let r := fresh "rem" in generalize dependent (N.modulo a b); intros
  | H : context [N.div ?a ?b] |- _ =>
      let r := fresh "quo" in generalize dependent (N.div a b); intros
  | |- context [N.modulo ?a ?b] => generalize dependent (N.modulo a b); intros
  | |- context [N.div ?a ?b] => generalize dependent (N.div a b); intros
  end; lia.
