(* ===== verification/Const.v ===== *)
(** * Constants and error codes: [src/fs/const.hpp], [src/fs/errno.hpp],
    the sizes of [src/fs/backend.hpp] and [src/util/crypto.hpp]. *)

From Stdlib Require Import NArith ZArith Lia.
From Stdlib Require Import Strings.String.
From stdpp Require Import base list.
From S2P Require Import Prelude.

(** ** [const.hpp] *)
Definition BACKEND_MNT_POINT : bytes := lit "/tmp/dcfs".
Definition DEFAULT_BLOCK_SIZE_IN_KB : N := 16.
Definition HASHLEN_IN_BYTES : N := 32.
Definition FD_TABLE_MAX : N := 256.
Definition BLOCKMAP_SIZE_IN_KB : N := DEFAULT_BLOCK_SIZE_IN_KB.
Definition BLOCKMAP_COVER : N := BLOCKMAP_SIZE_IN_KB * 1024 / HASHLEN_IN_BYTES.

(** ** [backend.hpp], [crypto.hpp] *)
Definition AES_KEY_LEN : N := 16.
Definition AES_PAD_LEN : N := 16.
Definition SPARE_HASH_SPACE : N := 32 * 10.
Definition RECORD_HEADER_SIZE : N := 256.
Definition MAX_INODE_RECORD_SIZE : N := 1024.
Definition MAX_BLOCKMAP_RECORD_SIZE : N := 1024 + 32 * BLOCKMAP_COVER.
Definition INODE_AES_KEY_OFFSET : N := 8.
Definition INODE_PAYLOAD_SIZE : N := 8 + AES_KEY_LEN + AES_PAD_LEN.
Definition SHA256_DIGEST_LENGTH : N := 32.

(** ** [errno.hpp]

    [err_t] is an [int] that is [NO_ERR] or one of nine negative codes. A
    function that returns an [err_t] has result type [result A], where [A]
    collects what it hands back through its out-parameters on success. *)
Inductive errno :=
  | ERR_NOT_FOUND | ERR_NO_SPACE | ERR_NO_CONN | ERR_HASH | ERR_IO
  | ERR_BUF_TOO_SMALL | ERR_VERIFY | ERR_CRYPTO | ERR_SIGN.

#[global] Instance errno_eq_dec : EqDecision errno.
Proof. solve_decision. Defined.

Definition NO_ERR : Z := 0.

Definition errno_code (e : errno) : Z :=
  match e with
  | ERR_NOT_FOUND => -1 | ERR_NO_SPACE => -2 | ERR_NO_CONN => -3
  | ERR_HASH => -4 | ERR_IO => -5 | ERR_BUF_TOO_SMALL => -6
  | ERR_VERIFY => -7 | ERR_CRYPTO => -8 | ERR_SIGN => -9
  end.

Abbreviation result A := (errno + A)%type.

(** The [int] a caller of an [err_t] function sees. *)
Definition err_code {A} (r : result A) : Z :=
  match r with inl e => errno_code e | inr _ => NO_ERR end.

Lemma err_code_neg {A} (r : result A) :
  (err_code r < 0)%Z ↔ ∃ e, r = inl e.
Proof.
  destruct r as [e|a]; simpl.
  - split; [eauto|]. by destruct e.
  - split; [done|]. by intros [e [=]].
Qed.

Lemma errno_code_inj e e' : errno_code e = errno_code e' → e = e'.
Proof. by destruct e, e'. Qed.
