(* ===== verification/Logging.v ===== *)
(** * The log file: [src/util/logging.hpp] and [src/util/logging.cpp]

    [log_stream] is [/tmp/dcfs.log], opened for appending when the process
    starts, or a null pointer if it could not be opened; its text is part of
    the state. No other part of the program reads it. *)

From Stdlib Require Import NArith ZArith Lia.
From Stdlib Require Import Strings.String.
From stdpp Require Import base list.
From S2P Require Import Prelude.

Module Logger.

Inductive LogLevel := LDEBUG | INFO | WARNING | ERROR.

(** [get_current_time()]: the clock counts nanoseconds. *)
Definition get_current_time (now : Z) : N :=
  Z.to_N (Z.quot now 1000000 mod 18446744073709551616).

(** [fprintf(log_stream, "%lu [ LEVEL ] %s\n", time, message.c_str())] *)
Definition log_line (time : N) (level : string) (message : bytes) : bytes :=
  to_string time ++ lit " [ " ++ lit level ++ lit " ] " ++ cstr message ++ [Byte.x0a].

Definition print_line (now : Z) (level : string) (message : bytes) (log_stream : option bytes) :
    outcome (option bytes) :=
  match log_stream with
  | Some text => Ret (Some (text ++ log_line (get_current_time now) level message))
  | None => Crash NullDeref
  end.

(** [log(level, message)]: [debug] says whether [DEBUG] was defined, which is
    so in the target [debug] of the Makefile only. *)
Definition log (debug : bool) (now : Z) (level : LogLevel) (message : bytes)
    (log_stream : option bytes) : outcome (option bytes) :=
  match level with
  | LDEBUG => if debug then print_line now "DEBUG" message log_stream else Ret log_stream
  | INFO => print_line now "INFO" message log_stream
  | WARNING => print_line now "WARNING" message log_stream
  | ERROR => print_line now "ERROR" message log_stream
  end.

(** A call appends at most one line and changes nothing that was logged. *)
Lemma log_appends debug now level message text :
  ∃ line, log debug now level message (Some text) = Ret (Some (text ++ line)) ∧
    (line = [] ↔ level = LDEBUG ∧ debug = false).
Proof.
  assert (∀ t l, log_line t l message ≠ []) as Hne.
  { intros t l. unfold log_line. intros Hx%app_eq_nil. destruct Hx as [_ Hx].
    apply app_eq_nil in Hx as [Hx _]. done. }
  destruct level, debug; simpl; eexists; (split; [done || by rewrite app_nil_r|]);
    (split; [intros Hx; first [by destruct (Hne _ _ Hx) | done]|by intros [? ?]]).
Qed.

(** Without a log file the first message that is not for debugging stops the
    process. *)
Lemma log_needs_file debug now level message :
  level ≠ LDEBUG → log debug now level message None = Crash NullDeref.
Proof. by destruct level. Qed.

End Logger.
