(* ===== verification/Encode.v ===== *)
(** * Hexadecimal encoding of names: [src/util/encode.cpp] *)

From Stdlib Require Import NArith ZArith Lia.
From Stdlib Require Import Strings.String.
From stdpp Require Import base list.
From S2P Require Import Prelude.

Module Encode.

(** [snprintf(buf, 3, "%02x", c)]: two lower-case hexadecimal digits. *)
Definition hex_digit (n : N) : byte :=
  default Byte.x00 (lit "0123456789abcdef" !! N.to_nat n).

Definition hex_byte (c : byte) : bytes :=
  [hex_digit (Byte.to_N c / 16); hex_digit (Byte.to_N c `mod` 16)]%N.

(** [Util::binary_to_hex_string(data, len)]; reading past the array faults. *)
Definition binary_to_hex_string (data : bytes) (len : N) : outcome bytes :=
  l ← mem_read data 0 len; Ret (l ≫= hex_byte).

(** [strtol(s, NULL, 16)] on a C string: leading white space, an optional
    sign, an optional [0x] followed by a digit, then digits up to the first
    other character. (Its arguments here have at most two characters, so the
    saturation at LONG_MAX does not arise.) *)
Definition hex_value (c : byte) : option Z :=
  let n := Z.of_N (Byte.to_N c) in
  if ((48 <=? n) && (n <=? 57))%Z then Some (n - 48)%Z
  else if ((65 <=? n) && (n <=? 70))%Z then Some (n - 55)%Z
  else if ((97 <=? n) && (n <=? 102))%Z then Some (n - 87)%Z
  else None.

Definition is_space (c : byte) : bool :=
  let n := Byte.to_N c in ((n =? 32) || ((9 <=? n) && (n <=? 13)))%N.

Fixpoint skip_spaces (s : bytes) : bytes :=
  match s with
  | c :: s' => if is_space c then skip_spaces s' else s
  | [] => []
  end.

Fixpoint digits (acc : Z) (s : bytes) : Z :=
  match s with
  | c :: s' => match hex_value c with
               | Some d => digits (acc * 16 + d) s'
               | None => acc
               end
  | [] => acc
  end.

Definition skip_0x (s : bytes) : bytes :=
  match s with
  | c0 :: c1 :: c2 :: s' =>
      if decide (c0 = Byte.x30 ∧ (c1 = Byte.x78 ∨ c1 = Byte.x58) ∧
                 is_Some (hex_value c2)) then c2 :: s' else s
  | _ => s
  end.

Definition strtol16 (s : bytes) : Z :=
  match skip_spaces s with
  | c :: s' =>
      if decide (c = Byte.x2d) then (- digits 0 (skip_0x s'))%Z
      else if decide (c = Byte.x2b) then digits 0 (skip_0x s')
      else digits 0 (skip_0x (c :: s'))
  | [] => 0%Z
  end.

(** [(char) (int) z] *)
Definition to_char (z : Z) : byte :=
  default Byte.x00 (Byte.of_N (Z.to_N (z `mod` 256))).

(** [Util::hex_string_to_binary(hex)]: each [substr(i, 2)], the last of which
    may hold one character, becomes a byte. *)
Fixpoint hex_string_to_binary (hex : bytes) : bytes :=
  match hex with
  | [] => []
  | [a] => [to_char (strtol16 [a])]
  | a :: b :: hex' => to_char (strtol16 [a; b]) :: hex_string_to_binary hex'
  end.

(** ** Facts *)

Definition to_hex (s : bytes) : bytes := s ≫= hex_byte.

Lemma binary_to_hex_string_full s :
  binary_to_hex_string s (nlen s) = Ret (to_hex s).
Proof.
  unfold binary_to_hex_string. rewrite mem_read_ok by lia. simpl.
  unfold nlen. by rewrite Nat2N.id, slice_full.
Qed.

Lemma hex_byte_inverse c : hex_string_to_binary (hex_byte c) = [c].
Proof. by destruct c; vm_compute. Qed.

Lemma hex_byte_pair c : ∃ a b, hex_byte c = [a; b] ∧ to_char (strtol16 [a; b]) = c.
Proof.
  pose proof (hex_byte_inverse c) as H. unfold hex_byte in *.
  eexists _, _; split; [done|]. by injection H.
Qed.

Lemma to_hex_cons c s : to_hex (c :: s) = hex_byte c ++ to_hex s.
Proof. done. Qed.

Lemma hex_inverse s : hex_string_to_binary (to_hex s) = s.
Proof.
  induction s as [|c s IH]; [done|]. rewrite to_hex_cons.
  destruct (hex_byte_pair c) as (a & b & -> & Hc). simpl. by rewrite Hc, IH.
Qed.

#[global] Instance to_hex_inj : Inj (=) (=) to_hex.
Proof. intros s t H. by rewrite <-(hex_inverse s), H, hex_inverse. Qed.

Lemma length_to_hex s : length (to_hex s) = (2 * length s)%nat.
Proof. induction s as [|c s IH]; [done|]. rewrite to_hex_cons, length_app, IH. simpl. lia. Qed.

Definition is_hex_digit (c : byte) : bool :=
  let n := Byte.to_N c in
  (((48 <=? n) && (n <=? 57)) || ((97 <=? n) && (n <=? 102)))%N.

Lemma hex_byte_digits c : forallb is_hex_digit (hex_byte c) = true.
Proof. by destruct c; vm_compute. Qed.

Lemma to_hex_digits s : Forall (λ c, is_hex_digit c = true) (to_hex s).
Proof.
  induction s as [|c s IH]; [by constructor|]. rewrite to_hex_cons.
  apply Forall_app. split; [|done]. apply Forall_forall. intros x Hx.
  pose proof (hex_byte_digits c) as Hc. rewrite forallb_forall in Hc.
  apply Hc. by apply list_elem_of_In.
Qed.

Lemma to_hex_slash_free s : Byte.x2f ∉ to_hex s.
Proof.
  intros Hx. pose proof (to_hex_digits s) as H. rewrite Forall_forall in H.
  by specialize (H _ Hx).
Qed.

(** Names survive their hexadecimal form: every byte string is encoded
    into twice as many lower-case hexadecimal digits, and decoded from them. *)
Theorem hex_round_trip (s : bytes) :
  ∃ h, binary_to_hex_string s (nlen s) = Ret h ∧
       length h = (2 * length s)%nat ∧
       Forall (λ c, is_hex_digit c = true) h ∧
       hex_string_to_binary h = s.
Proof.
  exists (to_hex s). split; [apply binary_to_hex_string_full|].
  split; [apply length_to_hex|]. split; [apply to_hex_digits|apply hex_inverse].
Qed.

End Encode.
