(* ===== verification/Options.v ===== *)
(** * Run-time options: [src/util/options.cpp]

    [option_map] is a global [std::map]; [main] fills it from the command
    line and the networking code reads it. *)

From Stdlib Require Import NArith.
From Stdlib Require Import Strings.String.
From stdpp Require Import base list gmap.
From S2P Require Import Prelude.

Module Options.

Abbreviation option_map := (gmap (list Byte.byte) (list Byte.byte)).

(** [option_map.find(k) == end() ? "" : option_map[k]] *)
Definition load_client_ip (m : option_map) : bytes :=
  match m !! lit "client_ip" with None => [] | Some v => v end.

Definition load_dcserver_ip (m : option_map) : bytes :=
  match m !! lit "dcserver_ip" with None => [] | Some v => v end.

(** The two options [main] stores ([src/fs/dcfs.cpp]); a null [char *] is
    [None]. *)
Definition store_options (client_ip dcserver_ip : option bytes) (m : option_map) :
    option_map :=
  let m := match client_ip with Some v => <[lit "client_ip" := v]> m | None => m end in
  match dcserver_ip with Some v => <[lit "dcserver_ip" := v]> m | None => m end.

Lemma load_stored c d m :
  load_client_ip (store_options (Some c) (Some d) m) = c ∧
  load_dcserver_ip (store_options (Some c) (Some d) m) = d.
Proof.
  unfold load_client_ip, load_dcserver_ip, store_options. simpl.
  rewrite lookup_insert_ne by done. by rewrite !lookup_insert_eq.
Qed.

End Options.
