(* ===== verification/Dir.v ===== *)
(** * Directories: [src/fs/dir.hpp], [src/fs/dir.cpp]

    A directory is a vector of entries and one iterator into it, shared by
    every scan. An iterator is an index; [end()] is the vector's length. *)

From Stdlib Require Import NArith Lia.
From stdpp Require Import base list.
From S2P Require Import Prelude Const.

Module Dir.

Record DirectoryEntry := MkEntry {
  d_filename_ : bytes;
  d_hashname_ : bytes;
}.

#[global] Instance entry_eq_dec : EqDecision DirectoryEntry.
Proof. solve_decision. Defined.

Record Directory := MkDirectory {
  entries_ : list DirectoryEntry;
  it_ : nat;
}.

Definition Filename (e : DirectoryEntry) : bytes := d_filename_ e.
Definition Hashname (e : DirectoryEntry) : bytes := d_hashname_ e.

(** [Directory()] *)
Definition new_Directory : Directory := MkDirectory [] 0.

Definition InitReaddir (d : Directory) : Directory := MkDirectory (entries_ d) 0.

Definition Readdir (d : Directory) : outcome (Directory * option DirectoryEntry) :=
  if decide (it_ d = length (entries_ d)) then
    Ret (MkDirectory (entries_ d) 0, None)
  else
    match entries_ d !! it_ d with
    | Some e => Ret (MkDirectory (entries_ d) (S (it_ d)), Some e)
    | None => Crash OutOfBounds
    end.

(** [push_back] invalidates the iterator; [Addent] resets it. *)
Definition Addent (newent : DirectoryEntry) (d : Directory) : Directory * result unit :=
  (MkDirectory (entries_ d ++ [newent]) 0, inr tt).

(** The two loops every client of the class runs:
    [while ((ent = dir->Readdir())) if (p(ent)) break;] and
    [while ((ent = dir->Readdir())) visit(ent);]. Each call advances the
    iterator, so one more step than there are entries ends them. *)
Fixpoint scan_until (p : DirectoryEntry → bool) (fuel : nat) (d : Directory) :
    outcome (Directory * option DirectoryEntry) :=
  match fuel with
  | O => Crash OutOfFuel
  | S fuel' =>
      '(d', ent) ← Readdir d;
      match ent with
      | None => Ret (d', None)
      | Some e => if p e then Ret (d', Some e) else scan_until p fuel' d'
      end
  end.

Fixpoint scan_all (fuel : nat) (d : Directory) (acc : list DirectoryEntry) :
    outcome (Directory * list DirectoryEntry) :=
  match fuel with
  | O => Crash OutOfFuel
  | S fuel' =>
      '(d', ent) ← Readdir d;
      match ent with
      | None => Ret (d', acc)
      | Some e => scan_all fuel' d' (acc ++ [e])
      end
  end.

Definition scan_fuel (d : Directory) : nat := S (length (entries_ d)).

(** The iterator points into the vector or at its end. *)
Definition dir_wf (d : Directory) : Prop := (it_ d ≤ length (entries_ d))%nat.

Lemma new_Directory_wf : dir_wf new_Directory.
Proof. unfold dir_wf. simpl. lia. Qed.

Lemma InitReaddir_wf d : dir_wf (InitReaddir d).
Proof. unfold dir_wf. simpl. lia. Qed.

Lemma Addent_wf e d : dir_wf (Addent e d).1.
Proof. unfold dir_wf. simpl. lia. Qed.

(** [Readdir] stays inside the vector: it returns the entry under the
    iterator, or null at the end, from where the next scan starts over. *)
Lemma Readdir_wf (d : Directory) (Hwf : dir_wf d) :
  wp no_fault (Readdir d) (λ '(d', ent),
    dir_wf d' ∧ entries_ d' = entries_ d ∧
    match ent with
    | Some e => entries_ d !! it_ d = Some e ∧ it_ d' = S (it_ d)
    | None => it_ d = length (entries_ d) ∧ it_ d' = 0%nat
    end).
Proof.
  unfold dir_wf, Readdir in *. case_decide as Hd; [simpl; split_and!; auto with lia|].
  destruct (lookup_lt_is_Some_2 (entries_ d) (it_ d)) as [e He]; [lia|].
  rewrite He. simpl. auto with lia.
Qed.

Lemma Readdir_at l e l' i :
  i = length l →
  Readdir (MkDirectory (l ++ e :: l') i) = Ret (MkDirectory (l ++ e :: l') (S i), Some e).
Proof.
  intros ->. unfold Readdir. simpl. rewrite decide_False by (rewrite length_app; simpl; lia).
  by rewrite list_lookup_middle.
Qed.

Lemma Readdir_end l i :
  i = length l → Readdir (MkDirectory l i) = Ret (MkDirectory l 0, None).
Proof. intros ->. unfold Readdir. simpl. by rewrite decide_True. Qed.

Lemma scan_until_from p l l' fuel :
  (length l' < fuel)%nat →
  ∃ i, scan_until p fuel (MkDirectory (l ++ l') (length l)) =
       Ret (MkDirectory (l ++ l') i, list_find p l' ≫= λ x, Some x.2) ∧
       (i ≤ length (l ++ l'))%nat.
Proof.
  revert l l'. induction fuel as [|fuel IH]; intros l l' Hf; [lia|].
  destruct l' as [|e l']; simpl.
  - rewrite Readdir_end by (by rewrite app_nil_r). simpl. exists 0%nat. auto with lia.
  - rewrite Readdir_at by done. simpl. case_decide as Hp.
    + destruct (p e); [|done]. exists (S (length l)). split; [done|].
      rewrite length_app. simpl. lia.
    + destruct (p e); [done|].
      destruct (IH (l ++ [e]) l') as (i & Hi & Hle); [simpl in *; lia|].
      exists i. rewrite <-(assoc_L (++)) in Hi, Hle. simpl in *.
      rewrite length_app in Hi. simpl in Hi. rewrite Nat.add_1_r in Hi. rewrite Hi.
      split; [|done]. do 2 f_equal. by destruct (list_find _ l') as [[]|].
Qed.

(** The first entry that satisfies [p]. *)
Definition first_entry (p : DirectoryEntry → bool) (l : list DirectoryEntry) :
    option DirectoryEntry := list_find p l ≫= λ x, Some x.2.

(** The search loop ends within its fuel, at the first entry that matches. *)
Lemma scan_until_spec (p : DirectoryEntry → bool) (d : Directory) :
  wp no_fault (scan_until p (scan_fuel d) (InitReaddir d)) (λ '(d', ent),
    entries_ d' = entries_ d ∧ dir_wf d' ∧ ent = first_entry p (entries_ d)).
Proof.
  destruct (scan_until_from p [] (entries_ d) (scan_fuel d)) as (i & Hi & Hle).
  { unfold scan_fuel. lia. }
  simpl in *. unfold InitReaddir. rewrite Hi. simpl. unfold dir_wf. by simpl.
Qed.

Lemma scan_all_from l l' fuel acc :
  (length l' < fuel)%nat →
  scan_all fuel (MkDirectory (l ++ l') (length l)) acc =
    Ret (MkDirectory (l ++ l') 0, acc ++ l').
Proof.
  revert l l' acc. induction fuel as [|fuel IH]; intros l l' acc Hf; [lia|].
  destruct l' as [|e l']; simpl.
  - rewrite Readdir_end by (by rewrite app_nil_r). simpl. by rewrite !app_nil_r.
  - rewrite Readdir_at by done. simpl.
    specialize (IH (l ++ [e]) l' (acc ++ [e])). rewrite length_app in IH. simpl in IH.
    rewrite Nat.add_1_r, <-!(assoc_L (++)) in IH. simpl in IH. apply IH. simpl in Hf. lia.
Qed.

(** The full scan ends within its fuel and visits every entry in order. *)
Lemma scan_all_spec (d : Directory) :
  scan_all (scan_fuel d) (InitReaddir d) [] = Ret (InitReaddir d, entries_ d).
Proof.
  unfold InitReaddir. apply (scan_all_from [] (entries_ d) (scan_fuel d) []).
  unfold scan_fuel. lia.
Qed.

Lemma first_entry_Some p l e :
  first_entry p l = Some e → e ∈ l ∧ p e = true.
Proof.
  unfold first_entry. intros H. destruct (list_find (λ x, p x) l) as [[i x]|] eqn:E; [|done].
  simplify_eq/=. apply list_find_Some in E as (Hl & Hp & _).
  split; [by eapply list_elem_of_lookup_2|]. by destruct (p e).
Qed.

Lemma first_entry_None p l : first_entry p l = None ↔ ∀ e, e ∈ l → p e = false.
Proof.
  unfold first_entry. destruct (list_find (λ x, p x) l) as [[i x]|] eqn:E; simpl.
  - split; [done|]. intros H. apply list_find_Some in E as (Hl & Hp & _).
    apply list_elem_of_lookup_2, H in Hl. by rewrite Hl in Hp.
  - split; [|done]. intros _ e He. apply list_find_None in E.
    rewrite Forall_forall in E. specialize (E e He). by destruct (p e).
Qed.

End Dir.
