(* ===== verification/Crypto.v ===== *)
(** * Cryptographic helpers: [src/util/crypto.cpp]

    OpenSSL is not part of the repository: the class [OpenSSL] names the
    library functions the code calls, and [OpenSSLLaws] the documented facts
    about them that the theorems use. The build defines neither [NO_SIGN] nor
    [NO_ENC]. *)

From Stdlib Require Import NArith ZArith Lia.
From stdpp Require Import base list.
From S2P Require Import Prelude Const.

(** ** The library

    - [sha256 d]: SHA256_Init, SHA256_Update and SHA256_Final on [d].
    - [ecdsa_sign], [ecdsa_verify]: ECDSA_sign and ECDSA_verify on a digest.
    - [evp_update enc key iv m]: what EVP_CipherUpdate writes for [m] in a
      fresh AES-128-CBC context, [enc] telling encryption from decryption (a
      call with a negative length fails, see [cipher]);
      [evp_final enc key iv m] what EVP_CipherFinal_ex writes after it.
    - [ec_generate n], [rand_bytes n]: the [n]-th key generation and the
      [n]-th RAND_bytes of 16 bytes of a run.
    [None] is the failure of the call. *)
Class OpenSSL := {
  EC_KEY : Type;
  sha256 : bytes → option bytes;
  ecdsa_sign : EC_KEY → bytes → option bytes;
  ecdsa_verify : EC_KEY → bytes → bytes → bool;
  evp_update : bool → bytes → option bytes → bytes → option bytes;
  evp_final : bool → bytes → option bytes → bytes → option bytes;
  ec_generate : nat → option EC_KEY;
  rand_bytes : nat → option bytes;
}.

Class OpenSSLLaws `{OpenSSL} := {
  sha256_length d h : sha256 d = Some h → nlen h = SHA256_DIGEST_LENGTH;
  ecdsa_correct k d s : ecdsa_sign k d = Some s → ecdsa_verify k d s = true;
  evp_update_length e k iv m c :
    evp_update e k iv m = Some c → (length c ≤ length m)%nat;
  (* PKCS padding: between 1 and 16 bytes, up to a multiple of 16. *)
  evp_encrypt_length k iv m c1 c2 :
    evp_update true k iv m = Some c1 → evp_final true k iv m = Some c2 →
    length (c1 ++ c2) = ((length m / 16 + 1) * 16)%nat;
  evp_decrypt_length k iv c m1 m2 :
    evp_update false k iv c = Some m1 → evp_final false k iv c = Some m2 →
    (length m1 + length m2 ≤ length c)%nat;
  evp_inverse k iv m c1 c2 :
    evp_update true k iv m = Some c1 → evp_final true k iv m = Some c2 →
    ∃ m1 m2, evp_update false k iv (c1 ++ c2) = Some m1 ∧
             evp_final false k iv (c1 ++ c2) = Some m2 ∧ m1 ++ m2 = m;
  rand_bytes_length n r : rand_bytes n = Some r → length r = 16%nat;
}.

Module Crypto.
Section crypto.
Context `{OpenSSL}.

(** [hash256(data, len, hsh)]. With [hsh] NULL the digest is stored in a new
    array; otherwise in the caller's array, which the failure path still
    passes to [delete[]]. *)
Definition hash256 (data : bytes) (hsh_given : bool) : outcome (option bytes) :=
  match sha256 data with
  | Some d => Ret (Some d)
  | None => if hsh_given then Crash InvalidFree else Ret None
  end.

(** [sign(sig_k, data, inlen, &siglen)]; NULL pointers are [None]. *)
Definition sign (sig_k : option EC_KEY) (data : option bytes) : outcome (option bytes) :=
  match sig_k with
  | None => Ret None
  | Some k =>
      match data with
      | None => Crash NullDeref
      | Some d => Ret (ecdsa_sign k d)
      end
  end.

Definition verify (sig_k : option EC_KEY) (data : option bytes) (sig : bytes) :
    outcome bool :=
  match sig_k with
  | None => Ret false
  | Some k =>
      match data with
      | None => Crash NullDeref
      | Some d => Ret (ecdsa_verify k d sig)
      end
  end.

(** The parameter [int inlen], to which the callers pass a [uint64_t] or
    [size_t]: the length after the conversion, unless it is negative. *)
Definition int_len (n : N) : option N :=
  if (to_int n <? 0)%Z then None else Some (Z.to_N (to_int n)).

(** The body both ciphers share: EVP_CipherUpdate, which refuses a negative
    length, then EVP_CipherFinal_ex behind its output. The result is the return
    code, the output array and [*outlen], [None] while it is not assigned. [key]
    is an array of which 16 bytes are read; [inlen] is what the caller passes
    for the length of [inbuf]. *)
Definition cipher (enc : bool) (key : bytes) (iv : option bytes) (inbuf : list cell) (inlen : N)
    (outbuf : list cell) (outlen : option N) :
    outcome (Z * list cell * option N) :=
  k ← mem_read key 0 AES_KEY_LEN;
  match int_len inlen with
  | None => Ret ((-1)%Z, outbuf, outlen)
  | Some n =>
      m ← mem_read inbuf 0 n;
      m ← cells_bytes m;
      match evp_update enc k iv m with
      | None => Ret ((-1)%Z, outbuf, outlen)
      | Some c1 =>
          outbuf ← mem_write outbuf 0 (Some <$> c1);
          match evp_final enc k iv m with
          | None => Ret ((-1)%Z, outbuf, Some (nlen c1))
          | Some c2 =>
              outbuf ← mem_write outbuf (nlen c1) (Some <$> c2);
              Ret (1%Z, outbuf, Some (nlen c1 + nlen c2)%N)
          end
      end
  end.

Definition encrypt_symmetric (key : bytes) (iv : option bytes) (inbuf : list cell) (inlen : N)
    (outbuf : list cell) (outlen : option N) : outcome (Z * list cell * option N) :=
  cipher true key iv inbuf inlen outbuf outlen.

Definition decrypt_symmetric (key : bytes) (iv : option bytes) (inbuf : list cell) (inlen : N)
    (outbuf : list cell) (outlen : option N) : outcome (Z * list cell * option N) :=
  cipher false key iv inbuf inlen outbuf outlen.

(** [generate_symmetric_key(key)] on an array that was not written: the
    array afterwards. The callers drop the return code. *)
Definition generate_symmetric_key (n : nat) : list cell :=
  match rand_bytes n with
  | Some r => Some <$> r
  | None => new_array AES_KEY_LEN
  end.

(** [generate_ECDSA_key(&key)]: the key pointer afterwards. *)
Definition generate_ECDSA_key (n : nat) : option EC_KEY := ec_generate n.

(** ** Ciphertexts and plaintexts *)

(** What the ciphers see of an input: all of it, below 2 GB. *)
Definition int_bytes (m : bytes) : option bytes :=
  match int_len (nlen m) with Some n => Some (take (N.to_nat n) m) | None => None end.

(** What a whole run of the cipher writes, if it succeeds. *)
Definition whole (enc : bool) (key m : bytes) : option bytes :=
  match int_bytes m with
  | Some m =>
      match evp_update enc (take 16 key) None m, evp_final enc (take 16 key) None m with
      | Some c1, Some c2 => Some (c1 ++ c2)
      | _, _ => None
      end
  | None => None
  end.

Definition plaintext (key c : bytes) : option bytes := whole false key c.
Definition ciphertext (key m : bytes) : option bytes := whole true key m.

Lemma int_len_small n : (n < 2147483648)%N → int_len n = Some n.
Proof.
  intros Hn. unfold int_len. rewrite to_int_small by done.
  rewrite (proj2 (Z.ltb_ge _ _)) by lia. by rewrite N2Z.id.
Qed.

Lemma int_len_le n n' : int_len n = Some n' → (n' <= n)%N.
Proof. unfold int_len. pose proof (to_int_le n). case_match; [done|]. intros [= <-]. lia. Qed.

Lemma int_bytes_small m : (nlen m < 2147483648)%N → int_bytes m = Some m.
Proof.
  intros Hm. unfold int_bytes. rewrite int_len_small by done.
  by rewrite to_nat_nlen, take_ge by done.
Qed.

(** An input array that starts with the bytes [m]. *)
Lemma read_input (inbuf : list cell) (m : bytes) n :
  take (length m) inbuf = Some <$> m → int_len (nlen m) = Some n →
  (l ← mem_read inbuf 0 n; cells_bytes l) = Ret (take (N.to_nat n) m).
Proof.
  intros Hm Hn%int_len_le. assert (length m ≤ length inbuf)%nat as Hl.
  { apply (f_equal length) in Hm. rewrite length_take, length_fmap in Hm. lia. }
  rewrite mem_read_ok by (unfold nlen in *; lia). m_run. unfold slice. rewrite drop_0.
  replace (take (N.to_nat n) inbuf) with (Some <$> take (N.to_nat n) m); [apply cells_bytes_ok|].
  rewrite fmap_take, <-Hm, take_take. f_equal. unfold nlen in Hn. lia.
Qed.

Lemma read_key (key : bytes) : (16 ≤ length key)%nat → mem_read key 0 AES_KEY_LEN = Ret (take 16 key).
Proof.
  intros Hk. rewrite mem_read_ok by (unfold nlen, AES_KEY_LEN; lia). done.
Qed.

End crypto.

Section laws.
Context `{OpenSSLLaws}.
Implicit Types key m c : bytes.

Lemma int_bytes_length m m' : int_bytes m = Some m' → (length m' ≤ length m)%nat.
Proof. unfold int_bytes. case_match; [|done]. intros [= <-]. rewrite length_take. lia. Qed.

Lemma ciphertext_bound key m c :
  ciphertext key m = Some c → (length c ≤ (length m / 16 + 1) * 16)%nat.
Proof.
  unfold ciphertext, whole. intros Hc. repeat case_match; simplify_eq.
  rewrite (evp_encrypt_length _ _ _ _ _ H2 H3). apply int_bytes_length in H1.
  pose proof (Nat.Div0.div_le_mono _ _ 16 H1). lia.
Qed.

Lemma ciphertext_length key m c :
  (nlen m < 2147483648)%N → ciphertext key m = Some c → length c = ((length m / 16 + 1) * 16)%nat.
Proof.
  unfold ciphertext, whole. intros Hm. rewrite int_bytes_small by done.
  intros Hc. repeat case_match; simplify_eq. by eapply evp_encrypt_length.
Qed.

Lemma plaintext_length key c m : plaintext key c = Some m → (length m ≤ length c)%nat.
Proof.
  unfold plaintext, whole. intros Hc. repeat case_match; simplify_eq.
  rewrite length_app. apply int_bytes_length in H1.
  pose proof (evp_decrypt_length _ _ _ _ _ H2 H3). lia.
Qed.

Lemma plaintext_ciphertext key m c :
  (nlen m < 2147483632)%N → ciphertext key m = Some c → plaintext key c = Some m.
Proof.
  intros Hm Hc. assert (nlen c < 2147483648)%N as Hlc.
  { apply ciphertext_length in Hc; [|lia]. unfold nlen in *.
    pose proof (Nat.Div0.div_mod (length m) 16). lia. }
  unfold ciphertext, plaintext, whole in *. rewrite int_bytes_small in Hc by lia.
  rewrite int_bytes_small by done. repeat case_match; simplify_eq;
  edestruct evp_inverse as (? & ? & ? & ? & ?); eauto; congruence.
Qed.

(** Encryption into an array with room for the padding never faults; it
    returns 1 exactly when it has written the whole ciphertext. *)
Lemma encrypt_spec key m (inbuf out : list cell) ol :
  (16 ≤ length key)%nat → take (length m) inbuf = Some <$> m →
  ((length m / 16 + 1) * 16 ≤ length out)%nat →
  match ciphertext key m with
  | Some c => encrypt_symmetric key None inbuf (nlen m) out ol =
                Ret (1%Z, splice out 0 (Some <$> c), Some (nlen c))
  | None => ∃ out' ol', encrypt_symmetric key None inbuf (nlen m) out ol = Ret ((-1)%Z, out', ol') ∧
                ∀ n, ol' = Some n → ol = Some n ∨ (n ≤ nlen m)%N
  end.
Proof.
  intros Hk Hin Hout. unfold ciphertext, whole, encrypt_symmetric, cipher, int_bytes.
  rewrite read_key by done. cbn [mbind outcome_bind].
  destruct (int_len (nlen m)) as [n|] eqn:Hn; [|by eauto 10].
  pose proof (read_input inbuf m n Hin Hn) as Hread. pose proof (int_len_le _ _ Hn) as Hle.
  set (m' := take (N.to_nat n) m) in *.
  assert (length m' ≤ length m)%nat as Hm' by (unfold m'; rewrite length_take; lia).
  m_bind Hread. rewrite Hm. m_run. rewrite Hread. m_run.
  pose proof (Nat.Div0.div_le_mono _ _ 16 Hm') as Hdiv.
  destruct (evp_update true _ _ m') as [c1|] eqn:E1; [|by eauto 10].
  pose proof (evp_update_length _ _ _ _ _ E1) as Hl1.
  rewrite mem_write_ok.
  2: { unfold nlen. rewrite length_fmap.
       pose proof (Nat.Div0.div_mod (length m) 16). pose proof (Nat.mod_upper_bound (length m) 16). lia. }
  simpl. destruct (evp_final true _ _ m') as [c2|] eqn:E2.
  2: { eexists _, _. split; [done|]. intros x [= <-]. right. unfold nlen. lia. }
  pose proof (evp_encrypt_length _ _ _ _ _ E1 E2) as Hl. rewrite length_app in Hl.
  rewrite mem_write_ok.
  2: { unfold nlen. rewrite length_splice, !length_fmap; rewrite ?length_fmap; lia. }
  simpl. change (N.to_nat 0) with 0%nat. rewrite to_nat_nlen.
  pose proof (splice_splice out 0 (Some <$> c1) (Some <$> c2)) as Hs.
  rewrite length_fmap in Hs. simpl in Hs.
  rewrite Hs by (rewrite !length_fmap; lia).
  by rewrite fmap_app, nlen_app.
Qed.

(** Decryption into an array as long as the ciphertext never faults; when
    the whole plaintext comes out, it is at the front of the array. *)
Lemma decrypt_spec key c (out : list cell) ol :
  (16 ≤ length key)%nat → (length c ≤ length out)%nat →
  ∃ r out' ol', decrypt_symmetric key None (Some <$> c) (nlen c) out ol = Ret (r, out', ol') ∧
    length out' = length out ∧
    ∀ m, plaintext key c = Some m →
      r = 1%Z ∧ out' = splice out 0 (Some <$> m) ∧ ol' = Some (nlen m).
Proof.
  intros Hk Hout. unfold plaintext, whole, decrypt_symmetric, cipher, int_bytes.
  rewrite read_key by done. cbn [mbind outcome_bind].
  destruct (int_len (nlen c)) as [n|] eqn:Hn; [|by eexists _, _, _].
  pose proof (read_input (Some <$> c) c n ltac:(rewrite take_ge; [done|by rewrite length_fmap]) Hn) as Hread.
  set (c' := take (N.to_nat n) c) in *.
  assert (length c' ≤ length c)%nat as Hc' by (unfold c'; rewrite length_take; lia).
  m_bind Hread. rewrite Hm. m_run. rewrite Hread. m_run.
  destruct (evp_update false _ _ c') as [m1|] eqn:E1.
  2: { eexists _, _, _. by split_and!. }
  pose proof (evp_update_length _ _ _ _ _ E1) as Hl1.
  rewrite mem_write_ok by (unfold nlen; rewrite length_fmap; lia).
  simpl. destruct (evp_final false _ _ c') as [m2|] eqn:E2.
  2: { eexists _, _, _. split; [done|]. split; [|by intros].
       rewrite length_splice; [done|]. rewrite length_fmap. lia. }
  pose proof (evp_decrypt_length _ _ _ _ _ E1 E2) as Hl.
  rewrite mem_write_ok.
  2: { unfold nlen. rewrite length_splice, !length_fmap; rewrite ?length_fmap; lia. }
  simpl. eexists _, _, _. split; [done|].
  change (N.to_nat 0) with 0%nat. rewrite to_nat_nlen.
  pose proof (splice_splice out 0 (Some <$> m1) (Some <$> m2)) as Hs.
  rewrite length_fmap in Hs. simpl in Hs.
  rewrite Hs by (rewrite !length_fmap; lia). split.
  { rewrite length_splice; [done|]. rewrite length_app, !length_fmap. lia. }
  intros m [= <-]. rewrite fmap_app. split_and!; [done|done|].
  by rewrite nlen_app.
Qed.

(** A request signed with a key verifies under that key. *)
Lemma sign_verify k d s :
  sign (Some k) (Some d) = Ret (Some s) → verify (Some k) (Some d) s = Ret true.
Proof. simpl. intros [= Hs]. by rewrite (ecdsa_correct _ _ _ Hs). Qed.

End laws.
End Crypto.
