(* ===== verification/Capsule.v ===== *)
(** * DataCapsule messages: [src/dc-client/proto/capsule.proto],
    [request.proto], and the record types of [src/fs/backend.hpp]

    The messages are records with the fields the .proto files declare. The
    code that [protoc] generates from them is not part of the repository: the
    class [Protobuf] names the generated functions the client calls, and
    [ProtobufLaws] the documented round trip. *)

From Stdlib Require Import NArith ZArith Lia.
From Stdlib Require Import Strings.String.
From stdpp Require Import base list.
From S2P Require Import Prelude Const.

(** ** [capsule.proto] *)
Record CapsuleHeader := MkHeader {
  h_sender : Z;
  h_prevHash : list bytes;
  h_hash : bytes;
  h_timestamp : Z;
  h_last_logical_timestamp : Z;
  h_msgType : bytes;
  h_msgLen : Z;
  h_replyAddr : bytes;
  h_appMeta : bytes;
  h_verified : bool;
}.

Record CapsulePDU := MkPDU {
  pdu_header : CapsuleHeader;
  pdu_header_hash : bytes;
  pdu_signature : bytes;
  pdu_signature_len : Z;
  pdu_payload_in_transit : bytes;
}.

(** A message whose fields were never set. *)
Definition default_header : CapsuleHeader :=
  MkHeader 0 [] [] 0 0 [] 0 [] [] false.
Definition default_pdu : CapsulePDU := MkPDU default_header [] [] 0 [].

(** ** [request.proto] *)
Record ClientGetRequest := MkGetRequest {
  req_hash : bytes;
  req_replyAddr : bytes;
  req_fresh_req : bool;
  req_metaonly_req : bool;
}.

Record ClientGetResponse := MkGetResponse {
  resp_success : bool;
  resp_hash : bytes;
  resp_record : CapsulePDU;
  resp_targetAddr : bytes;
  resp_fresh_resp : bool;
  resp_fresh_hashes : list bytes;
}.

Record FreshHashesContainer := MkFreshHashes { fhc_fresh_hashes : list bytes }.

(** ** The generated code

    [ParsePDU b] is the message object after [ParseFromArray] or
    [ParseFromString] on [b]; the client never looks at their result. *)
Class Protobuf := {
  SerializeHeader : CapsuleHeader → bytes;
  SerializePDU : CapsulePDU → bytes;
  ParsePDU : bytes → CapsulePDU;
  SerializeGetRequest : ClientGetRequest → bytes;
  ParseGetResponse : bytes → ClientGetResponse;
  SerializeFreshHashes : FreshHashesContainer → bytes;
}.

(** What a message must satisfy to survive the wire: [string] fields hold
    valid UTF-8 (here: ASCII), [int64] fields are in range, and the whole is
    far below the 2 GB limit. *)
Definition is_ascii (s : bytes) : Prop := Forall (λ c, (Byte.to_N c < 128)%N) s.
Definition int64_range (z : Z) : Prop :=
  (-9223372036854775808 ≤ z ≤ 9223372036854775807)%Z.
Definition field_small (s : bytes) : Prop := (nlen s < 65536)%N.

Record header_wf (h : CapsuleHeader) : Prop := {
  hw_sender : int64_range (h_sender h);
  hw_timestamp : int64_range (h_timestamp h);
  hw_last : int64_range (h_last_logical_timestamp h);
  hw_msgLen : int64_range (h_msgLen h);
  hw_prevHash : (nlen (h_prevHash h) < 256)%N ∧ Forall field_small (h_prevHash h);
  hw_hash : field_small (h_hash h);
  hw_msgType : is_ascii (h_msgType h) ∧ field_small (h_msgType h);
  hw_replyAddr : is_ascii (h_replyAddr h) ∧ field_small (h_replyAddr h);
  hw_appMeta : is_ascii (h_appMeta h) ∧ field_small (h_appMeta h);
}.

Record pdu_wf (p : CapsulePDU) : Prop := {
  pw_header : header_wf (pdu_header p);
  pw_header_hash : field_small (pdu_header_hash p);
  pw_signature : field_small (pdu_signature p);
  pw_signature_len : int64_range (pdu_signature_len p);
  pw_payload : (nlen (pdu_payload_in_transit p) < 16777216)%N;
}.

(** The bytes of the length-delimited fields of a message other than its
    payload. The wire format adds to them at most 6 bytes of tag and length
    per field, 11 per [int64] and 4 for the flag. *)
Definition fields_size (p : CapsulePDU) : N :=
  (let h := pdu_header p in
  nlen (pdu_header_hash p) + nlen (pdu_signature p) + nlen (h_hash h) + nlen (h_msgType h) +
  nlen (h_replyAddr h) + nlen (h_appMeta h) +
  foldr (λ b n, nlen b + 6 + n) 0 (h_prevHash h))%N.

Class ProtobufLaws `{Protobuf} := {
  parse_serialize p : pdu_wf p → ParsePDU (SerializePDU p) = p;
  parse_empty : ParsePDU [] = default_pdu;
  serialize_size p :
    pdu_wf p → (nlen (SerializePDU p) ≤ nlen (pdu_payload_in_transit p) + fields_size p + 128)%N;
}.

(** ** Record types ([backend.hpp]) *)
Inductive record_type := META | DIRECTORY | INODE | BLOCKMAP | DATABLOCK.

Definition record_type_to_string (t : record_type) : bytes :=
  match t with
  | META => lit "META"
  | DIRECTORY => lit "DIRECTORY"
  | INODE => lit "INODE"
  | BLOCKMAP => lit "BLOCKMAP"
  | DATABLOCK => lit "DATABLOCK"
  end.

#[global] Instance record_type_to_string_inj : Inj (=) (=) record_type_to_string.
Proof. by intros [] []. Qed.

Lemma record_type_wf t :
  is_ascii (record_type_to_string t) ∧ field_small (record_type_to_string t).
Proof. destruct t; (split; [by repeat constructor|by vm_compute]). Qed.

(** [buf_desc_t]: [desc.size] is the length of the bytes it points to;
    [file_offset] is used by WriteRecord. *)
Record buf_desc := MkDesc {
  desc_buf : bytes;
  desc_file_offset : N;
}.
Definition desc_size (d : buf_desc) : N := nlen (desc_buf d).
