(* ===== verification/DcServer.v ===== *)
(** * DataCapsule servers: [DCServer] of [src/fs/backend.hpp] and its
    simulated implementation [DCServerSim] ([src/fs/backend_sim.cpp])

    The class [DCServer] is the virtual interface; [DCServerLaws] is what the
    middleware and the storage backend rely on; [DCServerSim] stores every
    record in a file and is proved to implement it. *)

From Stdlib Require Import NArith ZArith Lia.
From Stdlib Require Import Strings.String.
From stdpp Require Import base list gmap.
From S2P Require Import Prelude Const Encode.

(** ** The interface

    A server of state [D]. [ReadRecord dc rec size d] fills a buffer of
    [size] bytes: on success the bytes are the record ([*read_size] is their
    number). [WriteRecord dc rec data d] stores the record [data]. *)
Class DCServer (D : Type) := {
  ReadRecord : bytes → bytes → N → D → outcome (D * result bytes);
  WriteRecord : bytes → bytes → bytes → D → outcome (D * result unit);
}.

(** What the servers promise: [server_fault] says with which faults an operation
    may stop the client, and [record_of d dc rec] is the record stored under a
    name. A read changes no record and returns the stored one. A write that
    succeeds stores the record; no write touches a record of another name. *)
Class DCServerLaws (D : Type) `{DCServer D} := {
  server_fault : fault → Prop;
  record_of : D → bytes → bytes → option bytes;
  read_law dc r n d :
    r ≠ [] →
    wp server_fault (ReadRecord dc r n d) (λ '(d', res),
      (∀ dc' r', record_of d' dc' r' = record_of d dc' r') ∧
      ∀ data, res = inr data → record_of d dc r = Some data ∧ (nlen data ≤ n)%N);
  write_law dc r data d :
    wp server_fault (WriteRecord dc r data d) (λ '(d', res),
      (∀ dc' r', r' ≠ r → record_of d' dc' r' = record_of d dc' r') ∧
      (res = inr tt → r ≠ [] → record_of d' dc r = Some data));
}.

(** A server that, when it answers, does not fail: records that are stored are
    found, and writes into an existing capsule (or of a capsule's own meta
    record) succeed. [down] says how it may stop the client instead. *)
Class DCServerAnswers (D : Type) `{DCServerLaws D} := {
  down : fault → Prop;
  container : D → bytes → Prop;
  answer_read dc r n d data :
    record_of d dc r = Some data → r ≠ [] → (nlen data ≤ n)%N →
    wp down (ReadRecord dc r n d) (λ '(d', res), res = inr data ∧
      ∀ dc', container d dc' → container d' dc');
  answer_write dc r data d :
    r ≠ [] → container d dc ∨ r = dc →
    wp down (WriteRecord dc r data d) (λ '(d', res), res = inr tt ∧ container d' dc ∧
      ∀ dc', container d dc' → container d' dc');
}.

(** A server that is up always answers. *)
Class DCServerReliable (D : Type) `{DCServerAnswers D} := {
  never_down f : ¬ down f;
}.

(** ** The file system under [DCServerSim]

    What the operating system decides about a path: whether it can be opened
    for reading or writing, whether a read fails, after how many bytes a
    write fails, and whether the directory can be created. *)
Class HostFs := {
  can_open : bytes → bool;
  read_fault : bytes → bool;
  can_create : bytes → bool;
  write_fault : bytes → option nat;
  can_mkdir : bytes → bool;
}.

Class HostFsBenign `{HostFs} := {
  benign_open p : can_open p = true;
  benign_read p : read_fault p = false;
  benign_create p : can_create p = true;
  benign_write p : write_fault p = None;
  benign_mkdir p : can_mkdir p = true;
}.

Module Sim.
Section sim.
Context `{HostFs}.

(** The server and the disk below its mount point: the directories and the
    regular files, by path. *)
Record DCServerSim := MkSim {
  mnt_point_ : bytes;
  fs_dirs : gset bytes;
  fs_files : gmap bytes bytes;
}.

(** [DCServerSim(mnt_point)] over the directories and files that are on the
    disk: the constructor creates [BACKEND_MNT_POINT] if there is none. The path
    of a capsule with the empty name is the mount point itself. *)
Definition new_DCServerSim (mnt_point : bytes) (dirs : gset bytes) (files : gmap bytes bytes) :
    outcome DCServerSim :=
  let path := BACKEND_MNT_POINT ++ lit "/" in
  if decide (path ∈ dirs) then Ret (MkSim mnt_point dirs files)
  else if can_mkdir path then Ret (MkSim mnt_point ({[path]} ∪ dirs) files)
  else Crash Thrown.

Definition dc_path (d : DCServerSim) (dc_hex : bytes) : bytes :=
  mnt_point_ d ++ lit "/" ++ dc_hex.
Definition record_path (d : DCServerSim) (dc_hex rec_hex : bytes) : bytes :=
  mnt_point_ d ++ lit "/" ++ dc_hex ++ lit "/" ++ rec_hex.

Definition set_files (f : gmap bytes bytes) (d : DCServerSim) : DCServerSim :=
  MkSim (mnt_point_ d) (fs_dirs d) f.
Definition add_dir (p : bytes) (d : DCServerSim) : DCServerSim :=
  MkSim (mnt_point_ d) ({[p]} ∪ fs_dirs d) (fs_files d).

(** [DCServerSim::ReadRecord]. With an empty record name the path names the
    capsule's directory, and opening a directory as a stream is up to the
    platform. *)
Definition ReadRecord (dcname recordname : bytes) (size : N) (d : DCServerSim) :
    outcome (DCServerSim * result bytes) :=
  dc_hex ← Encode.binary_to_hex_string dcname (nlen dcname);
  rec_hex ← Encode.binary_to_hex_string recordname (nlen recordname);
  let path := record_path d dc_hex rec_hex in
  if decide (rec_hex = []) then
    if decide (dc_path d dc_hex ∈ fs_dirs d) then Crash Unspecified
    else Ret (d, inl ERR_NOT_FOUND)
  else
    match fs_files d !! path with
    | None => Ret (d, inl ERR_NOT_FOUND)
    | Some data =>
        if can_open path then
          _ ← c_assert (nlen data <=? size)%N;
          if read_fault path then Ret (d, inl ERR_IO) else Ret (d, inr data)
        else Ret (d, inl ERR_NOT_FOUND)
    end.

(** Lines 467-477 of the write: [std::ofstream out(path)], then one [write].
    Opening truncates the file; a failing write leaves the bytes written so
    far. With an empty record name the path is a directory, which cannot be
    opened for writing. *)
Definition store_record (path rec_hex data : bytes) (d : DCServerSim) :
    DCServerSim * result unit :=
  if decide (rec_hex = []) then (d, inl ERR_IO)
  else if can_create path then
    match write_fault path with
    | Some n => (set_files (<[path := take n data]> (fs_files d)) d, inl ERR_IO)
    | None => (set_files (<[path := data]> (fs_files d)) d, inr tt)
    end
  else (d, inl ERR_IO).

(** [DCServerSim::WriteRecord]: the directory of a capsule is created by the
    write of its own meta record ([dcname == recordname]). *)
Definition WriteRecord (dcname recordname data : bytes) (d : DCServerSim) :
    outcome (DCServerSim * result unit) :=
  dc_hex ← Encode.binary_to_hex_string dcname (nlen dcname);
  rec_hex ← Encode.binary_to_hex_string recordname (nlen recordname);
  let dcpath := dc_path d dc_hex in
  let path := record_path d dc_hex rec_hex in
  if decide (dcpath ∈ fs_dirs d) then Ret (store_record path rec_hex data d)
  else if decide (dc_hex = rec_hex) then
    if can_mkdir dcpath then Ret (store_record path rec_hex data (add_dir dcpath d))
    else Crash Thrown
  else Ret (d, inl ERR_IO).

#[export] Instance DCServer_sim : DCServer DCServerSim := {|
  DcServer.ReadRecord := ReadRecord;
  DcServer.WriteRecord := WriteRecord;
|}.

(** ** Correctness *)

Lemma hex_full s : Encode.binary_to_hex_string s (nlen s) = Ret (Encode.to_hex s).
Proof. apply Encode.binary_to_hex_string_full. Qed.

Lemma to_hex_nil s : Encode.to_hex s = [] ↔ s = [].
Proof.
  split; [|by intros ->]. intros Hs. apply (inj Encode.to_hex). by rewrite Hs.
Qed.

Lemma split_at_slash a b a' b' :
  Byte.x2f ∉ a → Byte.x2f ∉ a' →
  a ++ lit "/" ++ b = a' ++ lit "/" ++ b' → a = a' ∧ b = b'.
Proof.
  revert a'. induction a as [|c a IH]; intros [|c' a'] Ha Ha' Heq; simpl in *.
  - by injection Heq.
  - injection Heq as <- _. by destruct Ha'; left.
  - injection Heq as -> _. by destruct Ha; left.
  - injection Heq as -> Heq. rewrite !not_elem_of_cons in Ha, Ha'.
    destruct (IH a') as [-> ->]; [tauto..|done].
Qed.

(** Different (capsule, record) pairs live in different files. *)
Lemma record_path_inj d dc r dc' r' :
  record_path d (Encode.to_hex dc) (Encode.to_hex r) =
  record_path d (Encode.to_hex dc') (Encode.to_hex r') → dc = dc' ∧ r = r'.
Proof.
  unfold record_path. intros Heq. apply (inj (mnt_point_ d ++.)) in Heq.
  apply (inj (lit "/" ++.)) in Heq.
  apply split_at_slash in Heq as [Hd Hr]; [|apply Encode.to_hex_slash_free..].
  by apply (inj Encode.to_hex) in Hd, Hr.
Qed.

Definition sim_record (d : DCServerSim) (dc r : bytes) : option bytes :=
  fs_files d !! record_path d (Encode.to_hex dc) (Encode.to_hex r).

Lemma sim_record_set e d dc r data dc' r' :
  mnt_point_ e = mnt_point_ d →
  sim_record (set_files (<[record_path d (Encode.to_hex dc) (Encode.to_hex r) := data]>
    (fs_files d)) e) dc' r' =
  if decide (dc' = dc ∧ r' = r) then Some data else sim_record d dc' r'.
Proof.
  intros He. unfold sim_record, record_path. simpl. rewrite He.
  fold (record_path d (Encode.to_hex dc) (Encode.to_hex r)).
  fold (record_path d (Encode.to_hex dc') (Encode.to_hex r')).
  case_decide as Hx; [destruct Hx; simplify_eq; apply lookup_insert_eq|].
  apply lookup_insert_ne. intros Heq. apply Hx.
  by apply record_path_inj in Heq as [??].
Qed.

(** What [store_record] leaves behind, whatever the disk does: the record
    itself if it succeeds, and every other record as it was. *)
Lemma store_record_spec e d dc r data :
  mnt_point_ e = mnt_point_ d → fs_files e = fs_files d →
  let '(d', res) :=
    store_record (record_path d (Encode.to_hex dc) (Encode.to_hex r)) (Encode.to_hex r) data e in
  (∀ dc' r', (dc', r') ≠ (dc, r) → sim_record d' dc' r' = sim_record d dc' r') ∧
  (res = inr tt → r ≠ [] ∧ sim_record d' dc r = Some data).
Proof.
  intros He Hf. unfold store_record.
  assert (∀ dc' r', sim_record e dc' r' = sim_record d dc' r') as Hsame.
  { intros. unfold sim_record, record_path. by rewrite He, Hf. }
  rewrite Hf. repeat case_match; simplify_eq/=; (split; [intros dc' r' Hne|intros [=]]);
    try done; rewrite sim_record_set by done.
  - rewrite decide_False; [done|]. by intros [-> ->].
  - rewrite decide_False; [done|]. by intros [-> ->].
  - rewrite decide_True by done. by rewrite <-to_hex_nil.
Qed.

Lemma write_frame dc r data d d' res :
  WriteRecord dc r data d = Ret (d', res) →
  (∀ dc' r', (dc', r') ≠ (dc, r) → sim_record d' dc' r' = sim_record d dc' r') ∧
  (res = inr tt → r ≠ [] ∧ sim_record d' dc r = Some data).
Proof.
  intros Hw. unfold WriteRecord in Hw. rewrite !hex_full in Hw. simpl in Hw.
  destruct (decide (dc_path d _ ∈ _)).
  { injection Hw as Hw. pose proof (store_record_spec d d dc r data) as Hs.
    rewrite Hw in Hs. by apply Hs. }
  destruct (decide (Encode.to_hex dc = _)); [|by simplify_eq].
  destruct (can_mkdir _); [|done]. injection Hw as Hw.
  pose proof (store_record_spec (add_dir (dc_path d (Encode.to_hex dc)) d) d dc r data) as Hs.
  rewrite Hw in Hs. by apply Hs.
Qed.

(** [DCServerSim] stops for a failed assertion or an exception of the file
    system. *)
Definition sim_fault (f : fault) : Prop := f = AssertFailed ∨ f = Thrown.

#[export] Instance DCServer_sim_laws : DCServerLaws DCServerSim.
Proof.
  refine {| DcServer.server_fault := sim_fault; DcServer.record_of := sim_record |}.
  - intros dc r n d Hr. simpl. unfold ReadRecord. rewrite !hex_full. simpl.
    rewrite decide_False by by rewrite to_hex_nil.
    destruct (fs_files d !! _) as [data|] eqn:Hd; simpl; [|by split].
    destruct (can_open _); simpl; [|by split].
    destruct (nlen data <=? n)%N eqn:Hn; simpl; [|by left].
    destruct (read_fault _); simpl; (split; [done|]); [done|].
    intros ? [= <-]. split; [done|by apply N.leb_le].
  - intros dc r data d. simpl. destruct (WriteRecord dc r data d) as [[d' res]|f] eqn:Hw; simpl.
    + apply write_frame in Hw as [Hf Hs]. split.
      * intros dc' r' Hne. apply Hf. congruence.
      * intros -> _. by apply Hs.
    + unfold WriteRecord in Hw. rewrite !hex_full in Hw. simpl in Hw.
      repeat case_match; simplify_eq/=; by right.
Defined.

Definition sim_container (d : DCServerSim) (dc : bytes) : Prop :=
  dc_path d (Encode.to_hex dc) ∈ fs_dirs d.

#[export] Instance DCServer_sim_answers `{!HostFsBenign} : DCServerAnswers DCServerSim.
Proof.
  refine {| DcServer.down := no_fault; DcServer.container := sim_container |}.
  - intros dc r n d data Hd Hr Hn. apply wp_total. exists (d, inr data). split; [|done].
    simpl. unfold ReadRecord.
    rewrite !hex_full. simpl. rewrite decide_False by by rewrite to_hex_nil.
    change (sim_record d dc r = Some data) in Hd. unfold sim_record in Hd.
    rewrite Hd, benign_open. apply N.leb_le in Hn as ->. simpl. by rewrite benign_read.
  - intros dc r data d Hr Hc. apply wp_total. simpl. unfold WriteRecord. rewrite !hex_full. simpl.
    assert (Encode.to_hex r ≠ []) by by rewrite to_hex_nil.
    unfold store_record. rewrite benign_create, benign_write, benign_mkdir.
    unfold sim_container. destruct Hc as [Hc| ->].
    + rewrite decide_True by done. rewrite decide_False by done. eexists. by split.
    + case_decide as Hdir; [rewrite decide_False by done; eexists; by split|].
      rewrite (decide_True (P := Encode.to_hex dc = Encode.to_hex dc)) by done.
      rewrite decide_False by done. eexists. split; [done|]. split; [done|].
      unfold dc_path, sim_container in *. simpl. set_solver.
Defined.

#[export] Instance DCServer_sim_reliable `{!HostFsBenign} : DCServerReliable DCServerSim.
Proof. split. intros f Hf. exact Hf. Qed.

Lemma benign_ReadRecord `{!HostFsBenign} dc r n d :
  r ≠ [] →
  ReadRecord dc r n d =
    match sim_record d dc r with
    | None => Ret (d, inl ERR_NOT_FOUND)
    | Some data => if (nlen data <=? n)%N then Ret (d, inr data) else Crash AssertFailed
    end.
Proof.
  intros Hr. unfold ReadRecord. rewrite !hex_full. simpl.
  rewrite decide_False by by rewrite to_hex_nil.
  fold (sim_record d dc r). destruct (sim_record d dc r); [|done].
  rewrite benign_open, benign_read. by destruct (_ <=? _)%N.
Qed.

(** On a disk without faults, a record that was written is read back
    byte for byte, into any buffer that is large enough, and every other
    record reads as before. *)
Theorem write_read_back `{!HostFsBenign} dc r data (d : DCServerSim)
    (Hr : r ≠ []) (Hdir : sim_container d dc ∨ r = dc) :
  ∃ d', WriteRecord dc r data d = Ret (d', inr tt) ∧
    (∀ n, (nlen data ≤ n)%N → ReadRecord dc r n d' = Ret (d', inr data)) ∧
    (∀ dc' r' n, r' ≠ [] → (dc', r') ≠ (dc, r) →
       snd <$> ReadRecord dc' r' n d' = snd <$> ReadRecord dc' r' n d).
Proof.
  pose proof (@answer_write _ _ _ DCServer_sim_answers dc r data d Hr Hdir) as Hw.
  apply wp_total in Hw as ([d' res] & Hw & -> & _). simpl in Hw.
  exists d'. split; [done|]. apply write_frame in Hw as [Hf Hs].
  destruct Hs as [_ Hs]; [done|]. split.
  - intros n Hn. rewrite benign_ReadRecord, Hs by done. by apply N.leb_le in Hn as ->.
  - intros dc' r' n Hr' Hne. rewrite !benign_ReadRecord, Hf by done.
    destruct (sim_record d dc' r'); [|done]. by destruct (_ <=? _)%N.
Qed.

End sim.
End Sim.
