(* ===== verification/Middleware.v ===== *)
(** * The middleware: [DCFSMidSim] of [src/fs/backend.hpp] and
    [src/fs/backend_sim.cpp]

    The middleware turns a client's write request into DataCapsule records:
    the data blocks, a block map that lists their hashes, and an inode record
    that points to the block map. It keeps, per capsule, the name of the
    latest inode record. *)

From Stdlib Require Import NArith ZArith Lia.
From Stdlib Require Import Strings.String.
From stdpp Require Import base list gmap.
From S2P Require Import Prelude Const Encode Options Crypto Capsule DcServer.

(** ** What a run of the process reads from its surroundings *)
Class RunEnv := {
  clock : nat → Z;                      (* the n-th system_clock::now() *)
  run_options : Options.option_map;     (* the options main() stored *)
}.

(** [dc_config.hpp] *)
Definition NET_CLIENT_RECV_ACK_PORT : N := 5001.
Definition CLIENT_ID : N := 0.

Section state.
Context `{OpenSSL}.

(** The data members of [DCFSMidSim]; the server it points to is the one the
    storage backend uses and lives in the [world]. *)
Record DCFSMidSim := MkMid {
  index_ : gmap (list Byte.byte) (list Byte.byte);
  root_ : bytes * bytes;
  middlewareWriterKey_ : option EC_KEY;
  client_key_pair_ : option EC_KEY;
  symmetric_middleware_key_ : list cell;
}.

(** The middleware, the server, and how many clock readings and random keys
    have been drawn. *)
Record world (D : Type) := MkWorld {
  mid : DCFSMidSim;
  server : D;
  ticks : nat;
  rands : nat;
}.
End state.

Arguments MkWorld {_ D} _ _ _ _.
Arguments mid {_ D} _.
Arguments server {_ D} _.
Arguments ticks {_ D} _.
Arguments rands {_ D} _.

Module Mid.
Section mid.
Context `{OpenSSL} `{Protobuf} `{RunEnv} {D : Type} `{DCServer D}.
Abbreviation W := (world D).

Definition set_index (i : gmap (list Byte.byte) (list Byte.byte)) (m : DCFSMidSim) : DCFSMidSim :=
  MkMid i (root_ m) (middlewareWriterKey_ m) (client_key_pair_ m)
    (symmetric_middleware_key_ m).
Definition set_mid (m : DCFSMidSim) (w : W) : W := MkWorld m (server w) (ticks w) (rands w).
Definition set_server (d : D) (w : W) : W := MkWorld (mid w) d (ticks w) (rands w).
Definition tick (w : W) : W := MkWorld (mid w) (server w) (S (ticks w)) (rands w).
Definition draw (w : W) : W := MkWorld (mid w) (server w) (ticks w) (S (rands w)).

(** [DCFSMidSim(dcserver, client_key_pair)]: [ec] and [rn] number the key
    generations of the run. *)
Definition new_DCFSMidSim (client_key_pair : option EC_KEY) (ec rn : nat) : DCFSMidSim :=
  MkMid ∅ ([], []) (Crypto.generate_ECDSA_key ec) client_key_pair
    (Crypto.generate_symmetric_key rn).

(** The reply address every record carries. *)
Definition reply_addr : bytes :=
  Options.load_client_ip run_options ++ lit ":" ++
  to_string (NET_CLIENT_RECV_ACK_PORT + CLIENT_ID).

(** [composeRecord(type, hashes, in_desc, out_desc, hashname)]: the serialised
    record and its name, the hash of its header. *)
Definition composeRecord (type : record_type) (hashes : option (list bytes))
    (in_desc : option bytes) (w : W) : outcome (W * result (bytes * bytes)) :=
  payload_hash ← match in_desc with
                 | Some buf => Crypto.hash256 buf true
                 | None => Ret (Some (lit "0"))
                 end;
  match payload_hash with
  | None => Ret (w, inl ERR_HASH)
  | Some ph =>
      let hdr := MkHeader 0 (default [] hashes) ph (clock (ticks w)) 0
                   (record_type_to_string type) 0 reply_addr [] false in
      let w := tick w in
      header_hash ← Crypto.hash256 (SerializeHeader hdr) true;
      match header_hash with
      | None => Ret (w, inl ERR_HASH)
      | Some hashname =>
          let pdu := MkPDU hdr hashname (lit "0") 0 (default [] in_desc) in
          Ret (w, inr (SerializePDU pdu, hashname))
      end
  end.

(** [dcserver_->ReadRecord] and [dcserver_->WriteRecord] on the shared server. *)
Definition read_record (dcname recordname : bytes) (size : N) (w : W) :
    outcome (W * result bytes) :=
  '(d, r) ← ReadRecord dcname recordname size (server w); Ret (set_server d w, r).
Definition write_record (dcname recordname data : bytes) (w : W) :
    outcome (W * result unit) :=
  '(d, r) ← WriteRecord dcname recordname data (server w); Ret (set_server d w, r).

(** [CreateNew]: the result of [composeRecord] is not looked at, so after a
    failure the uninitialised descriptor is used. *)
Definition CreateNew (w : W) : outcome (W * result (bytes * bytes)) :=
  '(w, r) ← composeRecord META None None w;
  match r with
  | inl _ => Crash Indeterminate
  | inr (record, hashname) =>
      '(w, err) ← write_record hashname hashname record w;
      match err with
      | inl e => Ret (w, inl e)
      | inr _ =>
          let w := set_mid (set_index (<[hashname := []]> (index_ (mid w))) (mid w)) w in
          aes_key ← cells_bytes (Crypto.generate_symmetric_key (rands w));
          Ret (draw w, inr (hashname, aes_key))
      end
  end.

Definition GetRoot (w : W) : result (bytes * bytes) := inr (root_ (mid w)).

Definition GetInodeName (hashname : bytes) (sig : bytes) (w : W) : outcome (result bytes) :=
  hash ← Crypto.hash256 hashname false;
  ok ← Crypto.verify (client_key_pair_ (mid w)) hash sig;
  if (ok : bool) then
    match index_ (mid w) !! hashname with
    | None => Ret (inl ERR_NOT_FOUND)
    | Some recordname => Ret (inr recordname)
    end
  else Ret (inl ERR_VERIFY).

(** ** [Modify], in the order of its steps *)

(** Lines 198-214: the request as one array. *)
Fixpoint pack_descs (args : list cell) (offset : N) (descs : list buf_desc) :
    outcome (list cell * N) :=
  match descs with
  | [] => Ret (args, offset)
  | d :: descs' =>
      args ← memcpy args offset (Some <$> desc_buf d) 0 (desc_size d);
      pack_descs args (offset + desc_size d) descs'
  end.

Fixpoint sum_sizes (descs : list buf_desc) : N :=
  match descs with [] => 0 | d :: descs' => desc_size d + sum_sizes descs' end%N.

Definition pack_args (dcname : bytes) (descs : list buf_desc) (inode_hash aes_key : bytes) :
    outcome bytes :=
  let len := u64 (nlen dcname + nlen inode_hash + nlen aes_key + sum_sizes descs) in
  let args := new_array len in
  args ← memcpy args 0 (Some <$> c_str dcname) 0 (nlen dcname);
  '(args, offset) ← pack_descs args (nlen dcname) descs;
  args ← memcpy args offset (Some <$> c_str inode_hash) 0 (nlen inode_hash);
  args ← memcpy args (offset + nlen inode_hash) (Some <$> c_str aes_key) 0 (nlen aes_key);
  cells_bytes args.

(** Lines 197-223: check the signature on the arguments. *)
Definition verify_args (m : DCFSMidSim) (dcname : bytes) (descs : list buf_desc)
    (inode_hash aes_key sig : bytes) : outcome bool :=
  args ← pack_args dcname descs inode_hash aes_key;
  hash ← Crypto.hash256 args false;
  Crypto.verify (client_key_pair_ m) hash sig.

(** [index_[k]]: the entry, created empty if there is none. *)
Definition index_at (k : bytes) (i : gmap (list Byte.byte) (list Byte.byte)) :
    gmap (list Byte.byte) (list Byte.byte) * bytes :=
  match i !! k with
  | Some v => (i, v)
  | None => (<[k := []]> i, [])
  end.

Record InodeRecord := MkInodeRecord {
  isize : N;
  blockmap_hash : bytes;
  key : list cell;
}.

Record BlockMapRecord := MkBlockMapRecord {
  data_hashes : list bytes;
  hash_to_latest_data_block : bytes;
}.

(** [pdu.header().prevhash(i)] *)
Definition prevhash (p : CapsulePDU) (i : N) : outcome bytes :=
  vec_get (h_prevHash (pdu_header p)) i.

(** Lines 270-276: the payload of a block map, 32 bytes at a time; every round
    advances by 32, so [S (length payload)] rounds are enough. *)
Fixpoint split_hashes (fuel : nat) (payload : bytes) (offset : N) (acc : list bytes) :
    outcome (list bytes) :=
  match fuel with
  | O => Crash OutOfFuel
  | S fuel' =>
      if (offset <? nlen payload)%N then
        hashname ← mem_read (c_str payload) offset HASHLEN_IN_BYTES;
        split_hashes fuel' payload (offset + HASHLEN_IN_BYTES) (acc ++ [hashname])
      else Ret acc
  end.

(** Lines 244-281: the latest inode record and its block map, if there are
    any. [inode_record.isize] keeps its initial 0 in both cases. *)
Definition load_records (dcname latest aes_key : bytes) (w : W) :
    outcome (W * result (InodeRecord * BlockMapRecord)) :=
  if decide (latest = []) then
    k ← mem_read (Some <$> c_str aes_key) 0 AES_KEY_LEN;
    Ret (w, inr (MkInodeRecord 0 [] k, MkBlockMapRecord [] []))
  else
    '(w, r) ← read_record dcname latest MAX_INODE_RECORD_SIZE w;
    match r with
    | inl e => Ret (w, inl e)
    | inr data =>
        let ino_pdu := ParsePDU data in
        bmh ← prevhash ino_pdu 1;
        k ← mem_read (Some <$> c_str (pdu_payload_in_transit ino_pdu))
              INODE_AES_KEY_OFFSET AES_KEY_LEN;
        '(w, r) ← read_record dcname bmh MAX_BLOCKMAP_RECORD_SIZE w;
        match r with
        | inl e => Ret (w, inl e)
        | inr data =>
            let bm_pdu := ParsePDU data in
            latest_block ← prevhash bm_pdu 1;
            let payload := pdu_payload_in_transit bm_pdu in
            hashes ← split_hashes (S (length payload)) payload 0 [];
            Ret (w, inr (MkInodeRecord 0 bmh k, MkBlockMapRecord hashes latest_block))
        end
    end.

(** Lines 290-327: create and push the data blocks. [prev] is
    [data_block_hashname], empty before the first block. *)
Fixpoint push_data_blocks (dcname latest_block : bytes) (descs : list buf_desc)
    (prev : bytes) (blocks : list (N * bytes)) (w : W) :
    outcome (W * result (list (N * bytes))) :=
  match descs with
  | [] => Ret (w, inr blocks)
  | desc :: descs' =>
      let back := if decide (prev = []) then
                    (if decide (latest_block = []) then dcname else latest_block)
                  else prev in
      '(w, r) ← composeRecord DATABLOCK (Some [back]) (Some (desc_buf desc)) w;
      match r with
      | inl e => Ret (w, inl e)
      | inr (record, hashname) =>
          '(w, r) ← write_record dcname hashname record w;
          match r with
          | inl e => Ret (w, inl e)
          | inr _ =>
              push_data_blocks dcname latest_block descs' hashname
                (blocks ++ [(desc_file_offset desc, hashname)]) w
          end
      end
  end.

(** Lines 339-344: enter the new blocks into the list of data hashes. *)
Fixpoint update_hashes (size : N) (blocks : list (N * bytes)) (hashes : list bytes) :
    outcome (list bytes) :=
  match blocks with
  | [] => Ret hashes
  | (offset, name) :: blocks' =>
      hashes ← if (offset <? size)%N
               then vec_set hashes (offset / (DEFAULT_BLOCK_SIZE_IN_KB * 1024))%N name
               else Ret (hashes ++ [name]);
      update_hashes size blocks' hashes
  end.

(** Lines 345-352: the block map's payload, 32 bytes of every hash. *)
Fixpoint concat_hashes (hashes : list bytes) : outcome bytes :=
  match hashes with
  | [] => Ret []
  | hash :: hashes' =>
      l ← mem_read (c_str hash) 0 HASHLEN_IN_BYTES;
      r ← concat_hashes hashes';
      Ret (l ++ r)
  end.

(** Lines 330-364: push the new block map. *)
Definition push_blockmap (dcname : bytes) (ir : InodeRecord) (bm : BlockMapRecord)
    (blocks : list (N * bytes)) (w : W) : outcome (W * result bytes) :=
  let prev := if decide (blockmap_hash ir = []) then dcname else blockmap_hash ir in
  last_block ← vec_get blocks (nlen blocks - 1);
  hashes ← update_hashes (isize ir) blocks (data_hashes bm);
  payload ← concat_hashes hashes;
  '(w, r) ← composeRecord BLOCKMAP (Some [prev; last_block.2]) (Some payload) w;
  match r with
  | inl e => Ret (w, inl e)
  | inr (record, hashname) =>
      '(w, r) ← write_record dcname hashname record w;
      match r with
      | inl e => Ret (w, inl e)
      | inr _ => Ret (w, inr hashname)
      end
  end.

(** Lines 381-392: size and encrypted file key, the payload of an inode
    record. [outlen] is not initialised. *)
Definition inode_payload (symkey : list cell) (size : N) (k : list cell) : outcome bytes :=
  let buf := new_array INODE_PAYLOAD_SIZE in
  buf ← memcpy buf 0 (Some <$> le_bytes 8 size) 0 8;
  symkey ← cells_bytes symkey;
  '(_, encrypted, outlen) ←
    Crypto.encrypt_symmetric symkey None k AES_KEY_LEN
      (new_array (AES_KEY_LEN + AES_PAD_LEN)) None;
  match outlen with
  | None => Crash Indeterminate
  | Some n =>
      _ ← c_assert (n =? AES_KEY_LEN + AES_PAD_LEN)%N;
      buf ← memcpy buf INODE_AES_KEY_OFFSET encrypted 0 (AES_KEY_LEN + AES_PAD_LEN);
      cells_bytes buf
  end.

(** Lines 376-378: the size written into the inode record. *)
Definition new_isize (old : N) (n_descs : N) : N :=
  let covered := u64 (n_descs * DEFAULT_BLOCK_SIZE_IN_KB * 1024) in
  if (old <=? covered)%N then covered else old.

(** Lines 367-405: push the new inode record and make it the latest one. *)
Definition push_inode (dcname : bytes) (ir : InodeRecord) (n_descs : N)
    (new_blockmap : bytes) (w : W) : outcome (W * result unit) :=
  let '(i, latest) := index_at dcname (index_ (mid w)) in
  let w := set_mid (set_index i (mid w)) w in
  let prev := if decide (latest = []) then dcname else latest in
  payload ← inode_payload (symmetric_middleware_key_ (mid w))
              (new_isize (isize ir) n_descs) (key ir);
  '(w, r) ← composeRecord INODE (Some [prev; new_blockmap]) (Some payload) w;
  match r with
  | inl e => Ret (w, inl e)
  | inr (record, hashname) =>
      '(w, r) ← write_record dcname hashname record w;
      match r with
      | inl e => Ret (w, inl e)
      | inr _ =>
          Ret (set_mid (set_index (<[dcname := hashname]> (index_ (mid w))) (mid w)) w, inr tt)
      end
  end.

(** [Modify]. The comparison with [index_[dcname]] creates the entry it looks
    up, so the later test for a missing entry never succeeds. *)
Definition Modify (dcname : bytes) (descs : list buf_desc) (inode_hash aes_key sig : bytes)
    (w : W) : outcome (W * result unit) :=
  ok ← verify_args (mid w) dcname descs inode_hash aes_key sig;
  if negb ok then Ret (w, inl ERR_VERIFY)
  else
    let '(i, latest) := index_at dcname (index_ (mid w)) in
    let w := set_mid (set_index i (mid w)) w in
    if negb (bool_decide (inode_hash = latest)) then Ret (w, inl ERR_NOT_FOUND)
    else if negb (bool_decide (is_Some (index_ (mid w) !! dcname)))
    then Ret (w, inl ERR_NOT_FOUND)
    else
      '(w, r) ← load_records dcname latest aes_key w;
      match r with
      | inl e => Ret (w, inl e)
      | inr (ir, bm) =>
          '(w, r) ← push_data_blocks dcname (hash_to_latest_data_block bm) descs [] [] w;
          match r with
          | inl e => Ret (w, inl e)
          | inr blocks =>
              '(w, r) ← push_blockmap dcname ir bm blocks w;
              match r with
              | inl e => Ret (w, inl e)
              | inr new_blockmap => push_inode dcname ir (nlen descs) new_blockmap w
              end
          end
      end.

(** [DecryptAESKey]: the other arguments are not used. *)
Definition DecryptAESKey (encrypted_key : bytes) (m : DCFSMidSim) : outcome (result bytes) :=
  symkey ← cells_bytes (symmetric_middleware_key_ m);
  '(_, aes_key_buf, outlen) ←
    Crypto.decrypt_symmetric symkey None (Some <$> encrypted_key) (nlen encrypted_key)
      (new_array (AES_KEY_LEN + AES_PAD_LEN)) (Some 0%N);
  _ ← c_assert (bool_decide (outlen = Some AES_KEY_LEN));
  aes_key ← cells_bytes (take (N.to_nat AES_KEY_LEN) aes_key_buf);
  Ret (inr aes_key).

End mid.
End Mid.
