(* ===== verification/Backend.v ===== *)
(** * The storage backend: [StorageBackend] of [src/fs/backend.hpp] and
    [src/fs/backend.cpp]

    The class [Storage] is what inodes use of the backend; [StorageBackend]
    implements it on top of the middleware and a DataCapsule server. *)

From Stdlib Require Import NArith ZArith Lia.
From stdpp Require Import base list gmap.
From S2P Require Import Prelude Const Dir Crypto Capsule DcServer Middleware.

(** What [ReadFileMeta] hands back. *)
Record FileMeta := MkMeta {
  fm_recordname : bytes;
  fm_i_size : N;
  fm_aes_key : bytes;
  fm_blockmap_hash : bytes;
}.

(** ** The interface the inodes are written against *)
Class Storage (S : Type) := {
  ReadFileMeta : bytes → S → outcome (S * result FileMeta);
  ReadRecordData : bytes → bytes → N → S → outcome (S * result bytes);
  StoreRecord : bytes → list buf_desc → bytes → bytes → S → outcome (S * result unit);
  CreateNewFile : S → outcome (S * result (bytes * bytes));
}.

(** [payload_of s dc rec]: the payload of the record of that name;
    [storage_fault]: how the storage may stop the client. Reading returns all of it and changes no payload; it may fail. *)
Class StorageLaws (S : Type) `{Storage S} := {
  storage_fault : fault → Prop;
  payload_of : S → bytes → bytes → option bytes;
  ReadRecordData_law dc r n s :
    r ≠ [] → (n < 9223372036854775808)%N →
    wp storage_fault (ReadRecordData dc r n s) (λ '(s', res),
      (∀ dc' r', payload_of s' dc' r' = payload_of s dc' r') ∧
      ∀ data, res = inr data → payload_of s dc r = Some data ∧ (nlen data ≤ n)%N);
}.

Module Backend.
Section backend.
Context `{OpenSSL} `{Protobuf} `{RunEnv} {D : Type} `{DCServer D}.

(** The data members: the client's key pair and, behind the two pointers, the
    middleware and the server. *)
Record StorageBackend := MkBackend {
  client_key_pair_ : option EC_KEY;
  backend_world : world D;
}.

Definition set_world (w : world D) (b : StorageBackend) : StorageBackend :=
  MkBackend (client_key_pair_ b) w.

(** [StorageBackend(mnt_point)] on a server [d]: the first key pair of the run
    is the client's, the middleware draws the second and the first AES key. *)
Definition new_StorageBackend (d : D) : StorageBackend :=
  let k := Crypto.generate_ECDSA_key 0 in
  MkBackend k (MkWorld (Mid.new_DCFSMidSim k 1 0) d 0 1).

(** [ReadFileMeta]. A failed read of the inode record leaves an empty message
    behind, which the assertion on its hashes catches. *)
Definition ReadFileMeta (hashname : bytes) (b : StorageBackend) :
    outcome (StorageBackend * result FileMeta) :=
  let w := backend_world b in
  hash ← Crypto.hash256 hashname false;
  signature ← Crypto.sign (client_key_pair_ b) hash;
  match signature with
  | None => Ret (b, inl ERR_SIGN)
  | Some sig =>
      r ← Mid.GetInodeName hashname sig w;
      match r with
      | inl e => Ret (b, inl e)
      | inr recordname =>
          '(w, ret) ← Mid.read_record hashname recordname MAX_INODE_RECORD_SIZE w;
          let pdu := ParsePDU (match ret with inr data => data | inl _ => [] end) in
          _ ← c_assert (nlen (h_prevHash (pdu_header pdu)) =? 2)%N;
          blockmap_hash ← Mid.prevhash pdu 1;
          let payload := c_str (pdu_payload_in_transit pdu) in
          i_size ← mem_read payload 0 8;
          encrypted ← mem_read payload INODE_AES_KEY_OFFSET (AES_KEY_LEN + AES_PAD_LEN);
          k ← Mid.DecryptAESKey encrypted (mid w);
          match ret, k with
          | inr _, inr aes_key =>
              Ret (set_world w b, inr (MkMeta recordname (le_value i_size) aes_key blockmap_hash))
          | inl e, _ | _, inl e => Ret (set_world w b, inl e)
          end
      end
  end.

(** [ReadRecord]: a record as it is stored. *)
Definition ReadRecord (dcname recordname : bytes) (size : N) (b : StorageBackend) :
    outcome (StorageBackend * result bytes) :=
  '(w, ret) ← Mid.read_record dcname recordname size (backend_world b);
  match ret with
  | inl e => Ret (set_world w b, inl e)
  | inr data =>
      if (size <? nlen data)%N then Ret (set_world w b, inl ERR_BUF_TOO_SMALL)
      else Ret (set_world w b, inr data)
  end.

(** [ReadRecordData]: a record's payload. *)
Definition ReadRecordData (dcname recordname : bytes) (size : N) (b : StorageBackend) :
    outcome (StorageBackend * result bytes) :=
  let full_size := u64 (size + RECORD_HEADER_SIZE + SPARE_HASH_SPACE) in
  '(w, ret) ← Mid.read_record dcname recordname full_size (backend_world b);
  match ret with
  | inl e => Ret (set_world w b, inl e)
  | inr data =>
      let payload := pdu_payload_in_transit (ParsePDU data) in
      if (size <? nlen payload)%N then Ret (set_world w b, inl ERR_BUF_TOO_SMALL)
      else Ret (set_world w b, inr payload)
  end.

(** [WriteRecord] lays out the arguments that are signed: the length is summed
    up first, then everything is copied one behind the other. The middleware
    has its own code for that, [Mid.pack_args]. *)
Definition args_length (dcname : bytes) (descs : list buf_desc)
    (inode_recordname aes_key : bytes) : N :=
  foldl (λ len desc, u64 (len + desc_size desc))
    (u64 (nlen dcname + nlen inode_recordname + nlen aes_key)) descs.

(** [memcpy(args + offset, src, n); offset += n;] *)
Definition append (src : list cell) (n : N) (ao : list cell * N) : outcome (list cell * N) :=
  let '(args, offset) := ao in
  args ← memcpy args offset src 0 n; Ret (args, offset + n)%N.

Fixpoint append_descs (descs : list buf_desc) (ao : list cell * N) : outcome (list cell * N) :=
  match descs with
  | [] => Ret ao
  | desc :: descs' =>
      ao ← append (Some <$> desc_buf desc) (desc_size desc) ao; append_descs descs' ao
  end.

Definition pack_args (dcname : bytes) (descs : list buf_desc) (inode_recordname aes_key : bytes) :
    outcome bytes :=
  let args := new_array (args_length dcname descs inode_recordname aes_key) in
  ao ← append (Some <$> c_str dcname) (nlen dcname) (args, 0%N);
  ao ← append_descs descs ao;
  ao ← append (Some <$> c_str inode_recordname) (nlen inode_recordname) ao;
  ao ← append (Some <$> c_str aes_key) (nlen aes_key) ao;
  cells_bytes ao.1.

(** [StorageBackend::WriteRecord]: nothing to do for no blocks; otherwise
    sign the arguments and hand them to the middleware. *)
Definition WriteRecord (dcname : bytes) (descs : list buf_desc)
    (inode_recordname aes_key : bytes) (b : StorageBackend) :
    outcome (StorageBackend * result unit) :=
  if (nlen descs =? 0)%N then Ret (b, inr tt)
  else
    args ← pack_args dcname descs inode_recordname aes_key;
    hash ← Crypto.hash256 args false;
    signature ← Crypto.sign (client_key_pair_ b) hash;
    match signature with
    | None => Ret (b, inl ERR_SIGN)
    | Some sig =>
        '(w, r) ← Mid.Modify dcname descs inode_recordname aes_key sig (backend_world b);
        Ret (set_world w b, r)
    end.

Definition CreateNewFile (b : StorageBackend) :
    outcome (StorageBackend * result (bytes * bytes)) :=
  '(w, r) ← Mid.CreateNew (backend_world b); Ret (set_world w b, r).

(** [LoadRoot]: an empty directory, whatever is stored. *)
Definition LoadRoot : result Dir.Directory := inr Dir.new_Directory.

#[export] Instance Storage_backend : Storage StorageBackend := {|
  Backend.ReadFileMeta := ReadFileMeta;
  Backend.ReadRecordData := ReadRecordData;
  Backend.StoreRecord := WriteRecord;
  Backend.CreateNewFile := CreateNewFile;
|}.

(** ** The two layouts *)

Lemma args_length_sum descs a : foldl (λ len desc, u64 (len + desc_size desc)) (u64 a) descs =
  u64 (a + Mid.sum_sizes descs).
Proof.
  revert a. induction descs as [|d descs IH]; intros a; simpl; [by rewrite N.add_0_r|].
  assert (u64 (u64 a + desc_size d) = u64 (a + desc_size d)) as ->
    by (unfold u64; apply N.Div0.add_mod_idemp_l).
  rewrite IH. f_equal. lia.
Qed.

Lemma append_descs_pack descs args offset :
  append_descs descs (args, offset) = Mid.pack_descs args offset descs.
Proof.
  revert args offset. induction descs as [|d descs IH]; intros args offset; [done|]. simpl.
  destruct (memcpy _ _ _ _ _) as [args'|]; [|done]. m_run. apply IH.
Qed.

Lemma append_at src n args offset :
  append src n (args, offset) =
    (args ← memcpy args offset src 0 n; Ret (args, offset + n)%N).
Proof. done. Qed.

(** The backend signs what the middleware checks. *)
Lemma pack_args_same dcname descs inode_recordname aes_key :
  pack_args dcname descs inode_recordname aes_key = Mid.pack_args dcname descs inode_recordname aes_key.
Proof.
  unfold pack_args, Mid.pack_args, args_length. rewrite args_length_sum, append_at.
  destruct (memcpy _ _ _ _ _) as [args|]; [|done]. m_run. rewrite N.add_0_l, append_descs_pack.
  destruct (Mid.pack_descs _ _ _) as [[args' offset]|]; [|done]. m_run. rewrite append_at.
  destruct (memcpy args' _ _ _ _) as [args2|]; [|done]. m_run. rewrite append_at.
  by destruct (memcpy args2 _ _ _ _).
Qed.
End backend.
End Backend.
