(* ===== verification/Cache.v ===== *)
(** * Inodes and their record cache: [src/fs/inode.hpp], [src/fs/inode.cpp]

    A [RecordCache] holds the data blocks of one file in memory, loads missing
    blocks through the block map, and writes dirty blocks back on a flush. The
    [Inode] that hosts it knows the file's name, size and key. This file is
    the translation of both classes; [CacheSpec.v] proves them correct. *)

From Stdlib Require Import NArith ZArith Lia.
From stdpp Require Import base list.
From S2P Require Import Prelude Const Crypto Capsule Backend.

(** ** Data *)

Record cstat := MkStat { cached : bool; dirty : bool }.

(** A cache block is a null pointer or an array of [block_size + AES_PAD_LEN]
    cells. ([dcache_map_] is declared but never used.) *)
Record RecordCache := MkCache {
  dcache_stats_ : list cstat;
  dcache_blocks_ : list (option (list cell));
  bm_ : option (list cell);
}.

Record Inode := MkInode {
  i_hashname_ : bytes;
  i_ino_recordname_ : bytes;
  i_size_ : N;
  i_block_size_ : N;
  i_bm_cover_ : N;
  i_bm_recordname_ : bytes;
  i_cache_ : RecordCache;
  i_aes_key_ : bytes;
  i_ref_count_ : N;
}.

(** ** Getters *)
Definition Size (ino : Inode) : N := i_size_ ino.
Definition BlockSize (ino : Inode) : N := i_block_size_ ino.
Definition Hashname (ino : Inode) : bytes := i_hashname_ ino.
Definition BlockMapCover (ino : Inode) : N := i_bm_cover_ ino.
Definition BlockMapRecordname (ino : Inode) : bytes := i_bm_recordname_ ino.
Definition InodeRecordname (ino : Inode) : bytes := i_ino_recordname_ ino.
Definition AESKey (ino : Inode) : bytes := i_aes_key_ ino.

Definition set_cache (c : RecordCache) (ino : Inode) : Inode :=
  MkInode (i_hashname_ ino) (i_ino_recordname_ ino) (i_size_ ino) (i_block_size_ ino)
    (i_bm_cover_ ino) (i_bm_recordname_ ino) c (i_aes_key_ ino) (i_ref_count_ ino).
Definition set_size (n : N) (ino : Inode) : Inode :=
  MkInode (i_hashname_ ino) (i_ino_recordname_ ino) n (i_block_size_ ino)
    (i_bm_cover_ ino) (i_bm_recordname_ ino) (i_cache_ ino) (i_aes_key_ ino) (i_ref_count_ ino).
Definition set_ref (n : N) (ino : Inode) : Inode :=
  MkInode (i_hashname_ ino) (i_ino_recordname_ ino) (i_size_ ino) (i_block_size_ ino)
    (i_bm_cover_ ino) (i_bm_recordname_ ino) (i_cache_ ino) (i_aes_key_ ino) n.

(** [RecordCache(host)] reads the size and block size of its host, which are
    set before [i_cache_] is. *)
Definition new_RecordCache (size block_size : N) : outcome RecordCache :=
  q ← udiv size block_size;
  let n := N.to_nat (q + 1) in
  Ret (MkCache (replicate n (MkStat false false)) (replicate n None) None).

(** The constructor that loads an [InodeRecord], and the fresh one. *)
Definition new_Inode (hashname ino_recordname bm_recordname : bytes)
    (block_size_in_kb bm_cover i_size : N) (aes_key : bytes) : outcome Inode :=
  let bs := u64 (block_size_in_kb * 1024) in
  c ← new_RecordCache i_size bs;
  Ret (MkInode hashname ino_recordname i_size bs bm_cover bm_recordname c aes_key 0).

Definition fresh_Inode (hashname : bytes) (block_size_in_kb bm_cover : N)
    (aes_key : bytes) : outcome Inode :=
  let bs := u64 (block_size_in_kb * 1024) in
  c ← new_RecordCache 0 bs;
  Ret (MkInode hashname [] 0 bs bm_cover [] c aes_key 0).

Module RC.

(** ** Accesses to the vectors *)

(** The array [dcache_blocks_[i]] points to. *)
Definition block_at (c : RecordCache) (i : N) : outcome (list cell) :=
  p ← vec_get (dcache_blocks_ c) i;
  match p with Some b => Ret b | None => Crash NullDeref end.

Definition set_block (c : RecordCache) (i : N) (b : list cell) : outcome RecordCache :=
  bs ← vec_set (dcache_blocks_ c) i (Some b);
  Ret (MkCache (dcache_stats_ c) bs (bm_ c)).

Definition set_stat (c : RecordCache) (i : N) (f : cstat → cstat) : outcome RecordCache :=
  s ← vec_get (dcache_stats_ c) i;
  ss ← vec_set (dcache_stats_ c) i (f s);
  Ret (MkCache ss (dcache_blocks_ c) (bm_ c)).

Definition mark_dirty (s : cstat) : cstat := MkStat (cached s) true.
Definition mark_cached (s : cstat) : cstat := MkStat true (dirty s).

Definition push_slot (c : RecordCache) : RecordCache :=
  MkCache (dcache_stats_ c ++ [MkStat false false]) (dcache_blocks_ c ++ [None]) (bm_ c).

(** [memcpy(buf + boff, dcache_blocks_[i] + soff, n)] *)
Definition copy_out (c : RecordCache) (buf : list cell) (boff i soff n : N) :
    outcome (list cell) :=
  b ← block_at c i; memcpy buf boff b soff n.

(** [memcpy(dcache_blocks_[i] + doff, buf + boff, n)], then
    [dcache_stats_[i].dirty = true]. *)
Definition copy_in (buf : list cell) (boff : N) (c : RecordCache) (i doff n : N) :
    outcome RecordCache :=
  b ← block_at c i;
  b ← memcpy b doff buf boff n;
  c ← set_block c i b;
  set_stat c i mark_dirty.

Section cache.
Context `{OpenSSL} {S : Type} `{Storage S}.

(** [fillBmcache(blk_offset, cnt)]: both arguments are ignored. A failed read
    leaves the zeroed block map behind. *)
Definition fillBmcache (host : Inode) (blk_offset cnt : N) (c : RecordCache) (s : S) :
    outcome (S * RecordCache * result unit) :=
  match bm_ c with
  | Some _ => Ret (s, c, inr tt)
  | None =>
      if (0 <? nlen (BlockMapRecordname host))%N then
        let size := (HASHLEN_IN_BYTES * BlockMapCover host)%N in
        bm ← memset0 (new_array size) size;
        '(s, r) ← ReadRecordData (Hashname host) (BlockMapRecordname host) size s;
        match r with
        | inl e => Ret (s, MkCache (dcache_stats_ c) (dcache_blocks_ c) (Some bm), inl e)
        | inr data =>
            bm ← mem_write bm 0 (Some <$> data);
            Ret (s, MkCache (dcache_stats_ c) (dcache_blocks_ c) (Some bm), inr tt)
        end
      else Ret (s, c, inr tt)
  end.

(** The static array [zero_str]. *)
Definition zero_str : list cell := replicate (N.to_nat HASHLEN_IN_BYTES) (Some Byte.x00).

(** [bmCheck(blk_idx, &recordname)]: [Some] name for [true]. *)
Definition bmCheck (host : Inode) (c : RecordCache) (blk_idx : N) : outcome (option bytes) :=
  match bm_ c with
  | None => Ret None
  | Some bm =>
      if (BlockMapCover host <=? blk_idx)%N then Ret None
      else
        ret ← mem_read bm (blk_idx * HASHLEN_IN_BYTES) HASHLEN_IN_BYTES;
        b ← strcmp_eq ret zero_str;
        if (b : bool) then Ret None
        else name ← cells_bytes ret; Ret (Some name)
  end.

(** Lines 286-316: make block [blk_idx] present. The block is allocated before
    the read, and stays allocated but not cached if the read fails. *)
Definition fill_block (host : Inode) (blk_idx : N) (c : RecordCache) (s : S) :
    outcome (S * RecordCache * result unit) :=
  let block_size := BlockSize host in
  st ← vec_get (dcache_stats_ c) blk_idx;
  if cached st then Ret (s, c, inr tt)
  else
    let blk := new_array (block_size + AES_PAD_LEN) in
    c ← set_block c blk_idx blk;
    name ← bmCheck host c blk_idx;
    match name with
    | Some recordname =>
        '(s, r) ← ReadRecordData (Hashname host) recordname (block_size + AES_PAD_LEN) s;
        match r with
        | inl e => Ret (s, c, inl e)
        | inr data =>
            _ ← c_assert (nlen data <=? block_size + AES_PAD_LEN)%N;
            '(_, blk, _) ←
              Crypto.decrypt_symmetric (c_str (AESKey host)) None (Some <$> data) (nlen data) blk (Some 0%N);
            c ← set_block c blk_idx blk;
            c ← set_stat c blk_idx mark_cached;
            Ret (s, c, inr tt)
        end
    | None =>
        blk ← memset0 blk block_size;
        c ← set_block c blk_idx blk;
        c ← set_stat c blk_idx mark_cached;
        Ret (s, c, inr tt)
    end.

(** Lines 281-316: one round of the loop. *)
Definition fill_step (host : Inode) (blk_idx : N) (sc : S * RecordCache) :
    outcome ((S * RecordCache) + (S * RecordCache * errno)) :=
  let '(s, c) := sc in
  let c := if (nlen (dcache_stats_ c) <=? blk_idx)%N then push_slot c else c in
  '(s, c, r) ← fill_block host blk_idx c s;
  match r with
  | inl e => Ret (inr (s, c, e))
  | inr _ => Ret (inl (s, c))
  end.

Definition fillDcache (host : Inode) (offset size : N) (c : RecordCache) (s : S) :
    outcome (S * RecordCache * result unit) :=
  let block_size := BlockSize host in
  st_block ← udiv offset block_size;
  ed_block ← udiv (u64 (offset + size)) block_size;
  let st_block := if (nlen (dcache_stats_ c) <? st_block)%N
                  then nlen (dcache_stats_ c) else st_block in
  '(s, c, r) ← fillBmcache host st_block (u64 (ed_block + 18446744073709551617 - st_block)) c s;
  match r with
  | inl e => Ret (s, c, inl e)
  | inr _ =>
      r ← for_loop (iters st_block (ed_block + 1)) st_block (fill_step host) (s, c);
      match r with
      | inl (s, c) => Ret (s, c, inr tt)
      | inr (s, c, e) => Ret (s, c, inl e)
      end
  end.

(** Lines 197-212: copy the blocks [st_block] to [ed_block] to the caller's
    memory [buf]. *)
Definition read_copy (c : RecordCache) (buf : list cell)
    (block_size st_block ed_block st_offset ed_offset size : N) : outcome (list cell) :=
  if (st_block =? ed_block)%N then
    copy_out c buf 0 st_block st_offset size
  else if (st_block + 1 =? ed_block)%N then
    buf ← copy_out c buf 0 st_block st_offset (block_size - st_offset);
    copy_out c buf (block_size - st_offset) ed_block 0 (ed_offset + 1)
  else
    let cur := (block_size - st_offset)%N in
    buf ← copy_out c buf 0 st_block st_offset (block_size - st_offset);
    '(buf, cur) ← for_each (iters (st_block + 1) ed_block) (st_block + 1)
      (λ blk_idx '(buf, cur),
         buf ← copy_out c buf cur blk_idx 0 block_size;
         Ret (buf, cur + block_size)%N) (buf, cur);
    copy_out c buf cur ed_block 0 (ed_offset + 1).

Definition Read (host : Inode) (buf : list cell) (offset size : N)
    (c : RecordCache) (s : S) : outcome (S * RecordCache * list cell * result unit) :=
  let block_size := BlockSize host in
  _ ← c_assert (0 <? size)%N;
  st_block ← udiv offset block_size;
  ed_block ← udiv (u64 (offset + size)) block_size;
  st_offset ← umod offset block_size;
  ed_offset ← umod (u64 (offset + size)) block_size;
  '(s, c, r) ← fillDcache host offset size c s;
  match r with
  | inl e => Ret (s, c, buf, inl e)
  | inr _ =>
      buf ← read_copy c buf block_size st_block ed_block st_offset ed_offset size;
      Ret (s, c, buf, inr tt)
  end.

(** Lines 231-252: copy the caller's memory to the blocks and mark them
    dirty. *)
Definition write_copy (buf : list cell) (c : RecordCache)
    (block_size st_block ed_block st_offset ed_offset size : N) : outcome RecordCache :=
  if (st_block =? ed_block)%N then
    copy_in buf 0 c st_block st_offset size
  else if (st_block + 1 =? ed_block)%N then
    c ← copy_in buf 0 c st_block st_offset (block_size - st_offset);
    copy_in buf (block_size - st_offset) c ed_block 0 (ed_offset + 1)
  else
    let cur := (block_size - st_offset)%N in
    c ← copy_in buf 0 c st_block st_offset (block_size - st_offset);
    '(c, cur) ← for_each (iters (st_block + 1) ed_block) (st_block + 1)
      (λ blk_idx '(c, cur),
         c ← copy_in buf cur c blk_idx 0 block_size;
         Ret (c, cur + block_size)%N) (c, cur);
    copy_in buf cur c ed_block 0 (ed_offset + 1).

(** [RecordCache::Write]: the result of [fillDcache] is returned, but the copy
    goes ahead even when it is an error. *)
Definition Write (host : Inode) (buf : list cell) (offset size : N)
    (c : RecordCache) (s : S) : outcome (S * RecordCache * result unit) :=
  let block_size := BlockSize host in
  _ ← c_assert (0 <? size)%N;
  st_block ← udiv offset block_size;
  ed_block ← udiv (u64 (offset + size)) block_size;
  st_offset ← umod offset block_size;
  ed_offset ← umod (u64 (offset + size)) block_size;
  '(s, c, r) ← fillDcache host offset size c s;
  c ← write_copy buf c block_size st_block ed_block st_offset ed_offset size;
  Ret (s, c, r).

(** Lines 381-401: encrypt the dirty blocks; [inr] is the early return. *)
Definition flush_step (host : Inode) (c : RecordCache) (blk_idx : N)
    (descs : list buf_desc) : outcome (list buf_desc + errno) :=
  let block_size := BlockSize host in
  st ← vec_get (dcache_stats_ c) blk_idx;
  if dirty st then
    b ← block_at c blk_idx;
    '(rc, encrypted_buf, outlen) ←
      Crypto.encrypt_symmetric (c_str (AESKey host)) None b block_size
        (new_array (block_size + AES_PAD_LEN)) (Some 0%N);
    if (rc <=? 0)%Z then Ret (inr ERR_CRYPTO)
    else
      match outlen with
      | None => Crash Indeterminate
      | Some n =>
          out ← mem_read encrypted_buf 0 n;
          out ← cells_bytes out;
          Ret (inl (descs ++ [MkDesc out (u64 (blk_idx * block_size))]))
      end
  else Ret (inl descs).

(** Lines 416-421: drop the caches. *)
Definition drop_caches (c : RecordCache) : RecordCache :=
  MkCache ((λ _, MkStat false false) <$> dcache_stats_ c)
          ((λ _, None) <$> dcache_blocks_ c) (bm_ c).

Definition FlushCache (host : Inode) (c : RecordCache) (s : S) :
    outcome (S * RecordCache * result unit) :=
  r ← for_loop (length (dcache_stats_ c)) 0 (flush_step host c) [];
  match r with
  | inr e => Ret (s, c, inl e)
  | inl descs =>
      '(s, r) ← StoreRecord (Hashname host) descs (InodeRecordname host) (AESKey host) s;
      match r with
      | inl e => Ret (s, c, inl e)
      | inr _ => Ret (s, drop_caches c, inr tt)
      end
  end.

End cache.
End RC.

(** ** [Inode] *)
Module Ino.
Section ino.
Context `{OpenSSL} {S : Type} `{Storage S}.

Definition Ref (ino : Inode) : Inode := set_ref (u64 (i_ref_count_ ino + 1)) ino.

(** The result of the flush is dropped. *)
Definition Unref (ino : Inode) (s : S) : outcome (S * Inode * N) :=
  _ ← c_assert (0 <? i_ref_count_ ino)%N;
  let ino := set_ref (i_ref_count_ ino - 1) ino in
  if (i_ref_count_ ino =? 0)%N then
    '(s, c, _) ← RC.FlushCache ino (i_cache_ ino) s;
    Ret (s, set_cache c ino, i_ref_count_ ino)
  else Ret (s, ino, i_ref_count_ ino).

(** [Inode::Read]: [None] means that [*read_size] is not written. *)
Definition Read (buf : list cell) (offset size : N) (ino : Inode) (s : S) :
    outcome (S * Inode * list cell * result (option N)) :=
  if (i_size_ ino <=? offset)%N then Ret (s, ino, buf, inr None)
  else
    let size := if (i_size_ ino <? u64 (offset + size))%N
                then (i_size_ ino - offset)%N else size in
    '(s, c, buf, r) ← RC.Read ino buf offset size (i_cache_ ino) s;
    Ret (s, set_cache c ino, buf,
         match r with inl e => inl e | inr _ => inr (Some size) end).

(** [Inode::Write]: a write behind the end of the file is moved to the end.
    The result carries [*write_size]. *)
Definition Write (buf : list cell) (offset size : N) (ino : Inode) (s : S) :
    outcome (S * Inode * result N) :=
  let offset := if (i_size_ ino <=? offset)%N then i_size_ ino else offset in
  '(s, c, r) ← RC.Write ino buf offset size (i_cache_ ino) s;
  let ino := set_cache c ino in
  match r with
  | inl e => Ret (s, ino, inl e)
  | inr _ =>
      let ino := if (i_size_ ino <? u64 (offset + size))%N
                 then set_size (u64 (offset + size)) ino else ino in
      Ret (s, ino, inr size)
  end.

End ino.
End Ino.
