(* ===== verification/CacheSpec.v ===== *)
(** * The record cache is a correct view of a file

    The contents of a file, as an inode sees it, is a function from byte
    positions to bytes: a cached block answers for its positions, the block
    map and the stored records for the others. Filling the cache does not
    change the contents; [Read] copies them out; [Write] changes them on the
    written range; [FlushCache] hands every dirty block to the backend. *)

From Stdlib Require Import NArith ZArith Lia.
From stdpp Require Import base list.
From S2P Require Import Prelude Const Crypto Capsule DcServer Backend Cache.

(** ** Block arithmetic *)
Section block_arithmetic.
Local Open Scope N_scope.

Lemma block_step bs a j :
  bs ≠ 0 → a `mod` bs + j < bs → (a + j) / bs = a / bs ∧ (a + j) `mod` bs = a `mod` bs + j.
Proof.
  intros Hbs Hj. pose proof (N.div_mod a bs Hbs).
  split; symmetry; [eapply N.div_unique|apply (N.mod_unique _ _ (a / bs))]; try exact Hj; lia.
Qed.

Lemma block_bound bs a : bs ≠ 0 → a `mod` bs < bs.
Proof. apply N.mod_lt. Qed.

Lemma block_split bs a : bs ≠ 0 → a = bs * (a / bs) + a `mod` bs.
Proof. apply N.div_mod. Qed.

Lemma block_unique bs q r : r < bs → (bs * q + r) / bs = q ∧ (bs * q + r) `mod` bs = r.
Proof.
  intros Hr. split; symmetry; [by eapply N.div_unique|by eapply N.mod_unique].
Qed.

(** The end of a block is the start of the next one. *)
Lemma block_next bs a :
  bs ≠ 0 → (a + (bs - a `mod` bs)) / bs = a / bs + 1 ∧ (a + (bs - a `mod` bs)) `mod` bs = 0.
Proof.
  intros Hbs. pose proof (block_split bs a Hbs). pose proof (block_bound bs a Hbs).
  replace (a + (bs - a `mod` bs)) with (bs * (a / bs + 1) + 0) by nia.
  apply block_unique. lia.
Qed.
End block_arithmetic.

(** ** The contents of a file *)
Section view.
Context `{OpenSSL} {S : Type} `{StorageLaws S}.
Local Open Scope N_scope.

(** The cell of the cache that stands for position [p]. *)
Definition file_cell (bs : N) (c : RecordCache) (p : N) : option cell :=
  b ← dcache_blocks_ c !! N.to_nat (p / bs); b' ← b; b' !! N.to_nat (p `mod` bs).

Definition is_cached (c : RecordCache) (i : N) : bool :=
  match dcache_stats_ c !! N.to_nat i with Some st => cached st | None => false end.
Definition is_dirty (c : RecordCache) (i : N) : bool :=
  match dcache_stats_ c !! N.to_nat i with Some st => dirty st | None => false end.

(** The block map that is loaded or would be; a file without one has an
    empty map. *)
Definition block_map (h : Inode) (c : RecordCache) (s : S) : option (list cell) :=
  match bm_ c with
  | Some bm => Some bm
  | None =>
      if decide (BlockMapRecordname h = []) then Some []
      else
        data ← payload_of s (Hashname h) (BlockMapRecordname h);
        let size := HASHLEN_IN_BYTES * BlockMapCover h in
        if size <? nlen data then None
        else Some (splice (replicate (N.to_nat size) (Some Byte.x00)) 0 (Some <$> data))
  end.

(** The name the map holds for block [i]; a hash whose first byte is 0 counts
    as no name. *)
Definition entry (h : Inode) (bm : list cell) (i : N) : option bytes :=
  if BlockMapCover h <=? i then None
  else
    match mapM id (slice bm (N.to_nat (i * HASHLEN_IN_BYTES)) (N.to_nat HASHLEN_IN_BYTES)) with
    | Some (x :: name) => if decide (x = Byte.x00) then None else Some (x :: name)
    | _ => None
    end.

Definition backing_byte (h : Inode) (c : RecordCache) (s : S) (p : N) : option byte :=
  bm ← block_map h c s;
  match entry h bm (p / BlockSize h) with
  | None => Some Byte.x00
  | Some name =>
      data ← payload_of s (Hashname h) name;
      m ← Crypto.plaintext (c_str (AESKey h)) data;
      m !! N.to_nat (p `mod` BlockSize h)
  end.

(** The byte at position [p]; [None] if it cannot be determined. *)
Definition view (h : Inode) (c : RecordCache) (s : S) (p : N) : option byte :=
  if is_cached c (p / BlockSize h) then mjoin (file_cell (BlockSize h) c p)
  else backing_byte h c s p.

(** [v'] knows every byte that [v] knows. *)
Definition view_le (v v' : N → option byte) : Prop :=
  ∀ p b, v p = Some b → v' p = Some b.

#[export] Instance view_le_preorder : PreOrder view_le.
Proof. split; [by intros v p b|]. intros u v w Huv Hvw p b Hp. auto. Qed.

(** ** Well-formed caches *)
Record host_wf (h : Inode) : Prop := {
  hw_block_size : BlockSize h ≠ 0;
  hw_block_size_bound : BlockSize h < 4294967296;
  hw_cover_bound : BlockMapCover h < 4294967296;
  hw_key : (16 ≤ length (AESKey h))%nat;
}.

Record rc_wf (h : Inode) (c : RecordCache) : Prop := {
  wf_length : length (dcache_blocks_ c) = length (dcache_stats_ c);
  wf_block i b : dcache_blocks_ c !! i = Some (Some b) →
    length b = N.to_nat (BlockSize h + AES_PAD_LEN);
  wf_cached i st : dcache_stats_ c !! i = Some st → cached st = true →
    ∃ b, dcache_blocks_ c !! i = Some (Some b);
  wf_bm bm : bm_ c = Some bm →
    length bm = N.to_nat (HASHLEN_IN_BYTES * BlockMapCover h) ∧ Forall is_Some bm;
}.

(** A new cache is well-formed and empty. *)
Lemma new_RecordCache_wf size h :
  host_wf h →
  wp no_fault (new_RecordCache size (BlockSize h)) (λ c, rc_wf h c ∧ ∀ i, is_cached c i = false).
Proof.
  intros Hh. unfold new_RecordCache. rewrite udiv_ok by apply Hh. simpl. split; [split|]; simpl.
  - by rewrite !length_replicate.
  - intros i b Hb. by apply lookup_replicate in Hb as [[=] _].
  - intros i st Hst. by apply lookup_replicate in Hst as [-> _].
  - done.
  - intros i. unfold is_cached. simpl.
    destruct (replicate _ _ !! _) eqn:E; [|done]. by apply lookup_replicate in E as [-> _].
Qed.

(** [extends]: the cache knows at least what it knew, the stored payloads are
    unchanged, and the same blocks are dirty. *)
Record extends (h : Inode) (c : RecordCache) (s : S) (c' : RecordCache) (s' : S) : Prop := {
  ex_wf : rc_wf h c';
  ex_payload dc r : payload_of s' dc r = payload_of s dc r;
  ex_view : view_le (view h c s) (view h c' s');
  ex_dirty i : is_dirty c' i = is_dirty c i;
  ex_cached i : is_cached c i = true → is_cached c' i = true;
  ex_length : nlen (dcache_stats_ c) <= nlen (dcache_stats_ c');
}.

Lemma extends_refl h c s : rc_wf h c → extends h c s c s.
Proof. by split. Qed.

Lemma extends_trans h c s c1 s1 c2 s2 :
  extends h c s c1 s1 → extends h c1 s1 c2 s2 → extends h c s c2 s2.
Proof.
  intros [_ P V Di Ca L] [W P' V' Di' Ca' L']. split; [done| | | |by auto|by etrans].
  - intros dc r. by rewrite P'.
  - by etrans.
  - intros i. by rewrite Di'.
Qed.

(** ** The block map *)

Lemma strcmp_zero x (name : bytes) :
  strcmp_eq (Some <$> x :: name) RC.zero_str = Ret (bool_decide (x = Byte.x00)).
Proof.
  unfold RC.zero_str. change (N.to_nat HASHLEN_IN_BYTES) with 32%nat. simpl.
  destruct (decide (x = Byte.x00)) as [->|Hx]; [done|].
  by rewrite bool_decide_eq_false_2.
Qed.

Lemma all_some (l : list cell) : Forall is_Some l → ∃ b : bytes, l = Some <$> b.
Proof.
  induction 1 as [|x l [b ->] _ [bs ->]]; [by exists []|]. by exists (b :: bs).
Qed.

Lemma mapM_id_some (b : bytes) : mapM id (Some <$> b) = Some b.
Proof. apply mapM_fmap_Some; auto. Qed.

Lemma entry_nil h i : entry h [] i = None.
Proof.
  unfold entry, slice. rewrite drop_nil, take_nil. by destruct (_ <=? _).
Qed.

Lemma bmCheck_spec h c i :
  rc_wf h c →
  RC.bmCheck h c i = Ret (bm ← bm_ c; entry h bm i).
Proof.
  intros Hc. unfold RC.bmCheck, entry. destruct (bm_ c) as [bm|] eqn:Hbm; [|done]. simpl.
  destruct (_ <=? i) eqn:Hi; [done|]. apply N.leb_gt in Hi.
  destruct (wf_bm h c Hc bm Hbm) as [Hlen Hsome].
  destruct (all_some bm Hsome) as [b ->]. rewrite length_fmap in Hlen.
  unfold HASHLEN_IN_BYTES in *.
  rewrite mem_read_ok by (unfold nlen; rewrite length_fmap; lia). simpl.
  assert (∃ x name, slice b (N.to_nat (i * 32)) (N.to_nat 32) = x :: name) as (x & name & Hs).
  { destruct (slice b _ _) as [|x name] eqn:E; [|by eauto].
    apply (f_equal length) in E. rewrite length_slice in E by lia. simpl in E. lia. }
  assert (slice (Some <$> b) (N.to_nat (i * 32)) (N.to_nat 32) = Some <$> x :: name) as ->.
  { rewrite <-Hs. unfold slice. by rewrite fmap_take, fmap_drop. }
  rewrite strcmp_zero, mapM_id_some. simpl.
  destruct (decide (x = Byte.x00)) as [->|Hx]; [done|].
  rewrite bool_decide_eq_false_2 by done.
  pose proof (cells_bytes_ok (x :: name)) as Hcb. simpl in Hcb. by rewrite Hcb.
Qed.

(** The block map has been loaded, or there is none. *)
Definition bm_ready (h : Inode) (c : RecordCache) : Prop :=
  bm_ c = None → BlockMapRecordname h = [].

Lemma memset0_full n :
  memset0 (new_array n) n = Ret (replicate (N.to_nat n) (Some Byte.x00)).
Proof.
  unfold memset0. rewrite mem_write_ok.
  2: { unfold nlen. rewrite length_new_array, length_replicate. lia. }
  f_equal. change (N.to_nat 0) with 0%nat. rewrite splice_0, length_replicate.
  rewrite drop_ge by (rewrite length_new_array; lia). by rewrite app_nil_r.
Qed.

Definition set_bm (bm : list cell) (c : RecordCache) : RecordCache :=
  MkCache (dcache_stats_ c) (dcache_blocks_ c) (Some bm).

Lemma set_bm_wf h c bm :
  rc_wf h c → length bm = N.to_nat (HASHLEN_IN_BYTES * BlockMapCover h) →
  Forall is_Some bm → rc_wf h (set_bm bm c).
Proof. intros [] Hl Hs. split; simpl; try done. by intros ? [= <-]. Qed.

(** A successful [fillBmcache] loads the map; a failed one leaves a map of
    zeros. Either way the blocks are not touched. *)
Lemma fillBmcache_spec h o n c s :
  host_wf h → rc_wf h c →
  wp (storage_fault (S := S)) (RC.fillBmcache h o n c s) (λ '(s', c', r),
    match r with
    | inr _ => extends h c s c' s' ∧ bm_ready h c'
    | inl _ => rc_wf h c' ∧
        c' = set_bm (replicate (N.to_nat (HASHLEN_IN_BYTES * BlockMapCover h)) (Some Byte.x00)) c ∧
        bm_ c = None ∧ BlockMapRecordname h ≠ [] ∧
        ∀ dc r, payload_of s' dc r = payload_of s dc r
    end).
Proof.
  intros Hh Hc. unfold RC.fillBmcache. destruct (bm_ c) as [bm|] eqn:Hbm.
  { simpl. split; [by apply extends_refl|]. unfold bm_ready. congruence. }
  destruct (BlockMapRecordname h) as [|x rn] eqn:Hrn.
  { simpl. split; [by apply extends_refl|]. by intros _. }
  replace (0 <? nlen (x :: rn)) with true by (symmetry; apply N.ltb_lt; unfold nlen; simpl; lia).
  rewrite memset0_full. simpl. rewrite <-Hrn.
  set (size := (HASHLEN_IN_BYTES * BlockMapCover h)) in *.
  set (zeros := replicate (N.to_nat size) (Some Byte.x00)).
  assert (rc_wf h (set_bm zeros c)) as Hzwf.
  { apply set_bm_wf; [done|apply length_replicate|apply Forall_replicate; by eexists]. }
  eapply wp_bind.
  { apply (ReadRecordData_law (Hashname h) (BlockMapRecordname h) size s).
    - by rewrite Hrn.
    - pose proof (hw_cover_bound h Hh). unfold size, HASHLEN_IN_BYTES. lia. }
  intros [s' [e|data]] [Hpl Hread]; [simpl; by rewrite Hrn|].
  destruct (Hread data eq_refl) as [Hdata Hle].
  rewrite mem_write_ok.
  2: { rewrite nlen_fmap. unfold nlen, zeros in *. rewrite length_replicate. lia. }
  simpl. change (N.to_nat 0) with 0%nat.
  assert (length (splice zeros 0 (Some <$> data)) = N.to_nat size) as Hlen.
  { rewrite length_splice; unfold zeros; rewrite ?length_replicate, ?length_fmap; [done|].
    unfold nlen in Hle. lia. }
  split; [|done]. split; simpl; try done.
  - apply set_bm_wf; [done..|]. unfold splice. rewrite !Forall_app.
    split; [apply Forall_take, Forall_replicate; by eexists|]. split.
    + apply Forall_fmap, Forall_true. by eexists.
    + apply Forall_drop, Forall_replicate. by eexists.
  - intros p b. unfold view, is_cached. simpl. destruct (match _ with Some _ => _ | _ => _ end); [done|].
    unfold backing_byte, block_map. simpl. rewrite Hbm, Hrn, decide_False, <-Hrn, Hdata by done.
    simpl. fold size. apply N.ltb_ge in Hle as ->. fold zeros. simpl.
    destruct (entry _ _ _); [|done]. by rewrite Hpl.
Qed.

(** ** Updates of one block *)

Definition put_block (c : RecordCache) (i : N) (b : list cell) : RecordCache :=
  MkCache (dcache_stats_ c) (<[N.to_nat i := Some b]> (dcache_blocks_ c)) (bm_ c).
Definition put_stat (c : RecordCache) (i : N) (f : cstat → cstat) : RecordCache :=
  MkCache (alter f (N.to_nat i) (dcache_stats_ c)) (dcache_blocks_ c) (bm_ c).

Lemma set_block_ok c i b :
  i < nlen (dcache_blocks_ c) → RC.set_block c i b = Ret (put_block c i b).
Proof. intros Hi. unfold RC.set_block. by rewrite vec_set_ok. Qed.

Lemma set_stat_ok c i f :
  i < nlen (dcache_stats_ c) → RC.set_stat c i f = Ret (put_stat c i f).
Proof.
  intros Hi. unfold RC.set_stat, put_stat.
  destruct (lookup_lt_is_Some_2 (dcache_stats_ c) (N.to_nat i)) as [st Hst].
  { unfold nlen in Hi. lia. }
  rewrite (vec_get_ok _ _ _ Hst). simpl. rewrite vec_set_ok by done. simpl.
  do 2 f_equal. apply list_eq. intros j. unfold nlen in Hi.
  destruct (decide (N.to_nat i = j)) as [<-|].
  - rewrite list_lookup_alter_eq, list_lookup_insert_eq by lia. by rewrite Hst.
  - by rewrite list_lookup_alter_ne, list_lookup_insert_ne.
Qed.

Lemma put_block_twice c i b b' : put_block (put_block c i b) i b' = put_block c i b'.
Proof. unfold put_block. simpl. by rewrite list_insert_insert_eq. Qed.

Lemma put_block_wf h c i b :
  rc_wf h c → length b = N.to_nat (BlockSize h + AES_PAD_LEN) → rc_wf h (put_block c i b).
Proof.
  intros [] Hb. split; simpl; [by rewrite length_insert| | |done].
  - intros j b'. rewrite list_lookup_insert. case_decide; [by intros [= <-]|eauto].
  - intros j st Hj Hst. rewrite list_lookup_insert. case_decide; eauto.
Qed.

Lemma put_stat_wf h c i f :
  rc_wf h c →
  (∀ st, cached (f st) = true → cached st = true ∨
     ∃ b, dcache_blocks_ c !! N.to_nat i = Some (Some b)) →
  rc_wf h (put_stat c i f).
Proof.
  intros [] Hf. split; simpl; [by rewrite length_alter|done| |done].
  intros j st. rewrite list_lookup_alter. case_decide; [|eauto]. subst.
  destruct (dcache_stats_ c !! N.to_nat i) as [st'|] eqn:E; [|done].
  simpl. intros [= <-] Hst. destruct (Hf st' Hst); eauto.
Qed.

Lemma file_cell_put_block bs c i b p :
  i < nlen (dcache_blocks_ c) →
  file_cell bs (put_block c i b) p =
    if decide (p / bs = i) then b !! N.to_nat (p `mod` bs) else file_cell bs c p.
Proof.
  intros Hi. unfold file_cell, nlen in *. simpl. rewrite list_lookup_insert.
  repeat case_decide; simpl; try done; lia.
Qed.

Lemma file_cell_put_stat bs c i f p : file_cell bs (put_stat c i f) p = file_cell bs c p.
Proof. done. Qed.

Lemma is_cached_put_stat c i f j :
  is_cached (put_stat c i f) j =
    if decide (i = j) then
      match dcache_stats_ c !! N.to_nat j with Some st => cached (f st) | None => false end
    else is_cached c j.
Proof.
  unfold is_cached. simpl. rewrite list_lookup_alter.
  repeat case_decide; subst; try done; [|lia]. by destruct (_ !! _).
Qed.

Lemma is_dirty_put_stat c i f j :
  is_dirty (put_stat c i f) j =
    if decide (i = j) then
      match dcache_stats_ c !! N.to_nat j with Some st => dirty (f st) | None => false end
    else is_dirty c j.
Proof.
  unfold is_dirty. simpl. rewrite list_lookup_alter.
  repeat case_decide; subst; try done; [|lia]. by destruct (_ !! _).
Qed.

Lemma backing_ext h c s c' s' p :
  bm_ c' = bm_ c → (∀ dc r, payload_of s' dc r = payload_of s dc r) →
  backing_byte h c' s' p = backing_byte h c s p.
Proof.
  intros Hbm Hpl. unfold backing_byte, block_map. rewrite Hbm.
  destruct (bm_ c) as [bm|]; simpl; [destruct (entry _ _ _); by rewrite ?Hpl|].
  destruct (decide _); simpl; [destruct (entry _ _ _); by rewrite ?Hpl|].
  rewrite Hpl. destruct (payload_of s _ (BlockMapRecordname h)); simpl; [|done].
  destruct (_ <? _); simpl; [done|]. destruct (entry _ _ _); by rewrite ?Hpl.
Qed.

(** A block that is not cached can be overwritten in memory... *)
Lemma extends_scratch h c s i b s' :
  rc_wf h c → is_cached c i = false → i < nlen (dcache_blocks_ c) →
  length b = N.to_nat (BlockSize h + AES_PAD_LEN) →
  (∀ dc r, payload_of s' dc r = payload_of s dc r) →
  extends h c s (put_block c i b) s'.
Proof.
  intros Hc Hi Hlt Hb Hpl. split; try done; [by apply put_block_wf|].
  intros p x. unfold view. change (is_cached (put_block c i b)) with (is_cached c).
  destruct (is_cached c (p / BlockSize h)) eqn:E.
  - rewrite file_cell_put_block by done. rewrite decide_False; [done|congruence].
  - by rewrite (backing_ext h c s _ s').
Qed.

(** ... and becomes cached once it holds the bytes of the backing store. *)
Lemma extends_cached h c s i b s' :
  rc_wf h c → is_cached c i = false → i < nlen (dcache_stats_ c) →
  length b = N.to_nat (BlockSize h + AES_PAD_LEN) →
  (∀ dc r, payload_of s' dc r = payload_of s dc r) →
  (∀ p x, p / BlockSize h = i → backing_byte h c s p = Some x →
     b !! N.to_nat (p `mod` BlockSize h) = Some (Some x)) →
  extends h c s (put_stat (put_block c i b) i RC.mark_cached) s' ∧
  is_cached (put_stat (put_block c i b) i RC.mark_cached) i = true.
Proof.
  intros Hc Hi Hlt Hb Hpl Hback.
  assert (i < nlen (dcache_blocks_ c)) as Hlt'.
  { unfold nlen in *. by rewrite (wf_length h c Hc). }
  destruct (lookup_lt_is_Some_2 (dcache_stats_ c) (N.to_nat i)) as [st Hst].
  { unfold nlen in Hlt. lia. }
  assert (∀ j, is_cached (put_stat (put_block c i b) i RC.mark_cached) j =
    if decide (i = j) then true else is_cached c j) as Hcached.
  { intros j. rewrite is_cached_put_stat. case_decide; [subst; simpl; by rewrite Hst|done]. }
  split; [split|]; try done.
  - apply put_stat_wf; [by apply put_block_wf|]. intros st0 _. right. exists b. simpl.
    rewrite list_lookup_insert, decide_True; [done|]. split; [done|]. unfold nlen in Hlt'. lia.
  - intros p x. unfold view. rewrite Hcached, file_cell_put_stat, file_cell_put_block by done.
    destruct (decide (i = p / BlockSize h)) as [Hip|Hne].
    + rewrite <-Hip, Hi, decide_True by done. intros Hx. by rewrite (Hback p x).
    + rewrite (decide_False (P := _ = i)) by done.
      destruct (is_cached c _); [done|]. by rewrite (backing_ext h c s _ s').
  - intros j. rewrite is_dirty_put_stat. case_decide; [|done]. subst. simpl.
    unfold is_dirty. by rewrite Hst.
  - intros j Hj. rewrite Hcached. by case_decide.
  - simpl. unfold nlen. by rewrite length_alter.
  - rewrite Hcached. by rewrite decide_True.
Qed.

(** ** Loading blocks *)
Context `{!OpenSSLLaws}.

(** The byte [backing_byte] sees at a position of block [i], once the map has
    been consulted. *)
Lemma backing_entry h c s p :
  bm_ready h c →
  backing_byte h c s p =
    match (bm ← bm_ c; entry h bm (p / BlockSize h)) with
    | None => Some Byte.x00
    | Some name =>
        data ← payload_of s (Hashname h) name;
        m ← Crypto.plaintext (c_str (AESKey h)) data;
        m !! N.to_nat (p `mod` BlockSize h)
    end.
Proof.
  intros Hr. unfold backing_byte, block_map. destruct (bm_ c) as [bm|] eqn:Hbm; [done|].
  rewrite decide_True by auto. simpl. by rewrite entry_nil.
Qed.

Lemma entry_nonempty h bm i name : entry h bm i = Some name → name ≠ [].
Proof. unfold entry. intros He. repeat case_match; by simplify_eq. Qed.

Lemma host_key h : host_wf h → (16 ≤ length (c_str (AESKey h)))%nat.
Proof. intros []. unfold c_str. rewrite length_app. lia. Qed.

(** A stored block that was read and decrypted agrees with its record, *)
Lemma loaded_block h c s i name data blk rc blk' ol s' :
  rc_wf h c → bm_ready h c → is_cached c i = false → i < nlen (dcache_stats_ c) →
  length blk = N.to_nat (BlockSize h + AES_PAD_LEN) → length blk' = length blk →
  (bm ← bm_ c; entry h bm i) = Some name →
  payload_of s (Hashname h) name = Some data → nlen data <= BlockSize h + AES_PAD_LEN →
  (∀ dc r, payload_of s' dc r = payload_of s dc r) →
  (∀ m, Crypto.plaintext (c_str (AESKey h)) data = Some m →
     rc = 1%Z ∧ blk' = splice blk 0 (Some <$> m) ∧ ol = Some (nlen m)) →
  extends h c s (put_stat (put_block c i blk') i RC.mark_cached) s' ∧
  is_cached (put_stat (put_block c i blk') i RC.mark_cached) i = true.
Proof.
  intros Hc Hready Hin Hlt Hblk Hlen Hname Hdata Hle Hpl Hplain.
  apply extends_cached; try done; [congruence|].
  intros p x <- Hx. rewrite backing_entry, Hname, Hdata in Hx by done. simpl in Hx.
  destruct (Crypto.plaintext _ data) as [m|] eqn:Hm; [|done]. simpl in Hx.
  destruct (Hplain m eq_refl) as (_ & -> & _).
  assert (length m ≤ length data)%nat by by eapply Crypto.plaintext_length.
  rewrite lookup_splice by (rewrite length_fmap; unfold nlen in Hle; lia).
  apply lookup_lt_Some in Hx as Hxlt. rewrite decide_True by (rewrite length_fmap; nlia).
  rewrite Nat.sub_0_r, list_lookup_fmap, Hx. done.
Qed.

(** and so does the block of zeros with a position that has no record. *)
Lemma zero_block h c s i blk :
  host_wf h → rc_wf h c → bm_ready h c → is_cached c i = false → i < nlen (dcache_stats_ c) →
  length blk = N.to_nat (BlockSize h + AES_PAD_LEN) → (bm ← bm_ c; entry h bm i) = None →
  let blk' := splice blk (N.to_nat 0) (replicate (N.to_nat (BlockSize h)) (Some Byte.x00)) in
  extends h c s (put_stat (put_block c i blk') i RC.mark_cached) s ∧
  is_cached (put_stat (put_block c i blk') i RC.mark_cached) i = true.
Proof.
  intros Hh Hc Hready Hin Hlt Hblk Hname blk'. apply extends_cached; try done.
  - unfold blk'. rewrite length_splice; [done|]. rewrite length_replicate, Hblk.
    unfold AES_PAD_LEN. lia.
  - intros p x <- Hx. rewrite backing_entry, Hname in Hx by done. injection Hx as <-.
    pose proof (block_bound (BlockSize h) p (hw_block_size h Hh)). unfold blk'.
    rewrite lookup_splice by (rewrite length_replicate, Hblk; unfold AES_PAD_LEN; lia).
    rewrite decide_True by (rewrite length_replicate; nlia).
    apply lookup_replicate. split; [done|nlia].
Qed.

Lemma fill_block_spec h i c s :
  host_wf h → rc_wf h c → bm_ready h c → i < nlen (dcache_stats_ c) →
  wp (storage_fault (S := S)) (RC.fill_block h i c s) (λ '(s', c', r),
    extends h c s c' s' ∧ bm_ready h c' ∧ (r = inr tt → is_cached c' i = true)).
Proof.
  intros Hh Hc Hready Hlt. unfold RC.fill_block.
  destruct (lookup_lt_is_Some_2 (dcache_stats_ c) (N.to_nat i)) as [st Hst].
  { unfold nlen in Hlt. lia. }
  rewrite (vec_get_ok _ _ _ Hst). simpl.
  assert (is_cached c i = cached st) as Hcst by (unfold is_cached; by rewrite Hst).
  destruct (cached st) eqn:Ec; [simpl; split; [by apply extends_refl|done]|].
  assert (i < nlen (dcache_blocks_ c)) as Hlt' by (unfold nlen in *; by rewrite (wf_length h c Hc)).
  set (blk := new_array _).
  assert (length blk = N.to_nat (BlockSize h + AES_PAD_LEN)) as Hblk by apply length_new_array.
  rewrite set_block_ok by done. m_run.
  rewrite bmCheck_spec by by apply put_block_wf. m_run.
  change (bm_ (put_block c i blk)) with (bm_ c).
  destruct (bm ← bm_ c; entry h bm i) as [name|] eqn:Hname.
  - eapply wp_bind.
    { apply (ReadRecordData_law (Hashname h) name (BlockSize h + AES_PAD_LEN) s).
      - destruct (bm_ c); [by eapply entry_nonempty|done].
      - pose proof (hw_block_size_bound h Hh). unfold AES_PAD_LEN. lia. }
    intros [s' [e|data]] [Hpl Hread].
    { simpl. split; [by apply extends_scratch|done]. }
    destruct (Hread data eq_refl) as [Hdata Hle].
    apply N.leb_le in Hle as Hle'. rewrite Hle'. simpl.
    destruct (Crypto.decrypt_spec (c_str (AESKey h)) data blk (Some 0))
      as (rc & blk' & ol & -> & Hlen & Hplain); [by apply host_key|unfold nlen in Hle; lia|].
    simpl. rewrite set_block_ok by len_lia.
    rewrite put_block_twice. m_run. rewrite set_stat_ok by done. cbn [mbind outcome_bind wp].
    destruct (loaded_block h c s i name data blk rc blk' ol s') as [Hext Hin]; done.
  - unfold memset0. rewrite mem_write_ok.
    2: { unfold nlen. rewrite length_replicate, Hblk. unfold AES_PAD_LEN. lia. }
    simpl. rewrite set_block_ok by len_lia.
    rewrite put_block_twice. m_run. rewrite set_stat_ok by done. cbn [mbind outcome_bind wp].
    by destruct (zero_block h c s i blk) as [Hext Hin].
Qed.

Lemma push_slot_extends h c s : rc_wf h c → extends h c s (RC.push_slot c) s.
Proof.
  intros Hc. pose proof (wf_length h c Hc) as Hlen.
  assert (∀ j, is_cached (RC.push_slot c) j = is_cached c j) as Hcached.
  { intros j. unfold is_cached. simpl. rewrite lookup_app.
    destruct (dcache_stats_ c !! N.to_nat j); [done|].
    destruct (_ - _)%nat as [|[|?]]; done. }
  assert (∀ bs p, file_cell bs (RC.push_slot c) p = file_cell bs c p) as Hcell.
  { intros bs p. unfold file_cell. simpl. rewrite lookup_app.
    destruct (dcache_blocks_ c !! N.to_nat (p / bs)); [done|].
    destruct (_ - _)%nat as [|[|?]]; done. }
  split; try done.
  - split; simpl.
    + rewrite !length_app, Hlen. done.
    + intros i b. rewrite lookup_app. destruct (dcache_blocks_ c !! i) eqn:E.
      * intros [= ->]. by eapply wf_block.
      * destruct (_ - _)%nat as [|[|?]]; done.
    + intros i st. rewrite !lookup_app. destruct (dcache_stats_ c !! i) as [st'|] eqn:E.
      * intros [= ->] Hst. destruct (wf_cached h c Hc i st E Hst) as [b ->]. by exists b.
      * destruct (_ - _)%nat as [|[|?]]; [by intros [= <-]|done|done].
    + apply Hc.
  - intros p x. unfold view. rewrite Hcached, Hcell. by rewrite (backing_ext h c s (RC.push_slot c) s).
  - intros j. unfold is_dirty. simpl. rewrite lookup_app.
    destruct (dcache_stats_ c !! N.to_nat j); [done|].
    destruct (_ - _)%nat as [|[|?]]; done.
  - intros j Hj. by rewrite Hcached.
  - simpl. rewrite nlen_app. lia.
Qed.

(** One round of the loop of [fillDcache]. *)
Lemma fill_step_spec h i c s :
  host_wf h → rc_wf h c → bm_ready h c → i <= nlen (dcache_stats_ c) →
  wp (storage_fault (S := S)) (RC.fill_step h i (s, c)) (λ r,
    match r with
    | inl (s', c') =>
        extends h c s c' s' ∧ bm_ready h c' ∧ is_cached c' i = true ∧
        i + 1 <= nlen (dcache_stats_ c')
    | inr (s', c', e) => extends h c s c' s'
    end).
Proof.
  intros Hh Hc Hready Hle. unfold RC.fill_step.
  set (c1 := if (nlen (dcache_stats_ c) <=? i) then RC.push_slot c else c).
  assert (extends h c s c1 s ∧ bm_ready h c1 ∧ i < nlen (dcache_stats_ c1)) as (He & Hr & Hlt).
  { unfold c1. destruct (N.leb_spec (nlen (dcache_stats_ c)) i).
    - split; [by apply push_slot_extends|]. split; [done|]. simpl. rewrite nlen_app.
      unfold nlen at 2. simpl. lia.
    - split; [by apply extends_refl|]. done. }
  eapply wp_bind; [apply (fill_block_spec h i c1 s Hh (ex_wf _ _ _ _ _ He) Hr Hlt)|].
  intros [[s' c'] [e|[]]] (He' & Hr' & Hin); simpl.
  - by eapply extends_trans.
  - split; [by eapply extends_trans|]. split; [done|]. split; [auto|].
    pose proof (ex_length _ _ _ _ _ He'). lia.
Qed.

(** [fillDcache] never touches memory it does not own, keeps the file's
    contents and its dirty blocks, and on success has every block of the
    request in memory. *)
Lemma fillDcache_spec h offset size c s :
  host_wf h → rc_wf h c →
  wp (storage_fault (S := S)) (RC.fillDcache h offset size c s) (λ '(s', c', r),
    rc_wf h c' ∧
    (r = inr tt → extends h c s c' s' ∧ bm_ready h c' ∧
       ∀ i, offset / BlockSize h <= i <= u64 (offset + size) / BlockSize h →
            is_cached c' i = true) ∧
    (∀ dc r, payload_of s' dc r = payload_of s dc r) ∧
    (bm_ready h c → extends h c s c' s')).
Proof.
  intros Hh Hc. unfold RC.fillDcache. pose proof (hw_block_size h Hh) as Hbs.
  rewrite !udiv_ok by done. simpl.
  set (ed := u64 (offset + size) / BlockSize h).
  set (st0 := offset / BlockSize h).
  set (st := if nlen (dcache_stats_ c) <? st0 then nlen (dcache_stats_ c) else st0).
  assert (st <= st0 ∧ st <= nlen (dcache_stats_ c)) as [Hst Hst'].
  { unfold st. destruct (N.ltb_spec (nlen (dcache_stats_ c)) st0); lia. }
  eapply wp_bind; [by apply fillBmcache_spec|]. intros [[s1 c1] [e|[]]]; simpl.
  { intros (Hwf & -> & Hnone & Hrn & Hpl). split; [done|]. split; [done|]. split; [done|].
    intros Hready. destruct Hrn. auto. }
  intros [He1 Hr1].
  eapply wp_bind with (P := λ r, match r with
    | inl (s2, c2) => extends h c1 s1 c2 s2 ∧ bm_ready h c2 ∧ st + N.of_nat (iters st (ed + 1)) <= nlen (dcache_stats_ c2) ∧
        ∀ i, st <= i < st + N.of_nat (iters st (ed + 1)) → is_cached c2 i = true
    | inr (s2, c2, e) => extends h c1 s1 c2 s2 end).
  - eapply wp_mono; [apply (for_loop_inv (storage_fault (S := S))
      (λ j '(s2, c2), extends h c1 s1 c2 s2 ∧ bm_ready h c2 ∧ j <= nlen (dcache_stats_ c2) ∧
        ∀ i, st <= i < j → is_cached c2 i = true)
      (λ '(s2, c2, e), extends h c1 s1 c2 s2))|].
    + split; [by apply extends_refl, He1|]. split; [done|].
      pose proof (ex_length _ _ _ _ _ He1). split; [lia|]. intros i Hi. lia.
    + intros j [s2 c2] Hj (He2 & Hr2 & Hlen & Hin).
      eapply wp_mono; [apply (fill_step_spec h j c2 s2 Hh (ex_wf _ _ _ _ _ He2) Hr2 Hlen)|].
      intros [[s3 c3]|[[s3 c3] e]]; [|by apply extends_trans].
      intros (He3 & Hr3 & Hin3 & Hlen3). split; [by eapply extends_trans|].
      split; [done|]. split; [done|]. intros i Hi.
      destruct (decide (i = j)) as [->|]; [done|].
      apply (ex_cached _ _ _ _ _ He3), Hin. lia.
    + by intros [[s2 c2]|[[s2 c2] e]].
  - intros [[s2 c2]|[[s2 c2] e]]; simpl.
    + intros (He2 & Hr2 & _ & Hin). pose proof (extends_trans _ _ _ _ _ _ _ He1 He2) as He.
      split; [apply He|]. split; [|split; [apply He|done]].
      intros _. split; [done|]. split; [done|]. intros i Hi. apply Hin. unfold iters. lia.
    + intros He2. pose proof (extends_trans _ _ _ _ _ _ _ He1 He2) as He.
      split; [apply He|]. split; [done|]. by split; [apply He|].
Qed.

(** ** Reading *)

(** The number of bytes a request of [size] bytes copies: one more than asked
    for when it ends in another block than it starts in ([ed_offset + 1]). *)
Definition span (bs offset size : N) : N :=
  if offset / bs =? (offset + size) / bs then size else size + 1.

(** [copied n]: the first [n] cells of [buf] are the file's from [offset] on,
    the others are those of [buf0]. *)
Definition copied (bs : N) (c : RecordCache) (offset : N) (buf0 : list cell) (n : N)
    (buf : list cell) : Prop :=
  length buf = length buf0 ∧
  ∀ k, buf !! N.to_nat k =
    if decide (k < n) then file_cell bs c (offset + k) else buf0 !! N.to_nat k.

Lemma copied_0 bs c offset buf : copied bs c offset buf 0 buf.
Proof. split; [done|]. intros k. rewrite decide_False; [done|lia]. Qed.

Lemma cached_block h c i :
  rc_wf h c → is_cached c i = true →
  ∃ b, dcache_blocks_ c !! N.to_nat i = Some (Some b) ∧
       length b = N.to_nat (BlockSize h + AES_PAD_LEN).
Proof.
  intros Hc Hi. unfold is_cached in Hi.
  destruct (dcache_stats_ c !! N.to_nat i) as [st|] eqn:Hst; [|done].
  destruct (wf_cached h c Hc _ _ Hst Hi) as [b Hb]. exists b. split; [done|].
  by eapply wf_block.
Qed.

Lemma block_at_ok c i b :
  dcache_blocks_ c !! N.to_nat i = Some (Some b) → RC.block_at c i = Ret b.
Proof. intros Hb. unfold RC.block_at. by rewrite (vec_get_ok _ _ _ Hb). Qed.

Lemma file_cell_block bs c q r b :
  r < bs → dcache_blocks_ c !! N.to_nat q = Some (Some b) →
  file_cell bs c (bs * q + r) = b !! N.to_nat r.
Proof.
  intros Hr Hb. destruct (block_unique bs q r Hr) as [Hq Hm].
  unfold file_cell. rewrite Hq, Hm, Hb. done.
Qed.

(** One [memcpy] out of a block extends the copied range. *)
Lemma copy_out_step h c offset buf0 n buf i soff m :
  rc_wf h c → copied (BlockSize h) c offset buf0 n buf →
  offset + n = BlockSize h * i + soff → soff + m <= BlockSize h → n + m <= nlen buf0 →
  is_cached c i = true →
  ∃ buf', RC.copy_out c buf n i soff m = Ret buf' ∧
          copied (BlockSize h) c offset buf0 (n + m) buf'.
Proof.
  intros Hc [Hlen Hcells] Hpos Hsoff Hn Hi.
  destruct (cached_block h c i Hc Hi) as (b & Hb & Hblen).
  unfold RC.copy_out. rewrite (block_at_ok _ _ _ Hb). m_run.
  rewrite memcpy_ok by (unfold nlen, AES_PAD_LEN in *; lia).
  eexists. split; [done|]. split.
  - rewrite length_splice; [done|]. rewrite length_slice; unfold nlen, AES_PAD_LEN in *; lia.
  - intros k. rewrite lookup_splice; rewrite length_slice by (unfold AES_PAD_LEN in *; lia).
    2: { unfold nlen in *. lia. }
    destruct (decide (n <= k < n + m)) as [Hk|Hk].
    + rewrite decide_True by lia. rewrite (decide_True (P := k < n + m)) by lia.
      rewrite lookup_slice by lia.
      replace (offset + k) with (BlockSize h * i + (soff + (k - n))) by lia.
      rewrite (file_cell_block _ _ _ _ b) by (done || lia). f_equal. lia.
    + rewrite decide_False by lia. rewrite Hcells.
      destruct (decide (k < n)); [rewrite decide_True by lia; done|].
      by rewrite decide_False by lia.
Qed.

(** The copying part of [Read], on a request whose blocks are all cached. *)
Lemma read_copy_spec h c buf offset size :
  host_wf h → rc_wf h c → 0 < size → span (BlockSize h) offset size <= nlen buf →
  let bs := BlockSize h in
  (∀ i, offset / bs <= i <= (offset + size) / bs → is_cached c i = true) →
  ∃ buf', RC.read_copy c buf bs (offset / bs) ((offset + size) / bs) (offset `mod` bs)
            ((offset + size) `mod` bs) size = Ret buf' ∧
          copied bs c offset buf (span bs offset size) buf'.
Proof.
  intros Hh Hc Hsize Hspan bs Hin. pose proof (hw_block_size h Hh) as Hbs. fold bs in Hspan, Hbs.
  pose proof (block_split bs offset Hbs) as Ho. pose proof (block_bound bs offset Hbs) as Hob.
  pose proof (block_split bs (offset + size) Hbs) as He.
  pose proof (block_bound bs (offset + size) Hbs) as Heb.
  pose proof (N.Div0.div_le_mono offset (offset + size) bs) as Hmono.
  unfold RC.read_copy, span in *.
  set (so := offset `mod` bs) in *. set (eo := (offset + size) `mod` bs) in *.
  set (sb := offset / bs) in *. set (eb := (offset + size) / bs) in *.
  revert Hspan. destruct (N.eqb_spec sb eb) as [Heq|Hne]; intros Hspan.
  { destruct (copy_out_step h c offset buf 0 buf sb so size) as (buf' & -> & Hcp);
      try done; fold bs; [apply copied_0|lia|nia|apply Hin; lia|].
    exists buf'. split; [done|]. by rewrite N.add_0_l in Hcp. }
  assert (sb < eb) as Hlt by lia.
  assert (size + 1 = bs * (eb - sb) - so + (eo + 1)) as Htotal by nia.
  assert (bs <= bs * (eb - sb)) as Hone by nia.
  destruct (copy_out_step h c offset buf 0 buf sb so (bs - so)) as (buf1 & Hc1 & Hcp1);
    try done; fold bs; [apply copied_0|lia|lia|lia|apply Hin; lia|].
  rewrite N.add_0_l in Hcp1. rewrite Hc1. m_run.
  destruct (N.eqb_spec (sb + 1) eb) as [Heq1|Hne1].
  { destruct (copy_out_step h c offset buf (bs - so) buf1 eb 0 (eo + 1)) as (buf2 & -> & Hcp2);
      try done; fold bs; [nia|lia|nia|apply Hin; lia|].
    exists buf2. split; [done|]. replace (size + 1) with (bs - so + (eo + 1)) by nia. done. }
  set (body := λ blk_idx '(buf, cur), _).
  assert (wp no_fault (for_each (iters (sb + 1) eb) (sb + 1) body (buf1, bs - so))
    (λ '(buf2, cur), copied bs c offset buf cur buf2 ∧ offset + cur = bs * eb)) as Hloop.
  { eapply wp_mono; [apply (for_each_inv no_fault (λ j '(buf2, cur),
      copied bs c offset buf cur buf2 ∧ offset + cur = bs * j))|].
    - split; [done|nia].
    - intros j [buf2 cur] Hj [Hcp Hcur]. unfold body. unfold iters in Hj.
      assert (bs * (j + 1) <= bs * eb) by (apply N.mul_le_mono_l; lia).
      destruct (copy_out_step h c offset buf cur buf2 j 0 bs) as (buf3 & -> & Hcp3);
        try done; fold bs; [lia|nia|apply Hin; lia|].
      simpl. split; [done|nia].
    - intros [buf2 cur] [Hcp Hcur]. split; [done|].
      unfold iters in Hcur. replace eb with (sb + 1 + N.of_nat (N.to_nat (eb - (sb + 1)))) by lia.
      done. }
  apply wp_total in Hloop as ([buf2 cur] & -> & Hcp2 & Hcur). m_run.
  destruct (copy_out_step h c offset buf cur buf2 eb 0 (eo + 1)) as (buf3 & -> & Hcp3);
    try done; fold bs; [lia|lia|nia|apply Hin; lia|].
  exists buf3. split; [done|]. replace (size + 1) with (cur + (eo + 1)) by nia. done.
Qed.

Lemma view_cached h c s p b :
  is_cached c (p / BlockSize h) = true → view h c s p = Some b →
  file_cell (BlockSize h) c p = Some (Some b).
Proof.
  unfold view. intros ->. by destruct (file_cell _ c p) as [[]|]; simpl; intros [= ->].
Qed.

(** [Read] on any request: no memory fault, and on success the caller's
    buffer holds the contents of the file. *)
Lemma Read_spec (h : Inode) (buf : list cell) (offset size : N) (c : RecordCache) (s : S)
    (Hh : host_wf h) (Hc : rc_wf h c) (Hsize : 0 < size)
    (Hrange : offset + size < 18446744073709551616)
    (Hbuf : span (BlockSize h) offset size <= nlen buf) :
  wp (storage_fault (S := S)) (RC.Read h buf offset size c s) (λ '(s', c', buf', r),
    rc_wf h c' ∧ length buf' = length buf ∧
    (∀ dc r, payload_of s' dc r = payload_of s dc r) ∧
    match r with
    | inl _ => buf' = buf
    | inr _ =>
        extends h c s c' s' ∧
        (∀ k b, k < span (BlockSize h) offset size →
           view h c s (offset + k) = Some b → buf' !! N.to_nat k = Some (Some b)) ∧
        (∀ k, span (BlockSize h) offset size <= k → buf' !! N.to_nat k = buf !! N.to_nat k)
    end).
Proof.
  pose proof (hw_block_size h Hh) as Hbs. unfold RC.Read.
  replace (0 <? size) with true by (symmetry; by apply N.ltb_lt). simpl.
  rewrite u64_small by done. rewrite !udiv_ok, !umod_ok by done. m_run.
  eapply wp_bind; [by apply fillDcache_spec|].
  intros [[s' c'] [e|[]]] (Hwf & Hok & Hpl & _); [done|].
  destruct (Hok eq_refl) as (He & _ & Hin). rewrite u64_small in Hin by done.
  destruct (read_copy_spec h c' buf offset size) as (buf' & Hcopy & Hlen & Hcells); try done.
  rewrite Hcopy. cbn [mbind outcome_bind wp]. split; [done|]. split; [done|]. split; [done|].
  split; [done|]. split.
  - intros k b Hk Hb. rewrite Hcells, decide_True by done.
    apply (view_cached h c' s'); [|by apply He].
    apply Hin. split; [apply N.Div0.div_le_mono; lia|].
    unfold span in Hk. destruct (N.eqb_spec (offset / BlockSize h) ((offset + size) / BlockSize h));
      apply N.Div0.div_le_mono; lia.
  - intros k Hk. rewrite Hcells, decide_False; [done|lia].
Qed.

(** ** Writing *)

(** [written n]: the cells of the positions [offset .. offset + n - 1] are the
    first [n] of [buf], their blocks are dirty, and nothing else of [c0] has
    changed. *)
Record written (h : Inode) (c0 : RecordCache) (offset : N) (buf : list cell) (n : N)
    (c : RecordCache) : Prop := {
  wr_wf : rc_wf h c;
  wr_bm : bm_ c = bm_ c0;
  wr_length : nlen (dcache_stats_ c) = nlen (dcache_stats_ c0);
  wr_cached i : is_cached c i = is_cached c0 i;
  wr_cell p : file_cell (BlockSize h) c p =
    if decide (offset <= p < offset + n) then buf !! N.to_nat (p - offset)
    else file_cell (BlockSize h) c0 p;
  wr_dirty i : is_dirty c i = true ↔
    is_dirty c0 i = true ∨ ∃ p, offset <= p < offset + n ∧ p / BlockSize h = i;
}.

Lemma written_0 h c offset buf : rc_wf h c → written h c offset buf 0 c.
Proof.
  intros Hc. split; try done.
  - intros p. rewrite decide_False; [done|lia].
  - intros i. split; [by left|]. intros [?|(p & Hp & _)]; [done|lia].
Qed.

(** What one [memcpy] into block [i] does to the positions of the file, *)
Lemma written_cells h c0 c offset buf n i doff m b p :
  host_wf h → written h c0 offset buf n c →
  dcache_blocks_ c !! N.to_nat i = Some (Some b) →
  length b = N.to_nat (BlockSize h + AES_PAD_LEN) →
  offset + n = BlockSize h * i + doff → doff + m <= BlockSize h → n + m <= nlen buf →
  file_cell (BlockSize h) (put_block c i (splice b (N.to_nat doff)
    (slice buf (N.to_nat n) (N.to_nat m)))) p =
  if decide (offset <= p < offset + (n + m)) then buf !! N.to_nat (p - offset)
  else file_cell (BlockSize h) c0 p.
Proof.
  intros Hh Hw Hb Hblen Hpos Hdoff Hn.
  assert (i < nlen (dcache_blocks_ c)) as Hib by (apply lookup_lt_Some in Hb; unfold nlen; lia).
  assert (length (slice buf (N.to_nat n) (N.to_nat m)) = N.to_nat m) as Hsl
    by (rewrite length_slice; unfold nlen in Hn; lia).
  rewrite file_cell_put_block by done. pose proof (hw_block_size h Hh) as Hbs.
  pose proof (block_split (BlockSize h) p Hbs) as Hp.
  pose proof (block_bound (BlockSize h) p Hbs) as Hpb.
  destruct (decide (p / BlockSize h = i)) as [Hpi|Hpi].
  - assert (file_cell (BlockSize h) c p = b !! N.to_nat (p `mod` BlockSize h)) as Hold.
    { unfold file_cell. by rewrite Hpi, Hb. }
    rewrite (wr_cell _ _ _ _ _ _ Hw) in Hold. rewrite Hpi in Hp. clear Hpi.
    generalize dependent (p `mod` BlockSize h). intros r Hp Hr Hold.
    rewrite lookup_splice by (rewrite Hsl, Hblen; unfold AES_PAD_LEN; lia). rewrite Hsl.
    destruct (decide (offset + n <= p < offset + n + m)) as [Hk|Hk].
    + rewrite decide_True by lia. rewrite (decide_True (P := offset <= p < _)) by lia.
      rewrite lookup_slice by lia. f_equal. lia.
    + rewrite decide_False by lia. rewrite <-Hold.
      destruct (decide (offset <= p < offset + n)); [by rewrite decide_True by lia|].
      by rewrite decide_False by lia.
  - rewrite (wr_cell _ _ _ _ _ _ Hw p). destruct (decide (offset <= p < offset + n)).
    + by rewrite decide_True by lia.
    + rewrite decide_False; [done|]. intros Hk. apply Hpi. symmetry.
      replace p with (BlockSize h * i + (p - BlockSize h * i)) by lia.
      symmetry. apply block_unique. lia.
Qed.

(** and to the dirty flags. *)
Lemma written_dirty h c0 c offset buf n i doff m b' j :
  written h c0 offset buf n c → i < nlen (dcache_stats_ c) →
  offset + n = BlockSize h * i + doff → doff + m <= BlockSize h → 0 < m →
  is_dirty (put_stat (put_block c i b') i RC.mark_dirty) j = true ↔
  is_dirty c0 j = true ∨ ∃ p, offset <= p < offset + (n + m) ∧ p / BlockSize h = j.
Proof.
  intros Hw His Hpos Hdoff Hm. rewrite is_dirty_put_stat. case_decide as Hij.
  - subst j. destruct (lookup_lt_is_Some_2 (dcache_stats_ c) (N.to_nat i)) as [st Hst].
    { unfold nlen in His. lia. }
    simpl. rewrite Hst. split; [|done]. intros _. right. exists (offset + n).
    split; [lia|]. rewrite Hpos. apply block_unique. lia.
  - change (is_dirty (put_block c i b') j) with (is_dirty c j).
    rewrite (wr_dirty _ _ _ _ _ _ Hw). split; intros [?|(p & Hp & Hpj)]; [by left| |by left|].
    + right. exists p. split; [lia|done].
    + destruct (decide (p < offset + n)); [right; exists p; split; [lia|done]|].
      destruct Hij. rewrite <-Hpj. symmetry.
      replace p with (BlockSize h * i + (p - BlockSize h * i)) by lia.
      apply block_unique. lia.
Qed.

(** One [memcpy] into a block extends the written range. *)
Lemma copy_in_step h c0 c offset buf n i doff m :
  host_wf h → written h c0 offset buf n c →
  offset + n = BlockSize h * i + doff → doff + m <= BlockSize h → 0 < m →
  n + m <= nlen buf → is_cached c0 i = true →
  ∃ c', RC.copy_in buf n c i doff m = Ret c' ∧ written h c0 offset buf (n + m) c'.
Proof.
  intros Hh Hw Hpos Hdoff Hm Hn Hi. rewrite <-(wr_cached _ _ _ _ _ _ Hw) in Hi.
  pose proof (wr_wf _ _ _ _ _ _ Hw) as Hc.
  destruct (cached_block h c i Hc Hi) as (b & Hb & Hblen).
  assert (i < nlen (dcache_blocks_ c)) as Hib by (apply lookup_lt_Some in Hb; unfold nlen; lia).
  assert (i < nlen (dcache_stats_ c)) as His by (unfold nlen in *; by rewrite <-(wf_length h c Hc)).
  unfold RC.copy_in. rewrite (block_at_ok _ _ _ Hb). m_run.
  rewrite memcpy_ok by (unfold nlen, AES_PAD_LEN in *; lia). m_run.
  rewrite set_block_ok by done. m_run. rewrite set_stat_ok by done.
  eexists. split; [done|]. split.
  - apply put_stat_wf; [apply put_block_wf; [done|]|intros st Hst; by left].
    rewrite length_splice; [congruence|]. rewrite length_slice by (unfold nlen in Hn; lia).
    rewrite Hblen. unfold AES_PAD_LEN. lia.
  - apply Hw.
  - simpl. rewrite <-(wr_length _ _ _ _ _ _ Hw). unfold nlen. by rewrite length_alter.
  - intros j. rewrite <-(wr_cached _ _ _ _ _ _ Hw), is_cached_put_stat.
    case_decide; [|done]. unfold is_cached. simpl. by destruct (_ !! _).
  - intros p. rewrite file_cell_put_stat. by apply written_cells.
  - intros j. by eapply written_dirty.
Qed.

(** The copying part of [Write], on a request whose blocks are all cached. *)
Lemma write_copy_spec h c buf offset size :
  host_wf h → rc_wf h c → 0 < size → span (BlockSize h) offset size <= nlen buf →
  let bs := BlockSize h in
  (∀ i, offset / bs <= i <= (offset + size) / bs → is_cached c i = true) →
  ∃ c', RC.write_copy buf c bs (offset / bs) ((offset + size) / bs) (offset `mod` bs)
          ((offset + size) `mod` bs) size = Ret c' ∧
        written h c offset buf (span bs offset size) c'.
Proof.
  intros Hh Hc Hsize Hspan bs Hin. pose proof (hw_block_size h Hh) as Hbs. fold bs in Hspan, Hbs.
  pose proof (block_split bs offset Hbs) as Ho. pose proof (block_bound bs offset Hbs) as Hob.
  pose proof (block_split bs (offset + size) Hbs) as He.
  pose proof (block_bound bs (offset + size) Hbs) as Heb.
  pose proof (N.Div0.div_le_mono offset (offset + size) bs) as Hmono.
  unfold RC.write_copy, span in *.
  set (so := offset `mod` bs) in *. set (eo := (offset + size) `mod` bs) in *.
  set (sb := offset / bs) in *. set (eb := (offset + size) / bs) in *.
  revert Hspan. destruct (N.eqb_spec sb eb) as [Heq|Hne]; intros Hspan.
  { destruct (copy_in_step h c c offset buf 0 sb so size) as (c1 & -> & Hw);
      try done; fold bs; [by apply written_0|lia|nia|apply Hin; lia|].
    exists c1. split; [done|]. by rewrite N.add_0_l in Hw. }
  assert (sb < eb) as Hlt by lia.
  assert (size + 1 = bs * (eb - sb) - so + (eo + 1)) as Htotal by nia.
  assert (bs <= bs * (eb - sb)) as Hone by nia.
  destruct (copy_in_step h c c offset buf 0 sb so (bs - so)) as (c1 & Hc1 & Hw1);
    try done; fold bs; [by apply written_0|lia|lia|lia|lia|apply Hin; lia|].
  rewrite N.add_0_l in Hw1. rewrite Hc1. m_run.
  destruct (N.eqb_spec (sb + 1) eb) as [Heq1|Hne1].
  { destruct (copy_in_step h c c1 offset buf (bs - so) eb 0 (eo + 1)) as (c2 & -> & Hw2);
      try done; fold bs; [nia|lia|lia|nia|apply Hin; lia|].
    exists c2. split; [done|]. replace (size + 1) with (bs - so + (eo + 1)) by nia. done. }
  set (body := λ blk_idx '(c, cur), _).
  assert (wp no_fault (for_each (iters (sb + 1) eb) (sb + 1) body (c1, bs - so))
    (λ '(c2, cur), written h c offset buf cur c2 ∧ offset + cur = bs * eb)) as Hloop.
  { eapply wp_mono; [apply (for_each_inv no_fault (λ j '(c2, cur),
      written h c offset buf cur c2 ∧ offset + cur = bs * j))|].
    - split; [done|nia].
    - intros j [c2 cur] Hj [Hw Hcur]. unfold body. unfold iters in Hj.
      assert (bs * (j + 1) <= bs * eb) by (apply N.mul_le_mono_l; lia).
      destruct (copy_in_step h c c2 offset buf cur j 0 bs) as (c3 & -> & Hw3);
        try done; fold bs; [lia|lia|nia|apply Hin; lia|].
      simpl. split; [done|nia].
    - intros [c2 cur] [Hw Hcur]. split; [done|].
      unfold iters in Hcur. replace eb with (sb + 1 + N.of_nat (N.to_nat (eb - (sb + 1)))) by lia.
      done. }
  apply wp_total in Hloop as ([c2 cur] & -> & Hw2 & Hcur). m_run.
  destruct (copy_in_step h c c2 offset buf cur eb 0 (eo + 1)) as (c3 & -> & Hw3);
    try done; fold bs; [lia|lia|lia|nia|apply Hin; lia|].
  exists c3. split; [done|]. replace (size + 1) with (cur + (eo + 1)) by nia. done.
Qed.

(** The positions a write covers lie in the blocks it marks. *)
Lemma span_blocks bs offset size i :
  bs ≠ 0 → 0 < size →
  (∃ p, offset <= p < offset + span bs offset size ∧ p / bs = i) ↔
  offset / bs <= i <= (offset + size) / bs.
Proof.
  intros Hbs Hsize. unfold span. split.
  - intros (p & Hp & <-). split; [apply N.Div0.div_le_mono; lia|].
    destruct (N.eqb_spec (offset / bs) ((offset + size) / bs)); apply N.Div0.div_le_mono; lia.
  - intros Hi. exists (N.max offset (bs * i)).
    pose proof (block_split bs offset Hbs) as Ho. pose proof (block_bound bs offset Hbs).
    pose proof (block_split bs (offset + size) Hbs) as He.
    pose proof (block_bound bs (offset + size) Hbs).
    assert (bs * i <= bs * ((offset + size) / bs)) by (apply N.mul_le_mono_l; lia).
    destruct (N.eqb_spec i (offset / bs)) as [->|Hne].
    + rewrite N.max_l by (clear -Ho; nlia). split; [|done].
      destruct (N.eqb_spec (offset / bs) ((offset + size) / bs)); lia.
    + assert (bs * (offset / bs + 1) <= bs * i) by (apply N.mul_le_mono_l; lia).
      rewrite N.max_r by nia. split.
      * destruct (N.eqb_spec (offset / bs) ((offset + size) / bs)); [exfalso; lia|nlia].
      * rewrite N.mul_comm. by apply N.div_mul.
Qed.

(** What a successful write leaves behind. *)
Record write_post (h : Inode) (c : RecordCache) (s : S) (buf : list cell) (offset size : N)
    (c' : RecordCache) (s' : S) : Prop := {
  wpost_wf : rc_wf h c';
  wpost_payload dc r : payload_of s' dc r = payload_of s dc r;
  wpost_new p x :
    offset <= p < offset + span (BlockSize h) offset size →
    buf !! N.to_nat (p - offset) = Some (Some x) → view h c' s' p = Some x;
  wpost_old p x :
    ~ (offset <= p < offset + span (BlockSize h) offset size) →
    view h c s p = Some x → view h c' s' p = Some x;
  wpost_dirty i : is_dirty c' i = true ↔
    is_dirty c i = true ∨ offset / BlockSize h <= i <= (offset + size) / BlockSize h;
  wpost_cached i : is_cached c i = true → is_cached c' i = true;
  wpost_range i : offset / BlockSize h <= i <= (offset + size) / BlockSize h →
    is_cached c' i = true;
  wpost_ready : bm_ready h c';
}.

(** Once the blocks of the request are loaded, [Write] cannot fault. *)
Lemma Write_spec (h : Inode) (buf : list cell) (offset size : N) (c c1 : RecordCache) (s s1 : S) :
  host_wf h → rc_wf h c → 0 < size → offset + size < 18446744073709551616 →
  span (BlockSize h) offset size <= nlen buf →
  RC.fillDcache h offset size c s = Ret (s1, c1, inr tt) →
  ∃ c', RC.Write h buf offset size c s = Ret (s1, c', inr tt) ∧
        write_post h c s buf offset size c' s1.
Proof.
  intros Hh Hc Hsize Hrange Hbuf Hfill. pose proof (hw_block_size h Hh) as Hbs.
  pose proof (wp_elim _ _ _ _ (fillDcache_spec h offset size c s Hh Hc) Hfill) as Hpost.
  destruct Hpost as (Hwf & Hok & Hpl & _). destruct (Hok eq_refl) as (He & Hr & Hin).
  rewrite u64_small in Hin by done. unfold RC.Write.
  replace (0 <? size) with true by (symmetry; by apply N.ltb_lt). simpl.
  rewrite u64_small by done. rewrite !udiv_ok, !umod_ok by done. m_run.
  rewrite Hfill. m_run.
  destruct (write_copy_spec h c1 buf offset size) as (c' & -> & Hw); try done.
  exists c'. split; [done|].
  assert (∀ p, offset <= p < offset + span (BlockSize h) offset size →
    is_cached c' (p / BlockSize h) = true) as Hin'.
  { intros p Hp. rewrite (wr_cached _ _ _ _ _ _ Hw). apply Hin.
    apply (span_blocks (BlockSize h) offset size); eauto. }
  split; try done.
  - apply Hw.
  - intros p x Hp Hx. unfold view. rewrite Hin' by done.
    rewrite (wr_cell _ _ _ _ _ _ Hw), decide_True by done. by rewrite Hx.
  - intros p x Hp Hx. apply (ex_view _ _ _ _ _ He) in Hx. unfold view in *.
    rewrite (wr_cached _ _ _ _ _ _ Hw), (wr_cell _ _ _ _ _ _ Hw), decide_False by done.
    rewrite (backing_ext h c1 s1 c' s1); [done|apply Hw|done].
  - intros i. rewrite (wr_dirty _ _ _ _ _ _ Hw), (ex_dirty _ _ _ _ _ He).
    by rewrite span_blocks.
  - intros i Hi. rewrite (wr_cached _ _ _ _ _ _ Hw). by apply He.
  - intros i Hi. rewrite (wr_cached _ _ _ _ _ _ Hw). by apply Hin.
  - unfold bm_ready. by rewrite (wr_bm _ _ _ _ _ _ Hw).
Qed.

(** ** Flushing *)

Definition block_bytes (h : Inode) (c : RecordCache) (i : N) : option bytes :=
  b ← dcache_blocks_ c !! N.to_nat i; b ← b;
  mapM id (take (N.to_nat (BlockSize h)) b).

(** Every dirty block is completely initialised. *)
Definition flushable (h : Inode) (c : RecordCache) : Prop :=
  ∀ i, is_dirty c i = true → is_Some (block_bytes h c i).

Fixpoint indices (from : N) (n : nat) : list N :=
  match n with O => [] | Datatypes.S n' => from :: indices (from + 1) n' end.

Definition dirty_blocks (c : RecordCache) : list N :=
  filter (λ i, is_dirty c i = true) (indices 0 (length (dcache_stats_ c))).

(** The descriptor of one block: its ciphertext and its place in the file. *)
Definition flush_desc (h : Inode) (c : RecordCache) (i : N) : option buf_desc :=
  b ← block_bytes h c i;
  ct ← Crypto.ciphertext (c_str (AESKey h)) b;
  Some (MkDesc ct (u64 (i * BlockSize h))).

(** The request a flush sends: the dirty blocks in the order of the file. *)
Definition flush_descs (h : Inode) (c : RecordCache) : option (list buf_desc) :=
  mapM (flush_desc h c) (dirty_blocks c).

Lemma flush_step_spec h c i ds :
  host_wf h → rc_wf h c → flushable h c → i < nlen (dcache_stats_ c) →
  RC.flush_step h c i ds =
    Ret (if is_dirty c i then
           match flush_desc h c i with Some d => inl (ds ++ [d]) | None => inr ERR_CRYPTO end
         else inl ds).
Proof.
  intros Hh Hc Hf Hi. unfold RC.flush_step.
  destruct (lookup_lt_is_Some_2 (dcache_stats_ c) (N.to_nat i)) as [st Hst].
  { unfold nlen in Hi. lia. }
  rewrite (vec_get_ok _ _ _ Hst). m_run.
  assert (is_dirty c i = dirty st) as Hd by (unfold is_dirty; by rewrite Hst).
  rewrite Hd. destruct (dirty st) eqn:Ed; [|done].
  destruct (Hf i) as [bb Hbb]; [congruence|]. unfold flush_desc. rewrite Hbb.
  cbn [mbind option_bind]. unfold block_bytes in Hbb.
  destruct (dcache_blocks_ c !! N.to_nat i) as [[b|]|] eqn:Hb; try done. simpl in Hbb.
  rewrite (block_at_ok _ _ _ Hb). m_run.
  pose proof (wf_block h c Hc _ _ Hb) as Hblen.
  assert (cells_bytes (take (N.to_nat (BlockSize h)) b) = Ret bb) as Hin
    by (unfold cells_bytes; by rewrite Hbb).
  apply cells_bytes_inv in Hin.
  assert (length bb = N.to_nat (BlockSize h)) as Hbblen.
  { apply mapM_Some, Forall2_length in Hbb. rewrite <-Hbb, length_take. unfold AES_PAD_LEN in *. lia. }
  rewrite <-Hbblen in Hin.
  pose proof (Crypto.encrypt_spec (c_str (AESKey h)) bb b
    (new_array (BlockSize h + AES_PAD_LEN)) (Some 0) (host_key h Hh) Hin) as He.
  assert (nlen bb = BlockSize h) as Hn by (unfold nlen; lia). rewrite Hn in He.
  rewrite length_new_array, Hbblen in He.
  pose proof (Nat.Div0.div_mod (N.to_nat (BlockSize h)) 16).
  destruct (Crypto.ciphertext _ bb) as [ct|] eqn:Hct.
  - rewrite He by (unfold AES_PAD_LEN; lia). m_run.
    apply Crypto.ciphertext_bound in Hct. rewrite Hbblen in Hct.
    replace (1 <=? 0)%Z with false by done.
    rewrite mem_read_ok.
    2: { unfold nlen. rewrite length_splice, length_new_array, ?length_fmap;
         rewrite ?length_fmap, ?length_new_array; unfold AES_PAD_LEN; lia. }
    m_run. change (N.to_nat 0) with 0%nat. rewrite splice_0, to_nat_nlen.
    unfold slice. rewrite drop_0, take_app_length' by by rewrite length_fmap.
    by rewrite cells_bytes_ok.
  - destruct He as (out & ol & -> & _); [unfold AES_PAD_LEN; lia|done].
Qed.

Lemma flush_loop_spec h c n i ds :
  host_wf h → rc_wf h c → flushable h c → i + N.of_nat n <= nlen (dcache_stats_ c) →
  for_loop n i (RC.flush_step h c) ds =
    Ret (match mapM (flush_desc h c) (filter (λ i, is_dirty c i = true) (indices i n)) with
         | Some ds' => inl (ds ++ ds')
         | None => inr ERR_CRYPTO
         end).
Proof.
  intros Hh Hc Hf. revert i ds. induction n as [|n IH]; intros i ds Hn; simpl.
  { by rewrite app_nil_r. }
  rewrite flush_step_spec by (done || lia). m_run.
  rewrite filter_cons. destruct (is_dirty c i) eqn:Hd.
  - rewrite decide_True by done. simpl. destruct (flush_desc h c i) as [d|]; [|done]. simpl.
    rewrite IH by lia. destruct (mapM _ _); simpl; [|done].
    by rewrite <-(assoc_L (++)).
  - rewrite decide_False by done. apply IH. lia.
Qed.

(** [FlushCache] is: encrypt the dirty blocks, hand them over, and drop the
    cache if that worked. *)
Lemma FlushCache_spec h c s :
  host_wf h → rc_wf h c → flushable h c →
  RC.FlushCache h c s =
    match flush_descs h c with
    | None => Ret (s, c, inl ERR_CRYPTO)
    | Some ds =>
        '(s, r) ← StoreRecord (Hashname h) ds (InodeRecordname h) (AESKey h) s;
        match r with
        | inl e => Ret (s, c, inl e)
        | inr _ => Ret (s, RC.drop_caches c, inr tt)
        end
    end.
Proof.
  intros Hh Hc Hf. unfold RC.FlushCache, flush_descs, dirty_blocks.
  rewrite flush_loop_spec by (done || (unfold nlen; lia)). m_run.
  by destruct (mapM _ _).
Qed.
End view.
