(* ===== verification/CacheEquiv.v ===== *)
(** * The copies of [RecordCache] against a reference definition

    [RecordCache::Read] and [RecordCache::Write] copy in three different ways,
    by how many blocks the request touches (lines 197-212 and 231-252 of
    [src/fs/inode.cpp]). The reference goes block by block, each time up to
    the end of the block or of the range. Both compute the same, accesses out
    of bounds and missing blocks included. With the reference it is easy to see
    what happens with a caller's buffer that is too short. *)

From Stdlib Require Import NArith ZArith Lia.
From stdpp Require Import base list.
From S2P Require Import Prelude Const Crypto Capsule DcServer Backend Cache CacheSpec.
Local Open Scope N_scope.

(** ** The reference: [n] bytes from position [o] of block [i] on, in [k]
    pieces *)

Fixpoint blocks_out (bs : N) (c : RecordCache) (k : nat) (buf : list cell) (pos i o n : N) :
    outcome (list cell) :=
  match k with
  | O => Ret buf
  | S k =>
      let m := N.min (bs - o) n in
      buf ← RC.copy_out c buf pos i o m;
      blocks_out bs c k buf (pos + m) (i + 1) 0 (n - m)
  end.

Fixpoint blocks_in (bs : N) (buf : list cell) (k : nat) (c : RecordCache) (pos i o n : N) :
    outcome RecordCache :=
  match k with
  | O => Ret c
  | S k =>
      let m := N.min (bs - o) n in
      c ← RC.copy_in buf pos c i o m;
      blocks_in bs buf k c (pos + m) (i + 1) 0 (n - m)
  end.

(** The number of pieces. *)
Definition pieces (bs offset size : N) : nat := S (N.to_nat ((offset + size) / bs - offset / bs)).

Section middle.
Context (bs : N) (Hbs : bs ≠ 0).

(** The middle loops are the reference on whole blocks, with a last piece of
    [e] bytes after them. *)
Lemma middle_out c k : ∀ buf pos i e, e < bs →
  blocks_out bs c (S k) buf pos i 0 (N.of_nat k * bs + (e + 1)) =
  ('(buf, cur) ← for_each k i
     (λ blk_idx '(buf, cur),
        buf ← RC.copy_out c buf cur blk_idx 0 bs; Ret (buf, cur + bs)) (buf, pos);
   RC.copy_out c buf cur (i + N.of_nat k) 0 (e + 1)).
Proof.
  induction k as [|k IH]; intros buf pos i e He.
  - cbn [blocks_out for_each]. m_run.
    rewrite N.sub_0_r, N.add_0_r, N.min_r by lia.
    by destruct (RC.copy_out _ _ _ _ _ _).
  - cbn [for_each].
    change (blocks_out bs c (S (S k)) ?b ?p ?i ?o ?n) with
      (let m := N.min (bs - o) n in
       buf ← RC.copy_out c b p i o m; blocks_out bs c (S k) buf (p + m) (i + 1) 0 (n - m)).
    cbv zeta. rewrite N.sub_0_r, N.min_l by lia.
    destruct (RC.copy_out c buf pos i 0 bs) as [b|]; [|done]. m_run.
    replace (N.of_nat (S k) * bs + (e + 1) - bs) with (N.of_nat k * bs + (e + 1)) by lia.
    rewrite IH by done. by replace (i + 1 + N.of_nat k) with (i + N.of_nat (S k)) by lia.
Qed.

Lemma middle_in buf k : ∀ c pos i e, e < bs →
  blocks_in bs buf (S k) c pos i 0 (N.of_nat k * bs + (e + 1)) =
  ('(c, cur) ← for_each k i
     (λ blk_idx '(c, cur),
        c ← RC.copy_in buf cur c blk_idx 0 bs; Ret (c, cur + bs)) (c, pos);
   RC.copy_in buf cur c (i + N.of_nat k) 0 (e + 1)).
Proof.
  induction k as [|k IH]; intros c pos i e He.
  - cbn [blocks_in for_each]. m_run.
    rewrite N.sub_0_r, N.add_0_r, N.min_r by lia.
    by destruct (RC.copy_in _ _ _ _ _ _).
  - cbn [for_each].
    change (blocks_in bs buf (S (S k)) ?b ?p ?i ?o ?n) with
      (let m := N.min (bs - o) n in
       c ← RC.copy_in buf p b i o m; blocks_in bs buf (S k) c (p + m) (i + 1) 0 (n - m)).
    cbv zeta. rewrite N.sub_0_r, N.min_l by lia.
    destruct (RC.copy_in buf pos c i 0 bs) as [b|]; [|done]. m_run.
    replace (N.of_nat (S k) * bs + (e + 1) - bs) with (N.of_nat k * bs + (e + 1)) by lia.
    rewrite IH by done. by replace (i + 1 + N.of_nat k) with (i + N.of_nat (S k)) by lia.
Qed.

(** How a request splits: the first piece goes to the end of its block, or is
    the whole range. *)
Lemma one_piece offset size :
  offset / bs = (offset + size) / bs →
  pieces bs offset size = 1%nat ∧ span bs offset size = size ∧ size <= bs - offset `mod` bs.
Proof.
  intros Heq. unfold pieces, span. rewrite <-Heq, N.sub_diag, N.eqb_refl. split_and!; [done..|].
  pose proof (block_split bs offset Hbs). pose proof (block_split bs (offset + size) Hbs).
  pose proof (block_bound bs (offset + size) Hbs). rewrite <-Heq in *. nlia.
Qed.

Lemma many_pieces offset size :
  offset / bs ≠ (offset + size) / bs →
  ∃ k, pieces bs offset size = S (S k) ∧
    offset / bs + 1 + N.of_nat k = (offset + size) / bs ∧
    span bs offset size =
      (bs - offset `mod` bs) + (N.of_nat k * bs + ((offset + size) `mod` bs + 1)).
Proof.
  intros Hne. unfold pieces, span. rewrite (proj2 (N.eqb_neq _ _)) by done.
  assert (offset / bs < (offset + size) / bs) as Hlt.
  { pose proof (N.Div0.div_le_mono offset (offset + size) bs). lia. }
  exists (N.to_nat ((offset + size) / bs - offset / bs - 1)). split; [lia|]. split; [lia|].
  pose proof (block_split bs offset Hbs). pose proof (block_split bs (offset + size) Hbs).
  pose proof (block_bound bs offset Hbs). rewrite N2Nat.id.
  replace (((offset + size) / bs - offset / bs - 1) * bs)
    with (bs * ((offset + size) / bs) - bs * (offset / bs) - bs) by nia.
  assert (bs * (offset / bs) + bs <= bs * ((offset + size) / bs)) by nia. lia.
Qed.

Lemma read_copy_ref c buf offset size :
  RC.read_copy c buf bs (offset / bs) ((offset + size) / bs) (offset `mod` bs)
    ((offset + size) `mod` bs) size =
  blocks_out bs c (pieces bs offset size) buf 0 (offset / bs) (offset `mod` bs)
    (span bs offset size).
Proof.
  unfold RC.read_copy. destruct (N.eqb_spec (offset / bs) ((offset + size) / bs)) as [Heq|Hne].
  { destruct (one_piece offset size Heq) as (-> & -> & Hle). cbn [blocks_out].
    rewrite N.min_r by done. by destruct (RC.copy_out _ _ _ _ _ _). }
  destruct (many_pieces offset size Hne) as (k & -> & Hed & ->).
  pose proof (block_bound bs (offset + size) Hbs) as He.
  set (so := offset `mod` bs) in *. set (eo := (offset + size) `mod` bs) in *.
  change (blocks_out bs c (S (S k)) ?b ?p ?i ?o ?n) with
    (let m := N.min (bs - o) n in
     buf ← RC.copy_out c b p i o m; blocks_out bs c (S k) buf (p + m) (i + 1) 0 (n - m)).
  cbv zeta. rewrite N.min_l, N.add_0_l by lia.
  rewrite (N.add_comm (bs - so)), N.add_sub, <-Hed.
  destruct (N.eqb_spec (offset / bs + 1) (offset / bs + 1 + N.of_nat k)) as [Hk|Hk].
  - assert (k = O) as -> by lia. destruct (RC.copy_out _ _ _ _ _ _) as [b|]; [|done]. m_run.
    by rewrite middle_out.
  - destruct (RC.copy_out _ _ _ _ _ _) as [b|]; [|done]. m_run.
    rewrite middle_out by done.
    by replace (iters _ _) with k by (unfold iters; lia).
Qed.

Lemma write_copy_ref buf c offset size :
  RC.write_copy buf c bs (offset / bs) ((offset + size) / bs) (offset `mod` bs)
    ((offset + size) `mod` bs) size =
  blocks_in bs buf (pieces bs offset size) c 0 (offset / bs) (offset `mod` bs)
    (span bs offset size).
Proof.
  unfold RC.write_copy. destruct (N.eqb_spec (offset / bs) ((offset + size) / bs)) as [Heq|Hne].
  { destruct (one_piece offset size Heq) as (-> & -> & Hle). cbn [blocks_in].
    rewrite N.min_r by done. by destruct (RC.copy_in _ _ _ _ _ _). }
  destruct (many_pieces offset size Hne) as (k & -> & Hed & ->).
  pose proof (block_bound bs (offset + size) Hbs) as He.
  set (so := offset `mod` bs) in *. set (eo := (offset + size) `mod` bs) in *.
  change (blocks_in bs buf (S (S k)) ?b ?p ?i ?o ?n) with
    (let m := N.min (bs - o) n in
     c ← RC.copy_in buf p b i o m; blocks_in bs buf (S k) c (p + m) (i + 1) 0 (n - m)).
  cbv zeta. rewrite N.min_l, N.add_0_l by lia.
  rewrite (N.add_comm (bs - so)), N.add_sub, <-Hed.
  destruct (N.eqb_spec (offset / bs + 1) (offset / bs + 1 + N.of_nat k)) as [Hk|Hk].
  - assert (k = O) as -> by lia. destruct (RC.copy_in _ _ _ _ _ _) as [b|]; [|done]. m_run.
    by rewrite middle_in.
  - destruct (RC.copy_in _ _ _ _ _ _) as [b|]; [|done]. m_run.
    rewrite middle_in by done.
    by replace (iters _ _) with k by (unfold iters; lia).
Qed.
End middle.

(** ** Buffers that are too short *)
Section short.
Context (h : Inode) (Hh : host_wf h).
Abbreviation bs := (BlockSize h).

(** [memcpy] out of the caller's buffer, or into it, past its end. *)
Lemma copy_in_short c buf pos i o m :
  rc_wf h c → is_cached c i = true → nlen buf < pos + m →
  RC.copy_in buf pos c i o m = Crash OutOfBounds.
Proof.
  intros Hc Hi Hn. destruct (cached_block h c i Hc Hi) as (b & Hb & _).
  unfold RC.copy_in. rewrite (block_at_ok _ _ _ Hb). m_run. unfold memcpy, mem_read.
  by rewrite (proj2 (N.leb_gt _ _)).
Qed.

Lemma copy_out_short c buf pos i o m :
  rc_wf h c → is_cached c i = true → o + m <= bs → nlen buf < pos + m →
  RC.copy_out c buf pos i o m = Crash OutOfBounds.
Proof.
  intros Hc Hi Ho Hn. destruct (cached_block h c i Hc Hi) as (b & Hb & Hl).
  unfold RC.copy_out. rewrite (block_at_ok _ _ _ Hb). m_run. unfold memcpy, mem_write.
  rewrite mem_read_ok by (unfold nlen, AES_PAD_LEN in *; lia). m_run.
  unfold nlen in *. rewrite length_slice by (unfold AES_PAD_LEN in *; lia).
  by rewrite (proj2 (N.leb_gt _ _)) by lia.
Qed.

(** The reference copies come to the end of the buffer in some piece. *)
Lemma blocks_in_short c0 buf offset k : ∀ c pos i o n,
  written h c0 offset buf pos c → offset + pos = bs * i + o → o < bs →
  (∀ j, i <= j < i + N.of_nat k → is_cached c0 j = true) →
  n <= N.of_nat k * bs - o → pos <= nlen buf → nlen buf < pos + n →
  blocks_in bs buf k c pos i o n = Crash OutOfBounds.
Proof.
  induction k as [|k IH]; intros c pos i o n Hw Hpos Ho Hin Hk Hle Hlt; [lia|].
  cbn [blocks_in]. destruct (N.leb_spec (pos + N.min (bs - o) n) (nlen buf)) as [Hfit|Hshort].
  - destruct (copy_in_step h c0 c offset buf pos i o (N.min (bs - o) n)) as (c' & -> & Hw');
      try done; [lia|lia|apply Hin; lia|].
    m_run. assert (N.min (bs - o) n = bs - o) as Hm by lia. rewrite Hm in *.
    apply IH; [done|nia|lia|intros j Hj; apply Hin; lia|nia|done|lia].
  - rewrite copy_in_short; [done|apply Hw| |done].
    rewrite (wr_cached _ _ _ _ _ _ Hw). apply Hin. lia.
Qed.

Lemma blocks_out_short c buf0 offset k : ∀ buf pos i o n,
  rc_wf h c → copied bs c offset buf0 pos buf → offset + pos = bs * i + o → o < bs →
  (∀ j, i <= j < i + N.of_nat k → is_cached c j = true) →
  n <= N.of_nat k * bs - o → pos <= nlen buf0 → nlen buf0 < pos + n →
  blocks_out bs c k buf pos i o n = Crash OutOfBounds.
Proof.
  induction k as [|k IH]; intros buf pos i o n Hc Hcp Hpos Ho Hin Hk Hle Hlt; [lia|].
  cbn [blocks_out]. destruct (N.leb_spec (pos + N.min (bs - o) n) (nlen buf0)) as [Hfit|Hshort].
  - destruct (copy_out_step h c offset buf0 pos buf i o (N.min (bs - o) n)) as (buf' & -> & Hcp');
      try done; [lia|apply Hin; lia|].
    m_run. assert (N.min (bs - o) n = bs - o) as Hm by lia. rewrite Hm in *.
    apply IH; [done|done|nia|lia|intros j Hj; apply Hin; lia|nia|done|lia].
  - rewrite copy_out_short; [done|done|apply Hin; lia|lia|].
    destruct Hcp as [Hl _]. unfold nlen in *. lia.
Qed.

Lemma pieces_cover offset size :
  span bs offset size <= N.of_nat (pieces bs offset size) * bs - offset `mod` bs ∧
  ∀ j, offset / bs <= j < offset / bs + N.of_nat (pieces bs offset size) →
       offset / bs <= j <= (offset + size) / bs.
Proof.
  pose proof (hw_block_size h Hh) as Hbs. pose proof (block_bound bs offset Hbs).
  pose proof (N.Div0.div_le_mono offset (offset + size) bs).
  split; [|unfold pieces; lia].
  destruct (N.eqb_spec (offset / bs) ((offset + size) / bs)) as [Heq|Hne].
  - destruct (one_piece bs Hbs offset size Heq) as (-> & -> & Hle). lia.
  - destruct (many_pieces bs Hbs offset size Hne) as (k & -> & _ & ->).
    pose proof (block_bound bs (offset + size) Hbs). nia.
Qed.

(** A request that copies more than the buffer has room for leaves the buffer,
    once its blocks are in the cache. *)
Lemma write_copy_short c buf offset size :
  rc_wf h c → nlen buf < span bs offset size →
  (∀ i, offset / bs <= i <= (offset + size) / bs → is_cached c i = true) →
  RC.write_copy buf c bs (offset / bs) ((offset + size) / bs) (offset `mod` bs)
    ((offset + size) `mod` bs) size = Crash OutOfBounds.
Proof.
  intros Hc Hs Hin. pose proof (hw_block_size h Hh) as Hbs. rewrite write_copy_ref by done.
  pose proof (block_split bs offset Hbs). destruct (pieces_cover offset size) as [Hcov Hidx].
  apply (blocks_in_short c buf offset); [by apply written_0|lia|by apply block_bound| |done|lia|lia].
  intros j Hj. by apply Hin, Hidx.
Qed.

Lemma read_copy_short c buf offset size :
  rc_wf h c → nlen buf < span bs offset size →
  (∀ i, offset / bs <= i <= (offset + size) / bs → is_cached c i = true) →
  RC.read_copy c buf bs (offset / bs) ((offset + size) / bs) (offset `mod` bs)
    ((offset + size) `mod` bs) size = Crash OutOfBounds.
Proof.
  intros Hc Hs Hin. pose proof (hw_block_size h Hh) as Hbs. rewrite read_copy_ref by done.
  pose proof (block_split bs offset Hbs). destruct (pieces_cover offset size) as [Hcov Hidx].
  apply (blocks_out_short c buf offset); [done|apply copied_0|lia|by apply block_bound| |done|lia|lia].
  intros j Hj. by apply Hin, Hidx.
Qed.
End short.

Section equivalence.
Context `{OpenSSL} {S : Type} `{Storage S}.

(** Reading and writing a cache with the reference copies. *)
Definition read_by_block (h : Inode) (buf : list cell) (offset size : N) (c : RecordCache)
    (s : S) : outcome (S * RecordCache * list cell * result unit) :=
  '(s, c, r) ← RC.fillDcache h offset size c s;
  match r with
  | inl e => Ret (s, c, buf, inl e)
  | inr _ =>
      let bs := BlockSize h in
      buf ← blocks_out bs c (pieces bs offset size) buf 0 (offset / bs) (offset `mod` bs)
              (span bs offset size);
      Ret (s, c, buf, inr tt)
  end.

Definition write_by_block (h : Inode) (buf : list cell) (offset size : N) (c : RecordCache)
    (s : S) : outcome (S * RecordCache * result unit) :=
  '(s, c, r) ← RC.fillDcache h offset size c s;
  let bs := BlockSize h in
  c ← blocks_in bs buf (pieces bs offset size) c 0 (offset / bs) (offset `mod` bs)
        (span bs offset size);
  Ret (s, c, r).

(** C21. The three ways in which [RecordCache::Read] and [RecordCache::Write]
    copy are one: on every request that does not wrap around they do exactly
    what the block-by-block reference does, errors and faults included. A
    request that ends in another block than it starts in is copied with one
    byte more than it asks for, which is [span]. *)
Theorem copies_by_block (h : Inode) (buf : list cell) (offset size : N) (c : RecordCache) (s : S) :
  BlockSize h ≠ 0 → 0 < size → offset + size < 18446744073709551616 →
  RC.Read h buf offset size c s = read_by_block h buf offset size c s ∧
  RC.Write h buf offset size c s = write_by_block h buf offset size c s.
Proof.
  intros Hbs Hsize Hrange. unfold RC.Read, RC.Write, read_by_block, write_by_block.
  rewrite !udiv_ok, !umod_ok, u64_small by done. n_cmp. cbn [c_assert]. m_run.
  destruct (RC.fillDcache h offset size c s) as [[[s' c'] r]|f]; [|done]. m_run.
  rewrite write_copy_ref by done. split; [|done].
  destruct r; [done|]. by rewrite read_copy_ref.
Qed.
End equivalence.

Section any_buffer.
Context `{OpenSSLLaws} {S : Type} `{StorageLaws S}.

(** The server is down, or the buffer is shorter than what the request copies. *)
Definition copy_fault (h : Inode) (buf : list cell) (offset size : N) (f : fault) : Prop :=
  storage_fault (S := S) f ∨ (f = OutOfBounds ∧ nlen buf < span (BlockSize h) offset size).

(** [Read] into a buffer of any length. *)
Lemma Read_spec_any (h : Inode) (buf : list cell) (offset size : N) (c : RecordCache) (s : S) :
  host_wf h → rc_wf h c → 0 < size → offset + size < 18446744073709551616 →
  wp (copy_fault h buf offset size) (RC.Read h buf offset size c s) (λ '(s', c', buf', r),
    rc_wf h c' ∧ length buf' = length buf ∧
    (∀ dc r, payload_of s' dc r = payload_of s dc r) ∧
    match r with
    | inl _ => buf' = buf
    | inr _ =>
        span (BlockSize h) offset size <= nlen buf ∧
        extends h c s c' s' ∧
        (∀ k b, k < span (BlockSize h) offset size →
           view h c s (offset + k) = Some b → buf' !! N.to_nat k = Some (Some b)) ∧
        (∀ k, span (BlockSize h) offset size <= k → buf' !! N.to_nat k = buf !! N.to_nat k)
    end).
Proof.
  intros Hh Hc Hsize Hrange.
  destruct (N.leb_spec (span (BlockSize h) offset size) (nlen buf)) as [Hfit|Hshort].
  { eapply (wp_fault_mono (storage_fault (S := S))); [by left|]. eapply wp_mono; [by apply Read_spec|].
    intros [[[s' c'] buf'] [e|u]]; [done|]. intros (? & ? & ? & ? & ? & ?). by split_and!. }
  pose proof (hw_block_size h Hh) as Hbs. unfold RC.Read. n_cmp. cbn [c_assert]. m_run.
  rewrite u64_small by done. rewrite !udiv_ok, !umod_ok by done. m_run.
  eapply wp_bind; [eapply wp_fault_mono; [by left|by apply fillDcache_spec]|].
  intros [[s' c'] [e|[]]] (Hwf & Hok & Hpl & _); [done|].
  destruct (Hok eq_refl) as (_ & _ & Hin). rewrite u64_small in Hin by done.
  rewrite read_copy_short by done. right. done.
Qed.

(** [Write] from a buffer that is too short, when the blocks can be loaded. *)
Lemma Write_short (h : Inode) (buf : list cell) (offset size : N) (c c1 : RecordCache) (s s1 : S) :
  host_wf h → rc_wf h c → 0 < size → offset + size < 18446744073709551616 →
  nlen buf < span (BlockSize h) offset size →
  RC.fillDcache h offset size c s = Ret (s1, c1, inr tt) →
  RC.Write h buf offset size c s = Crash OutOfBounds.
Proof.
  intros Hh Hc Hsize Hrange Hshort Hfill. pose proof (hw_block_size h Hh) as Hbs.
  pose proof (wp_elim _ _ _ _ (fillDcache_spec h offset size c s Hh Hc) Hfill) as (Hwf & Hok & _).
  destruct (Hok eq_refl) as (_ & _ & Hin). rewrite u64_small in Hin by done.
  unfold RC.Write. n_cmp. cbn [c_assert]. m_run.
  rewrite u64_small by done. rewrite !udiv_ok, !umod_ok by done. m_run.
  rewrite Hfill. m_run. by rewrite write_copy_short.
Qed.
End any_buffer.
