(* ===== verification/InodeSpec.v ===== *)
(** * Inodes refine files

    An inode over a storage backend is an abstract file: a size and the bytes
    at its positions. The theorems state what [Inode::Read], [Inode::Write]
    and a flush do to that file, and where the code departs from the file one
    would expect. *)

From Stdlib Require Import NArith ZArith Lia.
From stdpp Require Import base list.
From S2P Require Import Prelude Const Crypto Capsule DcServer Backend Cache CacheSpec CacheEquiv.

Section inode.
Context `{OpenSSLLaws} {S : Type} `{StorageLaws S}.
Local Open Scope N_scope.

(** The byte at a position of the file. *)
Definition contents (ino : Inode) (s : S) (p : N) : option byte :=
  view ino (i_cache_ ino) s p.

Record ino_wf (ino : Inode) : Prop := {
  iw_host : host_wf ino;
  iw_cache : rc_wf ino (i_cache_ ino);
  iw_size : i_size_ ino < 9223372036854775808;
}.

(** Replacing the cache and the size keeps an inode well-formed. *)
Lemma ino_wf_update ino c n :
  host_wf ino → rc_wf ino c → n < 9223372036854775808 → ino_wf (set_size n (set_cache c ino)).
Proof. intros [] [] Hn. split; [by split|by split|done]. Qed.

Lemma ino_wf_cache ino c :
  host_wf ino → rc_wf ino c → i_size_ ino < 9223372036854775808 → ino_wf (set_cache c ino).
Proof. intros [] [] Hn. split; [by split|by split|done]. Qed.

(** Both constructors build a well-formed inode; the file has its recorded
    size and nothing is cached. *)
Lemma new_Inode_wf hashname ino_recordname bm_recordname kb cover size key :
  0 < kb -> kb < 4194304 → cover < 4294967296 → (16 ≤ length key)%nat →
  size < 9223372036854775808 →
  wp no_fault (new_Inode hashname ino_recordname bm_recordname kb cover size key)
    (λ ino, ino_wf ino ∧ i_size_ ino = size ∧ i_block_size_ ino = kb * 1024 ∧
            i_hashname_ ino = hashname ∧ i_bm_recordname_ ino = bm_recordname ∧
            i_aes_key_ ino = key ∧ ∀ i, is_cached (i_cache_ ino) i = false).
Proof.
  intros Hkb Hkb' Hcover Hkey Hsize. unfold new_Inode. rewrite u64_small by lia.
  set (h := λ c, MkInode hashname ino_recordname size (kb * 1024) cover bm_recordname c key 0).
  assert (∀ c, host_wf (h c)) as Hh by (intros c; split; simpl; (lia || done)).
  eapply wp_bind.
  { apply (new_RecordCache_wf size (h (MkCache [] [] None)) (Hh _)). }
  intros c [Hc Hin]. simpl. split_and!; try done. split; [apply Hh| |done].
  simpl. destruct Hc. by split.
Qed.

Lemma fresh_is_new hashname kb cover key :
  fresh_Inode hashname kb cover key = new_Inode hashname [] [] kb cover 0 key.
Proof. done. Qed.

(** ** Loading blocks that are already there needs no backend *)

Lemma fill_step_cached (h : Inode) i c s :
  is_cached c i = true → RC.fill_step h i (s, c) = Ret (inl (s, c)).
Proof.
  unfold is_cached, RC.fill_step, RC.fill_block. intros Hi.
  destruct (dcache_stats_ c !! N.to_nat i) as [st|] eqn:Hst; [|done].
  pose proof (lookup_lt_Some _ _ _ Hst) as Hlt.
  replace (nlen (dcache_stats_ c) <=? i) with false
    by (symmetry; apply N.leb_gt; unfold nlen; lia).
  rewrite (vec_get_ok _ _ _ Hst). simpl. by rewrite Hi.
Qed.

Lemma fill_loop_cached (h : Inode) c s n i :
  (∀ j, i <= j < i + N.of_nat n → is_cached c j = true) →
  for_loop n i (RC.fill_step h) (s, c) = Ret (inl (s, c)).
Proof.
  revert i. induction n as [|n IH]; intros i Hin; [done|]. cbn [for_loop].
  rewrite fill_step_cached by (apply Hin; lia). m_run. apply IH. intros j Hj. apply Hin. lia.
Qed.

Lemma is_cached_lt c i : is_cached c i = true → i < nlen (dcache_stats_ c).
Proof.
  unfold is_cached. destruct (dcache_stats_ c !! N.to_nat i) eqn:E; [|done].
  intros _. apply lookup_lt_Some in E. unfold nlen. lia.
Qed.

Lemma fillDcache_cached (h : Inode) offset size c s :
  host_wf h → bm_ready h c → offset + size < 18446744073709551616 →
  (∀ i, offset / BlockSize h <= i <= (offset + size) / BlockSize h → is_cached c i = true) →
  RC.fillDcache h offset size c s = Ret (s, c, inr tt).
Proof.
  intros Hh Hr Hrange Hin. pose proof (hw_block_size h Hh) as Hbs.
  unfold RC.fillDcache. rewrite !udiv_ok by done. rewrite u64_small by done. m_run.
  assert (offset / BlockSize h <= (offset + size) / BlockSize h) as Hmono
    by (apply N.Div0.div_le_mono; lia).
  pose proof (is_cached_lt c _ (Hin (offset / BlockSize h) ltac:(lia))) as Hst.
  replace (nlen (dcache_stats_ c) <? offset / BlockSize h) with false
    by (symmetry; apply N.ltb_ge; lia).
  assert (∀ o n, RC.fillBmcache h o n c s = Ret (s, c, inr tt)) as Hbm.
  { intros o n. unfold RC.fillBmcache. destruct (bm_ c) eqn:E; [done|]. by rewrite (Hr E). }
  rewrite Hbm. m_run. rewrite fill_loop_cached; [done|].
  intros j Hj. apply Hin. unfold iters in Hj. lia.
Qed.

(** ** Writing and reading *)

(** Where a write at [offset] lands. *)
Definition clamp (ino : Inode) (offset : N) : N := N.min offset (i_size_ ino).

Lemma span_bounds bs offset size : size <= span bs offset size <= size + 1.
Proof. unfold span. destruct (_ =? _); lia. Qed.

(** [Inode::Write] is [RecordCache::Write] at the clamped offset. *)
Lemma Write_clamp (ino : Inode) (s : S) (buf : list cell) (offset size : N) :
  Ino.Write buf offset size ino s =
    ('(s, c, r) ← RC.Write ino buf (clamp ino offset) size (i_cache_ ino) s;
     match r with
     | inl e => Ret (s, set_cache c ino, inl e)
     | inr _ =>
         let n := u64 (clamp ino offset + size) in
         Ret (s, if i_size_ ino <? n then set_size n (set_cache c ino) else set_cache c ino, inr size)
     end).
Proof.
  unfold Ino.Write, clamp.
  replace (if i_size_ ino <=? offset then i_size_ ino else offset) with (N.min offset (i_size_ ino));
    [done|]. destruct (N.leb_spec (i_size_ ino) offset); lia.
Qed.

Lemma Write_spec_span (ino : Inode) (s s1 : S) (c1 : RecordCache) (buf : list cell)
    (offset size : N) :
  ino_wf ino → 0 < size → i_size_ ino + size < 9223372036854775808 →
  span (BlockSize ino) (clamp ino offset) size <= nlen buf →
  RC.fillDcache ino (clamp ino offset) size (i_cache_ ino) s = Ret (s1, c1, inr tt) →
  ∃ ino', Ino.Write buf offset size ino s = Ret (s1, ino', inr size) ∧
    ino_wf ino' ∧
    i_size_ ino' = N.max (i_size_ ino) (clamp ino offset + size) ∧
    write_post ino (i_cache_ ino) s buf (clamp ino offset) size (i_cache_ ino') s1 ∧
    ino' = set_size (i_size_ ino') (set_cache (i_cache_ ino') ino).
Proof.
  intros [Hh Hc Hsz] Hsize Hbound Hbuf Hfill. rewrite Write_clamp. unfold clamp in *.
  destruct (Write_spec ino buf (N.min offset (i_size_ ino)) size (i_cache_ ino) c1 s s1)
    as (c' & -> & Hpost); try done; [lia|].
  m_run. rewrite u64_small by lia. eexists. split; [done|].
  destruct (N.ltb_spec (i_size_ ino) (N.min offset (i_size_ ino) + size)); simpl.
  - split_and!; try done; [|simpl; lia]. apply ino_wf_update; [done|apply Hpost|lia].
  - split_and!; try done; [|simpl; lia]. apply ino_wf_cache; [done|apply Hpost|done].
Qed.

Lemma Write_spec_inode (ino : Inode) (s s1 : S) (c1 : RecordCache) (buf : list cell)
    (offset size : N) :
  ino_wf ino → 0 < size → i_size_ ino + size < 9223372036854775808 → size + 1 <= nlen buf →
  RC.fillDcache ino (clamp ino offset) size (i_cache_ ino) s = Ret (s1, c1, inr tt) →
  ∃ ino', Ino.Write buf offset size ino s = Ret (s1, ino', inr size) ∧
    ino_wf ino' ∧
    i_size_ ino' = N.max (i_size_ ino) (clamp ino offset + size) ∧
    write_post ino (i_cache_ ino) s buf (clamp ino offset) size (i_cache_ ino') s1 ∧
    ino' = set_size (i_size_ ino') (set_cache (i_cache_ ino') ino).
Proof.
  intros Hwf Hsize Hbound Hbuf. apply Write_spec_span; try done.
  pose proof (span_bounds (BlockSize ino) (clamp ino offset) size). lia.
Qed.

(** A buffer shorter than what is copied out of it. *)
Lemma Write_short_inode (ino : Inode) (s s1 : S) (c1 : RecordCache) (buf : list cell)
    (offset size : N) :
  ino_wf ino → 0 < size → i_size_ ino + size < 9223372036854775808 →
  nlen buf < span (BlockSize ino) (clamp ino offset) size →
  RC.fillDcache ino (clamp ino offset) size (i_cache_ ino) s = Ret (s1, c1, inr tt) →
  Ino.Write buf offset size ino s = Crash OutOfBounds.
Proof.
  intros [Hh Hc Hsz] Hsize Hbound Hbuf Hfill. rewrite Write_clamp.
  by rewrite (Write_short ino buf _ size _ c1 s s1) by (done || unfold clamp; lia).
Qed.

(** [Inode::Read] into a buffer of any length. *)
Lemma Read_spec_buffer (ino : Inode) (s : S) (buf : list cell) (offset size : N) :
  ino_wf ino → 0 < size → offset + size < 18446744073709551616 →
  wp (copy_fault (S := S) ino buf offset (N.min size (i_size_ ino - offset)))
     (Ino.Read buf offset size ino s) (λ '(s', ino', buf', r),
    ino_wf ino' ∧ i_size_ ino' = i_size_ ino ∧ length buf' = length buf ∧
    match r with
    | inl _ => buf' = buf
    | inr None => i_size_ ino <= offset ∧ buf' = buf
    | inr (Some n) =>
        offset < i_size_ ino ∧ n = N.min size (i_size_ ino - offset) ∧
        span (BlockSize ino) offset n <= nlen buf ∧
        view_le (contents ino s) (contents ino' s') ∧
        (∀ k b, k < n → contents ino s (offset + k) = Some b → buf' !! N.to_nat k = Some (Some b)) ∧
        (∀ k, span (BlockSize ino) offset n <= k → buf' !! N.to_nat k = buf !! N.to_nat k)
    end).
Proof.
  intros [Hh Hc Hsz] Hsize Hrange. unfold Ino.Read.
  destruct (N.leb_spec (i_size_ ino) offset) as [Hle|Hlt]; [by simpl|].
  rewrite u64_small by done.
  set (n := if i_size_ ino <? offset + size then i_size_ ino - offset else size).
  assert (N.min size (i_size_ ino - offset) = n) as ->.
  { unfold n. destruct (N.ltb_spec (i_size_ ino) (offset + size)); lia. }
  assert (0 < n ∧ n <= size) as [Hn Hn'].
  { unfold n. destruct (N.ltb_spec (i_size_ ino) (offset + size)); lia. }
  pose proof (span_bounds (BlockSize ino) offset n).
  eapply wp_bind; [apply (Read_spec_any ino buf offset n (i_cache_ ino) s); try done; lia|].
  intros [[[s' c'] buf'] [e|[]]] (Hwf & Hlen & Hpl & Hres).
  - cbn [wp]. split_and!; try done. by apply ino_wf_cache.
  - destruct Hres as (Hfit & He & Hin & Hout). cbn [wp]. split_and!; try done.
    + by apply ino_wf_cache.
    + intros p b Hp. by apply (ex_view _ _ _ _ _ He).
    + intros k b Hk. apply Hin. lia.
Qed.

Lemma Read_spec_inode (ino : Inode) (s : S) (buf : list cell) (offset size : N) :
  ino_wf ino → 0 < size → offset + size < 18446744073709551616 → size + 1 <= nlen buf →
  wp (storage_fault (S := S)) (Ino.Read buf offset size ino s) (λ '(s', ino', buf', r),
    ino_wf ino' ∧ i_size_ ino' = i_size_ ino ∧ length buf' = length buf ∧
    match r with
    | inl _ => buf' = buf
    | inr None => i_size_ ino <= offset ∧ buf' = buf
    | inr (Some n) =>
        offset < i_size_ ino ∧ n = N.min size (i_size_ ino - offset) ∧
        view_le (contents ino s) (contents ino' s') ∧
        (∀ k b, k < n → contents ino s (offset + k) = Some b → buf' !! N.to_nat k = Some (Some b)) ∧
        (∀ k, n + 1 <= k → buf' !! N.to_nat k = buf !! N.to_nat k)
    end).
Proof.
  intros Hwf Hsize Hrange Hbuf.
  pose proof (span_bounds (BlockSize ino) offset (N.min size (i_size_ ino - offset))).
  eapply wp_fault_mono; [|eapply wp_mono; [by apply Read_spec_buffer|]].
  { intros f [Hf|[_ Hf]]; [done|lia]. }
  intros [[[s' ino'] buf'] [e|[n|]]]; [done| |done].
  intros (? & ? & ? & ? & -> & ? & ? & ? & Hout). split_and!; try done.
  intros k Hk. apply Hout. lia.
Qed.

(** A read inside the file whose blocks can be loaded succeeds. *)
Lemma Read_total (ino : Inode) (s s1 : S) (c1 : RecordCache) (buf : list cell) (offset size : N) :
  ino_wf ino → 0 < size → offset + size <= i_size_ ino → size + 1 <= nlen buf →
  RC.fillDcache ino offset size (i_cache_ ino) s = Ret (s1, c1, inr tt) →
  ∃ buf', Ino.Read buf offset size ino s = Ret (s1, set_cache c1 ino, buf', inr (Some size)) ∧
    length buf' = length buf ∧
    ∀ k b, k < size → contents ino s (offset + k) = Some b → buf' !! N.to_nat k = Some (Some b).
Proof.
  intros Hwf Hsize Hend Hbuf Hfill. pose proof Hwf as [Hh Hc Hsz].
  pose proof (hw_block_size _ Hh) as Hbs. pose proof (span_bounds (BlockSize ino) offset size).
  pose proof (wp_elim _ _ _ _ (fillDcache_spec ino offset size _ s Hh Hc) Hfill) as (Hwf1 & Hok & _).
  destruct (Hok eq_refl) as (_ & _ & Hin). rewrite u64_small in Hin by lia.
  assert (∃ buf', Ino.Read buf offset size ino s =
    Ret (s1, set_cache c1 ino, buf', inr (Some size))) as (buf' & Hrd).
  { unfold Ino.Read. n_cmp. rewrite u64_small by lia.
    n_cmp. unfold RC.Read. n_cmp. cbn [c_assert]. m_run. rewrite u64_small by lia.
    rewrite !udiv_ok, !umod_ok by done. m_run. rewrite Hfill. m_run.
    destruct (read_copy_spec ino c1 buf offset size) as (buf' & Hcopy & _); try done; [lia|].
    rewrite Hcopy. m_run. by exists buf'. }
  exists buf'. split; [done|].
  pose proof (Read_spec_inode ino s buf offset size Hwf Hsize ltac:(lia) Hbuf) as Hspec.
  apply (wp_elim _ _ _ _ Hspec) in Hrd as (_ & _ & Hlen & _ & _ & _ & Hbytes & _). by split.
Qed.

(** A read inside the file stops as the loading of its blocks does, and
    succeeds if that does. *)
Lemma Read_up F (ino : Inode) (s : S) (buf : list cell) (offset size : N) :
  ino_wf ino → 0 < size → offset + size <= i_size_ ino → size + 1 <= nlen buf →
  wp F (RC.fillDcache ino offset size (i_cache_ ino) s) (λ '(_, _, r), r = inr tt) →
  wp F (Ino.Read buf offset size ino s) (λ '(_, _, buf', r), r = inr (Some size) ∧
    length buf' = length buf ∧
    ∀ k b, k < size → contents ino s (offset + k) = Some b → buf' !! N.to_nat k = Some (Some b)).
Proof.
  intros Hwf Hsize Hend Hbuf Hfill.
  destruct (RC.fillDcache _ _ _ _ _) as [[[s1 c1] r]|f] eqn:Hf; simpl in Hfill.
  - subst r. destruct (Read_total ino s s1 c1 buf offset size) as (buf' & -> & ?); by try done.
  - destruct Hwf as [Hh Hc Hsz]. pose proof (hw_block_size _ Hh) as Hbs.
    unfold Ino.Read. n_cmp. rewrite u64_small by lia.
    n_cmp. unfold RC.Read. n_cmp. cbn [c_assert]. m_run.
    rewrite !udiv_ok, !umod_ok by done. m_run. by rewrite Hf.
Qed.

(** ** Releasing a reference *)

Lemma Unref_more ino s :
  1 < i_ref_count_ ino → Ino.Unref ino s = Ret (s, set_ref (i_ref_count_ ino - 1) ino, i_ref_count_ ino - 1).
Proof.
  intros Href. unfold Ino.Unref. n_cmp. cbn [c_assert]. m_run. simpl i_ref_count_.
  by rewrite (proj2 (N.eqb_neq _ _)) by lia.
Qed.

(** The last one flushes the cache; a failure of the flush is not reported. *)
Lemma Unref_last ino s :
  host_wf ino → rc_wf ino (i_cache_ ino) → flushable ino (i_cache_ ino) → i_ref_count_ ino = 1 →
  Ino.Unref ino s =
    match flush_descs ino (i_cache_ ino) with
    | None => Ret (s, set_ref 0 ino, 0)
    | Some ds =>
        '(s, r) ← StoreRecord (Hashname ino) ds (InodeRecordname ino) (AESKey ino) s;
        Ret (s, match r with
                | inl _ => set_ref 0 ino
                | inr _ => set_cache (RC.drop_caches (i_cache_ ino)) (set_ref 0 ino)
                end, 0)
    end.
Proof.
  intros Hh Hc Hf Hone. unfold Ino.Unref. rewrite Hone.
  cbn [mbind outcome_bind c_assert N.ltb N.compare]. change (1 - 1) with 0.
  simpl i_ref_count_. simpl i_cache_. change ((if 0 =? 0 then ?a else _)) with a.
  assert (host_wf (set_ref 0 ino)) as Hh' by by destruct Hh; split.
  assert (rc_wf (set_ref 0 ino) (i_cache_ ino)) as Hc' by by destruct Hc; split.
  rewrite FlushCache_spec by done.
  change (flush_descs (set_ref 0 ino) (i_cache_ ino)) with (flush_descs ino (i_cache_ ino)).
  change (Hashname (set_ref 0 ino)) with (Hashname ino).
  destruct (flush_descs _ _) as [ds|]; [|by destruct ino].
  simpl InodeRecordname. simpl AESKey.
  destruct (StoreRecord _ _ _ _ _) as [[s1 [e|u]]|]; [by destruct ino|done|done].
Qed.
End inode.
