(* ===== verification/Progress.v ===== *)
(** * Loading blocks succeeds

    [fillDcache] reads the block map and the blocks of a request. When the
    backend does not fail these reads, it succeeds, or stops as they do. *)

From Stdlib Require Import NArith ZArith Lia.
From stdpp Require Import base list gmap.
From S2P Require Import Prelude Const Crypto Capsule DcServer Backend Cache CacheSpec InodeSpec.

Section progress.
Context `{OpenSSLLaws} {S : Type} `{StorageLaws S}.
Local Open Scope N_scope.

(** How the reads may stop. *)
Context (F : fault → Prop).

(** [I] holds of the backend, and keeps the reads of file [h] going: those of
    its block map and of the records that [names] gives for its blocks. *)
Record answers (h : Inode) (names : N → option bytes) (I : S → Prop) : Prop := {
  an_map s : I s → BlockMapRecordname h ≠ [] →
    wp F (ReadRecordData (Hashname h) (BlockMapRecordname h) (HASHLEN_IN_BYTES * BlockMapCover h) s)
      (λ '(s', r), (∃ data, r = inr data) ∧ I s');
  an_block s i name : I s → names i = Some name →
    wp F (ReadRecordData (Hashname h) name (BlockSize h + AES_PAD_LEN) s)
      (λ '(s', r), (∃ data, r = inr data) ∧ I s');
}.

(** The names of the blocks, once the map is loaded. *)
Definition names_of (h : Inode) (c : RecordCache) (i : N) : option bytes :=
  bm ← bm_ c; entry h bm i.

Definition map_names (h : Inode) (c : RecordCache) (s : S) (i : N) : option bytes :=
  bm ← block_map h c s; entry h bm i.

(** A read that does not fail gives what is stored. *)
Lemma answer_data dc r n s I :
  r ≠ [] → n < 9223372036854775808 →
  wp F (ReadRecordData dc r n s) (λ '(s', res), (∃ data, res = inr data) ∧ I s') →
  wp F (ReadRecordData dc r n s) (λ '(s', res), ∃ data, res = inr data ∧ I s' ∧
    payload_of s dc r = Some data ∧ nlen data ≤ n).
Proof.
  intros Hr Hn Ha. pose proof (ReadRecordData_law dc r n s Hr Hn) as Hlaw.
  destruct (ReadRecordData dc r n s) as [[s' res]|f]; [|done].
  destruct Ha as [[data ->] HI], Hlaw as [_ Hd]. exists data. by destruct (Hd data eq_refl).
Qed.

Lemma fillBmcache_progress h names I o n c s :
  host_wf h → rc_wf h c → answers h names I → I s →
  wp F (RC.fillBmcache h o n c s) (λ '(s', c', r), r = inr tt ∧ I s' ∧
    dcache_stats_ c' = dcache_stats_ c ∧ ∀ i, names_of h c' i = map_names h c s i).
Proof.
  intros Hh Hc Ha HI. unfold RC.fillBmcache, map_names, block_map.
  destruct (bm_ c) as [bm|] eqn:Hbm.
  { split_and!; try done. intros i. unfold names_of. by rewrite Hbm. }
  destruct (BlockMapRecordname h) as [|x rn] eqn:Hrn.
  { split_and!; try done. intros i. unfold names_of. rewrite Hbm. simpl. by rewrite entry_nil. }
  replace (0 <? nlen (x :: rn)) with true by (symmetry; apply N.ltb_lt; unfold nlen; simpl; lia).
  rewrite memset0_full. m_run. rewrite <-Hrn.
  assert (BlockMapRecordname h ≠ []) as Hne by by rewrite Hrn.
  pose proof (hw_cover_bound h Hh) as Hcov.
  set (size := HASHLEN_IN_BYTES * BlockMapCover h) in *.
  eapply wp_bind; [apply answer_data, (an_map _ _ _ Ha s HI Hne); [done|]|].
  { unfold size, HASHLEN_IN_BYTES. lia. }
  intros [s' res] (data & -> & HI' & Hdata & Hle). m_run.
  rewrite mem_write_ok by (unfold nlen in *; rewrite length_replicate, length_fmap; lia).
  split_and!; [done|done|done|]. intros i. unfold names_of. simpl.
  rewrite decide_False by done. rewrite Hdata. m_run. cbn [option_bind mbind].
  by n_cmp.
Qed.

Lemma fill_block_progress h names I i c s :
  host_wf h → rc_wf h c → i < nlen (dcache_stats_ c) → answers h names I → I s →
  (∀ j, names_of h c j = names j) →
  wp F (RC.fill_block h i c s) (λ '(s', c', r), r = inr tt ∧ I s' ∧ bm_ c' = bm_ c).
Proof.
  intros Hh Hc Hlt Ha HI Hnames. unfold RC.fill_block.
  destruct (lookup_lt_is_Some_2 (dcache_stats_ c) (N.to_nat i)) as [st Hst].
  { unfold nlen in Hlt. lia. }
  rewrite (vec_get_ok _ _ _ Hst). m_run. destruct (cached st); [done|].
  assert (i < nlen (dcache_blocks_ c)) as Hlt' by (unfold nlen in *; by rewrite (wf_length h c Hc)).
  set (blk := new_array _).
  assert (length blk = N.to_nat (BlockSize h + AES_PAD_LEN)) as Hblk by apply length_new_array.
  rewrite set_block_ok by done. m_run. rewrite bmCheck_spec by by apply put_block_wf. m_run.
  change (bm_ (put_block c i blk)) with (bm_ c). fold (names_of h c i). rewrite Hnames.
  destruct (names i) as [name|] eqn:Hname.
  - pose proof (hw_block_size_bound h Hh) as Hbs.
    eapply wp_bind; [apply answer_data, (an_block _ _ _ Ha s i name HI Hname)|].
    { rewrite <-Hnames in Hname. unfold names_of in Hname. destruct (bm_ c); [by eapply entry_nonempty|done]. }
    { unfold AES_PAD_LEN. lia. }
    intros [s' res] (data & -> & HI' & _ & Hle). m_run. n_cmp. cbn [c_assert]. m_run.
    destruct (Crypto.decrypt_spec (c_str (AESKey h)) data blk (Some 0))
      as (rc & blk' & ol & -> & Hlen & _); [by apply host_key|unfold nlen in Hle; lia|].
    m_run. rewrite set_block_ok by len_lia. rewrite put_block_twice. m_run.
    by rewrite set_stat_ok by done.
  - unfold memset0. rewrite mem_write_ok.
    2: { unfold nlen. rewrite length_replicate, Hblk. unfold AES_PAD_LEN. lia. }
    m_run. rewrite set_block_ok by len_lia. rewrite put_block_twice. m_run.
    by rewrite set_stat_ok by done.
Qed.

Lemma fill_step_progress h names I i c s :
  host_wf h → rc_wf h c → bm_ready h c → i <= nlen (dcache_stats_ c) → answers h names I → I s →
  (∀ j, names_of h c j = names j) →
  wp F (RC.fill_step h i (s, c)) (λ r, ∃ s' c', r = inl (s', c') ∧ I s' ∧ rc_wf h c' ∧ bm_ready h c' ∧
    i + 1 <= nlen (dcache_stats_ c') ∧ ∀ j, names_of h c' j = names j).
Proof.
  intros Hh Hc Hr Hle Ha HI Hnames.
  pose proof (fill_step_spec h i c s Hh Hc Hr Hle) as Hspec. revert Hspec. unfold RC.fill_step.
  set (c1 := if (nlen (dcache_stats_ c) <=? i) then RC.push_slot c else c).
  assert (rc_wf h c1 ∧ i < nlen (dcache_stats_ c1) ∧ bm_ c1 = bm_ c) as (Hc1 & Hlt & Hbm).
  { unfold c1. destruct (N.leb_spec (nlen (dcache_stats_ c)) i); [|done].
    split; [by apply (push_slot_extends h c s)|]. split; [|done]. simpl. rewrite nlen_app.
    unfold nlen at 2. simpl. lia. }
  pose proof (fill_block_progress h names I i c1 s Hh Hc1 Hlt Ha HI) as Hb.
  destruct (RC.fill_block h i c1 s) as [[[s' c'] r]|f].
  2: { intros _. apply Hb. intros j. rewrite <-Hnames. unfold names_of. by rewrite Hbm. }
  destruct Hb as (-> & HI' & Hbm').
  { intros j. rewrite <-Hnames. unfold names_of. by rewrite Hbm. }
  m_run. intros (He & Hr' & _ & Hlen). exists s', c'. split_and!; try done; [apply He|].
  intros j. rewrite <-Hnames. unfold names_of. by rewrite Hbm', Hbm.
Qed.

(** The loads of a request all succeed. *)
Lemma fillDcache_progress h I offset size c s :
  host_wf h → rc_wf h c → answers h (map_names h c s) I → I s →
  wp F (RC.fillDcache h offset size c s) (λ '(s', _, r), r = inr tt ∧ I s').
Proof.
  intros Hh Hc Ha HI. unfold RC.fillDcache. pose proof (hw_block_size h Hh) as Hbs.
  rewrite !udiv_ok by done. m_run.
  set (ed := u64 (offset + size) / BlockSize h). set (st0 := offset / BlockSize h).
  set (st := if nlen (dcache_stats_ c) <? st0 then nlen (dcache_stats_ c) else st0).
  assert (st <= nlen (dcache_stats_ c)) as Hst.
  { unfold st. destruct (N.ltb_spec (nlen (dcache_stats_ c)) st0); lia. }
  set (cnt := u64 _).
  eapply wp_bind; [by eapply wp_value, fillBmcache_progress|].
  intros [[s1 c1] r1] (Hbm & -> & HI1 & Hst1 & Hn1).
  pose proof (wp_elim _ _ _ _ (fillBmcache_spec h st cnt c s Hh Hc) Hbm) as [He1 Hr1].
  eapply wp_bind; [apply (for_loop_inv F
    (λ j '(s2, c2), I s2 ∧ rc_wf h c2 ∧ bm_ready h c2 ∧ j <= nlen (dcache_stats_ c2) ∧
      ∀ i, names_of h c2 i = map_names h c s i)
    (λ _ : S * RecordCache * errno, False) (RC.fill_step h) (iters st (ed + 1)) st (s1, c1))|].
  - split_and!; try done; [apply He1|]. by rewrite Hst1.
  - intros j [s2 c2] _ (HI2 & Hc2 & Hr2 & Hl2 & Hn2).
    eapply wp_mono; [by apply (fill_step_progress h _ I j c2 s2 Hh Hc2 Hr2 Hl2 Ha HI2 Hn2)|].
    intros r (s3 & c3 & -> & HI3 & Hc3 & Hr3 & Hl3 & Hn3). done.
  - intros [[s2 c2]|]; [|done]. intros Hr. split; [done|apply Hr].
Qed.
End progress.

(** A new file has nothing to load. *)
Section new_file.
Context `{OpenSSLLaws} {S : Type} `{StorageLaws S}.

Lemma fill_new_file h offset size c s :
  host_wf h → rc_wf h c → bm_ c = None → BlockMapRecordname h = [] →
  ∃ c', RC.fillDcache h offset size c s = Ret (s, c', inr tt).
Proof.
  intros Hh Hc Hbm Hrn.
  pose proof (fillDcache_progress no_fault h (eq s) offset size c s Hh Hc) as Hf.
  apply wp_total in Hf as ([[s' c'] r] & Hf & -> & <-); [by eauto| |done].
  split; [by rewrite Hrn|]. intros s' i name _ Hn. unfold map_names, block_map in Hn.
  rewrite Hbm, decide_True in Hn by done. simpl in Hn. by rewrite entry_nil in Hn.
Qed.
End new_file.
