(* ===== verification/Dcfs.v ===== *)
(** * The file system: [src/fs/dcfs.cpp] and the inode table of
    [src/fs/inode.cpp]

    The FUSE callbacks over the root directory, the table of in-memory inodes
    and the descriptor table. FUSE itself is outside: a callback is a function
    of its arguments and the state of the process. *)

From Stdlib Require Import NArith ZArith Lia.
From Stdlib Require Import Strings.String.
From stdpp Require Import base list gmap.
From S2P Require Import Prelude Const Dir Crypto Capsule Backend Cache.

(** ** System constants the callbacks return *)
Definition ENOENT : Z := 2.
Definition EIO : Z := 5.
Definition ENOMEM : Z := 12.
Definition EEXIST : Z := 17.
Definition S_IFDIR : N := 16384.
Definition S_IFREG : N := 32768.

(** A signed [off_t] used as [uint64_t]. *)
Definition off_to_u64 (z : Z) : N := Z.to_N (z mod 18446744073709551616).

(** The fields of [struct stat] that [getattr] sets; the others are 0. *)
Record stat := MkStatBuf { st_mode : N; st_nlink : N; st_size : N }.
Definition zero_stat : stat := MkStatBuf 0 0 0.

(** The globals: [*dcfs], [inode_table], [fd_cnt] and [fd_table]. *)
Record fs_state (S : Type) := MkFs {
  root : Dir.Directory;
  backend : S;
  block_size_in_kb : N;
  inode_table : gmap (list Byte.byte) Inode;
  fd_cnt : N;
  fd_table : list bytes;
}.
Arguments MkFs {S} _ _ _ _ _ _.
Arguments root {S} _.
Arguments backend {S} _.
Arguments block_size_in_kb {S} _.
Arguments inode_table {S} _.
Arguments fd_cnt {S} _.
Arguments fd_table {S} _.

Module Fs.
Section fs.
Context `{OpenSSL} {S : Type} `{Storage S}.
Abbreviation St := (fs_state S).

Definition set_root (d : Dir.Directory) (st : St) : St :=
  MkFs d (backend st) (block_size_in_kb st) (inode_table st) (fd_cnt st) (fd_table st).
Definition set_backend (s : S) (st : St) : St :=
  MkFs (root st) s (block_size_in_kb st) (inode_table st) (fd_cnt st) (fd_table st).
Definition set_table (t : gmap (list Byte.byte) Inode) (st : St) : St :=
  MkFs (root st) (backend st) (block_size_in_kb st) t (fd_cnt st) (fd_table st).
Definition set_fds (n : N) (t : list bytes) (st : St) : St :=
  MkFs (root st) (backend st) (block_size_in_kb st) (inode_table st) n t.

(** [dcfs_init]: [s] is the backend that [init_backend] builds. The static
    [fd_cnt] starts at 10. *)
Definition dcfs_init (options_block_size_in_kb : N) (s : S) : St :=
  MkFs Dir.new_Directory s options_block_size_in_kb ∅ 10
    (replicate (N.to_nat FD_TABLE_MAX) []).

(** ** The inode table

    An [Inode *] is the name under which the table holds the object; the
    objects are only reached through the table. *)

Definition deref (p : bytes) (st : St) : outcome Inode :=
  match inode_table st !! p with Some ino => Ret ino | None => Crash NullDeref end.

Definition update (p : bytes) (ino : Inode) (st : St) : St :=
  set_table (<[p := ino]> (inode_table st)) st.

Definition allocate_inode (st : St) : outcome (St * option bytes) :=
  '(s, r) ← CreateNewFile (backend st);
  let st := set_backend s st in
  match r with
  | inl _ => Ret (st, None)
  | inr (hashname, aes_key) =>
      ret ← fresh_Inode hashname (block_size_in_kb st) BLOCKMAP_COVER aes_key;
      Ret (update hashname ret st, Some hashname)
  end.

Definition get_inode (hashname : bytes) (st : St) : outcome (St * option bytes) :=
  match inode_table st !! hashname with
  | Some _ => Ret (st, Some hashname)
  | None =>
      '(s, r) ← ReadFileMeta hashname (backend st);
      let st := set_backend s st in
      match r with
      | inl _ => Ret (st, None)
      | inr m =>
          ret ← new_Inode hashname (fm_recordname m) (fm_blockmap_hash m)
                  (block_size_in_kb st) BLOCKMAP_COVER (fm_i_size m) (fm_aes_key m);
          Ret (update hashname ret st, Some hashname)
      end
  end.

Definition release_inode (hashname : bytes) (st : St) : St :=
  set_table (delete hashname (inode_table st)) st.

(** ** Looking up a path *)

(** [path + 1] *)
Definition path_tail (path : bytes) : outcome bytes :=
  match path with [] => Crash OutOfBounds | _ :: t => Ret t end.

(** [strcmp(name, ent->Filename().c_str()) == 0] *)
Definition names (name : bytes) (ent : Dir.DirectoryEntry) : bool :=
  bool_decide (cstr name = cstr (Dir.Filename ent)).

(** [InitReaddir] and the search loop. *)
Definition find_entry (path : bytes) (st : St) :
    outcome (St * option Dir.DirectoryEntry) :=
  name ← path_tail path;
  '(d, ent) ← Dir.scan_until (names name) (Dir.scan_fuel (root st)) (Dir.InitReaddir (root st));
  Ret (set_root d st, ent).

(** The inode a handle or, without one, a path stands for. [uninit] says that
    the callback's [inode] variable has no initial value (in [dcfs_read]). *)
Definition find_inode (uninit : bool) (path : bytes) (fh : N) (st : St) :
    outcome (St * option bytes) :=
  if (0 <? fh)%N then
    hashname ← vec_get (fd_table st) fh;
    get_inode hashname st
  else
    '(st, ent) ← find_entry path st;
    match ent with
    | Some e => get_inode (Dir.Hashname e) st
    | None => if uninit then Crash Indeterminate else Ret (st, None)
    end.

(** [fd = ++fd_cnt; fd_table[fd] = hashname;] *)
Definition new_fd (hashname : bytes) (st : St) : outcome (St * N) :=
  let fd := u64 (fd_cnt st + 1) in
  t ← vec_set (fd_table st) fd hashname;
  Ret (set_fds fd t st, fd).

(** ** The callbacks *)

Definition dcfs_getattr (path : bytes) (st : St) : outcome (St * stat * Z) :=
  if bool_decide (cstr path = lit "/") then
    Ret (st, MkStatBuf (N.lor S_IFDIR 493) 2 0, 0%Z)
  else
    '(st, ent) ← find_entry path st;
    match ent with
    | None => Ret (st, zero_stat, (- ENOENT)%Z)
    | Some e =>
        '(st, inode) ← get_inode (Dir.Hashname e) st;
        match inode with
        | None => Crash NullDeref
        | Some p =>
            ino ← deref p st;
            Ret (st, MkStatBuf (N.lor S_IFREG 292) 1 (Size ino), 0%Z)
        end
    end.

(** The names handed to [filler], in order. *)
Definition dcfs_readdir (path : bytes) (st : St) : outcome (St * list bytes * Z) :=
  if negb (bool_decide (cstr path = lit "/")) then Ret (st, [], (- ENOENT)%Z)
  else
    '(d, ents) ← Dir.scan_all (Dir.scan_fuel (root st)) (Dir.InitReaddir (root st)) [];
    Ret (set_root d st,
         [lit "."; lit ".."] ++ ((λ e, cstr (Dir.Filename e)) <$> ents), 0%Z).

(** The last component is [fi->fh]. *)
Definition dcfs_create (path : bytes) (fh : N) (st : St) : outcome (St * Z * N) :=
  '(st, ent) ← find_entry path st;
  match ent with
  | Some _ => Ret (st, (- EEXIST)%Z, fh)
  | None =>
      '(st, inode) ← allocate_inode st;
      match inode with
      | None => Ret (st, (- ENOMEM)%Z, fh)
      | Some p =>
          ino ← deref p st;
          let st := update p (Ino.Ref ino) st in
          name ← path_tail path;
          let ent := Dir.MkEntry (cstr name) (Hashname ino) in
          let st := set_root (Dir.Addent ent (root st)).1 st in
          '(st, fd) ← new_fd (Dir.Hashname ent) st;
          Ret (st, 0%Z, fd)
      end
  end.

Definition dcfs_open (path : bytes) (fh : N) (st : St) : outcome (St * Z * N) :=
  '(st, ent) ← find_entry path st;
  match ent with
  | None => Ret (st, (- ENOENT)%Z, fh)
  | Some e =>
      '(st, inode) ← get_inode (Dir.Hashname e) st;
      match inode with
      | None => Ret (st, (- ENOENT)%Z, fh)
      | Some p =>
          ino ← deref p st;
          let st := update p (Ino.Ref ino) st in
          '(st, fd) ← new_fd (Dir.Hashname e) st;
          Ret (st, 0%Z, fd)
      end
  end.

(** [buf] is FUSE's buffer; the comparisons convert [offset] to unsigned. *)
Definition dcfs_read (path : bytes) (buf : list cell) (size : N) (offset : Z) (fh : N)
    (st : St) : outcome (St * list cell * Z) :=
  '(st, inode) ← find_inode true path fh st;
  match inode with
  | None => Ret (st, buf, (- ENOENT)%Z)
  | Some p =>
      ino ← deref p st;
      let len := Size ino in
      let off := off_to_u64 offset in
      if (off <? len)%N then
        let size := if (len <? u64 (off + size))%N then (len - off)%N else size in
        '(s, ino, buf, r) ← Ino.Read buf off size ino (backend st);
        let st := update p ino (set_backend s st) in
        match r with
        | inl _ => Ret (st, buf, (- EIO)%Z)
        | inr _ => Ret (st, buf, to_int size)
        end
      else Ret (st, buf, 0%Z)
  end.

Definition dcfs_write (path : bytes) (buf : list cell) (size : N) (offset : Z) (fh : N)
    (st : St) : outcome (St * Z) :=
  '(st, inode) ← find_inode false path fh st;
  match inode with
  | None => Ret (st, (- ENOENT)%Z)
  | Some p =>
      ino ← deref p st;
      '(s, ino, r) ← Ino.Write buf (off_to_u64 offset) size ino (backend st);
      let st := update p ino (set_backend s st) in
      match r with
      | inl _ => Ret (st, (- EIO)%Z)
      | inr _ => Ret (st, to_int size)
      end
  end.

Definition dcfs_flush (path : bytes) (fh : N) (st : St) : outcome (St * Z * N) :=
  '(st, inode) ← find_inode false path fh st;
  match inode with
  | None => Ret (st, (- ENOENT)%Z, fh)
  | Some p =>
      ino ← deref p st;
      '(s, ino, cnt) ← Ino.Unref ino (backend st);
      let st := update p ino (set_backend s st) in
      if (cnt =? 0)%N then
        let st := release_inode (Hashname ino) st in
        st ← if (0 <? fh)%N
             then t ← vec_set (fd_table st) fh []; Ret (set_fds (fd_cnt st) t st)
             else Ret st;
        Ret (st, 0%Z, 0%N)
      else Ret (st, 0%Z, fh)
  end.

End fs.
End Fs.
