(* ===== verification/MidSpec.v ===== *)
(** * What the middleware stores

    A request travels as the concatenation of its parts; a modification that
    succeeds appends one record per data block, a block map and an inode
    record to the capsule, each pointing back to its predecessor. *)

From Stdlib Require Import NArith ZArith Lia.
From Stdlib Require Import Strings.String.
From stdpp Require Import base list gmap.
From S2P Require Import Prelude Const Options Crypto Capsule DcServer Middleware.

Section mid.
Context `{OpenSSLLaws} `{Protobuf} `{RunEnv} {D : Type} `{DCServerLaws D}.
Abbreviation W := (world D).
Local Open Scope N_scope.

(** ** The request *)

(** What is signed: the parts of the request one after the other. *)
Definition request (dcname : bytes) (descs : list buf_desc) (inode_hash aes_key : bytes) : bytes :=
  dcname ++ concat (desc_buf <$> descs) ++ inode_hash ++ aes_key.

Lemma splice_prefix (pre : bytes) (n : nat) (b : bytes) :
  (length b ≤ n)%nat →
  splice ((Some <$> pre) ++ replicate n (None : cell)) (length pre) (Some <$> b) =
  (Some <$> pre ++ b) ++ replicate (n - length b) None.
Proof.
  intros Hb. unfold splice. rewrite take_app_length' by by rewrite length_fmap.
  rewrite length_fmap, drop_app_add' by by rewrite length_fmap.
  rewrite drop_replicate, fmap_app, <-(assoc_L (++)). done.
Qed.

(** Copying [b] behind the [pre] bytes already laid out. *)
Lemma pack_copy (pre b src : bytes) (n : nat) :
  (length b ≤ n)%nat → take (length b) src = b →
  memcpy ((Some <$> pre) ++ replicate n (None : cell)) (nlen pre) (Some <$> src) 0 (nlen b) =
  Ret ((Some <$> pre ++ b) ++ replicate (n - length b) None).
Proof.
  intros Hn Hsrc. assert (length b ≤ length src)%nat as Hle.
  { rewrite <-Hsrc, length_take. lia. }
  rewrite memcpy_ok.
  2: { rewrite nlen_fmap. unfold nlen. lia. }
  2: { unfold nlen. rewrite length_app, length_fmap, length_replicate. lia. }
  f_equal. rewrite !to_nat_nlen. change (N.to_nat 0) with 0%nat.
  unfold slice. rewrite drop_0, <-fmap_take, Hsrc. by apply splice_prefix.
Qed.

Lemma sum_sizes_concat descs :
  Mid.sum_sizes descs = nlen (concat (desc_buf <$> descs)).
Proof.
  induction descs as [|d descs IH]; [done|]. simpl. by rewrite nlen_app, IH.
Qed.

Lemma pack_descs_spec descs (pre : bytes) (n : nat) :
  (length (concat (desc_buf <$> descs)) ≤ n)%nat →
  Mid.pack_descs ((Some <$> pre) ++ replicate n None) (nlen pre) descs =
  Ret ((Some <$> pre ++ concat (desc_buf <$> descs)) ++
         replicate (n - length (concat (desc_buf <$> descs))) None,
       nlen (pre ++ concat (desc_buf <$> descs))).
Proof.
  revert pre n. induction descs as [|d descs IH]; intros pre n Hn; csimpl.
  { by rewrite !app_nil_r, Nat.sub_0_r. }
  csimpl in Hn. rewrite length_app in Hn. unfold desc_size.
  rewrite (pack_copy pre (desc_buf d) (desc_buf d)) by (lia || by rewrite take_ge).
  m_run. rewrite <-nlen_app, IH by lia.
  rewrite <-(assoc_L (++)), length_app, Nat.sub_add_distr. done.
Qed.

(** The packing loop never leaves its array, and the array is the request. *)
Lemma pack_args_spec dcname descs inode_hash aes_key :
  nlen (request dcname descs inode_hash aes_key) < 18446744073709551616 →
  Mid.pack_args dcname descs inode_hash aes_key = Ret (request dcname descs inode_hash aes_key).
Proof.
  intros Hlen. unfold Mid.pack_args. rewrite sum_sizes_concat.
  unfold request in Hlen. rewrite !nlen_app in Hlen.
  rewrite u64_small by lia. unfold new_array.
  set (body := concat (desc_buf <$> descs)) in *.
  assert (∀ s : bytes, take (length s) (c_str s) = s) as Hcs.
  { intros s. unfold c_str. by apply take_app_length. }
  pose proof (pack_copy [] dcname (c_str dcname)
    (N.to_nat (nlen dcname + nlen inode_hash + nlen aes_key + nlen body))) as Hp.
  change (nlen (@nil Byte.byte)) with 0 in Hp. simpl in Hp.
  rewrite Hp by (done || (unfold nlen; lia)).
  m_run. rewrite pack_descs_spec by (fold body; unfold nlen; lia).
  fold body. m_run.
  rewrite pack_copy by (done || (unfold nlen; lia)). m_run.
  rewrite <-(nlen_app (dcname ++ body) inode_hash), pack_copy by (done || (unfold nlen; lia)).
  m_run.
  match goal with |- context [replicate ?k None] => replace k with 0%nat by (unfold nlen; lia) end.
  rewrite app_nil_r, cells_bytes_ok. unfold request. fold body. by rewrite <-!(assoc_L (++)).
Qed.

(** ** Names and records *)

(** A record of the capsule: what its name, header and payload must be. *)
Record record_ok (t : record_type) (prev : list bytes) (payload name : bytes)
    (p : CapsulePDU) : Prop := {
  ro_type : h_msgType (pdu_header p) = record_type_to_string t;
  ro_prev : h_prevHash (pdu_header p) = prev;
  ro_name : sha256 (SerializeHeader (pdu_header p)) = Some name;
  ro_header_hash : pdu_header_hash p = name;
  ro_payload : pdu_payload_in_transit p = payload;
  ro_payload_hash : sha256 payload = Some (h_hash (pdu_header p));
  ro_shape : pdu_header p =
    MkHeader 0 prev (h_hash (pdu_header p)) (h_timestamp (pdu_header p)) 0
      (record_type_to_string t) 0 Mid.reply_addr [] false;
  ro_rest : pdu_signature p = lit "0" ∧ pdu_signature_len p = 0%Z;
  ro_time : ∃ n, h_timestamp (pdu_header p) = clock n;
}.

Definition stored (w : W) (dc r : bytes) : option bytes := record_of (server w) dc r.

Lemma name_length t prev payload name p :
  record_ok t prev payload name p → nlen name = 32.
Proof. intros Hp. by apply (sha256_length _ _ (ro_name _ _ _ _ _ Hp)). Qed.

Lemma name_nonempty t prev payload name p :
  record_ok t prev payload name p → name ≠ [].
Proof. intros Hp ->. by apply name_length in Hp. Qed.

(** [composeRecord] with a payload. *)
Lemma composeRecord_spec t prev payload (w w' : W) rec name :
  Mid.composeRecord t (Some prev) (Some payload) w = Ret (w', inr (rec, name)) →
  w' = Mid.tick w ∧ ∃ p, rec = SerializePDU p ∧ record_ok t prev payload name p.
Proof.
  unfold Mid.composeRecord, Crypto.hash256. intros Hrun.
  destruct (sha256 payload) as [ph|] eqn:Hph; [|done]. m_run in Hrun.
  match type of Hrun with context [sha256 ?x] => destruct (sha256 x) as [hn|] eqn:Hhn end; [|done].
  simpl in Hrun. simplify_eq. split; [done|]. eexists. split; [done|].
  split; try done. by eexists.
Qed.

Lemma write_record_spec dc r data (w w' : W) :
  r ≠ [] → Mid.write_record dc r data w = Ret (w', inr tt) →
  mid w' = mid w ∧ rands w' = rands w ∧ stored w' dc r = Some data ∧
  ∀ dc' r', r' ≠ r → stored w' dc' r' = stored w dc' r'.
Proof.
  intros Hr Hrun. unfold Mid.write_record in Hrun. m_bind Hrun. destruct r0 as [d res].
  simplify_eq. pose proof (wp_elim _ _ _ _ (write_law dc r data (server w)) Hm) as [Hf Hs].
  split_and!; try done. by apply Hs.
Qed.

(** The names the data blocks point back to. *)
Definition back_of (dcname latest_block prev : bytes) : bytes :=
  if decide (prev = []) then (if decide (latest_block = []) then dcname else latest_block)
  else prev.

(** Every data block is stored under its name, chained to the one before. *)
Definition blocks_stored (w : W) (dc back : bytes) (descs : list buf_desc) (ns : list bytes) : Prop :=
  ∀ i d n b, descs !! i = Some d → ns !! i = Some n → (back :: ns) !! i = Some b →
    ∃ p, stored w dc n = Some (SerializePDU p) ∧ record_ok DATABLOCK [b] (desc_buf d) n p.

Lemma push_data_blocks_spec dc latest_block descs prev blocks (w w' : W) blocks' :
  Mid.push_data_blocks dc latest_block descs prev blocks w = Ret (w', inr blocks') →
  ∃ ns, blocks' = blocks ++ zip (desc_file_offset <$> descs) ns ∧
    length ns = length descs ∧ mid w' = mid w ∧ rands w' = rands w ∧
    Forall (λ n, nlen n = 32) ns ∧
    (∀ dc' r, r ∉ ns → stored w' dc' r = stored w dc' r) ∧
    (NoDup ns → blocks_stored w' dc (back_of dc latest_block prev) descs ns).
Proof.
  revert prev blocks w. induction descs as [|d descs IH]; intros prev blocks w Hrun; simpl in Hrun.
  { simplify_eq. exists []. simpl. rewrite app_nil_r. by split_and!. }
  fold (back_of dc latest_block prev) in Hrun.
  m_bind Hrun. destruct r as [w1 [e|[rec name]]]; [done|].
  apply composeRecord_spec in Hm as (-> & p & -> & Hp).
  m_bind Hrun. destruct r as [w2 [e|[]]]; [done|].
  pose proof (name_nonempty _ _ _ _ _ Hp) as Hne.
  apply write_record_spec in Hm as (Hmid & Hrands & Hst & Hframe); [|done].
  apply IH in Hrun as (ns & -> & Hlen & Hmid' & Hrands' & Hall & Hframe' & Hblocks).
  exists (name :: ns). simpl. rewrite <-(assoc_L (++)). split_and!.
  - done.
  - by rewrite Hlen.
  - by rewrite Hmid', Hmid.
  - by rewrite Hrands', Hrands.
  - constructor; [by eapply name_length|done].
  - intros dc' r. rewrite not_elem_of_cons. intros [Hr Hr'].
    rewrite Hframe', Hframe by done. done.
  - rewrite NoDup_cons. intros [Hnin Hnd] i d' n b Hd Hn Hb.
    destruct i as [|i]; simpl in *; simplify_eq.
    + exists p. by rewrite Hframe'.
    + apply (Hblocks Hnd i d' n b); try done.
      unfold back_of. by rewrite decide_False.
Qed.

(** ** Block maps *)

(** Names are 32 bytes long. *)
Definition names_ok (hs : list bytes) : Prop := Forall (λ h, nlen h = HASHLEN_IN_BYTES) hs.

Lemma concat_names_length hs :
  names_ok hs → nlen (concat hs) = HASHLEN_IN_BYTES * nlen hs.
Proof.
  induction 1 as [|h hs Hh _ IH]; [done|]. cbn [concat].
  rewrite nlen_app, IH, Hh. unfold nlen, HASHLEN_IN_BYTES. simpl length. lia.
Qed.

Lemma concat_hashes_names hs : names_ok hs → Mid.concat_hashes hs = Ret (concat hs).
Proof.
  induction 1 as [|h hs Hh _ IH]; [done|]. cbn [Mid.concat_hashes concat].
  unfold nlen, HASHLEN_IN_BYTES in Hh.
  rewrite mem_read_ok by (unfold nlen, c_str, HASHLEN_IN_BYTES; rewrite length_app; lia).
  m_run. rewrite IH. m_run.
  unfold slice, c_str. rewrite drop_0, take_app_length' by (unfold HASHLEN_IN_BYTES; lia). done.
Qed.

Lemma split_hashes_names hs (pre : bytes) acc fuel :
  names_ok hs → (length hs < fuel)%nat →
  Mid.split_hashes fuel (pre ++ concat hs) (nlen pre) acc = Ret (acc ++ hs).
Proof.
  intros Hhs. revert pre acc fuel.
  induction Hhs as [|h hs Hh _ IH]; intros pre acc [|fuel] Hfuel; simpl in Hfuel; try lia;
    cbn [Mid.split_hashes concat].
  { rewrite !app_nil_r. by rewrite N.ltb_irrefl. }
  rewrite (proj2 (N.ltb_lt _ _)) by (rewrite !nlen_app, Hh; unfold HASHLEN_IN_BYTES; lia).
  rewrite mem_read_ok
    by (unfold c_str; rewrite !nlen_app, Hh; unfold HASHLEN_IN_BYTES; lia).
  m_run. rewrite to_nat_nlen, <-Hh, to_nat_nlen.
  unfold slice, c_str. rewrite <-(assoc_L (++)), drop_app_length.
  rewrite <-(assoc_L (++)), take_app_length, (assoc_L (++) pre), <-nlen_app.
  rewrite IH by lia. by rewrite <-(assoc_L (++)).
Qed.

(** A block map is read back as it was written: the 32-byte names the
    middleware concatenates into a payload are exactly the names that the next
    [Modify] splits out of it, in a loop that ends within its fuel. *)
Theorem block_map_round_trip hs :
  names_ok hs →
  ∃ payload, Mid.concat_hashes hs = Ret payload ∧ nlen payload = HASHLEN_IN_BYTES * nlen hs ∧
    Mid.split_hashes (S (length payload)) payload 0 [] = Ret hs.
Proof.
  intros Hhs. exists (concat hs). pose proof (concat_names_length hs Hhs) as Hl.
  split; [by apply concat_hashes_names|]. split; [done|].
  apply (split_hashes_names hs [] []); [done|]. unfold nlen, HASHLEN_IN_BYTES in Hl. lia.
Qed.

(** The size is never loaded into [inode_record], so every hash is appended. *)
Lemma update_hashes_zero blocks hashes :
  Mid.update_hashes 0 blocks hashes = Ret (hashes ++ blocks.*2).
Proof.
  revert hashes. induction blocks as [|[o n] blocks IH]; intros hashes; simpl.
  { by rewrite app_nil_r. }
  n_cmp. m_run.
  by rewrite IH, <-(assoc_L (++)).
Qed.

(** A copy to the front of a new array. *)
Lemma splice_front (n : nat) (b : bytes) :
  (length b ≤ n)%nat →
  splice (replicate n (None : cell)) 0 (Some <$> b) = (Some <$> b) ++ replicate (n - length b) None.
Proof. intros Hn. by apply (splice_prefix []). Qed.

Lemma pack_all (pre b : bytes) (n : nat) :
  (length b ≤ n)%nat →
  memcpy ((Some <$> pre) ++ replicate n (None : cell)) (nlen pre) (Some <$> b) 0 (nlen b) =
  Ret ((Some <$> pre ++ b) ++ replicate (n - length b) None).
Proof. intros Hn. apply pack_copy; [done|by apply take_ge]. Qed.

(** The payload of an inode record: the size, and the file key encrypted
    under the middleware's key. *)
Lemma inode_payload_spec (symkey k : bytes) size :
  length symkey = 16%nat → length k = 16%nat →
  match Crypto.ciphertext symkey k with
  | Some c => length c = 32%nat ∧
      Mid.inode_payload (Some <$> symkey) size (Some <$> k) = Ret (le_bytes 8 size ++ c)
  | None => ∃ f, Mid.inode_payload (Some <$> symkey) size (Some <$> k) = Crash f
  end.
Proof.
  intros Hs Hk. unfold Mid.inode_payload.
  pose proof (length_le_bytes 8 size) as Hle. set (sz := le_bytes 8 size) in *. clearbody sz.
  assert (memcpy (new_array INODE_PAYLOAD_SIZE) 0 (Some <$> sz) 0 8 =
    Ret ((Some <$> sz) ++ replicate 32 None)) as ->.
  { pose proof (pack_all [] sz 40) as Hp. unfold nlen in Hp. rewrite Hle in Hp.
    apply Hp. lia. }
  m_run. rewrite !cells_bytes_ok. m_run.
  pose proof (Crypto.encrypt_spec symkey k (Some <$> k) (new_array (AES_KEY_LEN + AES_PAD_LEN)) None) as He.
  assert (nlen k = AES_KEY_LEN) as Hn by (unfold nlen; by rewrite Hk). rewrite Hn in He.
  rewrite Hs, Hk, length_new_array in He.
  specialize (He ltac:(lia) ltac:(apply take_ge; rewrite length_fmap; lia) ltac:(done)).
  destruct (Crypto.ciphertext symkey k) as [c|] eqn:Hc.
  - assert (length c = 32%nat) as Hlc
      by (apply Crypto.ciphertext_length in Hc; [by rewrite Hk in Hc|by rewrite Hn]).
    split; [done|]. rewrite He. m_run.
    unfold nlen. rewrite Hlc. change (c_assert _) with (Ret tt). m_run.
    unfold new_array. change (N.to_nat (AES_KEY_LEN + AES_PAD_LEN)) with 32%nat.
    rewrite splice_front by lia. rewrite Hlc, app_nil_r.
    assert (memcpy ((Some <$> sz) ++ replicate 32 None) INODE_AES_KEY_OFFSET (Some <$> c) 0
      (AES_KEY_LEN + AES_PAD_LEN) = Ret ((Some <$> sz ++ c) ++ [])) as ->.
    { pose proof (pack_all sz c 32) as Hq. unfold nlen in Hq. rewrite Hle, Hlc in Hq.
      apply Hq. lia. }
    m_run. by rewrite app_nil_r, cells_bytes_ok.
  - destruct He as (out' & ol' & He & Hol). rewrite He. m_run.
    destruct ol' as [n|]; [|by eexists].
    destruct (Hol n eq_refl) as [[=]|Hle2].
    rewrite (proj2 (N.eqb_neq _ _)); [by eexists|].
    unfold AES_KEY_LEN, AES_PAD_LEN in *. lia.
Qed.
(** ** Only the last step writes the middleware's state *)

Lemma read_record_mid d r n (a b : W) res :
  Mid.read_record d r n a = Ret (b, res) → mid b = mid a.
Proof. intros Hr. unfold Mid.read_record in Hr. m_bind Hr. destruct r0. by simplify_eq. Qed.

Lemma write_record_mid d r x (a b : W) res :
  Mid.write_record d r x a = Ret (b, res) → mid b = mid a.
Proof. intros Hr. unfold Mid.write_record in Hr. m_bind Hr. destruct r0. by simplify_eq. Qed.

Lemma composeRecord_mid t p x (a b : W) res :
  Mid.composeRecord t p x a = Ret (b, res) → mid b = mid a.
Proof.
  intros Hr. unfold Mid.composeRecord in Hr. m_bind Hr. destruct r as [ph|]; [|by simplify_eq].
  m_bind Hr. destruct r; by simplify_eq.
Qed.

Lemma push_data_mid d lb ds p bl (a b : W) res :
  Mid.push_data_blocks d lb ds p bl a = Ret (b, res) → mid b = mid a.
Proof.
  revert p bl a. induction ds as [|x ds IH]; intros p bl a Hr; simpl in Hr; [by simplify_eq|].
  m_bind Hr. destruct r as [w1 [?|[rec name]]]; apply composeRecord_mid in Hm; [by simplify_eq|].
  m_bind Hr. destruct r as [w2 [?|[]]]; apply write_record_mid in Hm0; [simplify_eq; congruence|].
  apply IH in Hr. congruence.
Qed.

Lemma load_records_mid d l k (a b : W) res :
  Mid.load_records d l k a = Ret (b, res) → mid b = mid a.
Proof.
  intros Hr. unfold Mid.load_records in Hr. case_decide; m_bind Hr; [by simplify_eq|].
  destruct r as [w1 [?|data]]; apply read_record_mid in Hm; [by simplify_eq|]. cbv zeta in Hr.
  m_bind Hr. m_bind Hr. m_bind Hr. destruct r1 as [w2 [?|data']]; apply read_record_mid in Hm2;
    [simplify_eq; congruence|]. m_bind Hr. m_bind Hr. simplify_eq. congruence.
Qed.

Lemma push_blockmap_mid d ir bm bl (a b : W) res :
  Mid.push_blockmap d ir bm bl a = Ret (b, res) → mid b = mid a.
Proof.
  intros Hr. unfold Mid.push_blockmap in Hr. do 4 m_bind Hr.
  destruct r2 as [w1 [?|[rec name]]]; apply composeRecord_mid in Hm2; [by simplify_eq|].
  m_bind Hr. destruct r2 as [w2 [?|[]]]; apply write_record_mid in Hm3; simplify_eq; congruence.
Qed.
End mid.
