(* ===== verification/CommitSpec.v ===== *)
(** * Commits: what [DCFSMidSim::Modify] promises

    A capsule's head is its latest inode record; through the block map it
    lists the names of all data blocks. A successful [Modify] appends the new
    blocks to that list and moves the head; a failed one leaves the head where
    it was. *)

From Stdlib Require Import NArith ZArith Lia.
From Stdlib Require Import Strings.String.
From stdpp Require Import base list gmap.
From S2P Require Import Prelude Const Options Crypto Capsule DcServer Middleware MidSpec.

(** The reply address of the run is a short ASCII string, and its clock fits
    an [int64]. *)
Class RunEnvOk `{RunEnv} := {
  reply_ascii : is_ascii Mid.reply_addr;
  reply_small : (nlen Mid.reply_addr ≤ 256)%N;
  clock_range n : int64_range (clock n);
}.

Section commit.
Context `{OpenSSLLaws} `{ProtobufLaws} `{RunEnvOk} {D : Type} `{DCServerLaws D}.
Abbreviation W := (world D).
Local Open Scope N_scope.

Definition latest (w : W) (dc : bytes) : bytes := default [] (index_ (mid w) !! dc).

(** The records the middleware composes survive the wire. *)
Lemma record_wf t prev payload name p :
  record_ok t prev payload name p → nlen prev < 256 → Forall field_small prev →
  nlen payload < 16777216 → pdu_wf p.
Proof.
  intros Hp Hn Hsm Hpl.
  pose proof (name_length _ _ _ _ _ Hp) as Hname.
  destruct Hp as [_ _ _ Hhh <- Hph Hshape [Hsig Hsl] [n Ht]].
  pose proof (sha256_length _ _ Hph) as Hl. unfold SHA256_DIGEST_LENGTH in Hl.
  pose proof (record_type_wf t). pose proof reply_small. pose proof reply_ascii.
  pose proof (clock_range n). assert (int64_range 0) by by unfold int64_range.
  split; [|by unfold field_small; rewrite Hhh; lia|by rewrite Hsig|by rewrite Hsl|done].
  rewrite Hshape, Ht. split; simpl; try done.
  - unfold field_small. lia.
  - split; [done|]. unfold field_small. lia.
  - split; [by constructor|done].
Qed.

(** The new blocks' names are entered behind the old ones; the new block map
    points to the old one and to the last data block. *)
Lemma push_blockmap_spec dc ir bm blocks (w w' : W) name :
  Mid.isize ir = 0 → names_ok (Mid.data_hashes bm) → names_ok blocks.*2 →
  Mid.push_blockmap dc ir bm blocks w = Ret (w', inr name) →
  mid w' = mid w ∧ rands w' = rands w ∧
  (∀ dc' r, r ≠ name → stored w' dc' r = stored w dc' r) ∧
  ∃ p prev lb, last blocks.*2 = Some lb ∧
    prev = (if decide (Mid.blockmap_hash ir = []) then dc else Mid.blockmap_hash ir) ∧
    stored w' dc name = Some (SerializePDU p) ∧
    record_ok BLOCKMAP [prev; lb] (concat (Mid.data_hashes bm ++ blocks.*2)) name p.
Proof.
  intros Hz Hold Hnew Hrun. unfold Mid.push_blockmap in Hrun. m_bind Hrun.
  unfold vec_get in Hm. destruct (_ <? _) in Hm; [|done].
  destruct (blocks !! _) as [lb|] eqn:Hlb; [|done]. simplify_eq.
  rewrite Hz, update_hashes_zero in Hrun. m_run in Hrun.
  rewrite concat_hashes_names in Hrun by by apply Forall_app.
  m_run in Hrun.
  m_bind Hrun. destruct r0 as [w1 [e|[rec n]]]; [done|].
  apply composeRecord_spec in Hm as (-> & p & -> & Hp).
  m_bind Hrun. destruct r0 as [w2 [e|[]]]; [done|]. simplify_eq.
  apply write_record_spec in Hm as (Hmid & Hrands & Hst & Hframe); [|by eapply name_nonempty].
  split_and!; try done.
  exists p, (if decide (Mid.blockmap_hash ir = []) then dc else Mid.blockmap_hash ir), r.2.
  split_and!; try done.
  rewrite last_lookup, length_fmap, list_lookup_fmap.
  replace (pred (length blocks)) with (N.to_nat (nlen blocks - 1)) by (unfold nlen; lia).
  by rewrite Hlb.
Qed.

(** ** The head of a capsule *)

(** [ino] is an inode record with the given payload; it points to the block
    map [bm], which lists the data blocks [hs]. *)
Definition committed (w : W) (dc ino bm : bytes) (hs : list bytes) (payload : bytes) : Prop :=
  ∃ pi pb prev prev' lb,
    stored w dc ino = Some (SerializePDU pi) ∧ pdu_wf pi ∧
    record_ok INODE [prev; bm] payload ino pi ∧
    stored w dc bm = Some (SerializePDU pb) ∧ pdu_wf pb ∧
    record_ok BLOCKMAP [prev'; lb] (concat hs) bm pb ∧
    names_ok hs ∧ last hs = Some lb ∧ nlen prev ≤ 32 ∧ nlen prev' ≤ 32.

(** The data blocks of a capsule, through its head. *)
Definition head_ok (w : W) (dc : bytes) (hs : list bytes) : Prop :=
  if decide (latest w dc = []) then hs = []
  else ∃ bm payload, length payload = 40%nat ∧ committed w dc (latest w dc) bm hs payload.

Lemma committed_ext (w w' : W) dc ino bm hs payload :
  stored w' dc ino = stored w dc ino → stored w' dc bm = stored w dc bm →
  committed w dc ino bm hs payload → committed w' dc ino bm hs payload.
Proof. unfold committed. by intros -> ->. Qed.

(** The key a commit takes over: the caller's for the first commit, and the
    16 bytes behind the size in the latest inode record for every later one. *)
Definition old_key (w : W) (dc ino aes_key : bytes) (hs : list bytes) (k : bytes) : Prop :=
  (ino = [] → k = take 16 aes_key) ∧
  (ino ≠ [] → ∃ bm payload, committed w dc ino bm hs payload ∧ k = slice payload 8 16).

(** What [load_records] finds at a head. *)
Record loaded (w : W) (dc ino aes_key : bytes) (hs : list bytes)
    (ir : Mid.InodeRecord) (bm : Mid.BlockMapRecord) : Prop := {
  ld_isize : Mid.isize ir = 0;
  ld_hashes : Mid.data_hashes bm = hs;
  ld_names : names_ok hs;
  ld_back : Mid.hash_to_latest_data_block bm = default [] (last hs);
  ld_bm : Mid.blockmap_hash ir = [] ∨ nlen (Mid.blockmap_hash ir) = 32;
  ld_key : ∃ k, Mid.key ir = Some <$> k ∧ length k = 16%nat ∧ old_key w dc ino aes_key hs k;
}.

Lemma read_record_spec dc r n (w w' : W) res :
  r ≠ [] → Mid.read_record dc r n w = Ret (w', res) →
  mid w' = mid w ∧ rands w' = rands w ∧ (∀ dc' r', stored w' dc' r' = stored w dc' r') ∧
  ∀ data, res = inr data → stored w dc r = Some data.
Proof.
  intros Hr Hrun. unfold Mid.read_record in Hrun. m_bind Hrun. destruct r0 as [d res'].
  simplify_eq. pose proof (wp_elim _ _ _ _ (read_law dc r n (server w) Hr) Hm) as [Hf Hs].
  split_and!; try done. intros data ->. by apply Hs.
Qed.

Lemma load_records_spec dc aes_key hs (w w' : W) ir bm :
  head_ok w dc hs → (16 ≤ length aes_key)%nat →
  Mid.load_records dc (latest w dc) aes_key w = Ret (w', inr (ir, bm)) →
  mid w' = mid w ∧ rands w' = rands w ∧ (∀ dc' r, stored w' dc' r = stored w dc' r) ∧
  loaded w dc (latest w dc) aes_key hs ir bm.
Proof.
  unfold head_ok, Mid.load_records. intros Hhead Hkey Hrun. case_decide as Hl.
  { rewrite mem_read_ok in Hrun by (rewrite nlen_fmap; unfold nlen, c_str, AES_KEY_LEN;
      rewrite length_app; lia).
    m_run in Hrun. simplify_eq. split_and!; try done.
    split; simpl; try done; [by constructor|by left|].
    exists (take 16 aes_key). split_and!; [|rewrite length_take; lia|by split].
    unfold slice, c_str. rewrite drop_0, fmap_app, take_app_le by (rewrite length_fmap; done).
    by rewrite fmap_take. }
  destruct Hhead as (bmn & payload & Hlen & pi & pb & prev & prev' & lb & Hi & Hwi & Hpi & Hb & Hwb & Hpb & Hns & Hlast & Hprev & Hprev').
  m_bind Hrun. destruct r as [w1 [e|data]]; [done|].
  apply read_record_spec in Hm as (Hm1 & Hr1 & Hs1 & Hd1); [|done].
  rewrite Hi in Hd1. pose proof (Hd1 _ eq_refl) as [= <-].
  cbv zeta in Hrun. rewrite parse_serialize in Hrun by done.
  unfold Mid.prevhash in Hrun. rewrite (ro_prev _ _ _ _ _ Hpi) in Hrun.
  change (vec_get [prev; bmn] 1) with (Ret bmn) in Hrun. m_run in Hrun.
  rewrite (ro_payload _ _ _ _ _ Hpi) in Hrun.
  rewrite mem_read_ok in Hrun by (rewrite nlen_fmap; unfold nlen, c_str;
      rewrite length_app, Hlen; done).
  m_run in Hrun.
  m_bind Hrun. destruct r as [w2 [e|data]]; [done|].
  apply read_record_spec in Hm as (Hm2 & Hr2 & Hs2 & Hd2); [|by eapply name_nonempty].
  rewrite Hs1, Hb in Hd2. pose proof (Hd2 _ eq_refl) as [= <-].
  rewrite parse_serialize in Hrun by done.
  rewrite (ro_prev _ _ _ _ _ Hpb) in Hrun.
  change (vec_get [prev'; lb] 1) with (Ret lb) in Hrun. m_run in Hrun.
  rewrite (ro_payload _ _ _ _ _ Hpb) in Hrun.
  rewrite (split_hashes_names hs [] []) in Hrun.
  2: done.
  2: { pose proof (concat_names_length hs Hns) as Hc. unfold nlen, HASHLEN_IN_BYTES in Hc. simpl. lia. }
  cbn [mbind outcome_bind app] in Hrun. simplify_eq. split_and!.
  - by rewrite Hm2, Hm1.
  - by rewrite Hr2, Hr1.
  - intros dc' r. by rewrite Hs2, Hs1.
  - split; simpl; try done.
    + by rewrite Hlast.
    + right. by eapply name_length.
    + exists (slice payload 8 16). split_and!.
      * change (N.to_nat INODE_AES_KEY_OFFSET) with 8%nat. change (N.to_nat AES_KEY_LEN) with 16%nat.
        unfold slice, c_str. by rewrite fmap_take, fmap_drop, fmap_app, drop_app_le, take_app_le
          by (rewrite ?length_drop, length_fmap, Hlen; lia).
      * rewrite length_slice; [done|lia].
      * split; [done|]. intros _. exists bmn, payload. split; [|done].
        exists pi, pb, prev, prev', lb. by split_and!.
Qed.

(** The new inode record becomes the head. *)
Lemma push_inode_spec dc ir n bm (w w' : W) sk k :
  symmetric_middleware_key_ (mid w) = Some <$> sk → length sk = 16%nat →
  Mid.key ir = Some <$> k → length k = 16%nat → 
  Mid.push_inode dc ir n bm w = Ret (w', inr tt) →
  ∃ name p prev c, Crypto.ciphertext sk k = Some c ∧ length c = 32%nat ∧
    mid w' = Mid.set_index (<[dc := name]> (index_ (mid w))) (mid w) ∧ rands w' = rands w ∧
    prev = (if decide (latest w dc = []) then dc else latest w dc) ∧
    (∀ dc' r, r ≠ name → stored w' dc' r = stored w dc' r) ∧
    stored w' dc name = Some (SerializePDU p) ∧
    record_ok INODE [prev; bm] (le_bytes 8 (Mid.new_isize (Mid.isize ir) n) ++ c) name p.
Proof.
  intros Hsk Hlsk Hk Hlk Hrun. unfold Mid.push_inode in Hrun.
  assert (∃ i, Mid.index_at dc (index_ (mid w)) = (i, latest w dc) ∧
    ∀ x, <[dc := x]> i = <[dc := x]> (index_ (mid w))) as (i & Hi & Hins).
  { unfold Mid.index_at, latest. destruct (index_ (mid w) !! dc); eexists; (split; [done|]); [done|].
    intros x. simpl. apply insert_insert_eq. }
  rewrite Hi in Hrun. cbv zeta in Hrun. simpl mid in Hrun. simpl symmetric_middleware_key_ in Hrun.
  rewrite Hsk, Hk in Hrun.
  pose proof (inode_payload_spec sk k (Mid.new_isize (Mid.isize ir) n) Hlsk Hlk) as Hp.
  destruct (Crypto.ciphertext sk k) as [c|]; [|destruct Hp as [f Hp]; by rewrite Hp in Hrun].
  destruct Hp as [Hlc Hp]. rewrite Hp in Hrun. m_run in Hrun.
  m_bind Hrun. destruct r as [w1 [e|[rec name]]]; [done|].
  apply composeRecord_spec in Hm as (-> & p & -> & Hpr).
  m_bind Hrun. destruct r as [w2 [e|[]]]; [done|]. simplify_eq.
  apply write_record_spec in Hm as (Hmid & Hrands & Hst & Hframe); [|by eapply name_nonempty].
  exists name, p, (if decide (latest w dc = []) then dc else latest w dc), c.
  split_and!; try done. simpl. rewrite Hmid. simpl. unfold Mid.set_index. simpl.
  by rewrite Hins.
Qed.

(** ** [Modify] *)

(** Looking the capsule up in the index does not change its head. *)
Lemma index_at_latest (w : W) dc :
  ∃ i, Mid.index_at dc (index_ (mid w)) = (i, latest w dc) ∧ i !! dc = Some (latest w dc) ∧
    (∀ x, <[dc := x]> i = <[dc := x]> (index_ (mid w))) ∧
    ∀ dc', default [] (i !! dc') = latest w dc'.
Proof.
  unfold Mid.index_at, latest. destruct (index_ (mid w) !! dc) as [v|] eqn:E.
  { by exists (index_ (mid w)). }
  eexists. split; [done|]. rewrite lookup_insert_eq. split; [done|]. split.
  { intros x. apply insert_insert_eq. }
  intros dc'. destruct (decide (dc = dc')) as [<-|]; [by rewrite lookup_insert_eq, E|].
  by rewrite lookup_insert_ne.
Qed.

(** The lookup of line 226, and the world after it: same records, same
    heads. *)
Definition lookup_index (dc : bytes) (w : W) : W :=
  Mid.set_mid (Mid.set_index (Mid.index_at dc (index_ (mid w))).1 (mid w)) w.

Definition looked_up (w w0 : W) (dc : bytes) : Prop :=
  server w0 = server w ∧ rands w0 = rands w ∧
  (∀ dc', latest w0 dc' = latest w dc') ∧
  index_ (mid w0) !! dc = Some (latest w dc) ∧
  (∀ x, Mid.set_index (<[dc := x]> (index_ (mid w0))) (mid w0) =
        Mid.set_index (<[dc := x]> (index_ (mid w))) (mid w)) ∧
  symmetric_middleware_key_ (mid w0) = symmetric_middleware_key_ (mid w).

(** [Modify] after its two checks, in the world left by the lookup. *)
Definition commit_steps (dc : bytes) (descs : list buf_desc) (latest_ino aes_key : bytes)
    (w : W) : outcome (W * result unit) :=
  '(w, r) ← Mid.load_records dc latest_ino aes_key w;
  match r with
  | inl e => Ret (w, inl e)
  | inr (ir, bm) =>
      '(w, r) ← Mid.push_data_blocks dc (Mid.hash_to_latest_data_block bm) descs [] [] w;
      match r with
      | inl e => Ret (w, inl e)
      | inr blocks =>
          '(w, r) ← Mid.push_blockmap dc ir bm blocks w;
          match r with
          | inl e => Ret (w, inl e)
          | inr new_blockmap => Mid.push_inode dc ir (nlen descs) new_blockmap w
          end
      end
  end.

(** The names of the records that a commit writes: its data blocks, its block
    map and its inode record. *)
Definition step_names (dc : bytes) (descs : list buf_desc) (latest_ino aes_key : bytes)
    (w : W) : list bytes :=
  match Mid.load_records dc latest_ino aes_key w with
  | Ret (w, inr (ir, bm)) =>
      match Mid.push_data_blocks dc (Mid.hash_to_latest_data_block bm) descs [] [] w with
      | Ret (w, inr blocks) =>
          match Mid.push_blockmap dc ir bm blocks w with
          | Ret (w, inr new_blockmap) =>
              match Mid.push_inode dc ir (nlen descs) new_blockmap w with
              | Ret (w, inr _) => blocks.*2 ++ [new_blockmap; latest w dc]
              | _ => []
              end
          | _ => []
          end
      | _ => []
      end
  | _ => []
  end.

Definition new_names (dc : bytes) (descs : list buf_desc) (aes_key : bytes) (w : W) : list bytes :=
  step_names dc descs (latest w dc) aes_key (lookup_index dc w).

Lemma Modify_unfold dc descs inode_hash aes_key sig (w : W) :
  ∃ w0, w0 = lookup_index dc w ∧ looked_up w w0 dc ∧
    Mid.Modify dc descs inode_hash aes_key sig w =
      (ok ← Mid.verify_args (mid w) dc descs inode_hash aes_key sig;
       if negb ok then Ret (w, inl ERR_VERIFY)
       else if negb (bool_decide (inode_hash = latest w dc)) then Ret (w0, inl ERR_NOT_FOUND)
       else commit_steps dc descs (latest w dc) aes_key w0).
Proof.
  destruct (index_at_latest w dc) as (i & Hi & Hl & Hins & Hall).
  exists (lookup_index dc w). split; [done|]. unfold lookup_index. rewrite Hi. simpl fst. split.
  { split_and!; try done. intros x. unfold Mid.set_index. simpl. by rewrite Hins. }
  unfold Mid.Modify. rewrite Hi. simpl (index_ _). rewrite Hl.
  rewrite (bool_decide_eq_true_2 (is_Some (Some _))) by by eexists.
  by destruct (Mid.verify_args _ _ _ _ _ _) as [[]|].
Qed.

(** The data blocks point back to the last block of the file, or to the
    capsule if there is none. *)
Definition first_back (dc : bytes) (hs : list bytes) : bytes :=
  default dc (last hs).

Lemma first_back_of dc hs :
  names_ok hs → back_of dc (default [] (last hs)) [] = first_back dc hs.
Proof.
  intros Hns. unfold back_of, first_back. rewrite decide_True by done.
  destruct (last hs) as [lb|] eqn:E; simpl; [|done].
  apply last_Some_elem_of in E. unfold names_ok in Hns. rewrite Forall_forall in Hns.
  apply Hns in E. by destruct lb.
Qed.

Lemma field_small_name n : nlen n ≤ 32 → field_small n.
Proof. unfold field_small. lia. Qed.

(** What a commit has done. *)
Record commit_post (w w' : W) (dc : bytes) (descs : list buf_desc) (aes_key : bytes)
    (hs ns : list bytes) (bm ino : bytes) : Prop := {
  cp_length : length ns = length descs;
  cp_index : mid w' = Mid.set_index (<[dc := ino]> (index_ (mid w))) (mid w);
  cp_rands : rands w' = rands w;
  cp_frame dc' r : r ∉ ns ++ [bm; ino] → stored w' dc' r = stored w dc' r;
  cp_blocks : NoDup (ns ++ [bm; ino]) → blocks_stored w' dc (first_back dc hs) descs ns;
  cp_ino : ino ≠ [];
  cp_head : NoDup (ns ++ [bm; ino]) →
    ∃ sk k c, symmetric_middleware_key_ (mid w) = Some <$> sk ∧
      length k = 16%nat ∧ old_key w dc (latest w dc) aes_key hs k ∧
      Crypto.ciphertext sk k = Some c ∧ length c = 32%nat ∧
      committed w' dc ino bm (hs ++ ns) (le_bytes 8 (Mid.new_isize 0 (nlen descs)) ++ c);
}.

(** Requests whose records stay below the limits of the wire format. *)
Record request_small (dc : bytes) (descs : list buf_desc) (hs : list bytes) : Prop := {
  rs_dc : nlen dc ≤ 32;
  rs_descs : nlen hs + nlen descs < 262144;
}.

(** An inode record and a block map that the middleware has stored make a
    committed file. *)
Lemma committed_intro (w : W) dc ino bm hs lb p pb prevb prev payload :
  stored w dc ino = Some (SerializePDU p) → record_ok INODE [prevb; bm] payload ino p →
  stored w dc bm = Some (SerializePDU pb) → record_ok BLOCKMAP [prev; lb] (concat hs) bm pb →
  length payload = 40%nat → names_ok hs → last hs = Some lb → nlen hs < 262144 →
  nlen prevb ≤ 32 → nlen prev ≤ 32 → committed w dc ino bm hs payload.
Proof.
  intros Hst Hp Hsb Hpb Hlen Hnames Hlast Hsm Hb32 Hp32.
  pose proof (name_length _ _ _ _ _ Hpb) as Hlbm.
  assert (nlen lb = 32) as Hllb.
  { apply last_Some_elem_of in Hlast. unfold names_ok in Hnames. rewrite Forall_forall in Hnames.
    by apply Hnames. }
  assert (∀ a b, nlen a ≤ 32 → nlen b = 32 → Forall field_small [a; b]) as Hsmall.
  { intros a b Ha Hb. apply Forall_cons. split; [by apply field_small_name|].
    apply Forall_singleton, field_small_name. lia. }
  exists p, pb, prevb, prev, lb. split_and!; try done.
  - eapply record_wf; [done|done|by apply Hsmall|]. unfold nlen. by rewrite Hlen.
  - eapply record_wf; [done|done|by apply Hsmall|].
    rewrite concat_names_length by done. unfold HASHLEN_IN_BYTES. lia.
Qed.

(** The record a new inode record points back to has a name of 32 bytes. *)
Lemma head_back (w : W) dc hs :
  head_ok w dc hs → nlen dc ≤ 32 →
  nlen (if decide (latest w dc = []) then dc else latest w dc) ≤ 32.
Proof.
  unfold head_ok. intros Hhead Hdc. case_decide; [done|].
  destruct Hhead as (? & ? & _ & ? & ? & ? & ? & ? & _ & _ & Hp0 & _).
  pose proof (name_length _ _ _ _ _ Hp0). lia.
Qed.

Lemma commit_steps_spec dc descs aes_key (w0 w' : W) hs sk :
  head_ok w0 dc hs → (16 ≤ length aes_key)%nat → request_small dc descs hs →
  symmetric_middleware_key_ (mid w0) = Some <$> sk → length sk = 16%nat →
  commit_steps dc descs (latest w0 dc) aes_key w0 = Ret (w', inr tt) →
  ∃ ns bm ino, step_names dc descs (latest w0 dc) aes_key w0 = ns ++ [bm; ino] ∧
    commit_post w0 w' dc descs aes_key hs ns bm ino.
Proof.
  intros Hhead Hkey [Hdc Hsm] Hsk Hlsk Hrun. unfold commit_steps in Hrun. unfold step_names.
  m_bind Hrun. destruct r as [w1 [e|[ir bmr]]]; [done|]. rewrite Hm.
  apply (load_records_spec _ _ hs) in Hm as (Hm1 & Hr1 & Hs1 & Hld); [|done..].
  destruct Hld as [Hz Hhs Hns Hback Hbm (k & Hk & Hlk & Hk0)].
  m_bind Hrun. destruct r as [w2 [e|blocks]]; [done|]. rewrite Hm.
  apply push_data_blocks_spec in Hm as (ns & -> & Hlen & Hm2 & Hr2 & Hall & Hf2 & Hb2).
  m_bind Hrun. destruct r as [w3 [e|bm]]; [done|]. rewrite Hm, Hrun.
  assert ((zip (desc_file_offset <$> descs) ns).*2 = ns) as Hzip
    by (rewrite snd_zip; [done|rewrite length_fmap; lia]).
  apply push_blockmap_spec in Hm as (Hm3 & Hr3 & Hf3 & pb & prev & lb & Hlb & Hprev & Hsb & Hpb);
    [|done|by rewrite Hhs|by rewrite app_nil_l, Hzip].
  rewrite app_nil_l, Hzip in Hlb, Hpb. rewrite Hhs in Hpb.
  assert (latest w3 dc = latest w0 dc) as Hlat by by unfold latest; rewrite Hm3, Hm2, Hm1.
  apply (push_inode_spec dc ir _ _ _ _ sk k) in Hrun
    as (ino & p & prevb & c & Hc & Hlc & Hmid & Hr4 & Hprevb & Hf4 & Hst & Hp);
    [|by rewrite Hm3, Hm2, Hm1|done..].
  rewrite Hz in Hp.
  assert (latest w' dc = ino) as -> by (unfold latest; rewrite Hmid; simpl; by rewrite lookup_insert_eq).
  exists ns, bm, ino. split; [by rewrite app_nil_l, Hzip|]. split.
  - done.
  - by rewrite Hmid, Hm3, Hm2, Hm1.
  - by rewrite Hr4, Hr3, Hr2, Hr1.
  - intros dc' r Hr. rewrite not_elem_of_app, !not_elem_of_cons in Hr.
    rewrite Hf4, Hf3, Hf2, Hs1 by tauto. done.
  - intros Hnd. apply NoDup_app in Hnd as (Hnd & Hdisj & _).
    rewrite Hback, first_back_of in Hb2 by done.
    intros i d n b Hd Hn Hb. destruct (Hb2 Hnd i d n b Hd Hn Hb) as (pd & Hsd & Hpd).
    exists pd. split; [|done].
    apply list_elem_of_lookup_2 in Hn. specialize (Hdisj n Hn).
    rewrite !not_elem_of_cons in Hdisj. by rewrite Hf4, Hf3 by tauto.
  - by eapply name_nonempty.
  - intros Hnd. apply NoDup_app in Hnd as (_ & _ & Hnd). apply NoDup_cons in Hnd as [Hbi _].
    rewrite not_elem_of_cons in Hbi.
    exists sk, k, c. split_and!; try done.
    apply (committed_intro _ _ _ _ _ lb p pb prevb prev); try done.
    + rewrite Hf4 by tauto. done.
    + by rewrite length_app, length_le_bytes, Hlc.
    + by apply Forall_app.
    + by rewrite last_app, Hlb.
    + unfold nlen in *. rewrite length_app, Hlen. lia.
    + rewrite Hprevb, Hlat. by eapply head_back.
    + rewrite Hprev. destruct (decide (Mid.blockmap_hash ir = [])); [done|].
      destruct Hbm as [|Hbm]; [done|]. by rewrite Hbm.
Qed.

(** ** Progress: on a server that answers, a commit succeeds *)

Lemma composeRecord_total t prev payload (w : W) :
  (∀ d, is_Some (sha256 d)) →
  ∃ rec name, Mid.composeRecord t (Some prev) (Some payload) w =
    Ret (Mid.tick w, inr (rec, name)).
Proof.
  intros Hsha. unfold Mid.composeRecord, Crypto.hash256.
  destruct (Hsha payload) as [ph ->]. m_run.
  match goal with |- context [sha256 ?x] => destruct (Hsha x) as [hn ->] end.
  m_run. by eexists _, _.
Qed.

Lemma fields_size_record t prev payload name p :
  record_ok t prev payload name p →
  fields_size p ≤ 330 + foldr (λ b n, nlen b + 6 + n) 0 prev.
Proof.
  intros Hp. pose proof (name_length _ _ _ _ _ Hp).
  destruct Hp as [_ _ _ Hhh _ Hph Hshape [Hsig _] _].
  pose proof (sha256_length _ _ Hph) as Hl. unfold SHA256_DIGEST_LENGTH in Hl.
  pose proof reply_small. assert (nlen (record_type_to_string t) ≤ 9) by by destruct t.
  unfold fields_size. rewrite Hhh, Hsig. rewrite Hshape. simpl.
  unfold nlen in *. simpl. lia.
Qed.

(** An inode record or block map fits the buffer it is read into. *)
Lemma record_fits t a b payload name p limit :
  record_ok t [a; b] payload name p → pdu_wf p → nlen a ≤ 32 → nlen b ≤ 32 →
  nlen payload + 534 ≤ limit → nlen (SerializePDU p) ≤ limit.
Proof.
  intros Hp Hwf Ha Hb Hlim. pose proof (serialize_size p Hwf) as Hs.
  pose proof (fields_size_record _ _ _ _ _ Hp) as Hf. simpl in Hf.
  rewrite (ro_payload _ _ _ _ _ Hp) in Hs. lia.
Qed.

Section progress.
Context `{!DCServerAnswers D}.
Hypothesis sha256_total : ∀ d, is_Some (sha256 d).
Abbreviation wpd := (wp (down (D := D))).

Lemma write_up dc r data (w : W) :
  r ≠ [] → container (server w) dc ∨ r = dc →
  wpd (Mid.write_record dc r data w) (λ '(w', res), res = inr tt ∧ container (server w') dc ∧
    mid w' = mid w ∧ rands w' = rands w).
Proof.
  intros Hr Hc. unfold Mid.write_record. eapply wp_bind; [by apply answer_write|].
  intros [d' res] (-> & Hc' & _). by simpl.
Qed.

Lemma read_up dc r n (w : W) data :
  stored w dc r = Some data → r ≠ [] → nlen data ≤ n → container (server w) dc →
  wpd (Mid.read_record dc r n w) (λ '(w', res), res = inr data ∧ container (server w') dc).
Proof.
  intros Hd Hr Hn Hc. unfold Mid.read_record. eapply wp_bind; [by apply answer_read|].
  intros [d' res] (-> & Hc'). split; [done|]. by apply Hc'.
Qed.

Lemma push_data_up dc lb descs prev blocks (w : W) :
  container (server w) dc →
  wpd (Mid.push_data_blocks dc lb descs prev blocks w) (λ '(w', res), ∃ ns, res = inr (blocks ++ ns) ∧
    container (server w') dc ∧ length ns = length descs ∧ mid w' = mid w ∧ names_ok ns.*2).
Proof.
  revert prev blocks w. induction descs as [|d descs IH]; intros prev blocks w Hc; simpl.
  { exists []. rewrite app_nil_r. split_and!; try done. by constructor. }
  match goal with |- context [Mid.composeRecord _ (Some ?b) _ _] =>
    destruct (composeRecord_total DATABLOCK b (desc_buf d) w sha256_total) as (rec & name & Hcr) end.
  rewrite Hcr. m_run.
  apply composeRecord_spec in Hcr as (_ & p & _ & Hp).
  eapply wp_bind; [apply (write_up dc name rec (Mid.tick w)); [by eapply name_nonempty|by left]|].
  intros [w1 res] (-> & Hc1 & Hm1 & _).
  eapply wp_mono; [by apply (IH name (blocks ++ [(desc_file_offset d, name)]) w1)|].
  intros [w' res] (ns & -> & Hc' & Hl & Hm & Hns).
  exists ((desc_file_offset d, name) :: ns). rewrite <-(assoc_L (++)).
  split_and!; try done; [simpl; lia|by rewrite Hm, Hm1|].
  constructor; [by eapply name_length|done].
Qed.

Lemma push_blockmap_up dc ir bm blocks (w : W) :
  Mid.isize ir = 0 → names_ok (Mid.data_hashes bm) → names_ok blocks.*2 → blocks ≠ [] →
  container (server w) dc →
  wpd (Mid.push_blockmap dc ir bm blocks w) (λ '(w', res), (∃ name, res = inr name) ∧
    container (server w') dc ∧ mid w' = mid w).
Proof.
  intros Hz Hold Hnew Hne Hc. unfold Mid.push_blockmap.
  destruct (last blocks) as [lb|] eqn:Hlast; [|by apply last_None in Hlast].
  rewrite last_lookup in Hlast.
  replace (pred (length blocks)) with (N.to_nat (nlen blocks - 1)) in Hlast by (unfold nlen; lia).
  rewrite (vec_get_ok _ _ _ Hlast). m_run.
  rewrite Hz, update_hashes_zero. m_run.
  rewrite concat_hashes_names by by apply Forall_app. m_run.
  match goal with |- context [Mid.composeRecord _ (Some ?b) (Some ?pl) _] =>
    destruct (composeRecord_total BLOCKMAP b pl w sha256_total) as (rec & name & Hcr) end.
  rewrite Hcr. m_run.
  apply composeRecord_spec in Hcr as (_ & p & _ & Hp).
  eapply wp_bind; [apply (write_up dc name rec (Mid.tick w)); [by eapply name_nonempty|by left]|].
  intros [w1 res] (-> & Hc1 & Hm1 & _). simpl. by eauto.
Qed.

Lemma push_inode_up dc ir n bm (w : W) sk k :
  symmetric_middleware_key_ (mid w) = Some <$> sk → length sk = 16%nat →
  Mid.key ir = Some <$> k → length k = 16%nat → is_Some (Crypto.ciphertext sk k) →
  container (server w) dc →
  wpd (Mid.push_inode dc ir n bm w) (λ '(w', res), res = inr tt ∧ container (server w') dc).
Proof.
  intros Hsk Hlsk Hk Hlk [c Hct] Hc. unfold Mid.push_inode.
  destruct (Mid.index_at dc (index_ (mid w))) as [i l]. simpl mid. simpl symmetric_middleware_key_.
  rewrite Hsk, Hk.
  pose proof (inode_payload_spec sk k (Mid.new_isize (Mid.isize ir) n) Hlsk Hlk) as Hp.
  rewrite Hct in Hp. destruct Hp as [_ ->]. m_run.
  match goal with |- context [Mid.composeRecord _ (Some ?b) (Some ?pl) ?w] =>
    destruct (composeRecord_total INODE b pl w sha256_total) as (rec & name & Hcr) end.
  rewrite Hcr. m_run.
  apply composeRecord_spec in Hcr as (_ & p & _ & Hpr).
  eapply wp_bind; [apply (write_up dc name rec); [by eapply name_nonempty|by left]|].
  intros [w1 res] (-> & Hc1 & _). by simpl.
Qed.

Lemma load_records_up dc aes_key hs (w : W) :
  head_ok w dc hs → (16 ≤ length aes_key)%nat → nlen hs ≤ BLOCKMAP_COVER →
  container (server w) dc →
  wpd (Mid.load_records dc (latest w dc) aes_key w) (λ '(w', res),
    (∃ ir bm, res = inr (ir, bm)) ∧ container (server w') dc).
Proof.
  unfold head_ok, Mid.load_records. intros Hhead Hkey Hcov Hc. case_decide as Hl.
  { rewrite mem_read_ok by (rewrite nlen_fmap; unfold nlen, c_str, AES_KEY_LEN;
      rewrite length_app; lia). simpl. by eauto. }
  destruct Hhead as (bmn & payload & Hlen & pi & pb & prev & prev' & lb & Hi & Hwi & Hpi
    & Hb & Hwb & Hpb & Hns & Hlast & Hprev & Hprev').
  pose proof (name_length _ _ _ _ _ Hpb) as Hlbm.
  eapply wp_bind; [apply wp_value, (read_up dc (latest w dc) MAX_INODE_RECORD_SIZE w _ Hi Hl); [|done]|].
  { eapply record_fits; [done..|lia|]. unfold nlen. rewrite Hlen. done. }
  intros [w1 res] (Hr1 & -> & Hc1).
  pose proof (read_record_spec _ _ _ _ _ _ Hl Hr1) as (_ & _ & Hs1 & _).
  m_run. rewrite parse_serialize by done.
  unfold Mid.prevhash. rewrite (ro_prev _ _ _ _ _ Hpi).
  change (vec_get [prev; bmn] 1) with (Ret bmn). m_run.
  rewrite (ro_payload _ _ _ _ _ Hpi).
  rewrite mem_read_ok by (rewrite nlen_fmap; unfold nlen, c_str; rewrite length_app, Hlen; done).
  m_run.
  eapply wp_bind; [apply (read_up dc bmn MAX_BLOCKMAP_RECORD_SIZE w1 (SerializePDU pb))|].
  { by rewrite Hs1. }
  { by eapply name_nonempty. }
  { eapply record_fits; [done..| |].
    - rewrite last_lookup in Hlast. apply list_elem_of_lookup_2 in Hlast.
      unfold names_ok in Hns. rewrite Forall_forall in Hns. by rewrite Hns.
    - rewrite concat_names_length by done. unfold MAX_BLOCKMAP_RECORD_SIZE, HASHLEN_IN_BYTES. lia. }
  { done. }
  intros [w2 res] (-> & Hc2). m_run. rewrite parse_serialize by done.
  rewrite (ro_prev _ _ _ _ _ Hpb).
  change (vec_get [prev'; lb] 1) with (Ret lb). m_run.
  rewrite (ro_payload _ _ _ _ _ Hpb). rewrite (split_hashes_names hs [] []).
  2: done.
  2: { pose proof (concat_names_length hs Hns) as Hcn. unfold nlen, HASHLEN_IN_BYTES in Hcn. simpl. lia. }
  simpl. by eauto.
Qed.

Lemma commit_up dc descs aes_key hs (w : W) sk :
  head_ok w dc hs → (16 ≤ length aes_key)%nat → nlen hs ≤ BLOCKMAP_COVER →
  container (server w) dc → descs ≠ [] →
  symmetric_middleware_key_ (mid w) = Some <$> sk → length sk = 16%nat →
  (∀ k, length k = 16%nat → is_Some (Crypto.ciphertext sk k)) →
  wpd (commit_steps dc descs (latest w dc) aes_key w) (λ '(w', res),
    res = inr tt ∧ container (server w') dc).
Proof.
  intros Hhead Hkey Hcov Hc Hne Hsk Hlsk Henc. unfold commit_steps.
  eapply wp_bind; [by eapply wp_value, load_records_up|].
  intros [w1 res] (Hlr & (ir & bm & ->) & Hc1).
  pose proof (load_records_spec _ _ _ _ _ _ _ Hhead Hkey Hlr)
    as (Hm1 & _ & _ & [Hz Hhs Hns _ _ (k & Hk & Hlk & _)]).
  eapply wp_bind; [by apply push_data_up|].
  intros [w2 res] (ns & -> & Hc2 & Hl & Hm2 & Hns2). cbn [app].
  eapply wp_bind; [apply push_blockmap_up; try done|].
  { by rewrite Hhs. }
  { intros ->. by destruct descs. }
  intros [w3 res] ((bmn & ->) & Hc3 & Hm3).
  apply (push_inode_up dc ir (nlen descs) bmn w3 sk k); try done; [|by apply Henc].
  by rewrite Hm3, Hm2, Hm1.
Qed.
End progress.
End commit.
