(* ===== verification/Commits.v ===== *)
(** * Theorems about commits

    [DCFSMidSim::Modify] is an atomic compare-and-swap on the head of a
    capsule: the request names the head it was computed from, and only a
    request that names the current head, under a signature that verifies,
    moves it. The last theorems say where the code falls short of its intent. *)

From Stdlib Require Import NArith ZArith Lia.
From Stdlib Require Import Strings.String.
From stdpp Require Import base list gmap.
From S2P Require Import Prelude Const Options Crypto Capsule DcServer Middleware Backend.
From S2P Require Import MidSpec CommitSpec.

Section commits.
Context `{OpenSSLLaws} `{ProtobufLaws} `{RunEnvOk} {D : Type} `{DCServerLaws D}.
Abbreviation W := (world D).
Local Open Scope N_scope.

(** Fixed 16-byte key of the middleware. *)
Definition keys_ok (w : W) (sk : bytes) : Prop :=
  symmetric_middleware_key_ (mid w) = Some <$> sk ∧ length sk = 16%nat.

Lemma looked_up_head (w w0 : W) dc dc' hs :
  looked_up w w0 dc → head_ok w dc' hs → head_ok w0 dc' hs.
Proof.
  intros (Hs & _ & Hl & _). unfold head_ok, committed, stored. by rewrite Hl, Hs.
Qed.

(** A successful [Modify] passed both checks and ran the commit steps. *)
Lemma Modify_success_inv dc descs inode_hash aes_key sig (w w' : W) :
  Mid.Modify dc descs inode_hash aes_key sig w = Ret (w', inr tt) →
  ∃ w0, w0 = lookup_index dc w ∧ looked_up w w0 dc ∧ inode_hash = latest w dc ∧
    Mid.verify_args (mid w) dc descs inode_hash aes_key sig = Ret true ∧
    commit_steps dc descs (latest w0 dc) aes_key w0 = Ret (w', inr tt).
Proof.
  destruct (Modify_unfold dc descs inode_hash aes_key sig w) as (w0 & Hw0 & Hlu & ->).
  intros Hrun. exists w0. split; [done|]. split; [done|].
  destruct (Mid.verify_args _ _ _ _ _ _) as [[]|]; cbn [mbind outcome_bind negb] in Hrun; try done.
  destruct (bool_decide (inode_hash = latest w dc)) eqn:E; [|done].
  apply bool_decide_eq_true in E. destruct Hlu as (_ & _ & Hl & _). by rewrite Hl.
Qed.

Lemma committed_looked_up (w w0 : W) dc dc' ino bm hs payload :
  looked_up w w0 dc → committed w dc' ino bm hs payload ↔ committed w0 dc' ino bm hs payload.
Proof. intros (Hs & _). unfold committed, stored. by rewrite Hs. Qed.

Lemma commit_post_looked_up (w w0 w' : W) dc descs aes_key hs ns bm ino :
  looked_up w w0 dc → commit_post w0 w' dc descs aes_key hs ns bm ino →
  commit_post w w' dc descs aes_key hs ns bm ino.
Proof.
  intros Hlu [Hlen Hidx Hr Hf Hb Hino Hh]. pose proof Hlu as (Hs & Hrs & Hl & _ & Hins & Hk).
  split; try done.
  - by rewrite Hidx.
  - by rewrite Hr.
  - intros dc' r Hr'. rewrite Hf by done. unfold stored. by rewrite Hs.
  - intros Hnd. destruct (Hh Hnd) as (sk & k & c & Hsk & Hlk & [Ho1 Ho2] & Hrest).
    exists sk, k, c. rewrite <-Hk, <-Hl. split_and!; try done; try apply Hrest.
    split; [done|]. intros Hne. destruct (Ho2 Hne) as (b & p & Hc & ->).
    exists b, p. split; [|done]. by eapply committed_looked_up.
Qed.

(** Everything a successful [Modify] has done. *)
Lemma Modify_post dc descs inode_hash aes_key sig (w w' : W) hs sk :
  head_ok w dc hs → keys_ok w sk → (16 ≤ length aes_key)%nat → request_small dc descs hs →
  Mid.Modify dc descs inode_hash aes_key sig w = Ret (w', inr tt) →
  ∃ ns bm ino, new_names dc descs aes_key w = ns ++ [bm; ino] ∧
    commit_post w w' dc descs aes_key hs ns bm ino.
Proof.
  intros Hhead [Hsk Hlsk] Hkey Hsm Hrun.
  apply Modify_success_inv in Hrun as (w0 & Hw0 & Hlu & _ & _ & Hrun).
  pose proof Hlu as (_ & _ & Hl & _ & _ & Hk).
  apply (commit_steps_spec _ _ _ _ _ hs sk) in Hrun as (ns & bm & ino & Hn & Hp); try done.
  - exists ns, bm, ino. split; [|by eapply commit_post_looked_up].
    unfold new_names. by rewrite <-Hw0, <-(Hl dc).
  - by eapply looked_up_head.
  - by rewrite Hk.
Qed.

Lemma latest_set_index (w w' : W) dc ino dc' :
  mid w' = Mid.set_index (<[dc := ino]> (index_ (mid w))) (mid w) →
  latest w' dc' = if decide (dc' = dc) then ino else latest w dc'.
Proof.
  intros Hm. unfold latest. rewrite Hm. simpl. case_decide as Hx.
  - subst. by rewrite lookup_insert_eq.
  - by rewrite lookup_insert_ne.
Qed.

Lemma committed_payload (w : W) dc ino bm bm' hs hs' payload payload' :
  committed w dc ino bm hs payload → committed w dc ino bm' hs' payload' → payload = payload'.
Proof.
  intros (pi & ? & ? & ? & ? & Hi & Hw & Hp & _) (pi' & ? & ? & ? & ? & Hi' & Hw' & Hp' & _).
  rewrite Hi in Hi'. injection Hi' as Heq.
  apply (f_equal ParsePDU) in Heq. rewrite !parse_serialize in Heq by done. subst.
  by rewrite <-(ro_payload _ _ _ _ _ Hp), <-(ro_payload _ _ _ _ _ Hp').
Qed.

(** C4. A [Modify] that succeeds named the current head of the capsule. It
    stores one data record per block, each pointing back to the block before
    it (the first to the last block of the file), and makes a new inode record
    the head: through it the capsule lists the old data blocks and behind them
    the new ones. Records of other names and heads of other capsules are
    untouched. (Two of the new records with the same SHA-256 name would
    overwrite each other; the last part excludes that. [new_names] are the
    names that the steps of the commit compute.) *)
Theorem Modify_commits dc descs inode_hash aes_key sig (w w' : W) hs sk :
  head_ok w dc hs → keys_ok w sk → (16 ≤ length aes_key)%nat → request_small dc descs hs →
  Mid.Modify dc descs inode_hash aes_key sig w = Ret (w', inr tt) →
  inode_hash = latest w dc ∧
  ∃ ns bm ino, new_names dc descs aes_key w = ns ++ [bm; ino] ∧ length ns = length descs ∧
    (∀ dc', latest w' dc' = if decide (dc' = dc) then ino else latest w dc') ∧
    (∀ dc' r, r ∉ ns ++ [bm; ino] → stored w' dc' r = stored w dc' r) ∧
    (NoDup (ns ++ [bm; ino]) →
       blocks_stored w' dc (first_back dc hs) descs ns ∧ head_ok w' dc (hs ++ ns)).
Proof.
  intros Hhead Hk Hkey Hsm Hrun.
  destruct (Modify_post _ _ _ _ _ _ _ hs sk Hhead Hk Hkey Hsm Hrun)
    as (ns & bm & ino & Hnames & [Hlen Hidx _ Hf Hb Hino Hh]).
  apply Modify_success_inv in Hrun as (_ & _ & _ & Hih & _). split; [done|].
  exists ns, bm, ino. split_and!; [done|done| |done|].
  { intros dc'. by apply latest_set_index. }
  intros Hnd. split; [by apply Hb|].
  destruct (Hh Hnd) as (sk' & k & c & _ & _ & _ & _ & Hlc & Hc).
  unfold head_ok. rewrite (latest_set_index _ _ _ _ dc Hidx), (decide_True (P := dc = dc)) by done.
  rewrite decide_False by done.
  eexists _, _. split; [|done]. by rewrite length_app, length_le_bytes, Hlc.
Qed.

Lemma Modify_up `{!DCServerAnswers D} dc descs aes_key sig (w : W) hs sk :
  (∀ d, is_Some (sha256 d)) →
  (∀ k, length k = 16%nat → is_Some (Crypto.ciphertext sk k)) →
  head_ok w dc hs → keys_ok w sk → (16 ≤ length aes_key)%nat →
  nlen hs ≤ BLOCKMAP_COVER → descs ≠ [] → container (server w) dc →
  Mid.verify_args (mid w) dc descs (latest w dc) aes_key sig = Ret true →
  wp (down (D := D)) (Mid.Modify dc descs (latest w dc) aes_key sig w) (λ '(w', res),
    res = inr tt ∧ container (server w') dc).
Proof.
  intros Hsha Henc Hhead [Hsk Hlsk] Hkey Hcov Hne Hc Hver.
  destruct (Modify_unfold dc descs (latest w dc) aes_key sig w) as (w0 & _ & Hlu & ->).
  rewrite Hver. cbn [mbind outcome_bind negb].
  rewrite bool_decide_eq_true_2 by done. cbn [negb].
  pose proof Hlu as (Hs & _ & Hl & _ & _ & Hk).
  rewrite <-(Hl dc). eapply (commit_up Hsha dc descs aes_key hs w0 sk); try done.
  - by eapply looked_up_head.
  - by rewrite Hs.
  - by rewrite Hk.
Qed.

Lemma Modify_total `{!DCServerAnswers D} `{!DCServerReliable D} dc descs aes_key sig (w : W) hs sk :
  (∀ d, is_Some (sha256 d)) →
  (∀ k, length k = 16%nat → is_Some (Crypto.ciphertext sk k)) →
  head_ok w dc hs → keys_ok w sk → (16 ≤ length aes_key)%nat →
  nlen hs ≤ BLOCKMAP_COVER → descs ≠ [] → container (server w) dc →
  Mid.verify_args (mid w) dc descs (latest w dc) aes_key sig = Ret true →
  ∃ w', Mid.Modify dc descs (latest w dc) aes_key sig w = Ret (w', inr tt) ∧
        container (server w') dc.
Proof.
  intros. destruct (wp_always _ _ _ never_down (Modify_up dc descs aes_key sig w hs sk ltac:(done)
    ltac:(done) ltac:(done) ltac:(done) ltac:(done) ltac:(done) ltac:(done) ltac:(done) ltac:(done)))
    as ([w' res] & Hm & -> & Hc). by eexists.
Qed.

(** C5. On a server that is up, a signed request that names the current head
    of a capsule is committed: with SHA-256 and AES working, at least one
    block and at most [BLOCKMAP_COVER] old ones, [Modify] returns [NO_ERR]. *)
Theorem Modify_succeeds `{!DCServerAnswers D} `{!DCServerReliable D} dc descs aes_key sig (w : W) hs sk :
  (∀ d, is_Some (sha256 d)) →
  (∀ k, length k = 16%nat → is_Some (Crypto.ciphertext sk k)) →
  head_ok w dc hs → keys_ok w sk → (16 ≤ length aes_key)%nat →
  nlen hs ≤ BLOCKMAP_COVER → descs ≠ [] → container (server w) dc →
  Mid.verify_args (mid w) dc descs (latest w dc) aes_key sig = Ret true →
  ∃ w', Mid.Modify dc descs (latest w dc) aes_key sig w = Ret (w', inr tt) ∧
        container (server w') dc.
Proof. apply Modify_total. Qed.

Lemma push_inode_failure dc ir n bm (w w' : W) e :
  Mid.push_inode dc ir n bm w = Ret (w', inl e) → ∀ dc', latest w' dc' = latest w dc'.
Proof.
  destruct (index_at_latest w dc) as (i & Hi & _ & _ & Hall).
  intros Hr dc'. unfold Mid.push_inode in Hr. rewrite Hi in Hr. cbv zeta in Hr.
  rewrite <-(Hall dc'). m_bind Hr. m_bind Hr.
  destruct r0 as [w1 [?|[rec name]]]; apply composeRecord_mid in Hm0.
  { simplify_eq. unfold latest. by rewrite Hm0. }
  m_bind Hr. destruct r0 as [w2 [?|[]]]; apply write_record_mid in Hm1; [|done].
  simplify_eq. unfold latest. by rewrite Hm1, Hm0.
Qed.

Lemma commit_steps_failure dc descs l aes_key (w w' : W) e :
  commit_steps dc descs l aes_key w = Ret (w', inl e) → ∀ dc', latest w' dc' = latest w dc'.
Proof.
  intros Hrun dc'. unfold commit_steps in Hrun. m_bind Hrun.
  destruct r as [w1 [?|[ir bm]]]; apply load_records_mid in Hm.
  { simplify_eq. unfold latest. by rewrite Hm. }
  m_bind Hrun. destruct r as [w2 [?|blocks]]; apply push_data_mid in Hm0.
  { simplify_eq. unfold latest. by rewrite Hm0, Hm. }
  m_bind Hrun. destruct r as [w3 [?|bmn]]; apply push_blockmap_mid in Hm1.
  { simplify_eq. unfold latest. by rewrite Hm1, Hm0, Hm. }
  rewrite (push_inode_failure _ _ _ _ _ _ _ Hrun). unfold latest. by rewrite Hm1, Hm0, Hm.
Qed.

(** C23. A [Modify] that returns an error, wherever it failed, has not moved
    the head of any capsule: the file of every capsule is still the last
    committed one. *)
Theorem Modify_failure_keeps_heads dc descs inode_hash aes_key sig (w w' : W) e :
  Mid.Modify dc descs inode_hash aes_key sig w = Ret (w', inl e) →
  ∀ dc', latest w' dc' = latest w dc'.
Proof.
  destruct (Modify_unfold dc descs inode_hash aes_key sig w) as (w0 & _ & (Hs & _ & Hl & _) & ->).
  intros Hrun dc'. m_bind Hrun. destruct r; cbn [negb] in Hrun; [|by simplify_eq].
  destruct (bool_decide _); cbn [negb] in Hrun; [|by simplify_eq].
  by rewrite (commit_steps_failure _ _ _ _ _ _ _ Hrun).
Qed.

(** C24. A request whose signature does not verify is refused with
    [ERR_VERIFY] and one computed from another head than the current one with
    [ERR_NOT_FOUND]; either way nothing is stored and no head moves. *)
Theorem Modify_refuses dc descs inode_hash aes_key sig (w : W) ok :
  Mid.verify_args (mid w) dc descs inode_hash aes_key sig = Ret ok →
  ok = false ∨ inode_hash ≠ latest w dc →
  ∃ w', Mid.Modify dc descs inode_hash aes_key sig w =
          Ret (w', inl (if ok then ERR_NOT_FOUND else ERR_VERIFY)) ∧
        server w' = server w ∧ ∀ dc', latest w' dc' = latest w dc'.
Proof.
  destruct (Modify_unfold dc descs inode_hash aes_key sig w) as (w0 & _ & (Hs & _ & Hl & _) & ->).
  intros -> Hor. m_run. destruct ok; cbn [negb]; [|by exists w].
  destruct Hor as [|Hne]; [done|]. rewrite bool_decide_eq_false_2 by done.
  by exists w0.
Qed.

(** C25. Of two clients that computed their requests from the same head, at
    most one commits: after the first has, and as long as its inode record is
    the head, the second's request is never accepted. (The new inode record's
    name must not have been in use before, that is, no SHA-256 collision.) *)
Theorem Modify_exclusive dc descs1 descs2 inode_hash k1 k2 sig1 sig2 (w w1 w2 w3 : W) hs sk :
  head_ok w dc hs → keys_ok w sk → (16 ≤ length k1)%nat → request_small dc descs1 hs →
  Mid.Modify dc descs1 inode_hash k1 sig1 w = Ret (w1, inr tt) →
  stored w dc (latest w1 dc) = None → latest w2 dc = latest w1 dc →
  Mid.Modify dc descs2 inode_hash k2 sig2 w2 ≠ Ret (w3, inr tt).
Proof.
  intros Hhead Hk Hkey Hsm Hrun Hfresh Hl2 Hrun2.
  destruct (Modify_post _ _ _ _ _ _ _ hs sk Hhead Hk Hkey Hsm Hrun)
    as (ns & bm & ino & _ & [_ Hidx _ _ _ Hino _]).
  apply Modify_success_inv in Hrun as (_ & _ & _ & Hih & _).
  apply Modify_success_inv in Hrun2 as (_ & _ & _ & Hih2 & _).
  rewrite Hih2, Hl2 in Hih. pose proof (latest_set_index _ _ _ _ dc Hidx) as Hl1.
  rewrite decide_True in Hl1 by done. unfold head_ok in Hhead.
  rewrite decide_False in Hhead by congruence.
  destruct Hhead as (? & ? & _ & ? & ? & ? & ? & ? & Hst & _). congruence.
Qed.

(** Whatever offsets the new blocks have, the block map keeps the old
    hash at every old position: a block that is written again does not
    replace its earlier version, it is added at the end. *)
Theorem Modify_never_replaces dc descs inode_hash aes_key sig (w w' : W) hs sk :
  head_ok w dc hs → keys_ok w sk → (16 ≤ length aes_key)%nat → request_small dc descs hs →
  Mid.Modify dc descs inode_hash aes_key sig w = Ret (w', inr tt) →
  NoDup (new_names dc descs aes_key w) →
  ∃ bm payload hs', length hs' = (length hs + length descs)%nat ∧
    (∀ i h, hs !! i = Some h → hs' !! i = Some h) ∧
    committed w' dc (latest w' dc) bm hs' payload.
Proof.
  intros Hhead Hk Hkey Hsm Hrun Hnd.
  destruct (Modify_post _ _ _ _ _ _ _ hs sk Hhead Hk Hkey Hsm Hrun)
    as (ns & bm & ino & Hnames & [Hlen Hidx _ Hf _ Hino Hh]). rewrite Hnames in Hnd.
  pose proof (latest_set_index _ _ _ _ dc Hidx) as Hl. rewrite decide_True in Hl by done.
  destruct (Hh Hnd) as (? & ? & c & _ & _ & _ & _ & _ & Hc).
  eexists bm, _, (hs ++ ns). split; [by rewrite length_app, Hlen|].
  split; [|by rewrite Hl]. intros i h Hi. by apply lookup_app_l_Some.
Qed.

(** C39. The second and every later commit of a capsule stores a wrong file
    key: it takes the first 16 bytes of the key's 32-byte ciphertext for the
    key and encrypts those, so that the new inode record decrypts to half of
    the old ciphertext. *)
Theorem Modify_corrupts_key dc descs inode_hash aes_key sig (w w' : W) hs sk bm size c0 :
  latest w dc ≠ [] → length c0 = 32%nat →
  committed w dc (latest w dc) bm hs (le_bytes 8 size ++ c0) →
  keys_ok w sk → (16 ≤ length aes_key)%nat → request_small dc descs hs →
  Mid.Modify dc descs inode_hash aes_key sig w = Ret (w', inr tt) →
  NoDup (new_names dc descs aes_key w) →
  ∃ bm' hs' size' c1,
    committed w' dc (latest w' dc) bm' hs' (le_bytes 8 size' ++ c1) ∧
    Crypto.plaintext sk c1 = Some (take 16 c0).
Proof.
  intros Hne Hlc0 Hc0 Hk Hkey Hsm Hrun Hnd.
  assert (head_ok w dc hs) as Hhead.
  { unfold head_ok. rewrite decide_False by done. eexists _, _. split; [|done].
    by rewrite length_app, length_le_bytes, Hlc0. }
  destruct (Modify_post _ _ _ _ _ _ _ hs sk Hhead Hk Hkey Hsm Hrun)
    as (ns & bm' & ino & Hnames & [Hlen Hidx _ Hf _ Hino Hh]). rewrite Hnames in Hnd.
  pose proof (latest_set_index _ _ _ _ dc Hidx) as Hl. rewrite decide_True in Hl by done.
  destruct (Hh Hnd) as (sk' & k & c & Hsk & Hlk & [_ Hold] & Henc & _ & Hc).
  destruct Hk as [Hsk' _]. rewrite Hsk' in Hsk.
  apply (inj (fmap Some)) in Hsk as <-.
  destruct (Hold Hne) as (bm0 & payload & Hcm & ->).
  rewrite (committed_payload _ _ _ _ _ _ _ _ _ Hcm Hc0) in Henc.
  eexists bm', _, _, c. rewrite Hl. split; [done|].
  apply Crypto.plaintext_ciphertext in Henc; [by rewrite Henc|].
  unfold nlen, slice. rewrite length_take. lia.
Qed.

(** What is signed is only the concatenation of the blocks: a request with
    the same bytes cut into different blocks, or with different file offsets,
    verifies under the same signature. *)
Theorem signature_ignores_layout dc descs descs' inode_hash aes_key sig (w : W) :
  concat (desc_buf <$> descs) = concat (desc_buf <$> descs') →
  nlen (request dc descs inode_hash aes_key) < 18446744073709551616 →
  Mid.verify_args (mid w) dc descs inode_hash aes_key sig =
  Mid.verify_args (mid w) dc descs' inode_hash aes_key sig.
Proof.
  intros Heq Hlen. unfold Mid.verify_args. rewrite pack_args_spec by done.
  assert (request dc descs inode_hash aes_key = request dc descs' inode_hash aes_key) as Hreq
    by by unfold request; rewrite Heq.
  rewrite Hreq in Hlen |- *. by rewrite pack_args_spec.
Qed.

(** A capsule that was never created is no error: its lookup enters an
    empty head, and the request is served as for a new capsule. *)
Theorem unknown_capsule_is_new dc descs inode_hash aes_key sig (w : W) :
  index_ (mid w) !! dc = None →
  Mid.verify_args (mid w) dc descs inode_hash aes_key sig = Ret true →
  Mid.Modify dc descs inode_hash aes_key sig w =
  Mid.Modify dc descs inode_hash aes_key sig
    (Mid.set_mid (Mid.set_index (<[dc := []]> (index_ (mid w))) (mid w)) w).
Proof.
  intros Hnone Hver. unfold Mid.Modify. rewrite Hver.
  unfold Mid.verify_args in Hver |- *. simpl. rewrite Hver. cbn [mbind outcome_bind negb].
  unfold Mid.index_at. rewrite Hnone, !lookup_insert_eq. reflexivity.
Qed.

(** C37. The backend and the middleware agree on what is signed: when they share
    the client's key, [WriteRecord] either has nothing to write, or cannot
    sign, or hands [Modify] a signature that verifies. *)
Theorem backend_requests_verify dc descs inode_recordname aes_key (b b' : Backend.StorageBackend) r :
  Backend.client_key_pair_ b = client_key_pair_ (mid (Backend.backend_world b)) →
  Backend.WriteRecord dc descs inode_recordname aes_key b = Ret (b', r) →
  (b' = b ∧ (descs = [] ∧ r = inr tt ∨ r = inl ERR_SIGN)) ∨
  ∃ sig, Mid.verify_args (mid (Backend.backend_world b)) dc descs inode_recordname aes_key sig = Ret true ∧
    Mid.Modify dc descs inode_recordname aes_key sig (Backend.backend_world b) =
      Ret (Backend.backend_world b', r).
Proof.
  intros Hkeys Hrun. unfold Backend.WriteRecord in Hrun.
  destruct (_ =? _) eqn:Hn.
  { simplify_eq. left. split; [done|]. left. apply N.eqb_eq in Hn. by destruct descs. }
  rewrite Backend.pack_args_same in Hrun. m_bind Hrun. rename r0 into args, Hm into Hargs.
  m_bind Hrun. m_bind Hrun. destruct r1 as [sig|]; [|simplify_eq; by left; split; [|right]].
  m_bind Hrun. destruct r1 as [w' res]. simplify_eq. right. exists sig. split; [|done].
  unfold Mid.verify_args. rewrite Hargs. m_run.
  unfold Crypto.hash256 in *. destruct (Backend.client_key_pair_ b) as [k|] eqn:Hk; [|done].
  rewrite <-Hkeys. destruct (sha256 _) as [d|]; simplify_eq; m_run.
  by apply Crypto.sign_verify.
Qed.
End commits.
