(* ===== verification/BackendSpec.v ===== *)
(** * The storage backend keeps its promise to the inodes

    [StorageBackend] implements the interface [Storage] with its laws, and
    [ReadFileMeta] reads back what the middleware committed. *)

From Stdlib Require Import NArith ZArith Lia.
From Stdlib Require Import Strings.String.
From stdpp Require Import base list gmap.
From S2P Require Import Prelude Const Options Crypto Capsule DcServer Middleware Backend.
From S2P Require Import MidSpec CommitSpec.

#[export] Existing Instance Backend.Storage_backend.

(** ** The laws of [Storage] *)
Section laws.
Context `{OpenSSL} `{Protobuf} `{RunEnv} {D : Type} `{DCServerLaws D}.
Local Open Scope N_scope.

(** The payload of a stored record. *)
Definition backend_payload (b : Backend.StorageBackend (D := D)) (dc r : bytes) : option bytes :=
  pdu_payload_in_transit ∘ ParsePDU <$> record_of (server (Backend.backend_world b)) dc r.

Lemma ReadRecordData_spec dc r n b :
  r ≠ [] →
  wp (server_fault (D := D)) (Backend.ReadRecordData dc r n b) (λ '(b', res),
    (∀ dc' r', backend_payload b' dc' r' = backend_payload b dc' r') ∧
    ∀ data, res = inr data → backend_payload b dc r = Some data ∧ nlen data ≤ n).
Proof.
  intros Hr. unfold Backend.ReadRecordData, Mid.read_record.
  set (full := u64 _). pose proof (read_law dc r full (server (Backend.backend_world b)) Hr) as Hlaw.
  destruct (ReadRecord _ _ _ _) as [[d res]|f]; [|done]. m_run.
  destruct Hlaw as [Hframe Hres].
  assert (∀ dc' r', pdu_payload_in_transit ∘ ParsePDU <$> record_of d dc' r' =
    backend_payload b dc' r') as Hsame by (intros; by rewrite Hframe).
  destruct res as [e|data]; [by split|]. destruct (Hres data eq_refl) as [Hd _].
  destruct (N.ltb_spec n (nlen (pdu_payload_in_transit (ParsePDU data)))); [by split|].
  split; [done|]. intros ? [= <-]. split; [|done]. unfold backend_payload. by rewrite Hd.
Qed.

(** Reading a record's payload through the backend: it stops only with the
    server, changes no stored payload, and on success returns the payload that
    is stored under the name, which fits the caller's buffer. *)
Theorem ReadRecordData_correct dc r n b :
  r ≠ [] →
  wp (server_fault (D := D)) (Backend.ReadRecordData dc r n b) (λ '(b', res),
    (∀ dc' r', backend_payload b' dc' r' = backend_payload b dc' r') ∧
    ∀ data, res = inr data → backend_payload b dc r = Some data ∧ nlen data ≤ n).
Proof. apply ReadRecordData_spec. Qed.

#[export] Instance StorageLaws_backend : StorageLaws (Backend.StorageBackend (D := D)) := {
  storage_fault := server_fault (D := D);
  payload_of := backend_payload;
  ReadRecordData_law dc r n b Hr _ := ReadRecordData_spec dc r n b Hr;
}.

End laws.

(** ** Reading a file's metadata *)
Section meta.
Context `{OpenSSLLaws} `{ProtobufLaws} `{RunEnvOk} {D : Type} `{DCServerLaws D}.
Local Open Scope N_scope.

Lemma DecryptAESKey_spec (m : DCFSMidSim) sk c k :
  symmetric_middleware_key_ m = Some <$> sk → length sk = 16%nat → length c = 32%nat →
  Crypto.plaintext sk c = Some k → length k = 16%nat →
  Mid.DecryptAESKey c m = Ret (inr k).
Proof.
  intros Hsk Hlsk Hlc Hpt Hlk. unfold Mid.DecryptAESKey. rewrite Hsk, cells_bytes_ok.
  m_run.
  destruct (Crypto.decrypt_spec sk c (new_array (AES_KEY_LEN + AES_PAD_LEN)) (Some 0))
    as (r & out & ol & -> & Hlo & Hdec).
  { lia. } { by rewrite length_new_array, Hlc. }
  m_run. destruct (Hdec k Hpt) as (_ & -> & ->).
  unfold nlen. rewrite Hlk. rewrite bool_decide_eq_true_2 by done. cbn [mbind outcome_bind c_assert].
  change (N.to_nat AES_KEY_LEN) with 16%nat. rewrite splice_0, take_app_length'
    by by rewrite length_fmap.
  by rewrite cells_bytes_ok.
Qed.

(** What is made of an inode record that was read. *)
Lemma read_meta_eq (b : Backend.StorageBackend (D := D)) dc h sig rn w1 p prev bm name size c sk k :
  let w := Backend.backend_world b in
  Crypto.hash256 dc false = Ret h → Crypto.sign (Backend.client_key_pair_ b) h = Ret (Some sig) →
  Mid.GetInodeName dc sig w = Ret (inr rn) →
  Mid.read_record dc rn MAX_INODE_RECORD_SIZE w = Ret (w1, inr (SerializePDU p)) →
  pdu_wf p → record_ok INODE [prev; bm] (le_bytes 8 size ++ c) name p → size < 18446744073709551616 →
  symmetric_middleware_key_ (mid w1) = Some <$> sk → length sk = 16%nat → length c = 32%nat →
  Crypto.plaintext sk c = Some k → length k = 16%nat →
  Backend.ReadFileMeta dc b = Ret (Backend.set_world w1 b, inr (MkMeta rn size k bm)).
Proof.
  intros w Hh Hs Hg Hr Hwf Hp Hsize Hsk Hlsk Hlc Hpt Hlk.
  unfold Backend.ReadFileMeta. rewrite Hh. m_run. rewrite Hs. m_run. fold w. rewrite Hg. m_run.
  rewrite Hr. m_run. rewrite parse_serialize by done.
  rewrite (ro_prev _ _ _ _ _ Hp). change (c_assert _) with (Ret tt). m_run.
  unfold Mid.prevhash. rewrite (ro_prev _ _ _ _ _ Hp).
  change (vec_get [prev; bm] 1) with (Ret bm). m_run.
  rewrite (ro_payload _ _ _ _ _ Hp).
  pose proof (length_le_bytes 8 size) as Hle.
  assert (nlen (c_str (le_bytes 8 size ++ c)) = 41) as Hn.
  { unfold nlen, c_str. by rewrite !length_app, Hle, Hlc. }
  rewrite !mem_read_ok by by rewrite Hn. m_run.
  assert (slice (c_str (le_bytes 8 size ++ c)) (N.to_nat 0) (N.to_nat 8) = le_bytes 8 size) as ->.
  { unfold slice, c_str. rewrite drop_0, <-(assoc_L (++)). by apply take_app_length'. }
  assert (slice (c_str (le_bytes 8 size ++ c)) (N.to_nat INODE_AES_KEY_OFFSET)
    (N.to_nat (AES_KEY_LEN + AES_PAD_LEN)) = c) as ->.
  { unfold slice, c_str. rewrite <-(assoc_L (++)), drop_app_length' by done.
    by apply take_app_length'. }
  rewrite (DecryptAESKey_spec _ sk c k) by done. m_run. by rewrite le_value_u64.
Qed.

(** A [ReadFileMeta] that succeeds gives what the head of the capsule says,
    and changes nothing that is stored. *)
Lemma read_meta_inv (b b' : Backend.StorageBackend (D := D)) dc bm hs size c sk k m :
  let w := Backend.backend_world b in
  latest w dc ≠ [] → committed w dc (latest w dc) bm hs (le_bytes 8 size ++ c) →
  size < 18446744073709551616 →
  symmetric_middleware_key_ (mid w) = Some <$> sk → length sk = 16%nat → length c = 32%nat →
  Crypto.plaintext sk c = Some k → length k = 16%nat →
  Backend.ReadFileMeta dc b = Ret (b', inr m) →
  m = MkMeta (latest w dc) size k bm ∧
  ∀ dc' r, stored (Backend.backend_world b') dc' r = stored w dc' r.
Proof.
  intros w Hl Hcm Hsize Hsk Hlsk Hlc Hpt Hlk Hrun. pose proof Hrun as Hrun0.
  unfold Backend.ReadFileMeta in Hrun. m_bind Hrun. m_bind Hrun. destruct r0 as [sig|]; [|done].
  m_bind Hrun. destruct r0 as [e|rn]; [done|]. fold w in Hm1.
  assert (rn = latest w dc) as ->.
  { unfold Mid.GetInodeName in Hm1. m_bind Hm1. m_bind Hm1. destruct r1; [|done].
    unfold latest. by destruct (index_ (mid w) !! dc); simplify_eq/=. }
  m_bind Hrun. destruct r0 as [w1 ret]. fold w in Hm2.
  destruct (read_record_spec _ _ _ _ _ _ Hl Hm2) as (Hmid & _ & Hsame & Hdata).
  destruct ret as [e|data].
  { exfalso. repeat m_bind Hrun. destruct r4; by simplify_eq. }
  specialize (Hdata data eq_refl).
  destruct Hcm as (pi & pb & prev & prev' & lb & Hi & Hwi & Hpi & _).
  rewrite Hi in Hdata. injection Hdata as <-.
  rewrite (read_meta_eq b dc r sig (latest w dc) w1 pi prev bm (latest w dc) size c sk k) in Hrun0;
    try done; [|by rewrite Hmid].
  simplify_eq. done.
Qed.

(** An inode record is read back as it was written. *)
Lemma read_meta_up `{!DCServerAnswers D} (b : Backend.StorageBackend (D := D)) dc bm hs size c sk k ck sig :
  let w := Backend.backend_world b in
  (∀ d, is_Some (sha256 d)) →
  Backend.client_key_pair_ b = Some ck → client_key_pair_ (mid w) = Some ck →
  (∀ d, ecdsa_sign ck d = Some (sig d)) →
  latest w dc ≠ [] → container (server w) dc →
  committed w dc (latest w dc) bm hs (le_bytes 8 size ++ c) → size < 18446744073709551616 →
  symmetric_middleware_key_ (mid w) = Some <$> sk → length sk = 16%nat → length c = 32%nat →
  Crypto.plaintext sk c = Some k → length k = 16%nat →
  wp (down (D := D)) (Backend.ReadFileMeta dc b) (λ '(b', res),
    res = inr (MkMeta (latest w dc) size k bm) ∧
    (∀ dc' r, stored (Backend.backend_world b') dc' r = stored w dc' r) ∧
    container (server (Backend.backend_world b')) dc).
Proof.
  intros w Hsha Hck Hck' Hsign Hl Hc Hcm Hsize Hsk Hlsk Hlc Hpt Hlk.
  destruct (Hsha dc) as [h Hh].
  assert (Crypto.hash256 dc false = Ret (Some h)) as Hhash by (unfold Crypto.hash256; by rewrite Hh).
  assert (Crypto.sign (Backend.client_key_pair_ b) (Some h) = Ret (Some (sig h))) as Hsig.
  { rewrite Hck. cbn [Crypto.sign]. by rewrite Hsign. }
  assert (Mid.GetInodeName dc (sig h) w = Ret (inr (latest w dc))) as Hget.
  { unfold Mid.GetInodeName. rewrite Hhash, Hck'. m_run. cbn [Crypto.verify].
    rewrite (ecdsa_correct _ _ _ (Hsign h)). m_run. unfold latest in *.
    by destruct (index_ (mid w) !! dc). }
  destruct Hcm as (pi & pb & prev & prev' & lb & Hi & Hwi & Hpi & _ & _ & Hpb & _ & _ & Hprev & _).
  pose proof (name_length _ _ _ _ _ Hpb) as Hlbm.
  assert (nlen (SerializePDU pi) ≤ MAX_INODE_RECORD_SIZE) as Hfit.
  { eapply record_fits; [done..|lia|]. unfold nlen. rewrite length_app, length_le_bytes, Hlc. done. }
  pose proof (read_up dc (latest w dc) MAX_INODE_RECORD_SIZE w _ Hi Hl Hfit Hc) as Hr.
  destruct (Mid.read_record dc (latest w dc) MAX_INODE_RECORD_SIZE w) as [[w1 res]|f] eqn:Hr1.
  2: { unfold Backend.ReadFileMeta. rewrite Hhash. m_run. rewrite Hsig. m_run. fold w. rewrite Hget.
       m_run. by rewrite Hr1. }
  destruct Hr as [-> Hc1].
  destruct (read_record_spec _ _ _ _ _ _ Hl Hr1) as (Hm1 & _ & Hs1 & _).
  rewrite (read_meta_eq b dc (Some h) (sig h) (latest w dc) w1 pi prev bm (latest w dc) size c sk k);
    try done. by rewrite Hm1.
Qed.
End meta.
