(* ===== verification/Reopen.v ===== *)
(** * From one inode to the next

    The end-to-end property of the system: what is flushed from the cache of a
    new file is what an inode that opens the file later sees, through the
    signature, the middleware's records, the server, the metadata and the
    ciphers. *)

From Stdlib Require Import NArith ZArith Lia.
From Stdlib Require Import Strings.String.
From stdpp Require Import base list gmap.
From S2P Require Import Prelude Const Options Crypto Capsule DcServer Middleware Backend.
From S2P Require Import Cache CacheSpec InodeSpec MidSpec CommitSpec Commits BackendSpec.

Section reopen.
Context `{OpenSSLLaws} `{ProtobufLaws} `{RunEnvOk} {D : Type} `{!DCServer D} `{!DCServerLaws D}.
Abbreviation SB := (Backend.StorageBackend (D := D)).
Local Open Scope N_scope.

(** ** The block map of a capsule *)

Lemma slice_concat hs (rest : bytes) i h :
  names_ok hs → hs !! i = Some h → slice (concat hs ++ rest) (i * 32) 32 = h.
Proof.
  intros Hhs. revert i. induction Hhs as [|x hs Hx Hhs IH]; intros i Hi; [done|].
  unfold nlen, HASHLEN_IN_BYTES in Hx. cbn [concat]. rewrite <-(assoc_L (++)).
  destruct i as [|i]; simpl in Hi; simplify_eq.
  - unfold slice. rewrite drop_0. apply take_app_length'. lia.
  - rewrite <-(IH i Hi). unfold slice.
    replace (Datatypes.S i * 32)%nat with (length x + i * 32)%nat by lia.
    by rewrite drop_app_add.
Qed.

(** The entry of block [i] is its name, unless that starts with a zero byte. *)
Lemma entry_concat (h : Inode) hs (n : nat) i name :
  names_ok hs → (length hs * 32 ≤ n)%nat → hs !! N.to_nat i = Some name →
  i < BlockMapCover h →
  entry h (splice (replicate n (Some Byte.x00)) 0 (Some <$> concat hs)) i =
    if decide (head name = Some Byte.x00) then None else Some name.
Proof.
  intros Hhs Hn Hi Hcov. unfold entry. n_cmp.
  rewrite splice_0, drop_replicate, <-fmap_replicate, <-fmap_app.
  unfold slice. rewrite <-fmap_drop, <-fmap_take, mapM_id_some.
  replace (N.to_nat (i * HASHLEN_IN_BYTES)) with (N.to_nat i * 32)%nat
    by (unfold HASHLEN_IN_BYTES; lia).
  change (N.to_nat HASHLEN_IN_BYTES) with 32%nat.
  fold (slice (concat hs ++ replicate (n - length (Some <$> concat hs)) Byte.x00) (N.to_nat i * 32) 32).
  rewrite (slice_concat hs _ _ name) by done.
  assert (nlen name = 32) as Hl by (by eapply Forall_lookup_1 in Hi; [|done]).
  destruct name as [|x name]; [done|]. simpl.
  destruct (decide (x = Byte.x00)) as [->|]; [by rewrite decide_True|].
  rewrite decide_False; [done|]. congruence.
Qed.

(** A file that is not cached, seen through its committed head. *)
Lemma backing_committed (h : Inode) (b : SB) c dc ino bm hs payload i r name x bb :
  host_wf h → bm_ c = None → Hashname h = dc → BlockMapRecordname h = bm →
  committed (Backend.backend_world b) dc ino bm hs payload →
  nlen hs ≤ BlockMapCover h → i < nlen hs → r < BlockSize h →
  hs !! N.to_nat i = Some name → head name ≠ Some Byte.x00 →
  backend_payload b dc name = Some x → Crypto.plaintext (c_str (AESKey h)) x = Some bb →
  backing_byte h c b (BlockSize h * i + r) = bb !! N.to_nat r.
Proof.
  intros Hh Hbm Hdc Hrn Hcm Hcov Hi Hr Hname Hhd Hx Hbb.
  destruct Hcm as (pi & pb & prev & prev' & lb & _ & _ & _ & Hb & Hwb & Hpb & Hns & _).
  destruct (block_unique (BlockSize h) i r Hr) as [Hq Hm].
  assert (payload_of b dc bm = Some (concat hs)) as Hpl.
  { change (backend_payload b dc bm = Some (concat hs)). unfold backend_payload, compose.
    unfold stored in Hb. rewrite Hb. simpl.
    by rewrite parse_serialize, (ro_payload _ _ _ _ _ Hpb). }
  assert (payload_of b dc name = Some x) as Hx' by done.
  unfold backing_byte, block_map. rewrite Hbm, Hrn, Hdc, Hq, Hm.
  rewrite decide_False by by eapply name_nonempty. rewrite Hpl. cbn [mbind option_bind].
  pose proof (concat_names_length hs Hns) as Hl. unfold HASHLEN_IN_BYTES in *.
  n_cmp. cbn [mbind option_bind].
  rewrite (entry_concat h hs _ i name); [|done|unfold nlen in *; lia|done|lia].
  rewrite decide_False by done. rewrite Hx'. cbn [mbind option_bind].
  by rewrite Hbb.
Qed.

(** ** Flushing a new file *)

Lemma indices_lookup from n i : (i < n)%nat → indices from n !! i = Some (from + N.of_nat i).
Proof.
  revert from i. induction n as [|n IH]; intros from i Hi; [lia|].
  destruct i as [|i]; simpl; [by rewrite N.add_0_r|]. rewrite IH by lia. f_equal. lia.
Qed.

Lemma length_indices from n : length (indices from n) = n.
Proof. revert from. induction n as [|n IH]; intros from; simpl; auto. Qed.

Lemma flush_desc_inv (h : Inode) c i d :
  flush_desc h c i = Some d →
  ∃ bb, block_bytes h c i = Some bb ∧ Crypto.ciphertext (c_str (AESKey h)) bb = Some (desc_buf d).
Proof.
  unfold flush_desc. intros Hd. destruct (block_bytes h c i) as [bb|]; [|done].
  simpl in Hd. destruct (Crypto.ciphertext _ bb) as [ct|] eqn:E; [|done]. simplify_eq/=.
  by exists bb.
Qed.

Lemma block_bytes_length (h : Inode) c i bb :
  rc_wf h c → block_bytes h c i = Some bb → length bb = N.to_nat (BlockSize h).
Proof.
  intros Hc Hb. unfold block_bytes in Hb.
  destruct (dcache_blocks_ c !! N.to_nat i) as [[b|]|] eqn:E; try done. simpl in Hb.
  apply mapM_Some, Forall2_length in Hb. pose proof (wf_block h c Hc _ _ E).
  rewrite <-Hb, length_take. unfold AES_PAD_LEN in *. lia.
Qed.

(** A cached block shows its bytes. *)
Lemma block_bytes_view (h : Inode) c (b : SB) i r bb :
  r < BlockSize h → is_cached c i = true → block_bytes h c i = Some bb →
  view h c b (BlockSize h * i + r) = bb !! N.to_nat r.
Proof.
  intros Hr Hin Hb. destruct (block_unique (BlockSize h) i r Hr) as [Hq Hm].
  unfold view, file_cell. rewrite Hq, Hm, Hin. unfold block_bytes in Hb.
  destruct (dcache_blocks_ c !! N.to_nat i) as [[blk|]|]; try done. simpl in Hb |- *.
  apply mapM_Some in Hb.
  rewrite <-(lookup_take_lt blk (N.to_nat (BlockSize h))) by lia.
  destruct (take _ blk !! N.to_nat r) as [x|] eqn:Hx.
  - destruct (Forall2_lookup_l _ _ _ _ _ Hb Hx) as (y & -> & Hy). simpl. by subst.
  - destruct (bb !! N.to_nat r) as [y|] eqn:Hy; [|done].
    destruct (Forall2_lookup_r _ _ _ _ _ Hb Hy) as (z & Hz & _). congruence.
Qed.

(** The data of a committed descriptor can be read back. *)
Lemma committed_block (b b' : SB) dc back descs ns i d n :
  nlen back ≤ 32 → names_ok ns → blocks_stored (Backend.backend_world b') dc back descs ns →
  descs !! i = Some d → ns !! i = Some n → nlen (desc_buf d) < 16777216 →
  backend_payload b' dc n = Some (desc_buf d).
Proof.
  intros Hback Hns Hb Hd Hn Hsm.
  assert (∃ bk, (back :: ns) !! i = Some bk ∧ nlen bk ≤ 32) as (bk & Hbk & Hl).
  { destruct i as [|i]; simpl; [by exists back|].
    destruct (lookup_lt_is_Some_2 ns i) as [x Hx].
    { apply lookup_lt_Some in Hn. lia. }
    exists x. split; [done|]. eapply Forall_lookup_1 in Hx; [|exact Hns]. simpl in Hx.
    by rewrite Hx. }
  destruct (Hb i d n bk Hd Hn Hbk) as (p & Hp & Hr).
  unfold backend_payload, compose. unfold stored in Hp. rewrite Hp. simpl.
  rewrite parse_serialize; [by rewrite (ro_payload _ _ _ _ _ Hr)|].
  eapply record_wf; [done|done| |done]. apply Forall_singleton, field_small_name. done.
Qed.

Definition DEFAULT_BLOCK_SIZE : N := DEFAULT_BLOCK_SIZE_IN_KB * 1024.

Lemma cover_val : BLOCKMAP_COVER = 512.
Proof. done. Qed.
Lemma block_size_val : DEFAULT_BLOCK_SIZE = 16384.
Proof. done. Qed.

(** A new file whose first [n] blocks are the dirty ones. *)
Record new_file (b : SB) (ino : Inode) (n : nat) : Prop := {
  nf_wf : ino_wf ino;
  nf_recordname : i_ino_recordname_ ino = [];
  nf_head : latest (Backend.backend_world b) (i_hashname_ ino) = [];
  nf_block_size : BlockSize ino = DEFAULT_BLOCK_SIZE;
  nf_key : length (AESKey ino) = 16%nat;
  nf_name : nlen (i_hashname_ ino) ≤ 32;
  nf_dirty : dirty_blocks (i_cache_ ino) = indices 0 n;
  nf_blocks : (0 < n)%nat ∧ N.of_nat n ≤ BLOCKMAP_COVER;
  nf_flushable : flushable ino (i_cache_ ino);
  nf_cached i : is_dirty (i_cache_ ino) i = true → is_cached (i_cache_ ino) i = true;
}.

(** The request of the flush. *)
Lemma new_file_descs (b : SB) ino n descs :
  new_file b ino n → flush_descs ino (i_cache_ ino) = Some descs →
  length descs = n ∧ Forall (λ d, nlen (desc_buf d) = DEFAULT_BLOCK_SIZE + 16) descs ∧
  ∀ i d, descs !! i = Some d → flush_desc ino (i_cache_ ino) (N.of_nat i) = Some d.
Proof.
  intros [Hwf _ _ Hbs _ _ Hdirty _ Hf _] Hall%mapM_Some. rewrite Hdirty in Hall.
  pose proof (Forall2_length _ _ _ Hall) as Hl. rewrite length_indices in Hl. split; [done|].
  assert (∀ i d, descs !! i = Some d → flush_desc ino (i_cache_ ino) (N.of_nat i) = Some d) as Hi.
  { intros i d Hx. destruct (Forall2_lookup_r _ _ _ _ _ Hall Hx) as (j & Hj & Hfd).
    rewrite indices_lookup in Hj by (apply lookup_lt_Some in Hx; lia). by simplify_eq. }
  split; [|done]. apply Forall_lookup. intros i d Hx. apply Hi, flush_desc_inv in Hx as (bb & Hbb & Hct).
  apply block_bytes_length in Hbb; [|apply Hwf]. rewrite Hbs in Hbb.
  apply Crypto.ciphertext_length in Hct; [|unfold nlen; by rewrite Hbb].
  unfold nlen. rewrite Hct, Hbb. done.
Qed.

Lemma concat_descs_length descs (n : N) :
  Forall (λ d, nlen (desc_buf d) = n) descs → nlen (concat (desc_buf <$> descs)) = n * nlen descs.
Proof.
  induction 1 as [|d descs Hd _ IH]; [unfold nlen; simpl; lia|]. csimpl. rewrite nlen_app, IH, Hd.
  unfold nlen. simpl length. lia.
Qed.

(** The names of the records that a flush writes. *)
Definition flush_names (b : SB) (ino : Inode) : list bytes :=
  match flush_descs ino (i_cache_ ino) with
  | Some descs => new_names (Hashname ino) descs (AESKey ino) (Backend.backend_world b)
  | None => []
  end.

Lemma new_isize_blocks n :
  N.of_nat n ≤ BLOCKMAP_COVER → Mid.new_isize 0 (N.of_nat n) = N.of_nat n * DEFAULT_BLOCK_SIZE.
Proof.
  intros Hn. unfold Mid.new_isize. rewrite u64_small.
  - rewrite (proj2 (N.leb_le _ _)) by apply N.le_0_l. unfold DEFAULT_BLOCK_SIZE. by rewrite N.mul_assoc.
  - rewrite cover_val in Hn. unfold DEFAULT_BLOCK_SIZE_IN_KB. lia.
Qed.

Lemma new_Inode_no_map dc rn bm kb cover size key ino :
  new_Inode dc rn bm kb cover size key = Ret ino →
  bm_ (i_cache_ ino) = None ∧ BlockMapCover ino = cover.
Proof.
  unfold new_Inode, new_RecordCache. intros Hn. m_bind Hn. m_bind Hm. by simplify_eq.
Qed.

Lemma new_file_dirty (b : SB) ino n i :
  new_file b ino n → i < N.of_nat n → is_dirty (i_cache_ ino) i = true.
Proof.
  intros Hnew Hi. pose proof (indices_lookup 0 n (N.to_nat i) ltac:(lia)) as Hl.
  rewrite N2Nat.id, N.add_0_l, <-(nf_dirty _ _ _ Hnew) in Hl.
  apply list_elem_of_lookup_2 in Hl. unfold dirty_blocks in Hl.
  by apply list_elem_of_filter in Hl as [? _].
Qed.

(** A block of a file that was flushed to [b'] and opened again has its bytes. *)
Lemma reopened_block (b b' b'' : SB) (ino ino' : Inode) n descs ns bm rn payload i d r name :
  new_file b ino n → i < N.of_nat n → descs !! N.to_nat i = Some d →
  nlen (desc_buf d) = DEFAULT_BLOCK_SIZE + 16 → flush_desc ino (i_cache_ ino) i = Some d →
  length ns = n → ns !! N.to_nat i = Some name → head name ≠ Some Byte.x00 →
  r < DEFAULT_BLOCK_SIZE →
  blocks_stored (Backend.backend_world b') (i_hashname_ ino) (first_back (i_hashname_ ino) []) descs ns →
  committed (Backend.backend_world b') (i_hashname_ ino) rn bm ns payload →
  (∀ dc r', stored (Backend.backend_world b'') dc r' = stored (Backend.backend_world b') dc r') →
  ino_wf ino' → BlockSize ino' = DEFAULT_BLOCK_SIZE → Hashname ino' = i_hashname_ ino →
  BlockMapRecordname ino' = bm → AESKey ino' = AESKey ino → BlockMapCover ino' = BLOCKMAP_COVER →
  bm_ (i_cache_ ino') = None → (∀ i', is_cached (i_cache_ ino') i' = false) →
  contents ino' b'' (DEFAULT_BLOCK_SIZE * i + r) = contents ino b (DEFAULT_BLOCK_SIZE * i + r).
Proof.
  intros Hnew Hi Hd Hdl Hfd Hln Hname Hhd Hr Hblocks Hcm Hsame Hwf Hbs' Hh Hbm Hk Hcov Hnm Hnc.
  pose proof (new_file_dirty b ino n i Hnew Hi) as Hdirty.
  destruct Hnew as [Hwfi _ _ Hbs _ Hlen _ [_ Hn] _ Hcached].
  apply flush_desc_inv in Hfd as (bb & Hbb & Hct).
  transitivity (bb !! N.to_nat r).
  - unfold contents, view. rewrite Hnc, <-Hbs'.
    eapply (backing_committed ino' b'' _ (i_hashname_ ino) rn bm ns payload i r name (desc_buf d));
      try done.
    + apply Hwf.
    + unfold committed in *. by setoid_rewrite Hsame.
    + rewrite Hcov. unfold nlen. by rewrite Hln.
    + unfold nlen. by rewrite Hln.
    + by rewrite Hbs'.
    + unfold backend_payload.
      pose proof (Hsame (i_hashname_ ino) name) as Hs. unfold stored in Hs. rewrite Hs.
      assert (names_ok ns) as Hns by by destruct Hcm as (? & ? & ? & ? & ? & _ & _ & _ & _ & _ & _ & ? & _).
      apply (committed_block b b' (i_hashname_ ino) (first_back (i_hashname_ ino) []) descs ns
        (N.to_nat i) d name); try done. by rewrite Hdl, block_size_val.
    + rewrite Hk. apply Crypto.plaintext_ciphertext; [|done].
      apply block_bytes_length in Hbb; [|apply Hwfi]. unfold nlen. by rewrite Hbb, Hbs.
  - unfold contents. rewrite <-Hbs. symmetry.
    apply block_bytes_view; [by rewrite Hbs|by apply Hcached|done].
Qed.

(** What an inode that opens the flushed file is. *)
Record reopened (b b' b'' : SB) (ino ino' : Inode) (n : nat) (ns : list bytes) (bm rn : bytes) :
    Prop := {
  re_wf : ino_wf ino';
  re_size : i_size_ ino' = N.of_nat n * DEFAULT_BLOCK_SIZE;
  re_block : BlockSize ino' = DEFAULT_BLOCK_SIZE;
  re_name : Hashname ino' = i_hashname_ ino;
  re_map : BlockMapRecordname ino' = bm;
  re_key : AESKey ino' = AESKey ino;
  re_cover : BlockMapCover ino' = BLOCKMAP_COVER;
  re_bm : bm_ (i_cache_ ino') = None;
  re_same dc r : stored (Backend.backend_world b'') dc r = stored (Backend.backend_world b') dc r;
  re_committed : ∃ payload,
    committed (Backend.backend_world b') (i_hashname_ ino) rn bm ns payload;
  re_blocks : ∃ descs, length descs = n ∧
    Forall (λ d, nlen (desc_buf d) = DEFAULT_BLOCK_SIZE + 16) descs ∧
    blocks_stored (Backend.backend_world b') (i_hashname_ ino) (first_back (i_hashname_ ino) [])
      descs ns;
  re_bytes i r name : i < N.of_nat n → r < DEFAULT_BLOCK_SIZE →
    ns !! N.to_nat i = Some name → head name ≠ Some Byte.x00 →
    contents ino' b'' (DEFAULT_BLOCK_SIZE * i + r) = contents ino b (DEFAULT_BLOCK_SIZE * i + r);
}.

(** A flush that succeeds has committed the blocks. *)
Lemma flush_commits (b b' : SB) ino n c' sk :
  keys_ok (Backend.backend_world b) sk → new_file b ino n →
  RC.FlushCache ino (i_cache_ ino) b = Ret (b', c', inr tt) →
  ∃ descs ns bm rn, flush_names b ino = ns ++ [bm; rn] ∧
    commit_post (Backend.backend_world b) (Backend.backend_world b') (i_hashname_ ino) descs
      (AESKey ino) [] ns bm rn ∧ length descs = n ∧
    ∀ i d, descs !! i = Some d → nlen (desc_buf d) = DEFAULT_BLOCK_SIZE + 16 ∧
      flush_desc ino (i_cache_ ino) (N.of_nat i) = Some d.
Proof.
  intros Hk Hnew Hflush. pose proof Hnew as [Hwf Hrn Hhead _ Hkey Hname _ [Hn Hn'] Hf _].
  rewrite FlushCache_spec in Hflush by (done || apply Hwf).
  destruct (flush_descs ino (i_cache_ ino)) as [descs|] eqn:Hd; [|done].
  destruct (new_file_descs b ino n descs Hnew Hd) as (Hl & Hall & Hi).
  change (StoreRecord ?a ?b ?c ?d ?e) with (Backend.WriteRecord a b c d e) in Hflush.
  m_bind Hflush. destruct r as [b1 [e|[]]]; [done|]. simplify_eq.
  change (InodeRecordname ino) with (i_ino_recordname_ ino) in Hm. rewrite Hrn in Hm.
  unfold Backend.WriteRecord in Hm. rewrite (proj2 (N.eqb_neq _ _)) in Hm
    by (unfold nlen; lia).
  m_bind Hm. m_bind Hm. m_bind Hm. destruct r1 as [sig|]; [|done]. m_bind Hm.
  destruct r1 as [w1 res]. simplify_eq.
  destruct (Modify_post (i_hashname_ ino) descs [] (AESKey ino) sig
    (Backend.backend_world b) w1 [] sk) as (ns & bm & rn & Hnames & Hp); try done.
  - unfold head_ok. by rewrite decide_True.
  - lia.
  - split; [done|]. rewrite cover_val in Hn'. unfold nlen. simpl. lia.
  - exists descs, ns, bm, rn. split_and!; try done.
    + unfold flush_names. by rewrite Hd.
    + intros i d Hx. split; [by eapply Forall_lookup_1 in Hall|by apply Hi].
Qed.

(** The head of the capsule after it. *)
Lemma flush_head (b b' : SB) ino n descs ns bm rn sk :
  keys_ok (Backend.backend_world b) sk → new_file b ino n → length descs = n →
  commit_post (Backend.backend_world b) (Backend.backend_world b') (i_hashname_ ino) descs
    (AESKey ino) [] ns bm rn → NoDup (ns ++ [bm; rn]) →
  keys_ok (Backend.backend_world b') sk ∧ latest (Backend.backend_world b') (i_hashname_ ino) = rn ∧
  rn ≠ [] ∧ ∃ c, length c = 32%nat ∧ Crypto.plaintext sk c = Some (AESKey ino) ∧
    committed (Backend.backend_world b') (i_hashname_ ino) rn bm ns
      (le_bytes 8 (N.of_nat n * DEFAULT_BLOCK_SIZE) ++ c).
Proof.
  intros Hks Hnew Hl Hp Hnd. pose proof (cp_index _ _ _ _ _ _ _ _ _ Hp) as Hidx.
  destruct (cp_head _ _ _ _ _ _ _ _ _ Hp Hnd) as (sk' & k & c & Hsk & Hlk & [Hk0 _] & Hct & Hlc & Hcm).
  destruct Hks as [Hsk0 Hlsk]. rewrite Hsk0 in Hsk. apply (inj (fmap Some)) in Hsk as <-.
  assert (k = AESKey ino) as ->.
  { rewrite Hk0 by apply Hnew. pose proof (nf_key _ _ _ Hnew) as Hkey. rewrite <-Hkey. by apply take_ge. }
  split; [unfold keys_ok; by rewrite Hidx|].
  split; [by rewrite (latest_set_index _ _ _ _ _ Hidx), decide_True|].
  split; [apply Hp|]. exists c. split; [done|]. split; [|].
  { apply Crypto.plaintext_ciphertext; [|done]. unfold nlen. by rewrite (nf_key _ _ _ Hnew). }
  assert (nlen descs = N.of_nat n) as Hnl by (unfold nlen; by rewrite Hl).
  rewrite Hnl, new_isize_blocks in Hcm by apply (nf_blocks _ _ _ Hnew). exact Hcm.
Qed.

(** The file an inode will see when it opens the capsule: the metadata read
    back, and the constructor of [get_inode]. *)
Definition opens (b : SB) (dc : bytes) (size : N) (b' : SB) (ino : Inode) : Prop :=
  ∃ m, Backend.ReadFileMeta dc b = Ret (b', inr m) ∧ fm_i_size m = size ∧
    new_Inode dc (fm_recordname m) (fm_blockmap_hash m) DEFAULT_BLOCK_SIZE_IN_KB BLOCKMAP_COVER
      (fm_i_size m) (fm_aes_key m) = Ret ino.

(** Whoever opens a committed capsule has an inode with nothing in its cache. *)
Lemma open_inv (b b' : SB) dc bm hs size size' c sk key ino :
  keys_ok (Backend.backend_world b) sk → latest (Backend.backend_world b) dc ≠ [] →
  committed (Backend.backend_world b) dc (latest (Backend.backend_world b) dc) bm hs (le_bytes 8 size ++ c) →
  size < 9223372036854775808 → length c = 32%nat → Crypto.plaintext sk c = Some key →
  length key = 16%nat → opens b dc size' b' ino →
  size' = size ∧
  (∀ dc' r, stored (Backend.backend_world b') dc' r = stored (Backend.backend_world b) dc' r) ∧
  i_size_ ino = size ∧
  ino_wf ino ∧ BlockSize ino = DEFAULT_BLOCK_SIZE ∧ Hashname ino = dc ∧
  BlockMapRecordname ino = bm ∧ AESKey ino = key ∧ BlockMapCover ino = BLOCKMAP_COVER ∧
  bm_ (i_cache_ ino) = None ∧ ∀ i, is_cached (i_cache_ ino) i = false.
Proof.
  intros [Hsk Hlsk] Hne Hcm Hsize Hlc Hpt Hkey (m & Hmeta & Hsz & Hni).
  destruct (read_meta_inv b b' dc bm hs size c sk key m) as [-> Hsame]; try done; [lia|].
  simpl in Hsz. subst size'. cbn [fm_recordname fm_i_size fm_aes_key fm_blockmap_hash] in Hni.
  pose proof (new_Inode_wf dc (latest (Backend.backend_world b) dc) bm DEFAULT_BLOCK_SIZE_IN_KB
    BLOCKMAP_COVER size key) as Hw.
  apply (wp_elim _ _ _ _) with (2 := Hni) in Hw as (Hwf & Hs & Hbs & Hh & Hbm & Hk & Hnc);
    try done; [|by rewrite Hkey].
  destruct (new_Inode_no_map _ _ _ _ _ _ _ _ Hni) as [Hnm Hcov]. by split_and!.
Qed.

Lemma reopen_safe (b b' : SB) ino n c' sk :
  keys_ok (Backend.backend_world b) sk → new_file b ino n →
  RC.FlushCache ino (i_cache_ ino) b = Ret (b', c', inr tt) →
  ∃ ns bm rn, flush_names b ino = ns ++ [bm; rn] ∧ length ns = n ∧
    (NoDup (flush_names b ino) →
     ∀ size b'' ino', opens b' (i_hashname_ ino) size b'' ino' →
       size = N.of_nat n * DEFAULT_BLOCK_SIZE ∧ reopened b b' b'' ino ino' n ns bm rn).
Proof.
  intros Hks Hnew Hflush.
  destruct (flush_commits b b' ino n c' sk Hks Hnew Hflush) as (descs & ns & bm & rn & Hnames & Hp & Hl & Hdescs).
  pose proof (cp_length _ _ _ _ _ _ _ _ _ Hp) as Hln.
  exists ns, bm, rn. split; [done|]. split; [congruence|]. rewrite Hnames.
  intros Hnd size b'' ino' Hopen.
  destruct (flush_head b b' ino n descs ns bm rn sk Hks Hnew Hl Hp Hnd)
    as (Hks' & Hlat & Hrn & c & Hlc & Hpt & Hcm).
  destruct (open_inv b' b'' (i_hashname_ ino) bm ns (N.of_nat n * DEFAULT_BLOCK_SIZE) size c sk
    (AESKey ino) ino') as (-> & Hsame & Hsize & Hwf & Hbs & Hh & Hbm & Hk & Hcov & Hnm & Hnc);
    rewrite ?Hlat; try done; [|by apply Hnew|].
  { destruct (nf_blocks _ _ _ Hnew) as [_ Hn]. rewrite cover_val in Hn. rewrite block_size_val. lia. }
  pose proof (cp_blocks _ _ _ _ _ _ _ _ _ Hp Hnd) as Hblocks.
  split; [done|]. split; try done; [by eexists| |].
  { exists descs. split_and!; [done| |done]. apply Forall_lookup. intros i d Hd.
    by apply Hdescs in Hd as [? _]. }
  intros i r name Hi Hr Hname Hhd.
  destruct (lookup_lt_is_Some_2 descs (N.to_nat i)) as [d Hd]; [lia|].
  destruct (Hdescs _ _ Hd) as [Hdl Hfd]. rewrite N2Nat.id in Hfd.
  by eapply (reopened_block b b' b'' ino ino' n descs ns bm rn); try done; congruence.
Qed.

End reopen.

(** ** On a server that answers *)
Section up.
Context `{OpenSSLLaws} `{ProtobufLaws} `{RunEnvOk} {D : Type} `{!DCServer D} `{!DCServerLaws D}.
Context `{!DCServerAnswers D}.
Abbreviation wpd := (wp (down (D := D))).
Abbreviation SB := (Backend.StorageBackend (D := D)).
Local Open Scope N_scope.

(** The libraries work, and client and middleware hold matching keys. *)
Record backend_up (b : SB) (sk : bytes) (ck : EC_KEY) : Prop := {
  bo_sha d : is_Some (sha256 d);
  bo_enc k m : (16 ≤ length k)%nat → nlen m < 2147483648 → is_Some (Crypto.ciphertext k m);
  bo_rand n : is_Some (rand_bytes n);
  bo_sign d : is_Some (ecdsa_sign ck d);
  bo_client : Backend.client_key_pair_ b = Some ck;
  bo_mid : client_key_pair_ (mid (Backend.backend_world b)) = Some ck;
  bo_keys : keys_ok (Backend.backend_world b) sk;
}.

(** Moreover the capsule of a file exists. *)
Record backend_ok (b : SB) (dc sk : bytes) (ck : EC_KEY) : Prop := {
  bo_up : backend_up b sk ck;
  bo_container : container (server (Backend.backend_world b)) dc;
}.

(** A commit through the backend. *)
Lemma WriteRecord_up (b : SB) dc descs aes_key hs sk ck :
  backend_ok b dc sk ck → head_ok (Backend.backend_world b) dc hs →
  (16 ≤ length aes_key)%nat → nlen hs ≤ BLOCKMAP_COVER → descs ≠ [] →
  request_small dc descs hs →
  nlen (request dc descs (latest (Backend.backend_world b) dc) aes_key) < 18446744073709551616 →
  wpd (Backend.WriteRecord dc descs (latest (Backend.backend_world b) dc) aes_key b) (λ '(b', res),
    res = inr tt ∧ backend_ok b' dc sk ck).
Proof.
  intros [[Hsha Henc Hrand Hsign Hck Hck' Hk] Hc] Hhead Hkey Hcov Hne Hsm Hlen.
  set (w := Backend.backend_world b) in *.
  destruct (Hsha (request dc descs (latest w dc) aes_key)) as [h Hh].
  destruct (Hsign h) as [sig Hsig].
  assert (Mid.verify_args (mid w) dc descs (latest w dc) aes_key sig = Ret true) as Hver.
  { unfold Mid.verify_args, Crypto.hash256. rewrite pack_args_spec by done.
    m_run. rewrite Hh. m_run. rewrite Hck'. cbn [Crypto.verify].
    by rewrite (ecdsa_correct _ _ _ Hsig). }
  unfold Backend.WriteRecord, Crypto.hash256.
  rewrite (proj2 (N.eqb_neq _ _)) by (destruct descs; [done|unfold nlen; simpl; lia]).
  rewrite Backend.pack_args_same, pack_args_spec by done. m_run. rewrite Hh. m_run. rewrite Hck. cbn [Crypto.sign].
  rewrite Hsig. m_run. fold w.
  eapply wp_bind; [apply wp_value, (Modify_up dc descs aes_key sig w hs sk); try done|].
  { intros k Hlk. apply Henc; [destruct Hk as [_ ->]; lia|]. unfold nlen. by rewrite Hlk. }
  intros [w' res] (Hm & -> & Hc'). split; [done|].
  destruct (Modify_post _ _ _ _ _ _ _ hs sk Hhead Hk Hkey Hsm Hm) as (ns & bm & ino & Hnames & Hp).
  pose proof (cp_index _ _ _ _ _ _ _ _ _ Hp) as Hidx. split; [|done]. split; try done; simpl.
  + by rewrite Hidx.
  + unfold keys_ok in *. by rewrite Hidx.
Qed.

(** With AES working, every dirty block has its descriptor. *)
Lemma flush_descs_total (h : Inode) c (b : SB) dc sk ck :
  backend_ok b dc sk ck → host_wf h → rc_wf h c → BlockSize h < 2147483648 → flushable h c →
  ∃ descs, flush_descs h c = Some descs ∧
    Forall2 (λ i d, flush_desc h c i = Some d) (dirty_blocks c) descs.
Proof.
  intros Hok Hh Hc Hbs Hf. unfold flush_descs.
  assert (Forall (λ i, is_Some (flush_desc h c i)) (dirty_blocks c)) as Hall.
  { apply Forall_forall. intros i Hi. unfold dirty_blocks in Hi.
    apply list_elem_of_filter in Hi as [Hd _]. destruct (Hf i Hd) as [bb Hbb].
    unfold flush_desc. rewrite Hbb. cbn [mbind option_bind].
    destruct (bo_enc _ _ _ (bo_up _ _ _ _ Hok) (c_str (AESKey h)) bb) as [ct ->];
      [by apply host_key| |by eexists].
    apply block_bytes_length in Hbb; [|done]. unfold nlen. rewrite Hbb. lia. }
  apply mapM_is_Some in Hall as [descs Hd]. exists descs. split; [done|]. by apply mapM_Some.
Qed.

(** Flushing a new file succeeds. *)
Lemma flush_up (b : SB) ino n sk ck :
  backend_ok b (i_hashname_ ino) sk ck → new_file b ino n →
  wpd (RC.FlushCache ino (i_cache_ ino) b) (λ '(b', c', res),
    res = inr tt ∧ backend_ok b' (i_hashname_ ino) sk ck).
Proof.
  intros Hok Hnew. pose proof Hnew as [Hwf Hrn Hhead _ Hkey Hname _ [Hn Hn'] Hf _].
  destruct (flush_descs_total ino (i_cache_ ino) b _ sk ck Hok (iw_host _ Hwf) (iw_cache _ Hwf)
    ltac:(by rewrite (nf_block_size _ _ _ Hnew)) Hf) as (descs & Hd & _).
  destruct (new_file_descs b ino n descs Hnew Hd) as (Hl & Hall & _).
  pose proof (concat_descs_length _ _ Hall) as Hcl.
  assert (nlen descs = N.of_nat n) as Hnl by (unfold nlen; by rewrite Hl).
  rewrite FlushCache_spec by (done || apply Hwf). rewrite Hd.
  change (Hashname ino) with (i_hashname_ ino). change (InodeRecordname ino) with (i_ino_recordname_ ino).
  rewrite Hrn, <-Hhead. change (StoreRecord ?a ?b ?c ?d ?e) with (Backend.WriteRecord a b c d e).
  eapply wp_bind; [apply (WriteRecord_up b (i_hashname_ ino) descs (AESKey ino) [] sk ck); try done|].
  - unfold head_ok. by rewrite decide_True.
  - lia.
  - intros ->. simpl in Hl. lia.
  - split; [done|]. rewrite Hnl. rewrite cover_val in Hn'. unfold nlen. simpl. lia.
  - unfold request. rewrite Hhead, !nlen_app, Hcl, Hnl. unfold nlen in Hname |- *. rewrite Hkey.
    rewrite cover_val in Hn'. rewrite block_size_val. simpl length. lia.
  - intros [b' res] [-> Hok']. done.
Qed.

(** And so does opening a committed capsule. *)
Lemma open_up (b : SB) dc bm hs size c sk ck key :
  backend_ok b dc sk ck → latest (Backend.backend_world b) dc ≠ [] →
  committed (Backend.backend_world b) dc (latest (Backend.backend_world b) dc) bm hs (le_bytes 8 size ++ c) →
  size < 9223372036854775808 → length c = 32%nat → Crypto.plaintext sk c = Some key →
  length key = 16%nat →
  wpd (Backend.ReadFileMeta dc b) (λ '(b', res), (∃ m, res = inr m) ∧ ∃ ino, opens b dc size b' ino ∧
    container (server (Backend.backend_world b')) dc).
Proof.
  intros Hok Hne Hcm Hsize Hlc Hpt Hkey. destruct (bo_keys _ _ _ (bo_up _ _ _ _ Hok)) as [Hsk Hlsk].
  assert (∃ sig, ∀ d, ecdsa_sign ck d = Some (sig d)) as [sig Hsig].
  { exists (λ d, default [] (ecdsa_sign ck d)). intros d.
    by destruct (bo_sign _ _ _ (bo_up _ _ _ _ Hok) d) as [s ->]. }
  eapply wp_mono; [apply wp_value, (read_meta_up b dc bm hs size c sk key ck sig);
    try done; try apply Hok; lia|].
  intros [b' res] (Hmeta & -> & _ & Hcont). split; [by eexists|].
  pose proof (new_Inode_wf dc (latest (Backend.backend_world b) dc) bm DEFAULT_BLOCK_SIZE_IN_KB
    BLOCKMAP_COVER size key) as Hni.
  apply wp_total in Hni as (ino & Hni & _); try done; [|by rewrite Hkey].
  exists ino. split; [by eexists; split_and!|done].
Qed.

Lemma flush_reopen (b : SB) ino n sk ck :
  backend_ok b (i_hashname_ ino) sk ck → new_file b ino n →
  wpd (RC.FlushCache ino (i_cache_ ino) b) (λ '(b', c', res), res = inr tt ∧
    ∃ ns bm rn, flush_names b ino = ns ++ [bm; rn] ∧ length ns = n ∧
    (NoDup (flush_names b ino) →
     wpd (Backend.ReadFileMeta (i_hashname_ ino) b') (λ '(b'', res), (∃ m, res = inr m) ∧
       ∃ ino', opens b' (i_hashname_ ino) (N.of_nat n * DEFAULT_BLOCK_SIZE) b'' ino' ∧
         container (server (Backend.backend_world b'')) (i_hashname_ ino) ∧
         reopened b b' b'' ino ino' n ns bm rn))).
Proof.
  intros Hok Hnew. pose proof (bo_keys _ _ _ (bo_up _ _ _ _ Hok)) as Hks.
  eapply wp_mono; [by apply wp_value, (flush_up b ino n sk ck)|].
  intros [[b' c'] res] (Hflush & -> & Hok'). split; [done|].
  destruct (reopen_safe b b' ino n _ sk Hks Hnew Hflush) as (ns & bm & rn & Hnames & Hln & Hsafe).
  exists ns, bm, rn. split; [done|]. split; [done|]. intros Hnd.
  destruct (flush_commits b b' ino n _ sk Hks Hnew Hflush) as (descs & ns' & bm' & rn' & Hnames' & Hp & Hl & _).
  rewrite Hnames' in Hnd.
  destruct (flush_head b b' ino n descs ns' bm' rn' sk Hks Hnew Hl Hp Hnd)
    as (_ & Hlat & Hrn & c & Hlc & Hpt & Hcm). rewrite <-Hlat in Hrn, Hcm.
  eapply wp_mono; [apply (open_up b' (i_hashname_ ino) bm' ns' (N.of_nat n * DEFAULT_BLOCK_SIZE) c sk ck
    (AESKey ino)); try done; [|apply Hnew]|].
  { destruct (nf_blocks _ _ _ Hnew) as [_ Hn]. rewrite cover_val in Hn. rewrite block_size_val. lia. }
  intros [b'' r] (Hm & ino' & Ho & Hcont). split; [done|].
  exists ino'. split; [done|]. split; [done|]. rewrite <-Hnames' in Hnd. by apply (Hsafe Hnd _ _ _ Ho).
Qed.

(** C1. End to end: flushing a new file succeeds, and whoever opens the file
    afterwards sees the bytes that were in the cache, decrypted with the same
    key, in every block whose SHA-256 name does not start with a zero byte
    (such names the block map check takes for absent). The size is the number
    of blocks times the block size. As always two new records of the same
    name are excluded. *)
Theorem flush_then_open `{!DCServerReliable D} (b : SB) ino n sk ck :
  backend_ok b (i_hashname_ ino) sk ck → new_file b ino n →
  ∃ b' c', RC.FlushCache ino (i_cache_ ino) b = Ret (b', c', inr tt) ∧
  ∃ ns bm rn, flush_names b ino = ns ++ [bm; rn] ∧ length ns = n ∧
    (NoDup (flush_names b ino) →
     ∃ b'' ino', opens b' (i_hashname_ ino) (N.of_nat n * DEFAULT_BLOCK_SIZE) b'' ino' ∧
       AESKey ino' = AESKey ino ∧
       ∀ i r name, i < N.of_nat n → r < DEFAULT_BLOCK_SIZE →
         ns !! N.to_nat i = Some name → head name ≠ Some Byte.x00 →
         contents ino' b'' (DEFAULT_BLOCK_SIZE * i + r) =
         contents ino b (DEFAULT_BLOCK_SIZE * i + r)).
Proof.
  intros Hok Hnew.
  destruct (wp_always _ _ _ never_down (flush_reopen b ino n sk ck Hok Hnew))
    as ([[b' c'] res] & Hflush & -> & ns & bm & rn & Hnames & Hl & Hopen).
  exists b', c'. split; [done|]. exists ns, bm, rn. split; [done|]. split; [done|].
  intros Hnd. destruct (wp_always _ _ _ never_down (Hopen Hnd)) as ([b'' r] & _ & _ & ino' & Ho & _ & Hre).
  exists b'', ino'. split; [done|]. split; [apply Hre|]. apply Hre.
Qed.
End up.
