(* ===== verification/Inodes.v ===== *)
(** * Theorems about inodes

    An inode is a file: [Write] changes the bytes it is asked to and [Read]
    returns them. The theorems at the end pin down where the code departs from
    that file, byte by byte. *)

From Stdlib Require Import NArith ZArith Lia.
From stdpp Require Import base list.
From S2P Require Import Prelude Const Crypto Capsule DcServer Backend Cache CacheSpec CacheEquiv InodeSpec.

Section inodes.
Context `{OpenSSLLaws} {S : Type} `{StorageLaws S}.
Local Open Scope N_scope.

(** C6. [Inode::Write] on a well-formed inode, when the blocks of the range can
    be loaded. [span] is the number of bytes that are copied: as many as the
    request says when it ends in the block in which it starts, and one more
    otherwise. A buffer shorter than that is read past its end. From any other
    buffer the write succeeds and returns the size of the request: the bytes of
    the buffer are in the file from the offset on (from the end of the file, if
    the offset is behind it), all bytes outside the copied range are the same as
    before, the size covers the write, and the blocks of the range, and no
    others, have become dirty. *)
Theorem Write_correct (ino : Inode) (s s1 : S) (c1 : RecordCache) (buf : list cell)
    (offset size : N) :
  ino_wf ino → 0 < size → i_size_ ino + size < 9223372036854775808 →
  RC.fillDcache ino (clamp ino offset) size (i_cache_ ino) s = Ret (s1, c1, inr tt) →
  let off := clamp ino offset in
  let n := span (BlockSize ino) off size in
  (nlen buf < n → Ino.Write buf offset size ino s = Crash OutOfBounds) ∧
  (n <= nlen buf →
   ∃ ino', Ino.Write buf offset size ino s = Ret (s1, ino', inr size) ∧
     ino_wf ino' ∧ i_size_ ino' = N.max (i_size_ ino) (off + size) ∧
     (∀ k x, k < n → buf !! N.to_nat k = Some (Some x) → contents ino' s1 (off + k) = Some x) ∧
     (∀ p x, p < off ∨ off + n <= p → contents ino s p = Some x → contents ino' s1 p = Some x) ∧
     (∀ i, is_dirty (i_cache_ ino') i = true ↔ is_dirty (i_cache_ ino) i = true ∨
        off / BlockSize ino <= i <= (off + size) / BlockSize ino)).
Proof.
  intros Hwf Hsize Hb Hfill off n. split; [intros Hs; by eapply Write_short_inode|]. intros Hbuf.
  destruct (Write_spec_span ino s s1 c1 buf offset size) as (ino' & Hw & Hwf' & Hs & Hp & Heq); try done.
  exists ino'. split_and!; try done.
  - intros k x Hk Hx. rewrite Heq. apply (wpost_new _ _ _ _ _ _ _ _ Hp); fold off n; [simpl; lia|].
    by replace (off + k - off) with k by lia.
  - intros p x Hpo Hx. rewrite Heq. apply (wpost_old _ _ _ _ _ _ _ _ Hp); fold off n; [lia|done].
  - apply Hp.
Qed.

(** C7. [Inode::Read] on a well-formed inode and a buffer with a byte to spare
    stops only if the server does. It never goes past the end of the file; on
    success the buffer holds the bytes of the file, the file itself is not
    changed, and the buffer is not touched beyond one byte behind the request. *)
Theorem Read_correct (ino : Inode) (s : S) (buf : list cell) (offset size : N) :
  ino_wf ino → 0 < size → offset + size < 18446744073709551616 → size + 1 <= nlen buf →
  wp (storage_fault (S := S)) (Ino.Read buf offset size ino s) (λ '(s', ino', buf', r),
    ino_wf ino' ∧ i_size_ ino' = i_size_ ino ∧ length buf' = length buf ∧
    match r with
    | inl _ => buf' = buf
    | inr None => i_size_ ino <= offset ∧ buf' = buf
    | inr (Some n) =>
        offset < i_size_ ino ∧ n = N.min size (i_size_ ino - offset) ∧
        view_le (contents ino s) (contents ino' s') ∧
        (∀ k b, k < n → contents ino s (offset + k) = Some b → buf' !! N.to_nat k = Some (Some b)) ∧
        (∀ k, n + 1 <= k → buf' !! N.to_nat k = buf !! N.to_nat k)
    end).
Proof. apply Read_spec_inode. Qed.

(** C12. Read your writes: with a byte to spare behind the request in both
    buffers ([size + 1 <= nlen buf]), reading the range just written returns
    exactly the bytes written, and needs nothing from the backend any more. *)
Theorem read_after_write (ino : Inode) (s s1 : S) (c1 : RecordCache) (buf buf2 : list cell)
    (offset size : N) :
  ino_wf ino → 0 < size → i_size_ ino + size < 9223372036854775808 → size + 1 <= nlen buf →
  Forall is_Some buf → size + 1 <= nlen buf2 →
  RC.fillDcache ino (clamp ino offset) size (i_cache_ ino) s = Ret (s1, c1, inr tt) →
  ∃ ino' buf', Ino.Write buf offset size ino s = Ret (s1, ino', inr size) ∧
    Ino.Read buf2 (clamp ino offset) size ino' s1 = Ret (s1, ino', buf', inr (Some size)) ∧
    take (N.to_nat size) buf' = take (N.to_nat size) buf.
Proof.
  intros Hwf Hsize Hb Hbuf Hsome Hbuf2 Hfill.
  destruct (Write_spec_inode ino s s1 c1 buf offset size) as (ino' & Hw & Hwf' & Hs & Hp & Heq); try done.
  set (off := clamp ino offset) in *.
  pose proof (span_bounds (BlockSize ino) off size).
  assert (off <= i_size_ ino) as Hoff by (unfold off, clamp; lia).
  assert (host_wf ino') as Hh' by apply Hwf'.
  assert (BlockSize ino' = BlockSize ino) as Hbs by by rewrite Heq.
  pose proof (fillDcache_cached ino' off size (i_cache_ ino') s1 Hh') as Hfc.
  assert (RC.fillDcache ino' off size (i_cache_ ino') s1 = Ret (s1, i_cache_ ino', inr tt)) as Hfill'.
  { apply Hfc; [|lia|rewrite Hbs; apply (wpost_range _ _ _ _ _ _ _ _ Hp)].
    pose proof (wpost_ready _ _ _ _ _ _ _ _ Hp) as Hr. unfold bm_ready in *.
    intros Hn. rewrite Heq. by apply Hr. }
  destruct (Read_total ino' s1 s1 (i_cache_ ino') buf2 off size) as (buf' & Hrd & Hlen & Hin);
    try done; [lia|].
  assert (set_cache (i_cache_ ino') ino' = ino') as Heta by by destruct ino'. rewrite Heta in Hrd.
  exists ino', buf'. split_and!; [done|done|].
  apply list_eq. intros i. destruct (decide (i < N.to_nat size)%nat) as [Hi|Hi].
  2: { unfold nlen in *. rewrite !lookup_ge_None_2; [done|rewrite length_take; lia..]. }
  rewrite !lookup_take_lt by done.
  destruct (lookup_lt_is_Some_2 buf i) as [x Hx]; [unfold nlen in *; lia|].
  destruct (Forall_lookup_1 _ _ _ _ Hsome Hx) as [y ->].
  rewrite <-(Nat2N.id i), (Hin (N.of_nat i) y); [by rewrite Nat2N.id|lia|].
  rewrite Heq. apply (wpost_new _ _ _ _ _ _ _ _ Hp); [simpl; lia|].
  by replace (N.to_nat (off + N.of_nat i - off)) with i by lia.
Qed.

(** C40. A write that ends in another block than it starts in also overwrites
    the byte behind its range, with the byte behind the caller's buffer. *)
Theorem crossing_write_clobbers (ino : Inode) (s s1 : S) (c1 : RecordCache) (buf : list cell)
    (offset size : N) (x : byte) :
  ino_wf ino → 0 < size → i_size_ ino + size < 9223372036854775808 → size + 1 <= nlen buf →
  RC.fillDcache ino (clamp ino offset) size (i_cache_ ino) s = Ret (s1, c1, inr tt) →
  clamp ino offset / BlockSize ino ≠ (clamp ino offset + size) / BlockSize ino →
  buf !! N.to_nat size = Some (Some x) →
  ∃ ino', Ino.Write buf offset size ino s = Ret (s1, ino', inr size) ∧
    contents ino' s1 (clamp ino offset + size) = Some x.
Proof.
  intros Hwf Hsize Hb Hbuf Hfill Hcross Hx.
  destruct (Write_spec_inode ino s s1 c1 buf offset size) as (ino' & Hw & Hwf' & Hs & Hp & Heq); try done.
  exists ino'. split; [done|]. rewrite Heq. apply (wpost_new _ _ _ _ _ _ _ _ Hp); simpl.
  - unfold span. rewrite (proj2 (N.eqb_neq _ _)) by done. lia.
  - by replace (clamp ino offset + size - clamp ino offset) with size by lia.
Qed.

(** A read that ends in another block than the one it starts in overruns a
    buffer of exactly the requested size, as FUSE passes it. *)
Theorem crossing_read_overruns (ino : Inode) (s s1 : S) (c1 : RecordCache) (buf : list cell)
    (offset size : N) :
  ino_wf ino → 0 < size → offset + size <= i_size_ ino → nlen buf = size →
  offset / BlockSize ino ≠ (offset + size) / BlockSize ino →
  RC.fillDcache ino offset size (i_cache_ ino) s = Ret (s1, c1, inr tt) →
  Ino.Read buf offset size ino s = Crash OutOfBounds.
Proof.
  intros [Hh Hc Hsz] Hsize Hend Hbuf Hcross Hfill. pose proof (hw_block_size _ Hh) as Hbs.
  pose proof (wp_elim _ _ _ _ (fillDcache_spec ino offset size _ s Hh Hc) Hfill) as (Hwf & Hok & _).
  destruct (Hok eq_refl) as (_ & _ & Hin). rewrite u64_small in Hin by lia.
  unfold Ino.Read. n_cmp. rewrite u64_small by lia. n_cmp. unfold RC.Read. n_cmp. cbn [c_assert]. m_run.
  rewrite u64_small by lia. rewrite !udiv_ok, !umod_ok by done. m_run. rewrite Hfill. m_run.
  rewrite read_copy_short; try done. unfold span. rewrite (proj2 (N.eqb_neq _ _)) by done. lia.
Qed.

(** A write behind the end of the file is moved to its end: no hole is
    made, the bytes land at the old size, and the new size is short of what
    the caller asked for. *)
Theorem write_behind_end_is_moved (ino : Inode) (s s1 : S) (c1 : RecordCache) (buf : list cell)
    (offset size : N) :
  ino_wf ino → 0 < size → i_size_ ino + size < 9223372036854775808 → size + 1 <= nlen buf →
  i_size_ ino < offset →
  RC.fillDcache ino (i_size_ ino) size (i_cache_ ino) s = Ret (s1, c1, inr tt) →
  ∃ ino', Ino.Write buf offset size ino s = Ret (s1, ino', inr size) ∧
    i_size_ ino' = i_size_ ino + size ∧
    ∀ k x, k < size → buf !! N.to_nat k = Some (Some x) →
      contents ino' s1 (i_size_ ino + k) = Some x.
Proof.
  intros Hwf Hsize Hb Hbuf Hoff Hfill.
  assert (clamp ino offset = i_size_ ino) as Hcl by (unfold clamp; lia).
  destruct (Write_spec_inode ino s s1 c1 buf offset size) as (ino' & Hw & Hwf' & Hs & Hp & Heq);
    try done; [by rewrite Hcl|].
  rewrite Hcl in *. pose proof (span_bounds (BlockSize ino) (i_size_ ino) size).
  exists ino'. split; [done|]. split; [lia|]. intros k x Hk Hx. rewrite Heq.
  apply (wpost_new _ _ _ _ _ _ _ _ Hp); [simpl; lia|].
  by replace (i_size_ ino + k - i_size_ ino) with k by lia.
Qed.

(** The block map of zeros has no entries. *)
Lemma entry_zeros (h : Inode) n i : entry h (replicate n (Some Byte.x00)) i = None.
Proof.
  unfold entry. destruct (_ <=? i); [done|]. unfold slice. rewrite drop_replicate, take_replicate.
  rewrite <-fmap_replicate, mapM_id_some. by destruct (_ `min` _)%nat.
Qed.

(** A failed load of the block map is not tried again: the next call
    returns [NO_ERR] without reading anything, and every block that was not in
    the cache reads as zeros from then on, whatever the server holds. *)
Theorem failed_map_load_sticks (h : Inode) o n (c c1 : RecordCache) (s s1 : S) e :
  host_wf h → rc_wf h c →
  RC.fillBmcache h o n c s = Ret (s1, c1, inl e) →
  ∀ s2, RC.fillBmcache h o n c1 s2 = Ret (s2, c1, inr tt) ∧
    ∀ p, is_cached c1 (p / BlockSize h) = false → view h c1 s2 p = Some Byte.x00.
Proof.
  intros Hh Hc Hrun s2.
  apply (wp_elim _ _ _ _ (fillBmcache_spec h o n c s Hh Hc)) in Hrun as (_ & -> & _).
  split; [done|]. intros p Hp. unfold view. rewrite Hp. unfold backing_byte, block_map. simpl.
  by rewrite entry_zeros.
Qed.

(** A block whose name in the block map starts with a zero byte is taken
    for one that was never written: it is filled with zeros without asking the
    backend, although its record exists. *)
Theorem zero_name_is_unseen (h : Inode) i (c : RecordCache) (s : S) bm (name : bytes) :
  host_wf h → rc_wf h c → bm_ c = Some bm → i < nlen (dcache_stats_ c) → i < BlockMapCover h →
  is_cached c i = false →
  slice bm (N.to_nat (i * HASHLEN_IN_BYTES)) (N.to_nat HASHLEN_IN_BYTES) = Some <$> Byte.x00 :: name →
  ∃ c', RC.fill_block h i c s = Ret (s, c', inr tt) ∧ is_cached c' i = true ∧
    ∀ r, r < BlockSize h → view h c' s (BlockSize h * i + r) = Some Byte.x00.
Proof.
  intros Hh Hc Hbm Hi Hcov Hin Hsl. unfold RC.fill_block.
  destruct (lookup_lt_is_Some_2 (dcache_stats_ c) (N.to_nat i)) as [st Hst]; [unfold nlen in Hi; lia|].
  rewrite (vec_get_ok _ _ _ Hst). m_run.
  unfold is_cached in Hin. rewrite Hst in Hin. rewrite Hin.
  assert (i < nlen (dcache_blocks_ c)) as Hi' by (unfold nlen in *; by rewrite (wf_length _ _ Hc)).
  rewrite set_block_ok by done. m_run.
  rewrite bmCheck_spec by (apply put_block_wf; [done|by rewrite length_new_array]).
  m_run. simpl bm_. rewrite Hbm. cbn [mbind option_bind].
  assert (entry h bm i = None) as ->.
  { unfold entry. n_cmp. rewrite Hsl, mapM_id_some.
    by rewrite decide_True. }
  set (blk := splice (new_array (BlockSize h + AES_PAD_LEN)) 0
                (replicate (N.to_nat (BlockSize h)) (Some Byte.x00))).
  assert (memset0 (new_array (BlockSize h + AES_PAD_LEN)) (BlockSize h) = Ret blk) as ->.
  { unfold memset0. rewrite mem_write_ok; [done|]. unfold nlen.
    rewrite length_new_array, length_replicate. unfold AES_PAD_LEN. lia. }
  m_run. rewrite set_block_ok.
  2: { unfold put_block. len_lia. }
  rewrite put_block_twice. m_run. rewrite set_stat_ok by done.
  m_run. eexists. split; [done|].
  assert (is_cached (put_stat (put_block c i blk) i RC.mark_cached) i = true) as Hcached.
  { unfold is_cached, put_stat. simpl. by rewrite list_lookup_alter_eq, Hst. }
  split; [done|]. intros r Hr. destruct (block_unique (BlockSize h) i r Hr) as [Hq Hm].
  unfold view. rewrite Hq, Hcached, file_cell_put_stat, file_cell_put_block by done.
  rewrite Hq, Hm, decide_True by done. unfold blk. rewrite splice_0.
  rewrite lookup_app_l by (rewrite length_replicate; lia).
  by rewrite lookup_replicate_2 by lia.
Qed.

(** [RecordCache::Write] goes ahead after a failed [fillDcache]: when the
    first block of the request was never allocated, for instance because the
    block map could not be read, it writes through a null pointer. *)
Theorem write_after_failed_fill (ino : Inode) (s s1 : S) (c1 : RecordCache) (buf : list cell)
    (offset size : N) e :
  ino_wf ino → 0 < size →
  RC.fillDcache ino (clamp ino offset) size (i_cache_ ino) s = Ret (s1, c1, inl e) →
  dcache_blocks_ c1 !! N.to_nat (clamp ino offset / BlockSize ino) = Some None →
  Ino.Write buf offset size ino s = Crash NullDeref.
Proof.
  intros [Hh _ _] Hsize Hfill Hnull. pose proof (hw_block_size _ Hh) as Hbs. unfold Ino.Write.
  replace (if i_size_ ino <=? offset then i_size_ ino else offset) with (clamp ino offset).
  2: { unfold clamp. destruct (N.leb_spec (i_size_ ino) offset); lia. }
  unfold RC.Write. n_cmp. cbn [mbind outcome_bind c_assert].
  rewrite !udiv_ok, !umod_ok by done. m_run.
  rewrite Hfill. m_run.
  assert (∀ b o d n, RC.copy_in b o c1 (clamp ino offset / BlockSize ino) d n = Crash NullDeref) as Hci.
  { intros. unfold RC.copy_in, RC.block_at. by rewrite (vec_get_ok _ _ _ Hnull). }
  unfold RC.write_copy. rewrite !Hci. by repeat case_match.
Qed.

(** C26. [FlushCache] implements: encrypt every dirty block, in the order of
    the file; hand the ciphertexts with their offsets to the backend in one
    request; forget the cached blocks if it was stored, and keep them all,
    still dirty, on any error. It writes only its own memory. *)
Theorem FlushCache_refines (h : Inode) (c : RecordCache) (s : S) :
  host_wf h → rc_wf h c → flushable h c →
  RC.FlushCache h c s =
    match flush_descs h c with
    | None => Ret (s, c, inl ERR_CRYPTO)
    | Some ds =>
        '(s, r) ← StoreRecord (Hashname h) ds (InodeRecordname h) (AESKey h) s;
        match r with
        | inl e => Ret (s, c, inl e)
        | inr _ => Ret (s, RC.drop_caches c, inr tt)
        end
    end.
Proof. apply FlushCache_spec. Qed.

(** The last [Unref] reports success whatever became of the flush: when
    the backend refuses the blocks, the caller still sees the count 0 and
    releases the inode, and with it the only copy of the dirty blocks. *)
Theorem Unref_drops_flush_error (ino : Inode) (s s1 : S) ds e :
  ino_wf ino → flushable ino (i_cache_ ino) → i_ref_count_ ino = 1 →
  flush_descs ino (i_cache_ ino) = Some ds →
  StoreRecord (Hashname ino) ds (InodeRecordname ino) (AESKey ino) s = Ret (s1, inl e) →
  Ino.Unref ino s = Ret (s1, set_ref 0 ino, 0).
Proof.
  intros [Hh Hc _] Hf Hone Hds Hst. rewrite Unref_last, Hds by done. by rewrite Hst.
Qed.
End inodes.
