(* ===== verification/DcfsSpec.v ===== *)
(** * Theorems about the file system

    The callbacks as a transition system: its reachable states, the invariant
    that holds in all of them, and what each callback does to the directory
    and the descriptor table. *)

From Stdlib Require Import NArith ZArith Lia.
From Stdlib Require Import Strings.String.
From stdpp Require Import base list gmap.
From S2P Require Import Prelude Const Dir Crypto Capsule Backend Cache Dcfs.

Section dcfs.
Context `{OpenSSL} {S : Type} `{Storage S}.
Abbreviation St := (fs_state S).
Local Open Scope N_scope.
Implicit Types st : St.

(** ** The transition system *)

(** One callback that returns. *)
Inductive fs_step : St → St → Prop :=
  | step_getattr path st st' buf r :
      Fs.dcfs_getattr path st = Ret (st', buf, r) → fs_step st st'
  | step_readdir path st st' l r :
      Fs.dcfs_readdir path st = Ret (st', l, r) → fs_step st st'
  | step_create path fh st st' r fd :
      Fs.dcfs_create path fh st = Ret (st', r, fd) → fs_step st st'
  | step_open path fh st st' r fd :
      Fs.dcfs_open path fh st = Ret (st', r, fd) → fs_step st st'
  | step_read path buf size offset fh st st' buf' r :
      Fs.dcfs_read path buf size offset fh st = Ret (st', buf', r) → fs_step st st'
  | step_write path buf size offset fh st st' r :
      Fs.dcfs_write path buf size offset fh st = Ret (st', r) → fs_step st st'
  | step_flush path fh st st' r fh' :
      Fs.dcfs_flush path fh st = Ret (st', r, fh') → fs_step st st'.

Inductive reachable (kb : N) (s : S) : St → Prop :=
  | reach_init : reachable kb s (Fs.dcfs_init kb s)
  | reach_step st st' : reachable kb s st → fs_step st st' → reachable kb s st'.

(** The names a reader of the directory sees. *)
Definition dir_names (st : St) : list bytes :=
  (λ e, cstr (Dir.Filename e)) <$> Dir.entries_ (root st).

(** The invariant: no two entries have the same name, the descriptor table
    keeps its size and descriptors are numbered from 10 on, and the inode
    table files every inode under its own name. *)
Record fs_inv (st : St) : Prop := {
  inv_names : NoDup (dir_names st);
  inv_table : nlen (fd_table st) = FD_TABLE_MAX;
  inv_cnt : 10 <= fd_cnt st < FD_TABLE_MAX;
  inv_inodes p ino : inode_table st !! p = Some ino → Hashname ino = p;
}.

(** ** What the parts of a callback change *)

(** Directory, descriptors and the table's discipline are kept. *)
Record keeps (st st' : St) : Prop := {
  k_entries : Dir.entries_ (root st') = Dir.entries_ (root st);
  k_fds : fd_table st' = fd_table st;
  k_cnt : fd_cnt st' = fd_cnt st;
  k_inodes : (∀ p ino, inode_table st !! p = Some ino → Hashname ino = p) →
             ∀ p ino, inode_table st' !! p = Some ino → Hashname ino = p;
}.

#[export] Instance keeps_preorder : PreOrder keeps.
Proof.
  split; [by intros st; split|]. intros a b c [E F C I] [E' F' C' I'].
  split; [by rewrite E'|by rewrite F'|by rewrite C'|auto].
Qed.

Lemma keeps_inv st st' : keeps st st' → fs_inv st → fs_inv st'.
Proof.
  intros [E F C I] [A B D G]. split; [|by rewrite F|by rewrite C|by apply I].
  unfold dir_names in *. by rewrite E.
Qed.

Lemma keeps_root st d : Dir.entries_ d = Dir.entries_ (root st) → keeps st (Fs.set_root d st).
Proof. by split. Qed.

Lemma keeps_backend st s : keeps st (Fs.set_backend s st).
Proof. by split. Qed.

Lemma keeps_update st p ino : Hashname ino = p → keeps st (Fs.update p ino st).
Proof.
  intros Hp. split; try done. intros Hall q i. simpl. rewrite lookup_insert.
  case_decide; [|apply Hall]. intros [= <-]. congruence.
Qed.

Lemma find_entry_spec path st :
  match path with
  | [] => Fs.find_entry path st = Crash OutOfBounds
  | _ :: name => ∃ d, Fs.find_entry path st =
      Ret (Fs.set_root d st, Dir.first_entry (Fs.names name) (Dir.entries_ (root st))) ∧
      Dir.entries_ d = Dir.entries_ (root st)
  end.
Proof.
  destruct path as [|x name]; [done|]. unfold Fs.find_entry. cbn [Fs.path_tail mbind outcome_bind].
  pose proof (Dir.scan_until_spec (Fs.names name) (root st)) as Hs.
  apply wp_total in Hs as ([d ent] & -> & He & _ & ->). by exists d.
Qed.

Lemma find_entry_keeps path st st' ent :
  Fs.find_entry path st = Ret (st', ent) → keeps st st'.
Proof.
  pose proof (find_entry_spec path st) as Hs. destruct path as [|x name]; [by rewrite Hs|].
  destruct Hs as (d & -> & He). intros [= <- _]. by apply keeps_root.
Qed.

Lemma new_Inode_name a b c kb cover n k ino :
  new_Inode a b c kb cover n k = Ret ino → Hashname ino = a.
Proof. unfold new_Inode. intros Hn. m_bind Hn. by simplify_eq. Qed.

Lemma get_inode_keeps p st st' r :
  Fs.get_inode p st = Ret (st', r) → keeps st st' ∧ (∀ q, r = Some q → q = p).
Proof.
  unfold Fs.get_inode. intros Hrun. destruct (inode_table st !! p); [by simplify_eq; split; [|intros ? [= ->]]|].
  m_bind Hrun. destruct r0 as [s [e|m]]; [simplify_eq; by split; [apply keeps_backend|]|].
  m_bind Hrun. simplify_eq. apply new_Inode_name in Hm0. split; [|by intros ? [= ->]].
  etrans; [apply keeps_backend|]. by apply keeps_update.
Qed.

Lemma find_inode_keeps u path fh st st' r :
  Fs.find_inode u path fh st = Ret (st', r) → keeps st st'.
Proof.
  unfold Fs.find_inode. intros Hrun. destruct (0 <? fh).
  - m_bind Hrun. by apply get_inode_keeps in Hrun as [? _].
  - m_bind Hrun. destruct r0 as [st1 [e|]]; apply find_entry_keeps in Hm.
    + apply get_inode_keeps in Hrun as [? _]. by etrans.
    + destruct u; by simplify_eq.
Qed.

(** Using an inode does not rename it. *)
Lemma Unref_name ino (s s' : S) ino' n :
  Ino.Unref ino s = Ret (s', ino', n) → Hashname ino' = Hashname ino.
Proof.
  unfold Ino.Unref. intros Hrun. m_bind Hrun. destruct (_ =? 0); [|by simplify_eq].
  m_bind Hrun. destruct r0 as [[? ?] ?]. by simplify_eq.
Qed.

Lemma Read_name buf off size ino (s s' : S) ino' buf' r :
  Ino.Read buf off size ino s = Ret (s', ino', buf', r) → Hashname ino' = Hashname ino.
Proof.
  unfold Ino.Read. intros Hrun. destruct (_ <=? _); [by simplify_eq|].
  m_bind Hrun. destruct r0 as [[[? ?] ?] ?]. by simplify_eq.
Qed.

Lemma Write_name buf off size ino (s s' : S) ino' r :
  Ino.Write buf off size ino s = Ret (s', ino', r) → Hashname ino' = Hashname ino.
Proof.
  unfold Ino.Write. intros Hrun. m_bind Hrun. destruct r0 as [[? ?] [?|?]]; [by simplify_eq|].
  simplify_eq. by destruct (_ <? _).
Qed.

(** An inode found in the table is filed under its own name. *)
Lemma deref_name p st ino :
  (∀ q i, inode_table st !! q = Some i → Hashname i = q) →
  Fs.deref p st = Ret ino → Hashname ino = p.
Proof.
  unfold Fs.deref. intros Hall Hd. destruct (inode_table st !! p) eqn:E; [|done].
  simplify_eq. by apply Hall.
Qed.

Lemma new_fd_spec p st st' fd :
  fs_inv st → Fs.new_fd p st = Ret (st', fd) →
  fs_inv st' ∧ fd = fd_cnt st + 1 ∧ fd_table st' !! N.to_nat fd = Some p ∧
  root st' = root st ∧ inode_table st' = inode_table st ∧ backend st' = backend st.
Proof.
  intros [A B C D] Hrun. unfold Fs.new_fd in Hrun.
  rewrite u64_small in Hrun by (unfold FD_TABLE_MAX in *; lia).
  m_bind Hrun. simplify_eq. unfold vec_set in Hm. destruct (N.ltb_spec (fd_cnt st + 1) (nlen (fd_table st))); [|done].
  simplify_eq. split; [split; simpl; try done|].
  - len_lia.
  - rewrite B in *. lia.
  - split_and!; try done. simpl. rewrite list_lookup_insert_eq; [done|]. unfold nlen in *. lia.
Qed.

Lemma allocate_inode_spec st st' r :
  Fs.allocate_inode st = Ret (st', r) →
  keeps st st' ∧ ∀ p, r = Some p → ∃ ino, inode_table st' !! p = Some ino ∧ Hashname ino = p ∧
    i_size_ ino = 0.
Proof.
  unfold Fs.allocate_inode. intros Hrun. m_bind Hrun. destruct r0 as [s [e|[h k]]].
  { simplify_eq. by split; [apply keeps_backend|]. }
  m_bind Hrun. simplify_eq. assert (Hashname r0 = h ∧ i_size_ r0 = 0) as [Hn Hz].
  { unfold fresh_Inode in Hm0. m_bind Hm0. by simplify_eq. }
  split; [etrans; [apply keeps_backend|by apply keeps_update]|].
  intros ? [= <-]. exists r0. simpl. by rewrite lookup_insert_eq.
Qed.

Lemma names_cstr name e : Fs.names name e = true ↔ cstr (Dir.Filename e) = cstr name.
Proof. unfold Fs.names. rewrite bool_decide_eq_true. naive_solver. Qed.

(** No entry of that name. *)
Lemma first_entry_fresh name st :
  Dir.first_entry (Fs.names name) (Dir.entries_ (root st)) = None ↔ cstr name ∉ dir_names st.
Proof.
  rewrite Dir.first_entry_None. unfold dir_names. rewrite list_elem_of_fmap. split.
  - intros Hall (e & He & Hin). apply Hall in Hin. apply Bool.not_true_iff_false in Hin.
    by rewrite names_cstr in Hin.
  - intros Hn e He. apply Bool.not_true_iff_false. rewrite names_cstr. intros Heq.
    apply Hn. by exists e.
Qed.

(** A new entry is the first of its name. *)
Lemma first_entry_new name h st :
  cstr name ∉ dir_names st →
  Dir.first_entry (Fs.names name) (Dir.entries_ (root st) ++ [Dir.MkEntry (cstr name) h]) =
    Some (Dir.MkEntry (cstr name) h).
Proof.
  intros Hfresh.
  destruct (Dir.first_entry _ _) as [e|] eqn:E.
  - apply Dir.first_entry_Some in E as [Hin Hp]. apply names_cstr in Hp.
    rewrite elem_of_app, list_elem_of_singleton in Hin. destruct Hin as [Hin| ->]; [|done].
    destruct Hfresh. rewrite <-Hp. unfold dir_names. apply list_elem_of_fmap. by exists e.
  - rewrite Dir.first_entry_None in E.
    assert (Fs.names name (Dir.MkEntry (cstr name) h) = false) as Hx.
    { apply E, elem_of_app. right. by apply list_elem_of_singleton. }
    apply Bool.not_true_iff_false in Hx. destruct Hx. apply names_cstr. simpl. apply cstr_idemp.
Qed.

(** ** The invariant is inductive *)

Lemma init_inv kb s : fs_inv (Fs.dcfs_init kb s).
Proof. split; try done. by constructor. Qed.

Lemma getattr_inv path st st' buf r :
  fs_inv st → Fs.dcfs_getattr path st = Ret (st', buf, r) → fs_inv st'.
Proof.
  unfold Fs.dcfs_getattr. intros Hi Hrun. destruct (bool_decide _); [by simplify_eq|].
  m_bind Hrun. destruct r0 as [st1 [e|]]; apply find_entry_keeps in Hm.
  2: { simplify_eq. by eapply keeps_inv. }
  m_bind Hrun. destruct r0 as [st2 [p|]]; [|done]. apply get_inode_keeps in Hm0 as [Hk _].
  m_bind Hrun. simplify_eq. apply (keeps_inv st); [by etrans|done].
Qed.

Lemma readdir_inv path st st' l r :
  fs_inv st → Fs.dcfs_readdir path st = Ret (st', l, r) → fs_inv st'.
Proof.
  unfold Fs.dcfs_readdir. intros Hi Hrun. destruct (negb _); [by simplify_eq|].
  rewrite Dir.scan_all_spec in Hrun. m_run in Hrun. simplify_eq.
  apply (keeps_inv st); [by apply keeps_root|done].
Qed.

(** [path + 1] of a path that was looked up. *)
Lemma find_entry_name path st st' ent :
  Fs.find_entry path st = Ret (st', ent) →
  ∃ name, Fs.path_tail path = Ret name ∧
    ent = Dir.first_entry (Fs.names name) (Dir.entries_ (root st)).
Proof.
  pose proof (find_entry_spec path st) as Hs. destruct path as [|x name]; [by rewrite Hs|].
  destruct Hs as (d & -> & _). intros ?. simplify_eq. by exists name.
Qed.

Lemma create_spec path fh st st' r fd :
  fs_inv st → Fs.dcfs_create path fh st = Ret (st', r, fd) →
  fs_inv st' ∧ ∃ name, Fs.path_tail path = Ret name ∧
    ((r = (- EEXIST)%Z ∧ fd = fh ∧ cstr name ∈ dir_names st ∧ backend st' = backend st ∧
      dir_names st' = dir_names st) ∨
     (r = (- ENOMEM)%Z ∧ fd = fh ∧ ¬ (cstr name ∈ dir_names st) ∧ dir_names st' = dir_names st) ∨
     (r = 0%Z ∧ fd = fd_cnt st + 1 ∧ ¬ (cstr name ∈ dir_names st) ∧ ∃ ino,
      Dir.entries_ (root st') = Dir.entries_ (root st) ++ [Dir.MkEntry (cstr name) (Hashname ino)] ∧
      inode_table st' !! Hashname ino = Some ino ∧ i_size_ ino = 0 ∧
      fd_table st' !! N.to_nat fd = Some (Hashname ino))).
Proof.
  intros Hi Hrun. unfold Fs.dcfs_create in Hrun. m_bind Hrun. destruct r0 as [st1 [e|]].
  - simplify_eq. pose proof (find_entry_keeps _ _ _ _ Hm) as Hk.
    split; [by eapply keeps_inv|]. pose proof (find_entry_name _ _ _ _ Hm) as (name & Hn & He).
    exists name. split; [done|]. left.
    split_and!; try done.
    + destruct (decide (cstr name ∈ dir_names st)) as [|Hx]; [done|].
      apply first_entry_fresh in Hx. congruence.
    + destruct path as [|x n']; [done|]. pose proof (find_entry_spec (x :: n') st) as (d & Hf & _).
      rewrite Hf in Hm. by simplify_eq.
    + unfold dir_names. by rewrite (k_entries _ _ Hk).
  - pose proof (find_entry_keeps _ _ _ _ Hm) as Hk1.
    pose proof (find_entry_name _ _ _ _ Hm) as (name & Hn & He).
    symmetry in He. apply first_entry_fresh in He.
    m_bind Hrun. destruct r0 as [st2 [p|]]; apply allocate_inode_spec in Hm0 as [Hk2 Hp].
    2: { simplify_eq. assert (keeps st st') as Hk by by etrans.
         split; [by eapply keeps_inv|]. exists name. split; [done|]. right. left.
         split_and!; try done. unfold dir_names. by rewrite (k_entries _ _ Hk). }
    destruct (Hp p eq_refl) as (ino & Hino & Hname & Hsize).
    unfold Fs.deref in Hrun. rewrite Hino in Hrun. m_run in Hrun.
    rewrite Hn in Hrun. m_run in Hrun. m_bind Hrun. destruct r0 as [st3 fd3].
    simplify_eq.
    assert (keeps st (Fs.update (Hashname ino) (Ino.Ref ino) st2)) as Hk.
    { etrans; [done|]. etrans; [done|]. by apply keeps_update. }
    pose proof (keeps_inv _ _ Hk Hi) as Hi2.
    assert (Dir.entries_ (root st2) = Dir.entries_ (root st)) as Hent by apply (k_entries _ _ Hk).
    apply new_fd_spec in Hm0 as (Hi3 & -> & Hfd & Hroot & Htab & _).
    2: { destruct Hi2 as [A B C D']. split; try done. unfold dir_names in *.
         simpl. rewrite fmap_app. apply NoDup_app. split; [done|]. split; [|by apply NoDup_singleton].
         intros x Hx. simpl. rewrite Hent in Hx.
         rewrite list_elem_of_singleton, cstr_idemp. intros ->. done. }
    assert (fd_cnt st2 = fd_cnt st) as Hcnt by apply (k_cnt _ _ Hk).
    split; [done|]. exists name. split; [done|]. right. right. simpl in Hfd |- *.
    rewrite Hcnt in *. split_and!; try done. exists (Ino.Ref ino).
    change (Hashname (Ino.Ref ino)) with (Hashname ino). split_and!.
    + rewrite Hroot. simpl. by rewrite Hent.
    + rewrite Htab. simpl. by rewrite lookup_insert_eq.
    + done.
    + done.
Qed.

Lemma open_spec path fh st st' r fd :
  fs_inv st → Fs.dcfs_open path fh st = Ret (st', r, fd) →
  fs_inv st' ∧ dir_names st' = dir_names st ∧ ∃ name, Fs.path_tail path = Ret name ∧
    ((r = (- ENOENT)%Z ∧ fd = fh) ∨
     (r = 0%Z ∧ fd = fd_cnt st + 1 ∧ ∃ e ino,
      Dir.first_entry (Fs.names name) (Dir.entries_ (root st)) = Some e ∧
      inode_table st' !! Dir.Hashname e = Some ino ∧ Hashname ino = Dir.Hashname e ∧
      fd_table st' !! N.to_nat fd = Some (Dir.Hashname e))).
Proof.
  intros Hi Hrun. unfold Fs.dcfs_open in Hrun. m_bind Hrun. destruct r0 as [st1 ent].
  pose proof (find_entry_keeps _ _ _ _ Hm) as Hk1.
  pose proof (find_entry_name _ _ _ _ Hm) as (name & Hn & He).
  assert (∀ a b, keeps a b → dir_names b = dir_names a) as Hdn.
  { intros a b Hk. unfold dir_names. by rewrite (k_entries _ _ Hk). }
  destruct ent as [e|].
  2: { simplify_eq. split; [by eapply keeps_inv|]. split; [by apply Hdn|]. exists name. by auto. }
  m_bind Hrun. destruct r0 as [st2 [p|]]; apply get_inode_keeps in Hm0 as [Hk2 Hp].
  2: { simplify_eq. assert (keeps st st') as Hk by by etrans.
       split; [by eapply keeps_inv|]. split; [by apply Hdn|]. exists name. by auto. }
  rewrite (Hp p eq_refl) in *. m_bind Hrun. m_bind Hrun. destruct r1 as [st3 fd3]. simplify_eq.
  assert (keeps st st2) as Hk by by etrans.
  assert (Hashname r0 = Dir.Hashname e) as Hname.
  { eapply deref_name; [|done]. apply (keeps_inv _ _ Hk Hi). }
  assert (keeps st (Fs.update (Dir.Hashname e) (Ino.Ref r0) st2)) as Hk'.
  { etrans; [done|]. by apply keeps_update. }
  apply new_fd_spec in Hm1 as (Hi3 & -> & Hfd & Hroot & Htab & _); [|by eapply keeps_inv].
  split; [done|]. split. { unfold dir_names. rewrite Hroot. apply (Hdn _ _ Hk'). }
  exists name. split; [done|]. right. rewrite (k_cnt _ _ Hk') in Hfd |- *. split_and!; try done.
  exists e, (Ino.Ref r0). split_and!; try done. rewrite Htab. simpl. by rewrite lookup_insert_eq.
Qed.

Lemma read_inv path buf size offset fh st st' buf' r :
  fs_inv st → Fs.dcfs_read path buf size offset fh st = Ret (st', buf', r) → fs_inv st'.
Proof.
  unfold Fs.dcfs_read. intros Hi Hrun. m_bind Hrun. destruct r0 as [st1 [p|]];
    apply find_inode_keeps in Hm; apply keeps_inv in Hm; try done; [|by simplify_eq].
  m_bind Hrun. destruct (_ <? _); [|by simplify_eq].
  m_bind Hrun. destruct r1 as [[[s ino] b] res]. apply Read_name in Hm1.
  apply deref_name in Hm0; [|apply Hm].
  assert (fs_inv (Fs.update p ino (Fs.set_backend s st1))) as Hi'.
  { eapply keeps_inv; [|exact Hm]. etrans; [apply keeps_backend|]. apply keeps_update. congruence. }
  destruct res; by simplify_eq.
Qed.

Lemma write_inv path buf size offset fh st st' r :
  fs_inv st → Fs.dcfs_write path buf size offset fh st = Ret (st', r) → fs_inv st'.
Proof.
  unfold Fs.dcfs_write. intros Hi Hrun. m_bind Hrun. destruct r0 as [st1 [p|]];
    apply find_inode_keeps in Hm; apply keeps_inv in Hm; try done; [|by simplify_eq].
  m_bind Hrun. m_bind Hrun. destruct r1 as [[s ino] res]. apply Write_name in Hm1.
  apply deref_name in Hm0; [|apply Hm].
  assert (fs_inv (Fs.update p ino (Fs.set_backend s st1))) as Hi'.
  { eapply keeps_inv; [|exact Hm]. etrans; [apply keeps_backend|]. apply keeps_update. congruence. }
  destruct res; by simplify_eq.
Qed.

Lemma release_inv p st : fs_inv st → fs_inv (Fs.release_inode p st).
Proof.
  intros [A B C D]. split; try done. intros q ino. simpl. rewrite lookup_delete_Some.
  intros [_ Hq]. by apply D.
Qed.

Lemma flush_inv path fh st st' r fh' :
  fs_inv st → Fs.dcfs_flush path fh st = Ret (st', r, fh') → fs_inv st'.
Proof.
  unfold Fs.dcfs_flush. intros Hi Hrun. m_bind Hrun. destruct r0 as [st1 [p|]];
    apply find_inode_keeps in Hm; apply keeps_inv in Hm; try done; [|by simplify_eq].
  m_bind Hrun. m_bind Hrun. destruct r1 as [[s ino] cnt]. apply Unref_name in Hm1.
  apply deref_name in Hm0; [|apply Hm].
  assert (fs_inv (Fs.update p ino (Fs.set_backend s st1))) as Hi'.
  { eapply keeps_inv; [|exact Hm]. etrans; [apply keeps_backend|]. apply keeps_update. congruence. }
  destruct (cnt =? 0); [|by simplify_eq]. apply (release_inv (Hashname ino)) in Hi'.
  m_bind Hrun. simplify_eq. destruct (0 <? fh); [|by simplify_eq].
  m_bind Hm2. simplify_eq. destruct Hi' as [A B C D]. split; try done.
  unfold vec_set in *. repeat case_match; simplify_eq.
  len_lia.
Qed.

(** ** Theorems *)

#[local] Hint Resolve getattr_inv readdir_inv read_inv write_inv flush_inv : dcfs.

Lemma step_inv st st' : fs_step st st' → fs_inv st → fs_inv st'.
Proof. intros [] Hi; eauto with dcfs; [by eapply create_spec|by eapply open_spec]. Qed.

Lemma reach_inv kb s st : reachable kb s st → fs_inv st.
Proof. induction 1 as [|st st' _ Hi Hstep]; [apply init_inv|by eapply step_inv]. Qed.

(** C13. In every state that whole callbacks can reach, called one at a time in
    any order and with any arguments, no two entries of the directory have the
    same name, the descriptor table has its 256 slots with the last descriptor
    inside it, and every inode in memory is filed under its own name. (Two
    threads in [create] at once can break the first of these:
    [ThreadWitnesses.create_create_race].) *)
Theorem reachable_inv kb s (st : St) : reachable kb s st → fs_inv st.
Proof. apply reach_inv. Qed.

(** C28. [readdir] of the root lists ".", ".." and then the name of every
    entry, each once and in the order of creation; any other path is
    [-ENOENT]. It always returns. *)
Theorem readdir_correct path (st : St) :
  (cstr path = lit "/" →
     ∃ st', Fs.dcfs_readdir path st = Ret (st', [lit "."; lit ".."] ++ dir_names st, 0%Z) ∧
            dir_names st' = dir_names st) ∧
  (cstr path ≠ lit "/" → Fs.dcfs_readdir path st = Ret (st, [], (- ENOENT)%Z)).
Proof.
  unfold Fs.dcfs_readdir. split; intros Hp.
  - rewrite bool_decide_eq_true_2 by done. cbn [negb].
    rewrite Dir.scan_all_spec. m_run. eexists. split; [done|].
    unfold dir_names. simpl. done.
  - by rewrite bool_decide_eq_false_2.
Qed.

(** A file that was created is found again: while the entry is in the
    directory and its inode in memory, [open] of the name returns a new
    descriptor for that very inode, with one more reference. *)
Theorem open_after_create path fh fh2 (st st1 : St) fd :
  fs_inv st → Fs.dcfs_create path fh st = Ret (st1, 0%Z, fd) → fd_cnt st1 + 1 < FD_TABLE_MAX →
  ∃ st2 h ino, fd_table st1 !! N.to_nat fd = Some h ∧ inode_table st1 !! h = Some ino ∧
    Fs.dcfs_open path fh2 st1 = Ret (st2, 0%Z, fd_cnt st1 + 1) ∧
    inode_table st2 !! h = Some (Ino.Ref ino) ∧
    fd_table st2 !! N.to_nat (fd_cnt st1 + 1) = Some h.
Proof.
  intros Hi Hc Hfd.
  apply create_spec in Hc as (Hi1 & name & Hn & Hc); [|done].
  destruct Hc as [(? & _)|[(? & _)|(_ & -> & Hfresh & ino & He & Ht & _ & Hf)]]; [done|done|].
  pose proof (find_entry_spec path st1) as Hs. destruct path as [|x n]; [done|].
  simpl in Hn. simplify_eq. destruct Hs as (d & Hs & Hd).
  assert (Dir.first_entry (Fs.names name) (Dir.entries_ (root st1)) =
    Some (Dir.MkEntry (cstr name) (Hashname ino))) as Hfirst by (rewrite He; by apply first_entry_new).
  unfold Fs.dcfs_open. rewrite Hs, Hfirst. m_run.
  unfold Fs.get_inode, Fs.deref. change (inode_table (Fs.set_root d st1)) with (inode_table st1).
  change (Dir.Hashname (Dir.MkEntry (cstr name) (Hashname ino))) with (Hashname ino). rewrite Ht.
  m_run. change (inode_table (Fs.set_root d st1)) with (inode_table st1).
  rewrite Ht. m_run.
  destruct Hi1 as [_ Hlen _ _]. unfold Fs.new_fd. simpl fd_cnt. simpl fd_table.
  rewrite u64_small by (unfold FD_TABLE_MAX in Hfd; lia).
  rewrite vec_set_ok by (simpl; lia). m_run.
  eexists _, (Hashname ino), ino. split_and!; try done.
  - simpl. by rewrite lookup_insert_eq.
  - simpl. rewrite list_lookup_insert_eq; [done|]. unfold nlen in *. lia.
Qed.


(** [getattr] of a file whose metadata cannot be read dereferences the
    null pointer that [get_inode] returns. *)
Theorem getattr_null path (st : St) name e s err :
  cstr path ≠ lit "/" → Fs.path_tail path = Ret name →
  Dir.first_entry (Fs.names name) (Dir.entries_ (root st)) = Some e →
  inode_table st !! Dir.Hashname e = None →
  ReadFileMeta (Dir.Hashname e) (backend st) = Ret (s, inl err) →
  Fs.dcfs_getattr path st = Crash NullDeref.
Proof.
  intros Hp Hn He Ht Hm. pose proof (find_entry_spec path st) as Hs.
  destruct path as [|x n]; [done|]. simpl in Hn. simplify_eq. destruct Hs as (d & Hs & _).
  unfold Fs.dcfs_getattr. rewrite bool_decide_eq_false_2 by done.
  rewrite Hs, He. m_run. unfold Fs.get_inode. simpl inode_table. simpl backend.
  rewrite Ht, Hm. done.
Qed.
End dcfs.
