(* ===== verification/Types.v ===== *)
(** * Well-formed inodes in every state of the file system

    The operations of an inode keep it well-formed, whether they succeed or
    not and whatever records the backend finds; so every inode that the
    callbacks can reach is. What the backend has to promise for that besides
    its laws, keys of the right length, is an interface of its own. *)

From Stdlib Require Import NArith ZArith Lia.
From stdpp Require Import base list gmap.
From S2P Require Import Prelude Const Dir Crypto Capsule DcServer Middleware Backend.
From S2P Require Import Cache CacheSpec InodeSpec Dcfs BackendSpec DcfsSpec.

(** ** What a backend promises about keys *)
Class StorageKeys (S : Type) `{Storage S} := {
  file_key_length n s s' m :
    ReadFileMeta n s = Ret (s', inr m) → length (fm_aes_key m) = 16%nat;
  new_key_length s s' dc key :
    CreateNewFile s = Ret (s', inr (dc, key)) → length key = 16%nat;
}.

Section backend.
Context `{OpenSSLLaws} `{Protobuf} `{RunEnv} {D : Type} `{DCServer D}.

Lemma decrypt_length key c n out ol r out' ol' :
  Crypto.decrypt_symmetric key None c n out ol = Ret (r, out', ol') → length out' = length out.
Proof.
  unfold Crypto.decrypt_symmetric, Crypto.cipher. intros Hd.
  repeat (case_match || m_bind Hd || simplify_eq); try done;
    repeat match goal with H : mem_write _ _ _ = Ret _ |- _ => apply mem_write_length in H end; congruence.
Qed.

Lemma DecryptAESKey_length k m key :
  Mid.DecryptAESKey k m = Ret (inr key) → length key = 16%nat.
Proof.
  unfold Mid.DecryptAESKey. intros Hd. m_bind Hd. m_bind Hd. destruct r0 as [[rc buf] ol].
  m_bind Hd. m_bind Hd. simplify_eq. apply decrypt_length in Hm0. apply cells_bytes_length in Hm2.
  rewrite Hm2, length_take, Hm0, length_new_array. done.
Qed.

#[export] Instance StorageKeys_backend : StorageKeys (Backend.StorageBackend (D := D)).
Proof.
  split.
  - intros n b b' m Hr. change (ReadFileMeta n b) with (Backend.ReadFileMeta n b) in Hr.
    unfold Backend.ReadFileMeta in Hr.
    m_bind Hr. m_bind Hr. destruct r0; [|by simplify_eq]. m_bind Hr. destruct r0; [by simplify_eq|].
    m_bind Hr. destruct r0 as [w ret]. m_bind Hr. m_bind Hr. m_bind Hr. m_bind Hr. m_bind Hr.
    destruct ret, r4; simplify_eq. by eapply DecryptAESKey_length.
  - intros b b' dc key Hr. change (CreateNewFile b) with (Backend.CreateNewFile b) in Hr.
    unfold Backend.CreateNewFile, Mid.CreateNew in Hr.
    m_bind Hr. destruct r as [w r']. simplify_eq. m_bind Hm. destruct r as [w1 [|[rec hn]]]; [done|].
    m_bind Hm. destruct r as [w2 [|]]; [by simplify_eq|]. m_bind Hm. simplify_eq.
    apply cells_bytes_length in Hm2. rewrite Hm2. unfold Crypto.generate_symmetric_key.
    destruct (rand_bytes _) eqn:E; [|done]. rewrite length_fmap. by eapply rand_bytes_length.
Qed.
End backend.

(** ** Well-formed inodes *)
Local Open Scope N_scope.

(** An inode of a file system with blocks of [kb] KB. *)
Record inode_typed (kb : N) (ino : Inode) : Prop := {
  it_host : host_wf ino;
  it_cache : rc_wf ino (i_cache_ ino);
  it_block : BlockSize ino = kb * 1024;
  it_cover : BlockMapCover ino = BLOCKMAP_COVER;
}.

Lemma rc_wf_host h h' c :
  BlockSize h = BlockSize h' → BlockMapCover h = BlockMapCover h' → rc_wf h c → rc_wf h' c.
Proof. intros Hb Hm []. split; [done|by rewrite <-Hb|done|by rewrite <-Hm]. Qed.

(** Another cache, another size or another count of references. *)
Lemma typed_cache kb ino c n r :
  inode_typed kb ino → rc_wf ino c → inode_typed kb (set_ref r (set_size n (set_cache c ino))).
Proof. intros [[] _ ? ?] Hc. split; [by split|by apply (rc_wf_host ino)|done..]. Qed.

Section inode.
Context `{OpenSSLLaws} {S : Type} `{StorageLaws S}.
Implicit Types (ino h : Inode) (s : S) (c : RecordCache).

Lemma new_Inode_typed hashname rn bm kb size key ino :
  0 < kb → kb < 4194304 → length key = 16%nat →
  new_Inode hashname rn bm kb BLOCKMAP_COVER size key = Ret ino → inode_typed kb ino.
Proof.
  intros Hkb Hkb' Hkey Hn. unfold new_Inode in Hn. rewrite u64_small in Hn by lia.
  set (h := λ c, MkInode hashname rn size (kb * 1024) BLOCKMAP_COVER bm c key 0) in *.
  assert (∀ c, host_wf (h c)) as Hh by (intros c; split; simpl; (lia || by rewrite ?Hkey)).
  m_bind Hn. simplify_eq.
  pose proof (wp_elim _ _ _ _ (new_RecordCache_wf size (h (MkCache [] [] None)) (Hh _)) Hm) as [Hc _].
  split; [apply Hh|by apply (rc_wf_host (h (MkCache [] [] None)))|done..].
Qed.

(** Copying into the cache, if it does not fault. *)
Lemma copy_in_wf h buf boff c i doff n c' :
  rc_wf h c → RC.copy_in buf boff c i doff n = Ret c' → rc_wf h c'.
Proof.
  intros Hc Hrun. unfold RC.copy_in, RC.block_at in Hrun. m_bind Hrun. m_bind Hrun. m_bind Hrun.
  m_bind Hm. destruct r2 as [b|]; [|done]. simplify_eq. apply vec_get_inv in Hm2.
  unfold RC.set_block in Hm1. m_bind Hm1. apply vec_set_inv in Hm as [-> _]. simplify_eq.
  assert (rc_wf h (put_block c i r0)) as Hc1.
  { apply put_block_wf; [done|]. apply memcpy_length in Hm0 as ->. by eapply wf_block. }
  unfold RC.set_stat in Hrun. m_bind Hrun. m_bind Hrun. simplify_eq.
  apply vec_get_inv in Hm. apply vec_set_inv in Hm1 as [-> _].
  destruct Hc1 as [L B C M]. split; simpl in *; [by rewrite L, length_insert|done| |done].
  intros j st. rewrite list_lookup_insert. case_decide; [|eauto]. intros [= <-] Hst. destruct_and?; subst. by apply (C _ r1).
Qed.

(** A loop that returns has kept what its body keeps. *)
Lemma for_each_ret {T} (I : T → Prop) body cnt i t t' :
  (∀ j u u', I u → body j u = Ret u' → I u') → I t → for_each cnt i body t = Ret t' → I t'.
Proof.
  intros Hb. revert i t. induction cnt as [|cnt IH]; intros i t Ht Hrun; simpl in Hrun.
  - by simplify_eq.
  - m_bind Hrun. eauto.
Qed.

Lemma write_copy_wf h buf c bs sb eb so eo size c' :
  rc_wf h c → RC.write_copy buf c bs sb eb so eo size = Ret c' → rc_wf h c'.
Proof.
  intros Hc Hrun. unfold RC.write_copy in Hrun.
  destruct (sb =? eb); [by eapply copy_in_wf|]. destruct (sb + 1 =? eb); m_bind Hrun.
  - do 2 (eapply copy_in_wf; [|done]). done.
  - m_bind Hrun. destruct r0 as [c2 cur]. eapply copy_in_wf; [|done].
    apply (for_each_ret (λ '(c, _), rc_wf h c)) in Hm0; [done| |by eapply copy_in_wf].
    intros j [u k] u' Hu Hb. m_bind Hb. simplify_eq. by eapply copy_in_wf.
Qed.

Lemma fill_wf h offset size c s s' c' r :
  host_wf h → rc_wf h c → RC.fillDcache h offset size c s = Ret (s', c', r) → rc_wf h c'.
Proof.
  intros Hh Hc Hrun. by apply (wp_elim _ _ _ _ (fillDcache_spec h offset size c s Hh Hc)) in Hrun as [? _].
Qed.

Lemma rc_read_wf h buf offset size c s s' c' buf' r :
  host_wf h → rc_wf h c → RC.Read h buf offset size c s = Ret (s', c', buf', r) → rc_wf h c'.
Proof.
  intros Hh Hc Hrun. unfold RC.Read in Hrun. do 6 m_bind Hrun.
  destruct r5 as [[s1 c1] [e|[]]]; apply fill_wf in Hm4; try done; [by simplify_eq|].
  m_bind Hrun. by simplify_eq.
Qed.

(** The copy goes ahead after a failed fill; it still keeps the cache. *)
Lemma rc_write_wf h buf offset size c s s' c' r :
  host_wf h → rc_wf h c → RC.Write h buf offset size c s = Ret (s', c', r) → rc_wf h c'.
Proof.
  intros Hh Hc Hrun. unfold RC.Write in Hrun. do 6 m_bind Hrun.
  destruct r5 as [[s1 c1] e]. apply fill_wf in Hm4; [|done..].
  m_bind Hrun. simplify_eq. by eapply write_copy_wf.
Qed.

Lemma drop_caches_wf h c : rc_wf h c → rc_wf h (RC.drop_caches c).
Proof.
  intros []. split; simpl; [by rewrite !length_fmap| | |done]; intros i b;
    rewrite list_lookup_fmap; intros Hb; by destruct (_ !! i); simplify_eq/=.
Qed.

Lemma flush_wf h c s s' c' r :
  rc_wf h c → RC.FlushCache h c s = Ret (s', c', r) → rc_wf h c'.
Proof.
  intros Hc Hrun. unfold RC.FlushCache in Hrun. m_bind Hrun. destruct r0; [|by simplify_eq].
  m_bind Hrun. destruct r0 as [s1 [e|[]]]; simplify_eq; [done|]. by apply drop_caches_wf.
Qed.

(** ** The operations of an inode *)

(** A sequence of calls on one inode. *)
Inductive ino_op (s : S) (ino : Inode) : S → Inode → Prop :=
  | op_read buf offset size s' ino' buf' r :
      Ino.Read buf offset size ino s = Ret (s', ino', buf', r) → ino_op s ino s' ino'
  | op_write buf offset size s' ino' r :
      Ino.Write buf offset size ino s = Ret (s', ino', r) → ino_op s ino s' ino'
  | op_ref : ino_op s ino s (Ino.Ref ino)
  | op_unref s' ino' n :
      Ino.Unref ino s = Ret (s', ino', n) → ino_op s ino s' ino'.

Lemma op_typed kb s ino s' ino' : inode_typed kb ino → ino_op s ino s' ino' → inode_typed kb ino'.
Proof.
  intros Ht [buf off size s1 ino1 buf' r Hrun|buf off size s1 ino1 r Hrun| |s1 ino1 n Hrun];
    pose proof (it_host _ _ Ht) as Hh; pose proof (it_cache _ _ Ht) as Hc.
  - unfold Ino.Read in Hrun. destruct (_ <=? _); [by simplify_eq|]. m_bind Hrun.
    destruct r0 as [[[s2 c2] b2] r2]. simplify_eq. apply rc_read_wf in Hm; [|done..].
    by apply (typed_cache kb ino _ (i_size_ ino) (i_ref_count_ ino)).
  - unfold Ino.Write in Hrun.
    m_bind Hrun. destruct r0 as [[s2 c2] r2]. apply rc_write_wf in Hm; [|done..].
    assert (∀ n, inode_typed kb (set_size n (set_cache c2 ino))) as Hn
      by (intros n; by apply (typed_cache kb ino c2 n (i_ref_count_ ino))).
    destruct r2; simplify_eq; [exact (Hn (i_size_ ino))|].
    destruct (_ <? _); [apply Hn|exact (Hn (i_size_ ino))].
  - by apply (typed_cache kb ino (i_cache_ ino) (i_size_ ino)).
  - unfold Ino.Unref in Hrun. m_bind Hrun.
    assert (∀ n c, rc_wf ino c → inode_typed kb (set_cache c (set_ref n ino))) as Hn
      by (intros k c Hc'; by apply (typed_cache kb ino c (i_size_ ino) k)).
    destruct (_ =? 0); [|simplify_eq; by apply (Hn _ (i_cache_ ino))].
    m_bind Hrun. destruct r0 as [[s2 c2] r2]. simplify_eq. apply Hn.
    apply (rc_wf_host (set_ref (i_ref_count_ ino - 1) ino)); [done..|]. eapply flush_wf; [|done].
    by apply (rc_wf_host ino).
Qed.
End inode.

(** ** The file system *)
Section fs.
Context `{OpenSSLLaws} {S : Type} `{StorageLaws S} `{!StorageKeys S}.
Abbreviation St := (fs_state S).
Implicit Types st : St.

(** Every inode in memory is well-formed, for the block size that the file
    system was started with. *)
Record fs_typed (kb : N) (st : St) : Prop := {
  ft_block : block_size_in_kb st = kb;
  ft_inodes p ino : inode_table st !! p = Some ino → inode_typed kb ino;
}.

Lemma typed_same kb st st' :
  block_size_in_kb st' = block_size_in_kb st → inode_table st' = inode_table st →
  fs_typed kb st → fs_typed kb st'.
Proof. intros Hb Ht [B I]. split; [by rewrite Hb|by rewrite Ht]. Qed.

Lemma typed_update kb p ino st :
  inode_typed kb ino → fs_typed kb st → fs_typed kb (Fs.update p ino st).
Proof.
  intros Hi [B I]. split; [done|]. intros q i. simpl. rewrite lookup_insert.
  case_decide; [by intros [= <-]|apply I].
Qed.

Lemma typed_release kb p st : fs_typed kb st → fs_typed kb (Fs.release_inode p st).
Proof. intros [B I]. split; [done|]. intros q i. simpl. intros [_ Hq]%lookup_delete_Some. eauto. Qed.

Lemma typed_deref kb p st ino : fs_typed kb st → Fs.deref p st = Ret ino → inode_typed kb ino.
Proof. intros [B I] Hd. unfold Fs.deref in Hd. destruct (_ !! p) eqn:E; simplify_eq. eauto. Qed.

Lemma typed_find_entry kb path st st' ent :
  Fs.find_entry path st = Ret (st', ent) → fs_typed kb st → fs_typed kb st'.
Proof.
  intros Hrun. unfold Fs.find_entry in Hrun. m_bind Hrun. m_bind Hrun. destruct r0 as [d e].
  simplify_eq. by apply typed_same.
Qed.

Lemma typed_new_fd kb p st st' fd :
  Fs.new_fd p st = Ret (st', fd) → fs_typed kb st → fs_typed kb st'.
Proof. intros Hrun. unfold Fs.new_fd in Hrun. m_bind Hrun. simplify_eq. by apply typed_same. Qed.

Context (kb : N) (Hkb : 0 < kb) (Hkb' : kb < 4194304).

Lemma typed_get_inode p st st' r :
  Fs.get_inode p st = Ret (st', r) → fs_typed kb st → fs_typed kb st'.
Proof.
  intros Hrun Ht. unfold Fs.get_inode in Hrun. destruct (_ !! p); [by simplify_eq|].
  m_bind Hrun. destruct r0 as [s [e|m]]; [simplify_eq; by apply (typed_same kb st)|].
  m_bind Hrun. simplify_eq. apply typed_update; [|by apply (typed_same kb st)].
  simpl in Hm0. rewrite (ft_block _ _ Ht) in Hm0. eapply new_Inode_typed; [done..| |done].
  by eapply file_key_length.
Qed.

Lemma typed_find_inode u path fh st st' r :
  Fs.find_inode u path fh st = Ret (st', r) → fs_typed kb st → fs_typed kb st'.
Proof.
  intros Hrun Ht. unfold Fs.find_inode in Hrun. destruct (0 <? fh); m_bind Hrun.
  - by eapply typed_get_inode.
  - destruct r0 as [st1 [e|]]; apply (typed_find_entry kb) in Hm; try done.
    + by eapply typed_get_inode.
    + destruct u; by simplify_eq.
Qed.

Lemma typed_allocate st st' r :
  Fs.allocate_inode st = Ret (st', r) → fs_typed kb st → fs_typed kb st'.
Proof.
  intros Hrun Ht. unfold Fs.allocate_inode in Hrun. m_bind Hrun.
  destruct r0 as [s [e|[dc key]]]; [simplify_eq; by apply (typed_same kb st)|].
  m_bind Hrun. simplify_eq. apply typed_update; [|by apply (typed_same kb st)].
  simpl in Hm0. rewrite (ft_block _ _ Ht), fresh_is_new in Hm0.
  eapply new_Inode_typed; [done..| |done]. by eapply new_key_length.
Qed.

(** An operation on an inode of the table, put back with the new backend. *)
Lemma typed_op p st ino s' ino' :
  fs_typed kb st → Fs.deref p st = Ret ino → ino_op (backend st) ino s' ino' →
  fs_typed kb (Fs.update p ino' (Fs.set_backend s' st)).
Proof.
  intros Ht Hd Hop. apply typed_update; [|by apply (typed_same kb st)].
  eapply op_typed; [|done]. by eapply typed_deref.
Qed.

Lemma typed_ref p st ino :
  fs_typed kb st → Fs.deref p st = Ret ino → fs_typed kb (Fs.update p (Ino.Ref ino) st).
Proof. intros Ht Hd. apply (typed_op p st ino (backend st) _ Ht Hd). by apply op_ref. Qed.

(** Each callback. *)
Lemma typed_getattr path st st' b r :
  Fs.dcfs_getattr path st = Ret (st', b, r) → fs_typed kb st → fs_typed kb st'.
Proof.
  intros Hrun Ht. unfold Fs.dcfs_getattr in Hrun. destruct (bool_decide _); [by simplify_eq|].
  m_bind Hrun. destruct r0 as [st1 [e|]]; apply (typed_find_entry kb) in Hm; try done; [|by simplify_eq].
  m_bind Hrun. destruct r0 as [st2 [p|]]; [|done]. apply typed_get_inode in Hm0; [|done].
  m_bind Hrun. by simplify_eq.
Qed.

Lemma typed_readdir path st st' l r :
  Fs.dcfs_readdir path st = Ret (st', l, r) → fs_typed kb st → fs_typed kb st'.
Proof.
  intros Hrun Ht. unfold Fs.dcfs_readdir in Hrun. destruct (negb _); [by simplify_eq|].
  m_bind Hrun. destruct r0 as [d ents]. simplify_eq. by apply (typed_same kb st).
Qed.

Lemma typed_create path fh st st' r fd :
  Fs.dcfs_create path fh st = Ret (st', r, fd) → fs_typed kb st → fs_typed kb st'.
Proof.
  intros Hrun Ht. unfold Fs.dcfs_create in Hrun. m_bind Hrun.
  destruct r0 as [st1 [e|]]; apply (typed_find_entry kb) in Hm; try done; [by simplify_eq|].
  m_bind Hrun. destruct r0 as [st2 [p|]]; apply typed_allocate in Hm0; try done; [|by simplify_eq].
  m_bind Hrun. m_bind Hrun. m_bind Hrun. destruct r2 as [st3 n]. simplify_eq.
  apply (typed_new_fd kb) in Hm3; [done|].
  apply (typed_same kb (Fs.update p (Ino.Ref r0) st2)); [done..|]. by apply typed_ref.
Qed.

Lemma typed_open path fh st st' r fd :
  Fs.dcfs_open path fh st = Ret (st', r, fd) → fs_typed kb st → fs_typed kb st'.
Proof.
  intros Hrun Ht. unfold Fs.dcfs_open in Hrun. m_bind Hrun.
  destruct r0 as [st1 [e|]]; apply (typed_find_entry kb) in Hm; try done; [|by simplify_eq].
  m_bind Hrun. destruct r0 as [st2 [p|]]; apply typed_get_inode in Hm0; try done; [|by simplify_eq].
  m_bind Hrun. m_bind Hrun. destruct r1 as [st3 n]. simplify_eq.
  apply (typed_new_fd kb) in Hm2; [done|]. by apply typed_ref.
Qed.

Lemma typed_read path buf size off fh st st' b r :
  Fs.dcfs_read path buf size off fh st = Ret (st', b, r) → fs_typed kb st → fs_typed kb st'.
Proof.
  intros Hrun Ht. unfold Fs.dcfs_read in Hrun. m_bind Hrun.
  destruct r0 as [st1 [p|]]; apply typed_find_inode in Hm; try done; [|by simplify_eq].
  m_bind Hrun. destruct (_ <? _); [|by simplify_eq].
  m_bind Hrun. destruct r1 as [[[s ino] b'] res]. pose proof (typed_op p st1 r0 s ino Hm Hm0).
  destruct res; simplify_eq; eauto using op_read.
Qed.

Lemma typed_write path buf size off fh st st' r :
  Fs.dcfs_write path buf size off fh st = Ret (st', r) → fs_typed kb st → fs_typed kb st'.
Proof.
  intros Hrun Ht. unfold Fs.dcfs_write in Hrun. m_bind Hrun.
  destruct r0 as [st1 [p|]]; apply typed_find_inode in Hm; try done; [|by simplify_eq].
  m_bind Hrun. m_bind Hrun. destruct r1 as [[s ino] res]. pose proof (typed_op p st1 r0 s ino Hm Hm0).
  destruct res; simplify_eq; eauto using op_write.
Qed.

Lemma typed_flush path fh st st' r fd :
  Fs.dcfs_flush path fh st = Ret (st', r, fd) → fs_typed kb st → fs_typed kb st'.
Proof.
  intros Hrun Ht. unfold Fs.dcfs_flush in Hrun. m_bind Hrun.
  destruct r0 as [st1 [p|]]; apply typed_find_inode in Hm; try done; [|by simplify_eq].
  m_bind Hrun. m_bind Hrun. destruct r1 as [[s ino] cnt].
  assert (fs_typed kb (Fs.update p ino (Fs.set_backend s st1))) as Ht1
    by (eapply typed_op; eauto using op_unref).
  destruct (cnt =? 0); [|by simplify_eq]. apply (typed_release kb (Hashname ino)) in Ht1.
  m_bind Hrun. simplify_eq. destruct (0 <? fh); [|by simplify_eq].
  m_bind Hm2. simplify_eq. revert Ht1. by apply typed_same.
Qed.

#[local] Hint Resolve typed_getattr typed_readdir typed_create typed_open typed_read typed_write
  typed_flush : dcfs.

Lemma typed_step st st' : fs_step st st' → fs_typed kb st → fs_typed kb st'.
Proof. intros [] Ht; eauto with dcfs. Qed.

Lemma reachable_typed s st : reachable kb s st → fs_typed kb st.
Proof.
  induction 1 as [|st st' _ IH Hstep]; [|by eapply typed_step].
  split; [done|]. intros p ino. simpl. by rewrite lookup_empty.
Qed.

(** C20. In every state that the FUSE callbacks, whole and one at a time, can
    reach from the start, with blocks of any size of at least 1 KB and below 4 GB, and whatever records the
    backend finds, every inode in memory is well-formed: its block size is the one
    the file system was started with, its key has the 16 bytes that encryption
    needs, its block map is absent or has a slot of 32 written bytes for every
    block, and each cached block is allocated with its full length. *)
Theorem inodes_well_formed s st p ino :
  reachable kb s st → inode_table st !! p = Some ino → inode_typed kb ino.
Proof. intros Hr. apply (ft_inodes _ _ (reachable_typed s st Hr)). Qed.
End fs.
