(* ===== verification/FileOps.v ===== *)
(** * The callbacks of an open file

    [getattr], [create], [open], [read], [write] and [flush] in any state that
    whole callbacks, one at a time, can reach: what they return and do to the
    file behind a name or a descriptor, and to nothing else. *)

From Stdlib Require Import NArith ZArith Lia.
From Stdlib Require Import Strings.String.
From stdpp Require Import base list gmap.
From S2P Require Import Prelude Const Dir Crypto Capsule DcServer Backend Cache CacheSpec CacheEquiv InodeSpec.
From S2P Require Import Dcfs DcfsSpec Types.

Local Open Scope N_scope.

Section handle.
Context `{OpenSSL} {S : Type} `{Storage S}.
Implicit Types (st : fs_state S) (ino : Inode).

(** A descriptor whose inode is in memory. *)
Definition opened st (fd : N) (p : bytes) ino : Prop :=
  0 < fd ∧ fd_table st !! N.to_nat fd = Some p ∧ inode_table st !! p = Some ino.

Lemma find_open u path fd st p ino :
  opened st fd p ino → Fs.find_inode u path fd st = Ret (st, Some p).
Proof.
  intros (Hfd & Ht & Hi). unfold Fs.find_inode. n_cmp. rewrite (vec_get_ok _ _ _ Ht). m_run.
  unfold Fs.get_inode. by rewrite Hi.
Qed.

Lemma deref_open fd st p ino : opened st fd p ino → Fs.deref p st = Ret ino.
Proof. intros (_ & _ & Hi). unfold Fs.deref. by rewrite Hi. Qed.

Lemma off_nonneg (offset : Z) :
  (0 <= offset < 18446744073709551616)%Z → off_to_u64 offset = Z.to_N offset.
Proof. intros Ho. unfold off_to_u64. by rewrite Z.mod_small. Qed.

Lemma write_open path fd st p ino buf size offset s ino' :
  opened st fd p ino →
  Ino.Write buf (off_to_u64 offset) size ino (backend st) = Ret (s, ino', inr size) →
  Fs.dcfs_write path buf size offset fd st =
    Ret (Fs.update p ino' (Fs.set_backend s st), to_int size).
Proof.
  intros Ho Hw. unfold Fs.dcfs_write. rewrite (find_open _ _ _ _ _ _ Ho). m_run.
  rewrite (deref_open _ _ _ _ Ho). m_run. by rewrite Hw.
Qed.
End handle.

Section data.
Context `{OpenSSLLaws} {S : Type} `{StorageLaws S} `{!StorageKeys S}.
Context (kb : N) (Hkb : 0 < kb) (Hkb' : kb < 4194304).
Implicit Types (st : fs_state S) (ino : Inode).

Lemma opened_wf s0 st fd p ino :
  reachable kb s0 st → opened st fd p ino → i_size_ ino < 9223372036854775808 → ino_wf ino.
Proof.
  intros Hr (_ & _ & Hi) Hsz.
  destruct (ft_inodes _ _ (reachable_typed kb Hkb Hkb' s0 st Hr) p ino Hi) as [Hh Hc _ _].
  by split.
Qed.

(** C8. Reading through an open descriptor, in any state that whole callbacks
    can reach, into a buffer of any length. [n] bytes lie between the offset and
    the end of the file, or as many as asked for, if that is less. The callback
    stops if the server does, or, past the end of the buffer, if the buffer is
    shorter than [span]: [n] bytes when they end in the block in which they
    start, and one more when they do not; FUSE's buffer, of exactly [size]
    bytes, can be too short by that one. Otherwise the callback returns [-EIO]
    with the buffer untouched, or [n], and then exactly these [n] bytes of the
    file are at the front of the buffer. The file that the descriptor stands for
    keeps its size and its contents, and the directory, the descriptors and the
    other inodes are not touched. *)
Theorem dcfs_read_correct s0 st path (buf : list cell) size (offset : Z) fd p ino :
  reachable kb s0 st → opened st fd p ino → i_size_ ino < 9223372036854775808 →
  0 < size → size < 2147483648 → (0 <= offset < 9223372036854775808)%Z →
  let off := Z.to_N offset in
  let n := N.min size (i_size_ ino - off) in
  wp (λ f, storage_fault (S := S) f ∨
           (f = OutOfBounds ∧ off < i_size_ ino ∧ nlen buf < span (BlockSize ino) off n))
     (Fs.dcfs_read path buf size offset fd st) (λ '(st', buf', r),
    (∃ ino', opened st' fd p ino' ∧ i_size_ ino' = i_size_ ino ∧
       ((r = (- EIO)%Z ∧ buf' = buf) ∨
        (r = Z.of_N n ∧ length buf' = length buf ∧
         (off < i_size_ ino → span (BlockSize ino) off n <= nlen buf) ∧
         view_le (contents ino (backend st)) (contents ino' (backend st')) ∧
         ∀ k b, k < n → contents ino (backend st) (off + k) = Some b →
           buf' !! N.to_nat k = Some (Some b)))) ∧
    root st' = root st ∧ fd_table st' = fd_table st ∧
    ∀ q, q ≠ p → inode_table st' !! q = inode_table st !! q).
Proof.
  intros Hr Ho Hsz Hsize Hsmall Hoff off n. pose proof (opened_wf _ _ _ _ _ Hr Ho Hsz) as Hwf.
  unfold Fs.dcfs_read. rewrite (find_open _ _ _ _ _ _ Ho). m_run.
  rewrite (deref_open _ _ _ _ Ho). m_run. rewrite off_nonneg by lia. fold off.
  rewrite u64_small by lia.
  change (Size ino) with (i_size_ ino). destruct (N.ltb_spec off (i_size_ ino)) as [Hin|Hout].
  2: { simpl. split; [|done]. exists ino. split; [done|]. split; [done|]. right.
       assert (n = 0) as -> by lia.
       split_and!; [done|done|lia|by intros q b ?|]. intros k b Hk. lia. }
  assert ((if i_size_ ino <? off + size then i_size_ ino - off else size) = n) as ->
    by (unfold n; destruct (N.ltb_spec (i_size_ ino) (off + size)); lia).
  assert (N.min n (i_size_ ino - off) = n) as Hmin by lia.
  pose proof (Read_spec_buffer ino (backend st) buf off n Hwf ltac:(lia) ltac:(lia)) as Hread.
  rewrite Hmin in Hread.
  eapply wp_bind; [eapply wp_fault_mono; [|exact Hread]|].
  { intros f [Hf|[-> Hf]]; [by left|by right]. }
  intros [[[s ino'] buf'] r] (_ & Hs & Hlen & Hres). destruct Ho as (Hfd & Ht & Hi).
  assert (opened (Fs.update p ino' (Fs.set_backend s st)) fd p ino') as Ho'
    by (split_and!; [done|done|apply lookup_insert_eq]).
  assert (∀ q, q ≠ p → inode_table (Fs.update p ino' (Fs.set_backend s st)) !! q = inode_table st !! q)
    as Hother by (intros q Hq; simpl; by rewrite lookup_insert_ne).
  destruct r as [e|[m|]]; simpl.
  - split; [|done]. exists ino'. split; [done|]. split; [done|]. left. by subst.
  - destruct Hres as (_ & -> & Hfit & Hv & Hb & _). split; [|done]. exists ino'. split; [done|].
    split; [done|]. right. rewrite to_int_small by lia. by split_and!.
  - lia.
Qed.

(** C9. Writing through an open descriptor, in any state that whole callbacks
    can reach, when the blocks of the range can be loaded and the buffer has a
    byte to spare behind the request ([size + 1 <= nlen buf]; without it a write
    that ends in another block than it starts in leaves the buffer, see
    [Inodes.Write_correct]): the callback returns the size of the request; the
    file has the caller's bytes from the offset on (or from its end, when the
    offset is behind it), keeps its bytes outside the copied range and covers
    the write with its size, and the directory, the descriptors and the other
    inodes are not touched. *)
Theorem dcfs_write_correct s0 st path (buf : list cell) size (offset : Z) fd p ino s1 c1 :
  reachable kb s0 st → opened st fd p ino → i_size_ ino + size < 9223372036854775808 →
  0 < size → size < 2147483648 → (0 <= offset < 9223372036854775808)%Z → size + 1 <= nlen buf →
  let off := clamp ino (Z.to_N offset) in
  RC.fillDcache ino off size (i_cache_ ino) (backend st) = Ret (s1, c1, inr tt) →
  ∃ st' ino', Fs.dcfs_write path buf size offset fd st = Ret (st', Z.of_N size) ∧
    opened st' fd p ino' ∧ backend st' = s1 ∧
    i_size_ ino' = N.max (i_size_ ino) (off + size) ∧
    (∀ k x, k < size → buf !! N.to_nat k = Some (Some x) → contents ino' s1 (off + k) = Some x) ∧
    (∀ q x, q < off ∨ off + size < q →
       contents ino (backend st) q = Some x → contents ino' s1 q = Some x) ∧
    root st' = root st ∧ fd_table st' = fd_table st ∧
    ∀ q, q ≠ p → inode_table st' !! q = inode_table st !! q.
Proof.
  intros Hr Ho Hsz Hsize Hsmall Hoff Hbuf off Hfill.
  assert (i_size_ ino < 9223372036854775808) as Hlt by lia.
  destruct (Write_spec_inode ino (backend st) s1 c1 buf (Z.to_N offset) size
    (opened_wf _ _ _ _ _ Hr Ho Hlt) Hsize Hsz Hbuf Hfill) as (ino' & Hw & _ & Hs & Hp & Heq).
  fold off in Hs, Hp. pose proof (span_bounds (BlockSize ino) off size).
  eexists _, ino'. split.
  { rewrite <-(to_int_small size Hsmall). apply (write_open path fd st p ino); [done|].
    by rewrite off_nonneg by lia. }
  destruct Ho as (Hfd & Ht & _). split_and!; try done.
  - split_and!; [done|done|apply lookup_insert_eq].
  - intros k x Hk Hx. rewrite Heq. apply (wpost_new _ _ _ _ _ _ _ _ Hp); [simpl; lia|].
    by replace (off + k - off) with k by lia.
  - intros q x Hq Hx. rewrite Heq. apply (wpost_old _ _ _ _ _ _ _ _ Hp); [lia|done].
  - intros q Hq. simpl. by rewrite lookup_insert_ne.
Qed.
End data.

(** ** Opening and closing *)
Section open_close.
Context `{OpenSSLLaws} {S : Type} `{StorageLaws S}.
Implicit Types (st : fs_state S) (ino : Inode) (s : S).

(** The state after a new descriptor of the file [p], whose inode is [ino]. *)
Definition opens_as st st' p ino s : Prop :=
  Dir.entries_ (root st') = Dir.entries_ (root st) ∧ backend st' = s ∧
  inode_table st' = <[p := ino]> (inode_table st) ∧ fd_cnt st' = fd_cnt st + 1 ∧
  fd_table st' = <[N.to_nat (fd_cnt st + 1) := p]> (fd_table st).

(** The state after a lookup that gave no inode. *)
Definition unchanged st st' s : Prop :=
  Dir.entries_ (root st') = Dir.entries_ (root st) ∧ backend st' = s ∧
  inode_table st' = inode_table st ∧ fd_cnt st' = fd_cnt st ∧ fd_table st' = fd_table st.

Lemma new_fd_total p st :
  nlen (fd_table st) = FD_TABLE_MAX → fd_cnt st + 1 < FD_TABLE_MAX →
  Fs.new_fd p st = Ret (Fs.set_fds (fd_cnt st + 1) (<[N.to_nat (fd_cnt st + 1) := p]> (fd_table st)) st,
                        fd_cnt st + 1).
Proof.
  intros Hl Hfd. unfold Fs.new_fd. rewrite u64_small by (unfold FD_TABLE_MAX in Hfd; lia).
  by rewrite vec_set_ok by lia.
Qed.

(** An inode that has to be made first. *)
Lemma open_absent st x name fh e s m ino :
  nlen (fd_table st) = FD_TABLE_MAX → fd_cnt st + 1 < FD_TABLE_MAX →
  Dir.first_entry (Fs.names name) (Dir.entries_ (root st)) = Some e →
  inode_table st !! Dir.Hashname e = None →
  ReadFileMeta (Dir.Hashname e) (backend st) = Ret (s, inr m) →
  new_Inode (Dir.Hashname e) (fm_recordname m) (fm_blockmap_hash m) (block_size_in_kb st)
    BLOCKMAP_COVER (fm_i_size m) (fm_aes_key m) = Ret ino →
  ∃ st', Fs.dcfs_open (x :: name) fh st = Ret (st', 0%Z, fd_cnt st + 1) ∧
    opens_as st st' (Dir.Hashname e) (Ino.Ref ino) s.
Proof.
  intros Hl Hfd He Hi Hmeta Hn. unfold Fs.dcfs_open.
  destruct (find_entry_spec (x :: name) st) as (d & -> & Hd). rewrite He. m_run.
  unfold Fs.get_inode. change (inode_table (Fs.set_root d st)) with (inode_table st). rewrite Hi.
  change (backend (Fs.set_root d st)) with (backend st). rewrite Hmeta. m_run.
  simpl block_size_in_kb. rewrite Hn. m_run.
  unfold Fs.deref. simpl inode_table. rewrite lookup_insert_eq. m_run.
  rewrite new_fd_total by done. m_run. eexists. split; [done|]. split_and!; try done. simpl.
  by rewrite insert_insert_eq.
Qed.

(** C10. Opening a name, in any state that whole callbacks can reach and that
    has a descriptor left. A name without an entry is [-ENOENT] and the backend is
    not asked. A file whose inode is in memory gets the next descriptor and one
    more reference, and the backend is not asked either. Otherwise the inode is
    made from the metadata the backend returns, with one reference; a backend
    that returns an error makes the callback return [-ENOENT]. *)
Theorem dcfs_open_correct kb s0 st x name fh :
  reachable kb s0 st → fd_cnt st + 1 < FD_TABLE_MAX →
  match Dir.first_entry (Fs.names name) (Dir.entries_ (root st)) with
  | None => ∃ st', Fs.dcfs_open (x :: name) fh st = Ret (st', (- ENOENT)%Z, fh) ∧
      unchanged st st' (backend st)
  | Some e =>
      let p := Dir.Hashname e in
      match inode_table st !! p with
      | Some ino => ∃ st', Fs.dcfs_open (x :: name) fh st = Ret (st', 0%Z, fd_cnt st + 1) ∧
          opens_as st st' p (Ino.Ref ino) (backend st)
      | None => ∀ s r, ReadFileMeta p (backend st) = Ret (s, r) →
          match r with
          | inl _ => ∃ st', Fs.dcfs_open (x :: name) fh st = Ret (st', (- ENOENT)%Z, fh) ∧
              unchanged st st' s
          | inr m => ∀ ino,
              new_Inode p (fm_recordname m) (fm_blockmap_hash m) (block_size_in_kb st)
                BLOCKMAP_COVER (fm_i_size m) (fm_aes_key m) = Ret ino →
              ∃ st', Fs.dcfs_open (x :: name) fh st = Ret (st', 0%Z, fd_cnt st + 1) ∧
                opens_as st st' p (Ino.Ref ino) s
          end
      end
  end.
Proof.
  intros Hr%reach_inv Hfd. pose proof (inv_table _ Hr) as Hl.
  destruct (Dir.first_entry _ _) as [e|] eqn:He; cbv zeta;
    [destruct (inode_table st !! Dir.Hashname e) as [ino|] eqn:Hi; [|intros s [er|m] Hmeta]|].
  3: { intros ino Hn. by eapply open_absent. }
  all: unfold Fs.dcfs_open; destruct (find_entry_spec (x :: name) st) as (d & -> & Hd); rewrite He; m_run.
  3: by eexists.
  all: unfold Fs.get_inode; change (inode_table (Fs.set_root d st)) with (inode_table st); rewrite Hi.
  - m_run. unfold Fs.deref. change (inode_table (Fs.set_root d st)) with (inode_table st).
    rewrite Hi. m_run. rewrite new_fd_total by done. m_run. by eexists.
  - change (backend (Fs.set_root d st)) with (backend st). rewrite Hmeta. m_run. by eexists.
Qed.

(** A file without contents and with [n] references, of the capsule [p] with
    the key [key], in blocks of [bs] bytes. *)
Definition empty_file (p key : bytes) (bs n : N) : Inode :=
  MkInode p [] 0 bs BLOCKMAP_COVER [] (MkCache [MkStat false false] [None] None) key n.

Lemma fresh_Inode_empty p kb key :
  u64 (kb * 1024) ≠ 0 →
  fresh_Inode p kb BLOCKMAP_COVER key = Ret (empty_file p key (u64 (kb * 1024)) 0).
Proof.
  intros Hbs. unfold fresh_Inode, new_RecordCache, udiv. rewrite (proj2 (N.eqb_neq _ _)) by done.
  m_run. by rewrite N.Div0.div_0_l.
Qed.

(** The state after a new file [p] of that name. *)
Definition creates st st' (name p key : bytes) s : Prop :=
  Dir.entries_ (root st') = Dir.entries_ (root st) ++ [Dir.MkEntry (cstr name) p] ∧
  backend st' = s ∧
  inode_table st' = <[p := empty_file p key (u64 (block_size_in_kb st * 1024)) 1]> (inode_table st) ∧
  fd_cnt st' = fd_cnt st + 1 ∧ fd_table st' = <[N.to_nat (fd_cnt st + 1) := p]> (fd_table st).

(** C27. Creating a file, in any state that whole callbacks can reach and that
    has a descriptor left. For a name that exists the callback returns [-EEXIST] and
    asks the backend for nothing. Otherwise it asks the backend for a capsule.
    When the backend returns an error, the callback returns [-ENOMEM] and
    nothing has changed; when it returns a capsule and its key, the callback
    returns 0 and the next descriptor: the entry is added behind the others,
    an empty file with one reference is in memory under the capsule's name, and
    the slot of the descriptor has that name. (The block size must not be zero:
    its constructor divides by it.) *)
Theorem dcfs_create_correct kb s0 st x name fh :
  reachable kb s0 st → fd_cnt st + 1 < FD_TABLE_MAX → u64 (block_size_in_kb st * 1024) ≠ 0 →
  match Dir.first_entry (Fs.names name) (Dir.entries_ (root st)) with
  | Some _ => ∃ st', Fs.dcfs_create (x :: name) fh st = Ret (st', (- EEXIST)%Z, fh) ∧
      unchanged st st' (backend st)
  | None => ∀ s r, CreateNewFile (backend st) = Ret (s, r) →
      match r with
      | inl _ => ∃ st', Fs.dcfs_create (x :: name) fh st = Ret (st', (- ENOMEM)%Z, fh) ∧
          unchanged st st' s
      | inr (p, key) => ∃ st', Fs.dcfs_create (x :: name) fh st = Ret (st', 0%Z, fd_cnt st + 1) ∧
          creates st st' name p key s
      end
  end.
Proof.
  intros Hr%reach_inv Hfd Hbs. pose proof (inv_table _ Hr) as Hl. unfold Fs.dcfs_create.
  destruct (find_entry_spec (x :: name) st) as (d & -> & Hd).
  destruct (Dir.first_entry _ _) as [e|]; m_run; [by eexists|].
  intros s r Hc. unfold Fs.allocate_inode. change (backend (Fs.set_root d st)) with (backend st).
  rewrite Hc. m_run. destruct r as [er|[p key]]; [by eexists|]. simpl block_size_in_kb.
  rewrite fresh_Inode_empty by done. m_run. unfold Fs.deref. simpl inode_table.
  rewrite lookup_insert_eq. m_run. simpl Fs.path_tail. m_run. rewrite new_fd_total by done. m_run.
  eexists. split; [done|]. split_and!; try done; simpl.
  - by rewrite Hd.
  - by rewrite insert_insert_eq.
Qed.

(** [getattr]: the root is a directory with mode 0755; a name without an entry
    is [-ENOENT]; a file in memory has the size of its inode. *)
Theorem dcfs_getattr_correct st x name :
  (cstr (x :: name) = lit "/" →
     Fs.dcfs_getattr (x :: name) st = Ret (st, MkStatBuf (N.lor S_IFDIR 493) 2 0, 0%Z)) ∧
  (cstr (x :: name) ≠ lit "/" →
     match Dir.first_entry (Fs.names name) (Dir.entries_ (root st)) with
     | None => ∃ st', Fs.dcfs_getattr (x :: name) st = Ret (st', zero_stat, (- ENOENT)%Z) ∧
         unchanged st st' (backend st)
     | Some e => ∀ ino, inode_table st !! Dir.Hashname e = Some ino →
         ∃ st', Fs.dcfs_getattr (x :: name) st =
             Ret (st', MkStatBuf (N.lor S_IFREG 292) 1 (i_size_ ino), 0%Z) ∧
           unchanged st st' (backend st)
     end).
Proof.
  unfold Fs.dcfs_getattr. split; intros Hp; [by rewrite bool_decide_eq_true_2 by done|].
  rewrite bool_decide_eq_false_2 by done.
  destruct (find_entry_spec (x :: name) st) as (d & -> & Hd). m_run.
  destruct (Dir.first_entry _ _) as [e|]; [|by eexists]. intros ino Hi.
  unfold Fs.get_inode. change (inode_table (Fs.set_root d st)) with (inode_table st). rewrite Hi. m_run.
  unfold Fs.deref. change (inode_table (Fs.set_root d st)) with (inode_table st). rewrite Hi. m_run.
  by eexists.
Qed.

(** The file of a descriptor is closed: slot and inode are gone. *)
Definition closed st fd p s : fs_state S :=
  Fs.set_fds (fd_cnt st) (<[N.to_nat fd := []]> (fd_table st))
    (Fs.release_inode p (Fs.set_backend s st)).

(** [flush] is the release of one reference, and closes the file if it was the
    last. *)
Lemma flush_open st path fd p ino :
  fs_inv st → opened st fd p ino →
  Fs.dcfs_flush path fd st =
    ('(s, ino', cnt) ← Ino.Unref ino (backend st);
     if cnt =? 0 then Ret (closed st fd p s, 0%Z, 0)
     else Ret (Fs.update p ino' (Fs.set_backend s st), 0%Z, fd)).
Proof.
  intros Hi Ho. unfold Fs.dcfs_flush. rewrite (find_open _ _ _ _ _ _ Ho). m_run.
  rewrite (deref_open _ _ _ _ Ho). m_run. destruct Ho as (Hfd & Ht & Hino).
  pose proof (inv_inodes _ Hi _ _ Hino) as Hp.
  assert (fd < nlen (fd_table st)) as Hlt by (apply lookup_lt_Some in Ht; unfold nlen; lia).
  destruct (Ino.Unref _ _) as [[[s ino'] cnt]|f] eqn:Hu; [|done]. m_run.
  apply Unref_name in Hu. rewrite Hu, Hp. destruct (cnt =? 0); [|done]. n_cmp.
  unfold closed, Fs.release_inode, Fs.set_table. simpl. rewrite vec_set_ok by done. m_run.
  by rewrite delete_insert_eq.
Qed.

(** C11. Closing a descriptor, in any state that whole callbacks can reach and
    in which its inode can be flushed. While the file has other references only the
    count goes down. With the last one the dirty blocks are encrypted and
    handed to the backend in one request, the inode leaves memory and the
    descriptor its slot; the callback returns 0 then, whatever the backend
    answered. *)
Theorem dcfs_flush_correct kb s0 st path fd p ino :
  reachable kb s0 st → opened st fd p ino → host_wf ino → rc_wf ino (i_cache_ ino) →
  flushable ino (i_cache_ ino) →
  (1 < i_ref_count_ ino →
     Fs.dcfs_flush path fd st =
       Ret (Fs.update p (set_ref (i_ref_count_ ino - 1) ino) st, 0%Z, fd)) ∧
  (i_ref_count_ ino = 1 →
     Fs.dcfs_flush path fd st =
       match flush_descs ino (i_cache_ ino) with
       | None => Ret (closed st fd p (backend st), 0%Z, 0)
       | Some ds =>
           '(s, _) ← StoreRecord p ds (InodeRecordname ino) (AESKey ino) (backend st);
           Ret (closed st fd p s, 0%Z, 0)
       end).
Proof.
  intros Hr%reach_inv Ho Hh Hc Hf. rewrite (flush_open st path fd p ino) by done.
  split; intros Href.
  - rewrite Unref_more by done. m_run. rewrite (proj2 (N.eqb_neq _ _)) by lia. by destruct st.
  - rewrite Unref_last by done. rewrite (inv_inodes _ Hr p ino) by apply Ho.
    destruct (flush_descs _ _) as [ds|]; [|done].
    by destruct (StoreRecord _ _ _ _ _) as [[s [e|u]]|].
Qed.
End open_close.
