(* ===== verification/RefCount.v ===== *)
(** * The references of the inodes

    [open] and [create] count a reference of the inode, [flush] takes one away
    and drops the inode from memory with the last. Here the kernel's side is
    added to the transition system of [DcfsSpec.v]: the handles it holds. If it
    flushes each handle once, the count of an inode in memory is the number of
    handles on it. *)

From Stdlib Require Import NArith ZArith Lia.
From stdpp Require Import base list gmap.
From S2P Require Import Prelude Const Dir Crypto Capsule Backend Cache Dcfs DcfsSpec FileOps.

Section refs.
Context `{OpenSSL} {S : Type} `{Storage S}.
Local Open Scope N_scope.
Implicit Types (st : fs_state S) (held : list N).

(** ** The kernel's handles *)

(** The new capsule of a [create] is not one of a file in memory. *)
Definition creates_new st : Prop :=
  ∀ s p k, CreateNewFile (backend st) = Ret (s, inr (p, k)) → inode_table st !! p = None.

(** Runs of callbacks with the handles held after them: a [create] or [open]
    that returns 0 gives one, which is given back by a [flush]. Other calls
    are made with any handle or none. *)
Inductive used (kb : N) (s : S) : fs_state S → list N → Prop :=
  | used_init : used kb s (Fs.dcfs_init kb s) []
  | used_getattr path st st' held buf r :
      used kb s st held → Fs.dcfs_getattr path st = Ret (st', buf, r) → used kb s st' held
  | used_readdir path st st' held l r :
      used kb s st held → Fs.dcfs_readdir path st = Ret (st', l, r) → used kb s st' held
  | used_read path buf size offset fh st st' held buf' r :
      used kb s st held → Fs.dcfs_read path buf size offset fh st = Ret (st', buf', r) →
      used kb s st' held
  | used_write path buf size offset fh st st' held r :
      used kb s st held → Fs.dcfs_write path buf size offset fh st = Ret (st', r) →
      used kb s st' held
  | used_create path fh st st' held r fd :
      used kb s st held → creates_new st → Fs.dcfs_create path fh st = Ret (st', r, fd) →
      used kb s st' (if decide (r = 0%Z) then fd :: held else held)
  | used_open path fh st st' held r fd :
      used kb s st held → Fs.dcfs_open path fh st = Ret (st', r, fd) →
      used kb s st' (if decide (r = 0%Z) then fd :: held else held)
  | used_flush path st st' held1 fd held2 r fh' :
      used kb s st (held1 ++ fd :: held2) → Fs.dcfs_flush path fd st = Ret (st', r, fh') →
      used kb s st' (held1 ++ held2).

Lemma used_reachable kb s st held : used kb s st held → reachable kb s st.
Proof. induction 1; [constructor|eapply reach_step; [done|]; by econstructor..]. Qed.

(** ** References and handles of a file *)

Definition refs st p : N :=
  match inode_table st !! p with Some ino => i_ref_count_ ino | None => 0 end.

Definition handles st held p : N :=
  nlen (filter (λ fd, fd_table st !! N.to_nat fd = Some p) held).

Record counted st held : Prop := {
  ct_nodup : NoDup held;
  ct_range fd : fd ∈ held → 10 < fd <= fd_cnt st;
  ct_refs p : refs st p = handles st held p;
}.

(** Calls that neither count nor forget a reference. *)
Record quiet st st' : Prop := {
  qt_refs p : refs st' p = refs st p;
  qt_fds : fd_table st' = fd_table st;
  qt_cnt : fd_cnt st' = fd_cnt st;
}.

#[export] Instance quiet_preorder : PreOrder quiet.
Proof.
  split; [by intros st; split|]. intros a b c [R F C] [R' F' C'].
  split; [intros p; by rewrite R'|by rewrite F'|by rewrite C'].
Qed.

Lemma quiet_counted st st' held : quiet st st' → counted st held → counted st' held.
Proof.
  intros [R F C] [N Rg Hr]. split; [done|by rewrite C|]. intros p. rewrite R, Hr.
  unfold handles. by rewrite F.
Qed.

Lemma refs_update st p q ino :
  refs (Fs.update p ino st) q = if decide (p = q) then i_ref_count_ ino else refs st q.
Proof. unfold refs. simpl. rewrite lookup_insert. by case_decide. Qed.

Lemma quiet_update st p ino : i_ref_count_ ino = refs st p → quiet st (Fs.update p ino st).
Proof.
  intros Hr. split; [|done|done]. intros q. rewrite refs_update. case_decide; by subst.
Qed.

Lemma quiet_root st d : quiet st (Fs.set_root d st).
Proof. by split. Qed.
Lemma quiet_backend st s : quiet st (Fs.set_backend s st).
Proof. by split. Qed.

Lemma deref_refs st p ino : Fs.deref p st = Ret ino → refs st p = i_ref_count_ ino.
Proof. unfold Fs.deref, refs. destruct (inode_table st !! p); by intros [=->]. Qed.

(** An inode that is not in memory has no reference, and none when it is made. *)
Lemma new_Inode_refs a b c kb cover n k ino :
  new_Inode a b c kb cover n k = Ret ino → i_ref_count_ ino = 0.
Proof. unfold new_Inode. intros Hn. m_bind Hn. by simplify_eq. Qed.

Lemma find_entry_quiet path st st' ent : Fs.find_entry path st = Ret (st', ent) → quiet st st'.
Proof.
  pose proof (find_entry_spec path st) as Hs. destruct path as [|x name]; [by rewrite Hs|].
  destruct Hs as (d & -> & _). intros [= <- _]. apply quiet_root.
Qed.

Lemma get_inode_quiet p st st' r : Fs.get_inode p st = Ret (st', r) → quiet st st'.
Proof.
  unfold Fs.get_inode. intros Hrun. destruct (inode_table st !! p) eqn:Hp; [by simplify_eq|].
  m_bind Hrun. destruct r0 as [s [e|m]]; [simplify_eq; apply quiet_backend|].
  m_bind Hrun. simplify_eq. etrans; [apply quiet_backend|]. apply quiet_update.
  apply new_Inode_refs in Hm0. unfold refs. simpl. by rewrite Hp.
Qed.

Lemma find_inode_quiet u path fh st st' r : Fs.find_inode u path fh st = Ret (st', r) → quiet st st'.
Proof.
  unfold Fs.find_inode. intros Hrun. destruct (0 <? fh).
  - m_bind Hrun. by eapply get_inode_quiet.
  - m_bind Hrun. destruct r0 as [st1 [e|]]; apply find_entry_quiet in Hm.
    + apply get_inode_quiet in Hrun. by etrans.
    + destruct u; by simplify_eq.
Qed.

Lemma Read_refs buf off size ino (s s' : S) ino' buf' r :
  Ino.Read buf off size ino s = Ret (s', ino', buf', r) → i_ref_count_ ino' = i_ref_count_ ino.
Proof.
  unfold Ino.Read. intros Hrun. destruct (_ <=? _); [by simplify_eq|].
  m_bind Hrun. destruct r0 as [[[? ?] ?] ?]. by simplify_eq.
Qed.

Lemma Write_refs buf off size ino (s s' : S) ino' r :
  Ino.Write buf off size ino s = Ret (s', ino', r) → i_ref_count_ ino' = i_ref_count_ ino.
Proof.
  unfold Ino.Write. intros Hrun. m_bind Hrun. destruct r0 as [[? ?] [?|?]]; [by simplify_eq|].
  simplify_eq. by destruct (_ <? _).
Qed.

Lemma Unref_refs ino (s s' : S) ino' n :
  Ino.Unref ino s = Ret (s', ino', n) →
  0 < i_ref_count_ ino ∧ n = i_ref_count_ ino - 1 ∧ i_ref_count_ ino' = n.
Proof.
  unfold Ino.Unref. intros Hrun. m_bind Hrun. unfold c_assert in Hm.
  destruct (N.ltb_spec 0 (i_ref_count_ ino)); [|done].
  split; [done|]. destruct (_ =? 0); [|by simplify_eq].
  m_bind Hrun. destruct r0 as [[? ?] ?]. by simplify_eq.
Qed.

(** ** The calls that are quiet *)

Lemma getattr_quiet path st st' buf r : Fs.dcfs_getattr path st = Ret (st', buf, r) → quiet st st'.
Proof.
  unfold Fs.dcfs_getattr. intros Hrun. destruct (bool_decide _); [by simplify_eq|].
  m_bind Hrun. destruct r0 as [st1 [e|]]; apply find_entry_quiet in Hm; [|by simplify_eq].
  m_bind Hrun. destruct r0 as [st2 [p|]]; [|done]. apply get_inode_quiet in Hm0.
  m_bind Hrun. simplify_eq. by etrans.
Qed.

Lemma readdir_quiet path st st' l r : Fs.dcfs_readdir path st = Ret (st', l, r) → quiet st st'.
Proof.
  unfold Fs.dcfs_readdir. intros Hrun. destruct (negb _); [by simplify_eq|].
  rewrite Dir.scan_all_spec in Hrun. m_run in Hrun. simplify_eq. apply quiet_root.
Qed.

Lemma quiet_use st p ino ino' s :
  Fs.deref p st = Ret ino → i_ref_count_ ino' = i_ref_count_ ino →
  quiet st (Fs.update p ino' (Fs.set_backend s st)).
Proof.
  intros Hd%deref_refs Hr. etrans; [apply quiet_backend|]. apply quiet_update. by rewrite Hr.
Qed.

Lemma read_quiet path buf size offset fh st st' buf' r :
  Fs.dcfs_read path buf size offset fh st = Ret (st', buf', r) → quiet st st'.
Proof.
  unfold Fs.dcfs_read. intros Hrun. m_bind Hrun. destruct r0 as [st1 [p|]];
    apply find_inode_quiet in Hm; [|by simplify_eq].
  m_bind Hrun. destruct (_ <? _); [|by simplify_eq].
  m_bind Hrun. destruct r1 as [[[s ino'] b] rr]. apply Read_refs in Hm1.
  etrans; [done|]. destruct rr; simplify_eq; by eapply quiet_use.
Qed.

Lemma write_quiet path buf size offset fh st st' r :
  Fs.dcfs_write path buf size offset fh st = Ret (st', r) → quiet st st'.
Proof.
  unfold Fs.dcfs_write. intros Hrun. m_bind Hrun. destruct r0 as [st1 [p|]];
    apply find_inode_quiet in Hm; [|by simplify_eq].
  m_bind Hrun. m_bind Hrun. destruct r1 as [[s ino'] rr]. apply Write_refs in Hm1.
  etrans; [done|]. destruct rr; simplify_eq; by eapply quiet_use.
Qed.

(** ** Counting *)

Lemma handles_remove st held1 fd held2 q :
  handles st (held1 ++ fd :: held2) q =
    (if decide (fd_table st !! N.to_nat fd = Some q) then 1 else 0) + handles st (held1 ++ held2) q.
Proof.
  unfold handles, nlen. rewrite !filter_app, filter_cons. case_decide; rewrite !length_app; simpl; lia.
Qed.

Lemma handles_ext st st' held q :
  (∀ fd, fd ∈ held → fd_table st' !! N.to_nat fd = fd_table st !! N.to_nat fd) →
  handles st' held q = handles st held q.
Proof.
  intros Hext. unfold handles. f_equal. induction held as [|fd held IH]; [done|].
  rewrite !filter_cons, (Hext fd) by apply list_elem_of_here.
  case_decide; rewrite IH; try done; intros ? ?; by apply Hext, list_elem_of_further.
Qed.

Lemma handles_add st st' held fd p q :
  fd_table st' = <[N.to_nat fd := p]> (fd_table st) → fd < nlen (fd_table st) → fd ∉ held →
  handles st' (fd :: held) q = (if decide (p = q) then 1 else 0) + handles st held q.
Proof.
  intros Ht Hlt Hn. pose proof (handles_remove st' [] fd held q) as Hr. simpl app in Hr. rewrite Hr, Ht.
  rewrite list_lookup_insert_eq by (unfold nlen in *; lia).
  rewrite (handles_ext st st').
  - destruct (decide (p = q)) as [->|]; [by rewrite decide_True|rewrite decide_False; congruence].
  - intros x Hx. rewrite Ht, list_lookup_insert_ne; [done|]. intros ?%N2Nat.inj. by subst.
Qed.

(** There are fewer handles than slots, so the count does not wrap around. *)
Lemma handles_few st held p :
  fs_inv st → NoDup held → (∀ fd, fd ∈ held → fd <= fd_cnt st) → handles st held p <= FD_TABLE_MAX.
Proof.
  intros Hi Hnd Hr. unfold handles, nlen. pose proof (inv_cnt _ Hi) as [_ Hc].
  pose proof (length_filter (λ fd, fd_table st !! N.to_nat fd = Some p) held).
  assert (length (N.to_nat <$> held) ≤ length (seq 0 (N.to_nat FD_TABLE_MAX)))%nat as Hl.
  { apply submseteq_length, NoDup_submseteq; [by apply (NoDup_fmap_2 _)|].
    intros n (fd & -> & Hfd)%list_elem_of_fmap. apply elem_of_seq. apply Hr in Hfd. lia. }
  rewrite length_fmap, length_seq in Hl. lia.
Qed.

(** A handle that is held stands for an inode in memory with a reference. *)
Lemma held_open st held fd :
  fs_inv st → counted st held → fd ∈ held →
  ∃ p ino, opened st fd p ino ∧ 0 < i_ref_count_ ino.
Proof.
  intros Hi [Hnd Hr Hc] Hfd. pose proof (Hr fd Hfd) as [Hlo Hhi].
  pose proof (inv_table _ Hi) as Hl. pose proof (inv_cnt _ Hi) as [_ Hcnt]. unfold nlen in Hl.
  destruct (lookup_lt_is_Some_2 (fd_table st) (N.to_nat fd)) as [p Hp]; [lia|].
  apply list_elem_of_split in Hfd as (held1 & held2 & ->).
  pose proof (Hc p) as Href. rewrite handles_remove, decide_True in Href by done.
  unfold refs in Href. destruct (inode_table st !! p) as [ino|] eqn:Hino; [|lia].
  exists p, ino. split; [split_and!; [lia|done..]|lia].
Qed.

(** ** The calls that count *)

(** The end of [create] and [open]: one more reference, one more handle. *)
Lemma take_handle st st2 st' held p ino fd :
  fs_inv st → counted st held → Fs.deref p st = Ret ino →
  quiet (Fs.update p (Ino.Ref ino) st) st2 → Fs.new_fd p st2 = Ret (st', fd) →
  counted st' (fd :: held).
Proof.
  intros Hi [Hnd Hr Hc] Hd%deref_refs [QR QF QC] Hnew. simpl in QF, QC.
  pose proof (inv_cnt _ Hi) as [Hlo Hcnt]. pose proof (inv_table _ Hi) as Hl. unfold FD_TABLE_MAX in *.
  assert (handles st held p <= 256) as Hfew by (apply handles_few; [done..|]; intros; by apply Hr).
  unfold Fs.new_fd in Hnew. rewrite QC, QF, u64_small in Hnew by lia.
  m_bind Hnew. simplify_eq. apply vec_set_inv in Hm as [-> Hlt].
  assert (∀ x, x ∈ held → x ≠ fd_cnt st + 1) as Hnew by (intros x Hx%Hr; lia).
  split.
  - constructor; [|done]. intros Hx. by apply Hnew in Hx.
  - intros x. simpl. rewrite elem_of_cons. intros [->|Hx%Hr]; lia.
  - intros q. change (refs (Fs.set_fds _ _ st2) q) with (refs st2 q). rewrite QR, refs_update.
    rewrite (handles_add st _ held (fd_cnt st + 1) p) by (done || intros Hx; by apply Hnew in Hx).
    case_decide; [subst|]; rewrite <-Hc; [|lia]. simpl. rewrite u64_small; rewrite <-?Hd, ?Hc in *; lia.
Qed.

Lemma allocate_quiet st st' r :
  creates_new st → Fs.allocate_inode st = Ret (st', r) → quiet st st'.
Proof.
  unfold Fs.allocate_inode. intros Hcn Hrun. m_bind Hrun. destruct r0 as [s [e|[h k]]].
  { simplify_eq. apply quiet_backend. }
  m_bind Hrun. simplify_eq. etrans; [apply quiet_backend|]. apply quiet_update.
  unfold refs. simpl. rewrite (Hcn _ _ _ Hm). unfold fresh_Inode in Hm0. m_bind Hm0. by simplify_eq.
Qed.

Lemma create_counted path fh st st' held r fd :
  fs_inv st → counted st held → creates_new st → Fs.dcfs_create path fh st = Ret (st', r, fd) →
  counted st' (if decide (r = 0%Z) then fd :: held else held).
Proof.
  unfold Fs.dcfs_create. intros Hi Hc Hcn Hrun. m_bind Hrun. destruct r0 as [st1 ent].
  pose proof (find_entry_quiet _ _ _ _ Hm) as Hq1. pose proof (find_entry_keeps _ _ _ _ Hm) as Hk1.
  destruct ent as [e|]; [simplify_eq; by eapply quiet_counted|].
  m_bind Hrun. destruct r0 as [st2 al].
  assert (quiet st st2) as Hq2.
  { etrans; [done|]. eapply allocate_quiet; [|done].
    pose proof (find_entry_spec path st) as Hs. destruct path as [|x name]; [by rewrite Hs in Hm|].
    destruct Hs as (d & Hs & _). rewrite Hs in Hm. by simplify_eq. }
  pose proof (allocate_inode_spec _ _ _ Hm0) as [Hk2 Hp].
  assert (fs_inv st2) as Hi2 by (apply (keeps_inv st); [by etrans|done]).
  pose proof (quiet_counted _ _ _ Hq2 Hc) as Hc2.
  destruct al as [p|]; [|by simplify_eq].
  destruct (Hp p eq_refl) as (_ & _ & _ & _). m_bind Hrun. m_bind Hrun. m_bind Hrun.
  destruct r2 as [st3 fd3]. simplify_eq.
  assert (Hashname r0 = p) as Hname by (eapply deref_name; [apply (inv_inodes _ Hi2)|done]).
  simpl Dir.Hashname in Hm3. rewrite Hname in Hm3.
  eapply take_handle; [done..| |exact Hm3]. apply quiet_root.
Qed.

Lemma open_counted path fh st st' held r fd :
  fs_inv st → counted st held → Fs.dcfs_open path fh st = Ret (st', r, fd) →
  counted st' (if decide (r = 0%Z) then fd :: held else held).
Proof.
  unfold Fs.dcfs_open. intros Hi Hc Hrun. m_bind Hrun. destruct r0 as [st1 ent].
  pose proof (find_entry_quiet _ _ _ _ Hm) as Hq1. pose proof (find_entry_keeps _ _ _ _ Hm) as Hk1.
  destruct ent as [e|]; [|simplify_eq; by eapply quiet_counted].
  m_bind Hrun. destruct r0 as [st2 got].
  pose proof (get_inode_quiet _ _ _ _ Hm0) as Hq2. pose proof (get_inode_keeps _ _ _ _ Hm0) as [Hk2 Hp].
  assert (fs_inv st2) as Hi2 by (apply (keeps_inv st); [by etrans|done]).
  assert (counted st2 held) as Hc2 by (apply (quiet_counted st); [by etrans|done]).
  destruct got as [p|]; [|by simplify_eq]. rewrite (Hp p eq_refl) in *.
  m_bind Hrun. m_bind Hrun. destruct r1 as [st3 fd3]. simplify_eq.
  by eapply take_handle.
Qed.

(** What remains after a [flush] through a handle that is held: the inode with
    one reference less, or no inode. *)
Lemma flush_counted path st st' held1 fd held2 r fh' :
  fs_inv st → counted st (held1 ++ fd :: held2) → Fs.dcfs_flush path fd st = Ret (st', r, fh') →
  counted st' (held1 ++ held2) ∧ r = 0%Z ∧ ∃ p, fd_table st !! N.to_nat fd = Some p ∧
    (inode_table st' !! p = None ↔ handles st (held1 ++ held2) p = 0).
Proof.
  intros Hi Hct Hrun. pose proof Hct as [Hnd Hr Hc].
  destruct (held_open st _ fd Hi Hct) as (p & ino & Ho & Hpos); [apply elem_of_app; right; left|].
  rewrite (flush_open _ _ _ _ _ Hi Ho) in Hrun. destruct Ho as (_ & Hp & Hino).
  m_bind Hrun. destruct r0 as [[s ino'] n]. apply Unref_refs in Hm as (_ & -> & Hn).
  assert (∀ q, handles st (held1 ++ held2) q =
    if decide (p = q) then i_ref_count_ ino - 1 else refs st q) as Hrest.
  { intros q. pose proof (Hc q) as Hcq. rewrite handles_remove, Hp in Hcq. unfold refs in Hcq |- *.
    destruct (decide (p = q)) as [<-|Hne].
    - rewrite Hino, decide_True in Hcq by done. lia.
    - rewrite decide_False in Hcq by congruence. lia. }
  assert (NoDup (held1 ++ held2) ∧ fd ∉ held1 ++ held2) as [Hnd' Hfd].
  { rewrite <-Permutation_middle in Hnd. by apply NoDup_cons in Hnd as [? ?]. }
  assert (∀ x, x ∈ held1 ++ held2 → 10 < x <= fd_cnt st) as Hr'.
  { intros x. rewrite elem_of_app. intros Hx. apply Hr, elem_of_app. rewrite elem_of_cons. tauto. }
  destruct (N.eqb_spec (i_ref_count_ ino - 1) 0) as [Hz|Hz]; simplify_eq; (split; [|split; [done|]]).
  - split; [done|done|]. intros q. rewrite (handles_ext st).
    + rewrite Hrest, Hz. unfold refs. simpl. rewrite lookup_delete. by case_decide.
    + intros x Hx. simpl. apply list_lookup_insert_ne. intros ?%N2Nat.inj. by subst.
  - exists p. split; [done|]. rewrite Hrest, decide_True by done. simpl. by rewrite lookup_delete_eq.
  - split; [done|done|]. intros q. rewrite (handles_ext st) by done.
    rewrite Hrest, refs_update, Hn. by case_decide.
  - exists p. split; [done|]. rewrite Hrest, decide_True by done. simpl. by rewrite lookup_insert_eq.
Qed.

Lemma used_counted kb s st held : used kb s st held → counted st held.
Proof.
  induction 1; try (eapply quiet_counted; [|done];
    first [by eapply getattr_quiet|by eapply readdir_quiet|by eapply read_quiet|by eapply write_quiet]).
  - split; [constructor| |done]. intros fd Hfd. by apply not_elem_of_nil in Hfd.
  - eapply create_counted; [by eapply reach_inv, used_reachable|done..].
  - eapply open_counted; [by eapply reach_inv, used_reachable|done..].
  - eapply flush_counted; [by eapply reach_inv, used_reachable|done..].
Qed.

(** C14. The references count. When the kernel flushes every handle it was
    given exactly once, and new capsules get names that no file in memory has,
    then in every state that whole callbacks, one at a time, can reach,
    whatever calls came in between: the count of an inode
    is the number of open handles on its file (0 for a file that is not in
    memory), so a handle that is open always finds its inode in memory; and a
    [flush] drops the inode exactly when it was through the last handle. *)
Theorem references_count kb s st held :
  used kb s st held →
  (∀ p, refs st p = handles st held p) ∧
  (∀ fd, fd ∈ held → ∃ p ino, opened st fd p ino ∧ 0 < i_ref_count_ ino) ∧
  ∀ path held1 fd held2 st' r fh', held = held1 ++ fd :: held2 →
    Fs.dcfs_flush path fd st = Ret (st', r, fh') →
    r = 0%Z ∧ ∃ p, fd_table st !! N.to_nat fd = Some p ∧
      (inode_table st' !! p = None ↔ handles st (held1 ++ held2) p = 0).
Proof.
  intros Hu. pose proof (reach_inv _ _ _ (used_reachable _ _ _ _ Hu)) as Hi.
  pose proof (used_counted _ _ _ _ Hu) as Hc. split; [apply Hc|].
  split; [intros fd Hfd; by eapply held_open|].
  intros path held1 fd held2 st' r fh' -> Hrun.
  by apply (flush_counted _ _ _ _ _ _ _ _ Hi Hc) in Hrun as [_ ?].
Qed.
End refs.
