(* ===== verification/Session.v ===== *)
(** * A session with the file system

    The callbacks in the order in which a program that makes a file calls
    them, over the storage backend and a server that answers: [create],
    [write] and [flush], then [open] and [read]. *)

From Stdlib Require Import NArith ZArith Lia.
From Stdlib Require Import Strings.String.
From stdpp Require Import base list gmap.
From S2P Require Import Prelude Const Options Dir Crypto Capsule DcServer Middleware Backend.
From S2P Require Import Cache CacheSpec InodeSpec Progress Dcfs MidSpec CommitSpec Commits.
From S2P Require Import BackendSpec Reopen DcfsSpec Types FileOps.

Section session.
Context `{OpenSSLLaws} `{ProtobufLaws} `{RunEnvOk} {D : Type} `{!DCServer D} `{!DCServerLaws D}.
Context `{!DCServerAnswers D}.
Abbreviation wpd := (wp (down (D := D))).
Abbreviation SB := (Backend.StorageBackend (D := D)).
Abbreviation St := (fs_state SB).
Local Open Scope N_scope.
Implicit Types (st : St) (b : SB).

(** ** [create] *)

(** A new inode with [r] references. *)
Definition fresh (dc key : bytes) (r : N) : Inode :=
  MkInode dc [] 0 DEFAULT_BLOCK_SIZE BLOCKMAP_COVER [] (MkCache [MkStat false false] [None] None) key r.

Lemma fresh_Inode_ok dc key :
  fresh_Inode dc DEFAULT_BLOCK_SIZE_IN_KB BLOCKMAP_COVER key = Ret (fresh dc key 0).
Proof. reflexivity. Qed.

(** The middleware makes a capsule. *)
Lemma CreateNewFile_up b sk ck :
  backend_up b sk ck →
  wpd (Backend.CreateNewFile b) (λ '(b', res), ∃ dc key, res = inr (dc, key) ∧
    backend_ok b' dc sk ck ∧ latest (Backend.backend_world b') dc = [] ∧
    length key = 16%nat ∧ nlen dc = 32).
Proof.
  intros [Hsha Henc Hrand Hsign Hck Hck' Hk].
  unfold Backend.CreateNewFile, Mid.CreateNew, Mid.composeRecord, Crypto.hash256. m_run.
  match goal with |- context [sha256 ?x] => destruct (Hsha x) as [dc Hdc] end.
  rewrite Hdc. m_run. pose proof (sha256_length _ _ Hdc) as Hl. unfold SHA256_DIGEST_LENGTH in Hl.
  assert (dc ≠ []) as Hne by (intros ->; unfold nlen in Hl; simpl in Hl; lia).
  rewrite bind_assoc. eapply wp_bind; [apply (write_up dc dc); [done|by right]|].
  intros [w1 res] (-> & Hc & Hm & Hr).
  destruct (Hrand (rands w1)) as [key Hkey].
  unfold Crypto.generate_symmetric_key. cbn [Mid.set_mid rands]. rewrite Hkey, cells_bytes_ok. m_run.
  exists dc, key. split; [done|]. split; [split; [|done]|].
  - split; try done; simpl; by rewrite Hm.
  - split_and!; [|by eapply rand_bytes_length|done].
    unfold latest. simpl. by rewrite lookup_insert_eq.
Qed.

Definition created st st1 (name dc key : bytes) : Prop :=
  Dir.entries_ (root st1) = Dir.entries_ (root st) ++ [Dir.MkEntry (cstr name) dc] ∧
  inode_table st1 !! dc = Some (fresh dc key 1) ∧
  fd_table st1 !! N.to_nat (fd_cnt st1) = Some dc ∧ fd_cnt st1 = fd_cnt st + 1 ∧
  block_size_in_kb st1 = block_size_in_kb st ∧ latest (Backend.backend_world (backend st1)) dc = [] ∧
  length key = 16%nat ∧ nlen dc = 32.

Lemma create_up st x name fh sk ck :
  fs_inv st → block_size_in_kb st = DEFAULT_BLOCK_SIZE_IN_KB → fd_cnt st + 1 < FD_TABLE_MAX →
  backend_up (backend st) sk ck → cstr name ∉ dir_names st →
  wpd (Fs.dcfs_create (x :: name) fh st) (λ '(st1, r, fd), r = 0%Z ∧ fd = fd_cnt st + 1 ∧
    ∃ dc key, created st st1 name dc key ∧ backend_ok (backend st1) dc sk ck).
Proof.
  intros Hi Hkb Hfd Hup Hname. unfold Fs.dcfs_create.
  destruct (find_entry_spec (x :: name) st) as (d & -> & Hd).
  rewrite (proj2 (first_entry_fresh name st)) by done. m_run.
  unfold Fs.allocate_inode. change (backend (Fs.set_root d st)) with (backend st).
  change (CreateNewFile (backend st)) with (Backend.CreateNewFile (backend st)).
  rewrite bind_assoc. eapply wp_bind; [by apply CreateNewFile_up|].
  intros [b' res] (dc & key & -> & Hok & Hl & Hk & Hdc).
  m_run. simpl block_size_in_kb. rewrite Hkb, fresh_Inode_ok. m_run.
  unfold Fs.deref. simpl inode_table. rewrite lookup_insert_eq. m_run. simpl Fs.path_tail. m_run.
  unfold Fs.new_fd. simpl fd_cnt. simpl fd_table.
  rewrite u64_small by (unfold FD_TABLE_MAX in Hfd; lia).
  rewrite vec_set_ok by (by rewrite (inv_table _ Hi)). m_run.
  split; [done|]. split; [done|]. exists dc, key. split; [|done]. split_and!; simpl; try done.
  - by rewrite Hd.
  - rewrite lookup_insert_eq. done.
  - rewrite list_lookup_insert_eq; [done|]. pose proof (inv_table _ Hi). unfold nlen in *. lia.
Qed.

(** ** [write] *)

Lemma filter_indices (f : N → bool) from n m :
  (∀ i, f i = true ↔ i < from + N.of_nat n) → from ≤ from + N.of_nat n →
  filter (λ i, f i = true) (indices from (n + m)) = indices from n.
Proof.
  revert from. induction n as [|n IH]; intros from Hf Hle.
  - simpl. assert (∀ k j, from ≤ j → filter (λ i, f i = true) (indices j k) = []) as Hnil.
    { induction k as [|k IHk]; intros j Hj; [done|]. simpl. rewrite filter_cons_False; [by apply IHk; lia|].
      rewrite Hf. lia. }
    apply Hnil. lia.
  - simpl. rewrite filter_cons_True by (rewrite Hf; lia). f_equal.
    rewrite <-(IH (from + 1)); [done| |lia]. intros i. rewrite Hf. lia.
Qed.

(** A cached block all of whose bytes are known can be flushed. *)
Lemma view_block_bytes (h : Inode) c b i :
  rc_wf h c → is_cached c i = true →
  (∀ r, r < BlockSize h → is_Some (view h c b (BlockSize h * i + r))) →
  is_Some (block_bytes h c i).
Proof.
  intros Hc Hin Hv. destruct (cached_block h c i Hc Hin) as (blk & Hblk & Hlen).
  unfold block_bytes. rewrite Hblk. cbn [mbind option_bind].
  apply mapM_is_Some, Forall_lookup. intros j x Hx.
  assert (j < N.to_nat (BlockSize h))%nat as Hj.
  { apply lookup_lt_Some in Hx. rewrite length_take in Hx. lia. }
  specialize (Hv (N.of_nat j) ltac:(lia)).
  destruct (block_unique (BlockSize h) i (N.of_nat j) ltac:(lia)) as [Hq Hm].
  unfold view, file_cell in Hv. rewrite Hq, Hm, Hin, Hblk, Nat2N.id in Hv. cbn [mbind option_bind] in Hv.
  rewrite lookup_take_lt in Hx by done. rewrite Hx in Hv. by destruct x.
Qed.

Lemma fresh_wf dc key r : length key = 16%nat → ino_wf (fresh dc key r).
Proof.
  intros Hk. split; [split; simpl; (done || lia)| |done].
  split; simpl; try done.
  - intros i blk Hi. destruct i as [|[|i]]; done.
  - intros i st Hi. by destruct i as [|[|i]]; simplify_eq/=.
Qed.

Lemma fresh_contents dc key r b p : contents (fresh dc key r) b p = Some Byte.x00.
Proof.
  unfold contents, view. assert (is_cached (i_cache_ (fresh dc key r)) (p / BlockSize (fresh dc key r)) = false) as ->.
  { unfold is_cached. simpl. by destruct (N.to_nat _) as [|[|?]]. }
  unfold backing_byte, block_map. simpl. by rewrite entry_nil.
Qed.

(** The blocks a first write of [size] bytes makes. *)
Definition blocks_of (size : N) : nat := N.to_nat (size / DEFAULT_BLOCK_SIZE + 1).

(** What the write of a new file leaves in its cache [c]. *)
Section first_write.
Context (b : SB) (dc key : bytes) (buf : list cell) (size : N) (c : RecordCache).
Let ino0 : Inode := fresh dc key 1.
Context (Hp : write_post ino0 (i_cache_ ino0) b buf 0 size c b) (Hsize : 0 < size).
Context (Hbuf : size + 1 <= nlen buf) (Hsome : Forall is_Some buf).

Lemma first_known p : is_Some (view ino0 c b p).
Proof using Hp Hbuf Hsome Hsize.
  pose proof (span_bounds DEFAULT_BLOCK_SIZE 0 size) as Hspan.
  destruct (decide (p < span DEFAULT_BLOCK_SIZE 0 size)) as [Hp'|Hp'].
  - destruct (lookup_lt_is_Some_2 buf (N.to_nat p)) as [x Hx]; [unfold nlen in *; lia|].
    destruct (Forall_lookup_1 _ _ _ _ Hsome Hx) as [y ->]. exists y.
    apply (wpost_new _ _ _ _ _ _ _ _ Hp); [simpl; change (BlockSize _) with DEFAULT_BLOCK_SIZE; lia|].
    by rewrite N.sub_0_r.
  - exists Byte.x00. apply (wpost_old _ _ _ _ _ _ _ _ Hp).
    + change (BlockSize _) with DEFAULT_BLOCK_SIZE. lia.
    + apply (fresh_contents dc key 1).
Qed.

Lemma first_dirty i : is_dirty c i = true ↔ i < 0 + N.of_nat (blocks_of size).
Proof using Hp Hbuf Hsome Hsize.
  rewrite (wpost_dirty _ _ _ _ _ _ _ _ Hp). change (BlockSize _) with DEFAULT_BLOCK_SIZE.
  rewrite N.Div0.div_0_l, !N.add_0_l. unfold blocks_of. rewrite N2Nat.id.
  assert (is_dirty (i_cache_ ino0) i = false) as ->.
  { unfold is_dirty. simpl. by destruct (N.to_nat i) as [|[|?]]. }
  split; [intros [|]; [done|lia]|intros ?; right; lia].
Qed.

Lemma first_cached i : is_dirty c i = true → is_cached c i = true.
Proof using Hp Hbuf Hsome Hsize.
  intros Hi. apply first_dirty in Hi. apply (wpost_range _ _ _ _ _ _ _ _ Hp).
  change (BlockSize _) with DEFAULT_BLOCK_SIZE. unfold blocks_of in Hi.
  rewrite N.Div0.div_0_l, N.add_0_l. lia.
Qed.

Lemma first_dirty_blocks : dirty_blocks c = indices 0 (blocks_of size).
Proof using Hp Hbuf Hsome Hsize.
  unfold dirty_blocks. assert (blocks_of size ≤ length (dcache_stats_ c))%nat as Hlen.
  { assert (is_cached c (size / DEFAULT_BLOCK_SIZE) = true) as Hlast.
    { apply first_cached, first_dirty. unfold blocks_of. lia. }
    apply is_cached_lt in Hlast. unfold blocks_of, nlen in *. lia. }
  replace (length (dcache_stats_ c))
    with (blocks_of size + (length (dcache_stats_ c) - blocks_of size))%nat by lia.
  apply filter_indices; [apply first_dirty|lia].
Qed.
End first_write.

Lemma first_write b dc key buf size :
  latest (Backend.backend_world b) dc = [] → length key = 16%nat → nlen dc = 32 →
  0 < size → size < BLOCKMAP_COVER * DEFAULT_BLOCK_SIZE → size + 1 <= nlen buf → Forall is_Some buf →
  ∃ ino, Ino.Write buf 0 size (fresh dc key 1) b = Ret (b, ino, inr size) ∧
    new_file b (set_ref 0 ino) (blocks_of size) ∧ i_ref_count_ ino = 1 ∧ Hashname ino = dc ∧
    ∀ k x, k < size → buf !! N.to_nat k = Some (Some x) → contents ino b k = Some x.
Proof.
  intros Hl Hk Hdc Hsize Hmax Hbuf Hsome. pose proof (fresh_wf dc key 1 Hk) as Hwf.
  destruct (fill_new_file (fresh dc key 1) 0 size (i_cache_ (fresh dc key 1)) b) as (c1 & Hfill);
    [apply Hwf|apply Hwf|done|done|].
  rewrite block_size_val, cover_val in Hmax.
  destruct (Write_spec_inode (fresh dc key 1) b b c1 buf 0 size) as (ino & Hw & Hwf' & Hs & Hp & Heq);
    [done|done|simpl; lia|done|done|].
  change (clamp (fresh dc key 1) 0) with 0 in *. change (BlockSize (fresh dc key 1)) with DEFAULT_BLOCK_SIZE in *.
  pose proof (span_bounds DEFAULT_BLOCK_SIZE 0 size) as Hspan.
  exists ino. split; [done|].
  split; [|split_and!; [by rewrite Heq|by rewrite Heq|]].
  2: { intros k x Hk' Hx. rewrite Heq. apply (wpost_new _ _ _ _ _ _ _ _ Hp).
       - change (BlockSize _) with DEFAULT_BLOCK_SIZE. lia.
       - by rewrite N.sub_0_r. }
  split; try (by rewrite Heq).
  - destruct Hwf' as [[] [] ?]. split; [by split|by split|done].
  - change (i_hashname_ (set_ref 0 ino)) with (Hashname ino). rewrite Heq. simpl. lia.
  - exact (first_dirty_blocks b dc key buf size (i_cache_ ino) Hp Hsize Hbuf Hsome).
  - assert (size / DEFAULT_BLOCK_SIZE < 512).
    { apply N.Div0.div_lt_upper_bound. rewrite block_size_val. lia. }
    unfold blocks_of. rewrite cover_val. nlia.
  - intros i Hi. apply (view_block_bytes (set_ref 0 ino) (i_cache_ ino) b).
    + destruct Hwf' as [_ [] _]. by split.
    + by apply (first_cached b dc key buf size (i_cache_ ino) Hp Hsize Hbuf Hsome).
    + intros r _. rewrite Heq. apply (first_known b dc key buf size (i_cache_ ino) Hp Hsize Hbuf Hsome).
  - exact (first_cached b dc key buf size (i_cache_ ino) Hp Hsize Hbuf Hsome).
Qed.

(** ** Reading what was committed *)

(** The entry of a block that a committed map lists, and no other. *)
Lemma entry_names (h : Inode) ns m i name :
  names_ok ns → (length ns * 32 ≤ m)%nat →
  entry h (splice (replicate m (Some Byte.x00)) 0 (Some <$> concat ns)) i = Some name →
  ns !! N.to_nat i = Some name.
Proof.
  intros Hns Hm He. destruct (N.leb_spec (BlockMapCover h) i) as [Hc|Hc].
  { unfold entry in He. by rewrite (proj2 (N.leb_le _ _) Hc) in He. }
  destruct (ns !! N.to_nat i) as [x|] eqn:Hx.
  { rewrite (entry_concat h ns m i x) in He by done. by destruct (decide _). }
  apply lookup_ge_None in Hx. exfalso. revert He. unfold entry. n_cmp.
  pose proof (concat_names_length ns Hns) as Hl. unfold HASHLEN_IN_BYTES, nlen in *.
  rewrite splice_0, drop_replicate. unfold slice.
  rewrite drop_app_ge by (rewrite length_fmap; lia). rewrite drop_replicate, take_replicate.
  rewrite <-fmap_replicate, mapM_id_some. by destruct (_ `min` _)%nat.
Qed.

(** A record of the middleware fits the buffer of [ReadRecordData]. *)
Lemma record_length t prev payload name p :
  record_ok t prev payload name p → pdu_wf p → Forall (λ x, nlen x ≤ 32) prev →
  (length prev ≤ 2)%nat → nlen (SerializePDU p) ≤ nlen payload + RECORD_HEADER_SIZE + SPARE_HASH_SPACE.
Proof.
  intros Hp Hwf Hprev Hl. pose proof (serialize_size p Hwf) as Hs.
  pose proof (fields_size_record _ _ _ _ _ Hp) as Hf. rewrite (ro_payload _ _ _ _ _ Hp) in Hs.
  unfold RECORD_HEADER_SIZE, SPARE_HASH_SPACE.
  destruct prev as [|x [|y [|z prev]]]; simpl in Hl, Hf; [lia| | |lia];
    repeat match goal with H : Forall _ (_ :: _) |- _ => inversion_clear H end; lia.
Qed.

(** Nothing that is stored has changed since [b0]. *)
Definition as_in (b0 : SB) (dc : bytes) (b : SB) : Prop :=
  (∀ dc' r, stored (Backend.backend_world b) dc' r = stored (Backend.backend_world b0) dc' r) ∧
  container (server (Backend.backend_world b)) dc.

Lemma read_payload b0 b dc t prev payload name p n :
  as_in b0 dc b → stored (Backend.backend_world b0) dc name = Some (SerializePDU p) →
  record_ok t prev payload name p → pdu_wf p → Forall (λ x, nlen x ≤ 32) prev →
  (length prev ≤ 2)%nat → nlen payload ≤ n → n < 4294967296 →
  wpd (Backend.ReadRecordData dc name n b) (λ '(b', res), (∃ data, res = inr data) ∧ as_in b0 dc b').
Proof.
  intros [Hsame Hc] Hst Hp Hwf Hprev Hl Hn Hmax. unfold Backend.ReadRecordData.
  pose proof (record_length _ _ _ _ _ Hp Hwf Hprev Hl) as Hlen.
  assert (RECORD_HEADER_SIZE + SPARE_HASH_SPACE = 576) as Hover by done.
  rewrite u64_small by lia. pose proof (name_nonempty _ _ _ _ _ Hp) as Hne. rewrite <-Hsame in Hst.
  eapply wp_bind; [apply wp_value, (read_up dc name _ _ _ Hst Hne); [lia|done]|].
  intros [w' res] (Hr & -> & Hc').
  pose proof (read_record_spec _ _ _ _ _ _ Hne Hr) as (_ & _ & Hs & _).
  rewrite parse_serialize, (ro_payload _ _ _ _ _ Hp) by done. n_cmp. simpl.
  split; [by eexists|]. split; [|done]. intros dc' r. by rewrite Hs.
Qed.

Lemma reopened_answers b b' b'' ino ino' n ns bm rn :
  reopened b b' b'' ino ino' n ns bm rn → length ns = n → N.of_nat n ≤ BLOCKMAP_COVER →
  nlen (i_hashname_ ino) ≤ 32 →
  answers (down (D := D)) ino' (map_names ino' (i_cache_ ino') b'') (as_in b'' (i_hashname_ ino)).
Proof.
  intros Hre Hln Hn Hdc. destruct (re_committed _ _ _ _ _ _ _ _ _ Hre) as [payload Hcm].
  destruct Hcm as (pi & pb & prev & prev' & lb & _ & _ & _ & Hb & Hwb & Hpb & Hns & Hlb & _ & Hprev').
  rewrite <-(re_same _ _ _ _ _ _ _ _ _ Hre) in Hb.
  pose proof (concat_names_length ns Hns) as Hcl. rewrite cover_val in Hn.
  unfold HASHLEN_IN_BYTES in Hcl.
  assert (nlen (concat ns) ≤ 16384) as Hcl' by (unfold nlen in *; lia).
  assert (nlen lb ≤ 32) as Hlb'.
  { apply last_Some_elem_of in Hlb. eapply Forall_forall in Hlb; [|exact Hns].
    unfold HASHLEN_IN_BYTES in Hlb. lia. }
  assert (payload_of b'' (i_hashname_ ino) bm = Some (concat ns)) as Hpl.
  { change (backend_payload b'' (i_hashname_ ino) bm = Some (concat ns)).
    unfold backend_payload, compose. unfold stored in Hb. rewrite Hb. simpl.
    by rewrite parse_serialize, (ro_payload _ _ _ _ _ Hpb). }
  assert (∀ i name, map_names ino' (i_cache_ ino') b'' i = Some name → ns !! N.to_nat i = Some name) as Hnames.
  { intros i name. unfold map_names, block_map.
    rewrite (re_bm _ _ _ _ _ _ _ _ _ Hre), (re_map _ _ _ _ _ _ _ _ _ Hre), (re_name _ _ _ _ _ _ _ _ _ Hre).
    rewrite (re_cover _ _ _ _ _ _ _ _ _ Hre), cover_val.
    rewrite decide_False by by eapply name_nonempty.
    rewrite Hpl. cbn [mbind option_bind]. change (HASHLEN_IN_BYTES * 512) with 16384. n_cmp.
    cbn [mbind option_bind].
    apply entry_names; [done|]. unfold nlen in *. lia. }
  split.
  - intros s Hs _. rewrite (re_map _ _ _ _ _ _ _ _ _ Hre), (re_name _ _ _ _ _ _ _ _ _ Hre).
    rewrite (re_cover _ _ _ _ _ _ _ _ _ Hre), cover_val.
    apply (read_payload b'' s (i_hashname_ ino) _ _ _ bm pb (HASHLEN_IN_BYTES * 512) Hs Hb Hpb); try done.
    by repeat constructor.
  - intros s i name Hs Hname%Hnames. rewrite (re_name _ _ _ _ _ _ _ _ _ Hre).
    rewrite (re_block _ _ _ _ _ _ _ _ _ Hre).
    destruct (re_blocks _ _ _ _ _ _ _ _ _ Hre) as (descs & Hld & Hdl & Hbs).
    destruct (lookup_lt_is_Some_2 descs (N.to_nat i)) as [d Hd].
    { apply lookup_lt_Some in Hname. lia. }
    assert (∃ bk, (first_back (i_hashname_ ino) [] :: ns) !! N.to_nat i = Some bk ∧ nlen bk ≤ 32)
      as (bk & Hbk & Hbl).
    { destruct (N.to_nat i) as [|j]; simpl; [by eexists|].
      destruct (lookup_lt_is_Some_2 ns j) as [x Hx]; [apply lookup_lt_Some in Hname; lia|].
      exists x. split; [done|]. eapply Forall_lookup_1 in Hx; [|exact Hns].
      unfold HASHLEN_IN_BYTES in Hx. lia. }
    destruct (Hbs _ _ _ _ Hd Hname Hbk) as (p & Hp & Hrp).
    rewrite <-(re_same _ _ _ _ _ _ _ _ _ Hre) in Hp.
    eapply Forall_lookup_1 in Hdl; [|exact Hd]. simpl in Hdl.
    apply (read_payload b'' s (i_hashname_ ino) _ _ _ name p (DEFAULT_BLOCK_SIZE + AES_PAD_LEN) Hs Hp Hrp);
      [|by repeat constructor|simpl; lia|unfold AES_PAD_LEN; lia|done].
    eapply record_wf; [done|done| |rewrite Hdl, block_size_val; lia].
    by apply Forall_singleton, field_small_name.
Qed.

(** ** The callbacks on an open file *)

(** The last [flush] closes the file, whatever the backend answers. *)
Lemma flush_last F Q path fd st p ino :
  fs_inv st → opened st fd p ino → i_ref_count_ ino = 1 →
  wp F (RC.FlushCache (set_ref 0 ino) (i_cache_ ino) (backend st)) (λ '(s, _, _), Q s) →
  wp F (Fs.dcfs_flush path fd st) (λ '(st', r, fh), r = 0%Z ∧ fh = 0 ∧
    ∃ s, st' = closed st fd p s ∧ Q s).
Proof.
  intros Hi Ho Href Hf. rewrite (flush_open st path fd p ino) by done. unfold Ino.Unref. rewrite Href.
  change (1 - 1) with 0. change (0 <? 1) with true. cbn [c_assert]. m_run. simpl i_ref_count_.
  change (0 =? 0) with true. cbv iota. simpl i_cache_. rewrite bind_assoc.
  eapply wp_bind; [exact Hf|]. intros [[s c] r] Hq. simpl. by eauto.
Qed.

(** [open] of a file that is not in memory, and whose metadata is found. *)
Lemma open_closed F (Q : SB → Inode → Prop) st x name e size fh :
  fs_inv st → block_size_in_kb st = DEFAULT_BLOCK_SIZE_IN_KB → fd_cnt st + 1 < FD_TABLE_MAX →
  Dir.first_entry (Fs.names name) (Dir.entries_ (root st)) = Some e →
  inode_table st !! Dir.Hashname e = None →
  wp F (Backend.ReadFileMeta (Dir.Hashname e) (backend st)) (λ '(b', res), (∃ m, res = inr m) ∧
    ∃ ino, opens (backend st) (Dir.Hashname e) size b' ino ∧ Q b' ino) →
  wp F (Fs.dcfs_open (x :: name) fh st) (λ '(st', r, fd), r = 0%Z ∧ fd = fd_cnt st + 1 ∧
    ∃ ino, opened st' fd (Dir.Hashname e) (Ino.Ref ino) ∧ Q (backend st') ino).
Proof.
  intros Hi Hkb Hfd He Hnone Hmeta. pose proof (inv_table _ Hi) as Hl.
  destruct (Backend.ReadFileMeta (Dir.Hashname e) (backend st)) as [[b' res]|f] eqn:Hm.
  - destruct Hmeta as (_ & ino & (m & Hm' & _ & Hnew) & HQ).
    rewrite Hm in Hm'. injection Hm' as ->.
    destruct (open_absent st x name fh e b' m ino) as (st' & -> & _ & Hb & Ht & _ & Hf); try done.
    { by rewrite Hkb. }
    split; [done|]. split; [done|]. exists ino. rewrite Hb. split; [|done].
    unfold opened. rewrite Ht, Hf. split_and!; [lia| |apply lookup_insert_eq].
    apply list_lookup_insert_eq. unfold nlen in Hl. lia.
  - unfold Fs.dcfs_open. destruct (find_entry_spec (x :: name) st) as (d & -> & _). rewrite He. m_run.
    unfold Fs.get_inode. change (inode_table (Fs.set_root d st)) with (inode_table st). rewrite Hnone.
    change (ReadFileMeta (Dir.Hashname e) (backend (Fs.set_root d st))) with
      (Backend.ReadFileMeta (Dir.Hashname e) (backend st)). by rewrite Hm.
Qed.

(** [read] of a whole range of an open file. *)
Lemma read_open F path fd st p ino buf size :
  opened st fd p ino → ino_wf ino → 0 < size → size <= Size ino → Size ino < 18446744073709551616 →
  size + 1 <= nlen buf →
  wp F (RC.fillDcache ino 0 size (i_cache_ ino) (backend st)) (λ '(_, _, r), r = inr tt) →
  wp F (Fs.dcfs_read path buf size 0 fd st) (λ '(_, buf', r), r = to_int size ∧
    length buf' = length buf ∧
    ∀ k y, k < size → contents ino (backend st) k = Some y → buf' !! N.to_nat k = Some (Some y)).
Proof.
  intros Ho Hwf Hsize Hle Hmax Hbuf Hf. unfold Fs.dcfs_read. rewrite (find_open _ _ _ _ _ _ Ho). m_run.
  rewrite (deref_open _ _ _ _ Ho). m_run.
  change (off_to_u64 0) with 0. rewrite N.add_0_l, u64_small by lia. do 2 n_cmp.
  eapply wp_bind; [apply (Read_up F ino (backend st) buf 0 size); try done; rewrite N.add_0_l; exact Hle|].
  intros [[[s ino'] buf'] r] (-> & Hlen & Hval). simpl. split; [done|]. split; [done|].
  intros k y Hk Hb. by apply Hval; [|rewrite N.add_0_l].
Qed.

(** ** The session *)

Lemma written_inv st p ino b :
  fs_inv st → Hashname ino = p → fs_inv (Fs.update p ino (Fs.set_backend b st)).
Proof. intros Hi Hp. eapply keeps_inv; [|done]. etrans; [apply keeps_backend|]. by apply keeps_update. Qed.

Lemma closed_inv st fd p b : fs_inv st → fs_inv (closed st fd p b).
Proof.
  intros Hi. destruct (release_inv p _ (keeps_inv _ _ (keeps_backend st b) Hi)) as [A B C E].
  split; try done. len_lia.
Qed.

(** The file that was reopened has the bytes of the one that was flushed. *)
Lemma reopened_contents b b' b'' ino ino' n ns bm rn p :
  reopened b b' b'' ino ino' n ns bm rn → length ns = n → Forall (λ a, head a ≠ Some Byte.x00) ns →
  p < N.of_nat n * DEFAULT_BLOCK_SIZE → contents ino' b'' p = contents ino b p.
Proof.
  intros Hre Hln Hhd Hpn.
  pose proof (block_split DEFAULT_BLOCK_SIZE p ltac:(done)) as Hp.
  pose proof (block_bound DEFAULT_BLOCK_SIZE p ltac:(done)) as Hpb.
  assert (p / DEFAULT_BLOCK_SIZE < N.of_nat n) as Hi by (apply N.Div0.div_lt_upper_bound; lia).
  destruct (lookup_lt_is_Some_2 ns (N.to_nat (p / DEFAULT_BLOCK_SIZE))) as [a Ha]; [lia|].
  rewrite Hp. apply (re_bytes _ _ _ _ _ _ _ _ _ Hre _ _ a); try done.
  exact (Forall_lookup_1 _ _ _ _ Hhd Ha).
Qed.

(** Two buffers with the same known bytes at the front. *)
Lemma same_front (buf buf' : list cell) n :
  Forall is_Some buf → (n ≤ length buf)%nat → (n ≤ length buf')%nat →
  (∀ i y, (i < n)%nat → buf !! i = Some (Some y) → buf' !! i = Some (Some y)) →
  take n buf' = take n buf.
Proof.
  intros Hsome Hl Hl' Hsame. apply list_eq. intros i. destruct (decide (i < n)%nat) as [Hlt|].
  2: { rewrite !lookup_ge_None_2; [done|rewrite length_take; lia..]. }
  rewrite !lookup_take_lt by done.
  destruct (lookup_lt_is_Some_2 buf i) as [a Hx]; [lia|].
  destruct (Forall_lookup_1 _ _ _ _ Hsome Hx) as [y ->]. rewrite Hx. by apply Hsame.
Qed.

(** Reading back a new file that was opened again. *)
Lemma reopened_read st b b' b'' ino ino' n ns bm rn path fd buf buf2 size :
  opened st fd (i_hashname_ ino) (Ino.Ref ino') → backend st = b'' →
  container (server (Backend.backend_world b'')) (i_hashname_ ino) →
  reopened b b' b'' ino ino' n ns bm rn → length ns = n → N.of_nat n ≤ BLOCKMAP_COVER →
  nlen (i_hashname_ ino) ≤ 32 → Forall (λ a, head a ≠ Some Byte.x00) ns →
  n = blocks_of size → 0 < size → size + 1 <= nlen buf2 → size <= nlen buf → Forall is_Some buf →
  (∀ k a, k < size → buf !! N.to_nat k = Some (Some a) → contents ino b k = Some a) →
  wpd (Fs.dcfs_read path buf2 size 0 fd st) (λ '(_, buf', r), r = to_int size ∧
    take (N.to_nat size) buf' = take (N.to_nat size) buf).
Proof.
  intros Ho <- Hcont Hre Hln Hcov Hdcl Hhd Hn Hsize Hbuf2 Hbuf Hsome Hbytes.
  pose proof (reopened_answers _ _ _ _ _ _ _ _ _ Hre Hln Hcov Hdcl) as Ha.
  assert (ino_wf (Ino.Ref ino')) as Hwf.
  { destruct (re_wf _ _ _ _ _ _ _ _ _ Hre) as [[] [] ?]. split; [by split|by split|done]. }
  assert (size < N.of_nat n * DEFAULT_BLOCK_SIZE) as Hin.
  { rewrite Hn. unfold blocks_of. rewrite N2Nat.id.
    pose proof (block_split DEFAULT_BLOCK_SIZE size ltac:(done)).
    pose proof (block_bound DEFAULT_BLOCK_SIZE size ltac:(done)). nlia. }
  assert (Size (Ino.Ref ino') = N.of_nat n * DEFAULT_BLOCK_SIZE) as Hsz' by apply Hre.
  eapply wp_mono; [eapply (read_open _ path fd st _ (Ino.Ref ino') buf2 size); try done|].
  - lia.
  - rewrite Hsz', block_size_val. rewrite cover_val in Hcov. lia.
  - eapply wp_mono; [apply (fillDcache_progress _ (Ino.Ref ino') (as_in (backend st) (i_hashname_ ino)));
      [apply Hwf|apply Hwf|destruct Ha as [Ha1 Ha2]; split; [exact Ha1|exact Ha2]|by split]|].
    by intros [[s1 c1] r] [-> _].
  - intros [[st5 buf'] r] (-> & Hlen & Hval). split; [done|].
    apply same_front; [done|unfold nlen in *; lia..|]. intros i y Hi Hx.
    rewrite <-(Nat2N.id i) in Hx |- *. apply Hval; [lia|].
    change (contents (Ino.Ref ino') (backend st) (N.of_nat i)) with (contents ino' (backend st) (N.of_nat i)).
    rewrite (reopened_contents _ _ _ _ _ _ _ _ _ _ Hre Hln Hhd) by lia. apply Hbytes; [lia|done].
Qed.

(** [open] and [read] after the last [flush] of a new file. *)
Lemma reopen_read st b ino x name path fh buf buf2 size n ns bm rn :
  let dc := i_hashname_ ino in
  fs_inv st → block_size_in_kb st = DEFAULT_BLOCK_SIZE_IN_KB → fd_cnt st + 1 < FD_TABLE_MAX →
  Dir.first_entry (Fs.names name) (Dir.entries_ (root st)) = Some (Dir.MkEntry (cstr name) dc) →
  inode_table st !! dc = None → nlen dc ≤ 32 →
  wpd (Backend.ReadFileMeta dc (backend st)) (λ '(b'', res), (∃ m, res = inr m) ∧
    ∃ ino', opens (backend st) dc (N.of_nat n * DEFAULT_BLOCK_SIZE) b'' ino' ∧
      container (server (Backend.backend_world b'')) dc ∧
      reopened b (backend st) b'' ino ino' n ns bm rn) →
  length ns = n → N.of_nat n ≤ BLOCKMAP_COVER → Forall (λ a, head a ≠ Some Byte.x00) ns →
  n = blocks_of size → 0 < size → size + 1 <= nlen buf2 → size <= nlen buf → Forall is_Some buf →
  (∀ k a, k < size → buf !! N.to_nat k = Some (Some a) → contents ino b k = Some a) →
  wpd (Fs.dcfs_open (x :: name) fh st) (λ '(st4, r4, fd4), r4 = 0%Z ∧ fd4 = fd_cnt st + 1 ∧
    wpd (Fs.dcfs_read path buf2 size 0 fd4 st4) (λ '(st5, buf', r5), r5 = to_int size ∧
      take (N.to_nat size) buf' = take (N.to_nat size) buf)).
Proof.
  intros dc Hi Hkb Hfd He Hnone Hdc Hmeta Hln Hcov Hhd Hn Hsize Hbuf2 Hbuf Hsome Hbytes.
  eapply wp_mono; [eapply (open_closed _ _ st x name (Dir.MkEntry (cstr name) dc)); [done..|exact Hmeta]|].
  intros [[st4 r4] fd4] (-> & -> & ino' & Ho4 & Hcont & Hre'). split; [done|]. split; [done|].
  by eapply (reopened_read st4 b (backend st) _ ino ino' n).
Qed.

(** A session on a server that answers: every callback returns what it should,
    or stops as the server does. *)
Lemma session_up st x name path2 fh fh' (buf buf2 : list cell) size sk ck :
  fs_inv st → block_size_in_kb st = DEFAULT_BLOCK_SIZE_IN_KB → fd_cnt st + 2 < FD_TABLE_MAX →
  backend_up (backend st) sk ck → cstr name ∉ dir_names st →
  0 < size → size < BLOCKMAP_COVER * DEFAULT_BLOCK_SIZE → size + 1 <= nlen buf →
  Forall is_Some buf → size + 1 <= nlen buf2 →
  let fd := fd_cnt st + 1 in
  wpd (Fs.dcfs_create (x :: name) fh st) (λ '(st1, r1, fd1), r1 = 0%Z ∧ fd1 = fd ∧
    ∃ st2 ino, Fs.dcfs_write path2 buf size 0 fd st1 = Ret (st2, to_int size) ∧
    fd_table st2 !! N.to_nat fd = Some (Hashname ino) ∧
    inode_table st2 !! Hashname ino = Some ino ∧
    wpd (Fs.dcfs_flush path2 fd st2) (λ '(st3, r3, fh3), r3 = 0%Z ∧ fh3 = 0 ∧
      ∃ ns bm rn, flush_names (backend st2) ino = ns ++ [bm; rn] ∧
      (NoDup (flush_names (backend st2) ino) → Forall (λ n, head n ≠ Some Byte.x00) ns →
       wpd (Fs.dcfs_open (x :: name) fh' st3) (λ '(st4, r4, fd4), r4 = 0%Z ∧ fd4 = fd + 1 ∧
         wpd (Fs.dcfs_read path2 buf2 size 0 fd4 st4) (λ '(st5, buf', r5), r5 = to_int size ∧
           take (N.to_nat size) buf' = take (N.to_nat size) buf))))).
Proof.
  intros Hi Hkb Hfd Hup Hfresh Hsize Hmax Hbuf Hsome Hbuf2 fd.
  eapply wp_mono; [apply wp_value, (create_up st x name fh sk ck); try done; lia|].
  intros [[st1 r1] fd1] (Hcr & -> & -> & dc & key & (Hent & Htab & Hft & Hcnt & Hkb1 & Hl & Hk & Hdc) & Hok).
  fold fd in Hcr, Hcnt |- *. rewrite Hcnt in Hft. split; [done|]. split; [done|].
  assert (fs_inv st1) as Hi1 by by apply create_spec in Hcr as [? _].
  destruct (first_write (backend st1) dc key buf size) as (ino & Hw & Hnew & Href & Hname & Hbytes);
    try done.
  assert (opened st1 fd dc (fresh dc key 1)) as Ho1 by (split_and!; [lia|done|done]).
  pose proof (write_open path2 fd st1 dc _ buf size 0 _ ino Ho1 Hw) as Hwr.
  set (st2 := Fs.update dc ino (Fs.set_backend (backend st1) st1)) in *.
  assert (inode_table st2 !! dc = Some ino) as Htab2 by apply lookup_insert_eq.
  assert (i_hashname_ (set_ref 0 ino) = dc) as Hdc' by done.
  exists st2, ino. split; [done|]. split; [by rewrite Hname|]. split; [by rewrite Hname|].
  assert (opened st2 fd dc ino) as Ho2 by (split_and!; [lia|done|done]).
  assert (fs_inv st2) as Hi2 by by apply written_inv.
  pose proof (flush_reopen (backend st1) (set_ref 0 ino) (blocks_of size) sk ck) as Hflush.
  eapply wp_mono; [eapply (flush_last _ _ path2 fd st2 dc ino Hi2 Ho2 Href)|].
  { eapply wp_mono; [apply Hflush; [by rewrite Hdc'|done]|]. intros [[s c] r] (_ & HQ). exact HQ. }
  intros [[st3 r3] fh3] (-> & -> & b' & -> & ns & bm & rn & Hnames & Hln & Hre).
  split; [done|]. split; [done|]. exists ns, bm, rn. split; [exact Hnames|]. intros Hnd Hhd.
  pose proof (reopen_read (closed st2 fd dc b') (backend st1) (set_ref 0 ino) x name path2 fh' buf buf2
    size (blocks_of size) ns bm rn) as Hrr.
  cbv zeta in Hrr. rewrite Hdc' in Hrr. simpl fd_cnt in Hrr. rewrite Hcnt in Hrr.
  specialize (Hre Hnd). rewrite Hdc' in Hre. apply Hrr; try done.
  - by apply closed_inv.
  - simpl. by rewrite Hkb1.
  - lia.
  - simpl. rewrite Hent. by apply first_entry_new.
  - apply lookup_delete_eq.
  - lia.
  - apply Hnew.
  - lia.
Qed.

(** C2. A session: on a server that is up, from any state with room for two
    descriptors, creating a file that does not exist, writing up to
    [BLOCKMAP_COVER] blocks to it and flushing it all succeed; and then opening
    it by its name and reading gives exactly the bytes that were written. Both
    buffers have a byte to spare behind the request ([size + 1 <= nlen buf]). As
    in [flush_then_open], no two records of the flush may have the same SHA-256
    name, and no block a name that starts with a zero byte. *)
Theorem session_round_trip `{!DCServerReliable D} st x name path2 fh fh' (buf buf2 : list cell) size sk ck :
  fs_inv st → block_size_in_kb st = DEFAULT_BLOCK_SIZE_IN_KB → fd_cnt st + 2 < FD_TABLE_MAX →
  backend_up (backend st) sk ck → cstr name ∉ dir_names st →
  0 < size → size < BLOCKMAP_COVER * DEFAULT_BLOCK_SIZE → size + 1 <= nlen buf →
  Forall is_Some buf → size + 1 <= nlen buf2 →
  let fd := fd_cnt st + 1 in
  ∃ st1 st2 st3 ino,
    Fs.dcfs_create (x :: name) fh st = Ret (st1, 0%Z, fd) ∧
    Fs.dcfs_write path2 buf size 0 fd st1 = Ret (st2, to_int size) ∧
    Fs.dcfs_flush path2 fd st2 = Ret (st3, 0%Z, 0) ∧
    fd_table st2 !! N.to_nat fd = Some (Hashname ino) ∧
    inode_table st2 !! Hashname ino = Some ino ∧
    ∃ ns bm rn, flush_names (backend st2) ino = ns ++ [bm; rn] ∧
      (NoDup (flush_names (backend st2) ino) → Forall (λ n, head n ≠ Some Byte.x00) ns →
       ∃ st4 st5 buf', Fs.dcfs_open (x :: name) fh' st3 = Ret (st4, 0%Z, fd + 1) ∧
         Fs.dcfs_read path2 buf2 size 0 (fd + 1) st4 = Ret (st5, buf', to_int size) ∧
         take (N.to_nat size) buf' = take (N.to_nat size) buf).
Proof.
  intros Hi Hkb Hfd Hup Hfresh Hsize Hmax Hbuf Hsome Hbuf2 fd.
  pose proof (session_up st x name path2 fh fh' buf buf2 size sk ck) as Hs. cbv zeta in Hs. fold fd in Hs.
  destruct (wp_always _ _ _ never_down (Hs Hi Hkb Hfd Hup Hfresh Hsize Hmax Hbuf Hsome Hbuf2))
    as ([[st1 r1] fd1] & Hcr & -> & -> & st2 & ino & Hw & Hslot & Htab & Hf).
  apply (wp_always _ _ _ never_down) in Hf as ([[st3 r3] fh3] & Hf & -> & -> & ns & bm & rn & Hn & Hrest).
  exists st1, st2, st3, ino. split; [done|]. split; [done|]. split; [done|]. split; [done|].
  split; [done|]. exists ns, bm, rn. split; [done|]. intros Hnd Hhd.
  destruct (wp_always _ _ _ never_down (Hrest Hnd Hhd)) as ([[st4 r4] fd4] & Ho & -> & -> & Hr).
  apply (wp_always _ _ _ never_down) in Hr as ([[st5 buf'] r5] & Hr & -> & Ht).
  by exists st4, st5, buf'.
Qed.
End session.
