(* ===== verification/Threads.v ===== *)
(** * The callbacks in threads: [src/fs/dcfs.cpp] and [src/fs/inode.cpp]

    [fuse_main] calls the callbacks from several threads. Here a callback is a
    sequence of steps on memory that all threads share: the directory with its
    one iterator, the table of inodes, the objects the table points to, and the
    descriptors. [inode_table_mutex] makes [allocate_inode], [get_inode] and
    [release_inode] single steps; nothing else is locked. An inode is reached
    through its address, which another thread may have freed, and which the
    allocator may have given to another inode since.

    What is not locked is not one step. [fd = ++fd_cnt] loads the counter in one
    step and stores it in another. A function that changes the directory, an
    inode or a slot of [fd_table] is entered in one step and left in another
    ([Inside]); when another thread comes to the same memory in between, the
    access is a data race ([Thr.racing]), of which C++ defines nothing more, and
    the run stops with [DataRace]. *)

From Stdlib Require Import NArith ZArith Lia.
From Stdlib Require Import Strings.String.
From stdpp Require Import base list gmap.
From S2P Require Import Prelude Const Dir Crypto Capsule Backend Cache Dcfs.

(** The arguments of a callback, and what it hands back. *)
Inductive call :=
  | CGetattr (path : bytes)
  | CReaddir (path : bytes)
  | CCreate (path : bytes) (fh : N)
  | COpen (path : bytes) (fh : N)
  | CRead (path : bytes) (buf : list cell) (size : N) (offset : Z) (fh : N)
  | CWrite (path : bytes) (buf : list cell) (size : N) (offset : Z) (fh : N)
  | CFlush (path : bytes) (fh : N).

Inductive reply :=
  | RStat (buf : stat) (r : Z)
  | RNames (names : list bytes) (r : Z)
  | RHandle (r : Z) (fh : N)
  | RData (buf : list cell) (r : Z)
  | RCount (r : Z).

(** [operator new]: the address of a new object, as the number of calls of it
    before and the addresses that are in use determine it. As a function of the
    number of calls it can be any sequence of choices. *)
Class Allocator := operator_new : nat → gset N → N.

(** It gives out no address that is in use; one that was freed it may. *)
Class AllocatorLaws {al : Allocator} : Prop := {
  operator_new_unused n used : operator_new n used ∉ used;
}.

(** Where a callback stands: what it does next, with the values of its local
    variables. An [Inode *] is an address; of the entry that the search found,
    [ent], only the hash name is used any more. *)
Inductive point :=
  | Start
  | Rewind (k : point)                 (* InitReaddir, before [k] *)
  | Search (name : bytes)              (* the loop over the directory *)
  | Listing (names : list bytes)       (* the loop of readdir *)
  | Handle                             (* fd_table[fi->fh] *)
  | Lookup (hashname : bytes)          (* get_inode *)
  | Allocate                           (* allocate_inode *)
  | Use (ent : bytes) (a : N)          (* the first use of the inode *)
  | AddEntry (a : N)                   (* create: after Ref *)
  | NextFd (hashname : bytes)          (* fd = ++fd_cnt, the load *)
  | StoreFd (hashname : bytes) (n : N) (* and the store *)
  | SetFd (hashname : bytes) (fd : N)  (* fd_table[fd] = ... *)
  | Release (a : N)                    (* flush: release_inode *)
  | ClearFd                            (* flush: fd_table[fi->fh] = "" *)
  | Inside (k : point)                 (* in the function that [k] calls *)
  | Done (r : reply).

(** The memory that no lock guards, where two threads can meet. *)
Inductive location := LDirectory | LInode (a : N) | LSlot (fd : N).

#[export] Instance location_eq_dec : EqDecision location.
Proof. solve_decision. Defined.
#[export] Instance stat_eq_dec : EqDecision stat.
Proof. solve_decision. Defined.
#[export] Instance reply_eq_dec : EqDecision reply.
Proof. solve_decision. Defined.
#[export] Instance point_eq_dec : EqDecision point.
Proof. solve_decision. Defined.

(** The memory the threads share. The table maps names to addresses, the heap
    has the objects that are allocated; [m_news] counts the calls of
    [operator new]. *)
Record memory (S : Type) := MkMemory {
  m_root : Dir.Directory;
  m_backend : S;
  m_block_size_in_kb : N;
  m_table : gmap (list Byte.byte) N;
  m_heap : gmap N Inode;
  m_news : nat;
  m_fd_cnt : N;
  m_fd_table : list bytes;
}.
Arguments MkMemory {S} _ _ _ _ _ _ _ _.
Arguments m_root {S} _.
Arguments m_backend {S} _.
Arguments m_block_size_in_kb {S} _.
Arguments m_table {S} _.
Arguments m_heap {S} _.
Arguments m_news {S} _.
Arguments m_fd_cnt {S} _.
Arguments m_fd_table {S} _.

Module Thr.
Section threads.
Context `{OpenSSL} `{Allocator} {S : Type} `{Storage S}.
Abbreviation M := (memory S).

Definition set_root (d : Dir.Directory) (m : M) : M :=
  MkMemory d (m_backend m) (m_block_size_in_kb m) (m_table m) (m_heap m) (m_news m)
    (m_fd_cnt m) (m_fd_table m).
Definition set_backend (s : S) (m : M) : M :=
  MkMemory (m_root m) s (m_block_size_in_kb m) (m_table m) (m_heap m) (m_news m)
    (m_fd_cnt m) (m_fd_table m).
Definition set_objects (t : gmap (list Byte.byte) N) (h : gmap N Inode) (n : nat) (m : M) : M :=
  MkMemory (m_root m) (m_backend m) (m_block_size_in_kb m) t h n (m_fd_cnt m) (m_fd_table m).
Definition set_fds (n : N) (t : list bytes) (m : M) : M :=
  MkMemory (m_root m) (m_backend m) (m_block_size_in_kb m) (m_table m) (m_heap m) (m_news m)
    n t.

(** The state after [dcfs_init]. *)
Definition init (kb : N) (s : S) : M :=
  MkMemory Dir.new_Directory s kb ∅ ∅ 0 10 (replicate (N.to_nat FD_TABLE_MAX) []).

(** ** Objects *)

Definition deref (a : N) (m : M) : outcome Inode :=
  match m_heap m !! a with Some ino => Ret ino | None => Crash UseAfterFree end.

Definition store (a : N) (ino : Inode) (m : M) : M :=
  set_objects (m_table m) (<[a := ino]> (m_heap m)) (m_news m) m.

(** The address that [new Inode(...)] will return. *)
Definition new_address (m : M) : N := operator_new (m_news m) (dom (m_heap m)).

(** [inode_table[hashname] = new Inode(...)]. An object that the table pointed
    to before stays allocated. *)
Definition new_inode (hashname : bytes) (ino : Inode) (m : M) : M :=
  set_objects (<[hashname := new_address m]> (m_table m)) (<[new_address m := ino]> (m_heap m))
    (Datatypes.S (m_news m)) m.

(** [delete match->second] *)
Definition delete_inode (a : N) (m : M) : M :=
  set_objects (m_table m) (delete a (m_heap m)) (m_news m) m.

(** ** The functions that hold the lock *)

Definition allocate_inode (m : M) : outcome (M * option N) :=
  '(s, r) ← CreateNewFile (m_backend m);
  let m := set_backend s m in
  match r with
  | inl _ => Ret (m, None)
  | inr (hashname, aes_key) =>
      ret ← fresh_Inode hashname (m_block_size_in_kb m) BLOCKMAP_COVER aes_key;
      Ret (new_inode hashname ret m, Some (new_address m))
  end.

Definition get_inode (hashname : bytes) (m : M) : outcome (M * option N) :=
  match m_table m !! hashname with
  | Some a => Ret (m, Some a)
  | None =>
      '(s, r) ← ReadFileMeta hashname (m_backend m);
      let m := set_backend s m in
      match r with
      | inl _ => Ret (m, None)
      | inr fm =>
          ret ← new_Inode hashname (fm_recordname fm) (fm_blockmap_hash fm)
                  (m_block_size_in_kb m) BLOCKMAP_COVER (fm_i_size fm) (fm_aes_key fm);
          Ret (new_inode hashname ret m, Some (new_address m))
      end
  end.

Definition release_inode (hashname : bytes) (m : M) : M :=
  match m_table m !! hashname with
  | Some a =>
      let m := delete_inode a m in
      set_objects (delete hashname (m_table m)) (m_heap m) (m_news m) m
  | None => m
  end.

(** ** The steps of a callback *)

(** Before the loop over the directory. *)
Definition begin_search (path : bytes) (m : M) : outcome (M * point) :=
  name ← Fs.path_tail path; Ret (m, Rewind (Search name)).

(** The inode of a handle, or of a path without one. *)
Definition begin_handle (path : bytes) (fh : N) (m : M) : outcome (M * point) :=
  if (0 <? fh)%N then Ret (m, Handle) else begin_search path m.

Definition start (c : call) (m : M) : outcome (M * point) :=
  match c with
  | CGetattr path =>
      if bool_decide (cstr path = lit "/")
      then Ret (m, Done (RStat (MkStatBuf (N.lor S_IFDIR 493) 2 0) 0))
      else begin_search path m
  | CReaddir path =>
      if negb (bool_decide (cstr path = lit "/")) then Ret (m, Done (RNames [] (- ENOENT)))
      else Ret (m, Rewind (Listing [lit "."; lit ".."]))
  | CCreate path _ | COpen path _ => begin_search path m
  | CRead path _ _ _ fh | CWrite path _ _ _ fh | CFlush path fh => begin_handle path fh m
  end.

(** The entry is found. *)
Definition found (c : call) (e : Dir.DirectoryEntry) : point :=
  match c with
  | CCreate _ fh => Done (RHandle (- EEXIST) fh)
  | _ => Lookup (Dir.Hashname e)
  end.

(** The loop has come to its end. *)
Definition not_found (c : call) : outcome point :=
  match c with
  | CGetattr _ => Ret (Done (RStat zero_stat (- ENOENT)))
  | CCreate _ _ => Ret Allocate
  | COpen _ fh | CFlush _ fh => Ret (Done (RHandle (- ENOENT) fh))
  | CRead _ _ _ _ _ => Crash Indeterminate
  | CWrite _ _ _ _ _ => Ret (Done (RCount (- ENOENT)))
  | CReaddir _ => Crash Unspecified       (* never here *)
  end.

(** [get_inode] or [allocate_inode] has returned [NULL]. *)
Definition no_inode (c : call) : outcome point :=
  match c with
  | CGetattr _ => Crash NullDeref
  | CCreate _ fh => Ret (Done (RHandle (- ENOMEM) fh))
  | COpen _ fh | CFlush _ fh => Ret (Done (RHandle (- ENOENT) fh))
  | CRead _ buf _ _ _ => Ret (Done (RData buf (- ENOENT)))
  | CWrite _ _ _ _ _ => Ret (Done (RCount (- ENOENT)))
  | CReaddir _ => Crash Unspecified       (* never here *)
  end.

Definition got (c : call) (ent : bytes) (r : M * option N) : outcome (M * point) :=
  match r.2 with
  | Some a => Ret (r.1, Use ent a)
  | None => k ← no_inode c; Ret (r.1, k)
  end.

(** What the callback does with the inode: the call of [Size], [Ref], [Read],
    [Write] or [Unref], and what follows. *)
Definition use (c : call) (ent : bytes) (a : N) (m : M) : outcome (M * point) :=
  ino ← deref a m;
  match c with
  | CGetattr _ => Ret (m, Done (RStat (MkStatBuf (N.lor S_IFREG 292) 1 (Size ino)) 0))
  | CCreate _ _ => Ret (store a (Ino.Ref ino) m, AddEntry a)
  | COpen _ _ => Ret (store a (Ino.Ref ino) m, NextFd ent)
  | CRead _ buf size offset _ =>
      let len := Size ino in
      let off := off_to_u64 offset in
      if (off <? len)%N then
        let size := if (len <? u64 (off + size))%N then (len - off)%N else size in
        '(s, ino, buf, r) ← Ino.Read buf off size ino (m_backend m);
        Ret (store a ino (set_backend s m),
             Done (RData buf (match r with inl _ => (- EIO)%Z | inr _ => to_int size end)))
      else Ret (m, Done (RData buf 0))
  | CWrite _ buf size offset _ =>
      '(s, ino, r) ← Ino.Write buf (off_to_u64 offset) size ino (m_backend m);
      Ret (store a ino (set_backend s m),
           Done (RCount (match r with inl _ => (- EIO)%Z | inr _ => to_int size end)))
  | CFlush _ fh =>
      '(s, ino, cnt) ← Ino.Unref ino (m_backend m);
      Ret (store a ino (set_backend s m),
           if (cnt =? 0)%N then Release a else Done (RHandle 0 fh))
  | CReaddir _ => Crash Unspecified       (* never here *)
  end.

Definition handle_of (c : call) : N :=
  match c with
  | CCreate _ fh | COpen _ fh | CRead _ _ _ _ fh | CWrite _ _ _ _ fh | CFlush _ fh => fh
  | CGetattr _ | CReaddir _ => 0
  end.

Definition path_of (c : call) : bytes :=
  match c with
  | CGetattr path | CReaddir path | CCreate path _ | COpen path _ | CRead path _ _ _ _
  | CWrite path _ _ _ _ | CFlush path _ => path
  end.

(** What a callback does at a point, once it has got there: the call of the
    function, with its effect on memory. *)
Definition act (c : call) (k : point) (m : M) : outcome (M * point) :=
  match k with
  | Start => start c m
  | Rewind k => Ret (set_root (Dir.InitReaddir (m_root m)) m, k)
  | Search name =>
      '(d, ent) ← Dir.Readdir (m_root m);
      let m := set_root d m in
      match ent with
      | Some e => Ret (m, if Fs.names name e then found c e else Search name)
      | None => k ← not_found c; Ret (m, k)
      end
  | Listing names =>
      '(d, ent) ← Dir.Readdir (m_root m);
      let m := set_root d m in
      match ent with
      | Some e => Ret (m, Listing (names ++ [cstr (Dir.Filename e)]))
      | None => Ret (m, Done (RNames names 0))
      end
  | Handle => hashname ← vec_get (m_fd_table m) (handle_of c); Ret (m, Lookup hashname)
  | Lookup hashname => r ← get_inode hashname m; got c hashname r
  | Allocate => r ← allocate_inode m; got c [] r
  | Use ent a => use c ent a m
  | AddEntry a =>
      ino ← deref a m;
      name ← Fs.path_tail (path_of c);
      Ret (set_root (Dir.Addent (Dir.MkEntry (cstr name) (Hashname ino)) (m_root m)).1 m,
           NextFd (Hashname ino))
  | NextFd hashname => Ret (m, StoreFd hashname (m_fd_cnt m))
  | StoreFd hashname n =>
      let fd := u64 (n + 1) in
      Ret (set_fds fd (m_fd_table m) m, SetFd hashname fd)
  | SetFd hashname fd =>
      t ← vec_set (m_fd_table m) fd hashname;
      Ret (set_fds (m_fd_cnt m) t m, Done (RHandle 0 fd))
  | Release a =>
      ino ← deref a m;
      let m := release_inode (Hashname ino) m in
      Ret (m, if (0 <? handle_of c)%N then ClearFd else Done (RHandle 0 0))
  | ClearFd =>
      t ← vec_set (m_fd_table m) (handle_of c) [];
      Ret (set_fds (m_fd_cnt m) t m, Done (RHandle 0 0))
  | Inside k => Ret (m, k)                (* see [step] *)
  | Done r => Ret (m, Done r)
  end.

(** The functions that change memory without a lock. [Size] only reads. *)
Definition enters (c : call) (k : point) : bool :=
  match k with
  | Rewind _ | Search _ | Listing _ | AddEntry _ | SetFd _ _ | ClearFd => true
  | Use _ _ => match c with CGetattr _ => false | _ => true end
  | _ => false
  end.

(** A step of a callback: into such a function, out of it, or the whole of what
    is read or locked. *)
Definition step (c : call) (k : point) (m : M) : outcome (M * point) :=
  match k with
  | Inside k => act c k m
  | _ => if enters c k then Ret (m, Inside k) else act c k m
  end.

(** ** Data races *)

(** The memory that the callback reads or changes at a point. The table is
    left out, since it is locked, and so is the counter, which is a machine
    word. *)
Fixpoint touches (c : call) (k : point) : option location :=
  match k with
  | Rewind _ | Search _ | Listing _ | AddEntry _ => Some LDirectory
  | Use _ a | Release a => Some (LInode a)
  | Handle | ClearFd => Some (LSlot (handle_of c))
  | SetFd _ fd => Some (LSlot fd)
  | Inside k => touches c k
  | _ => None
  end.

Definition changing (l : location) (t : call * point) : bool :=
  match t with
  | (c, Inside k) => bool_decide (touches c k = Some l)
  | _ => false
  end.

(** The step of thread [i] meets another thread in a function that changes the
    same memory. *)
Definition racing (ts : list (call * point)) (i : nat) : bool :=
  match ts !! i with
  | Some (c, k) =>
      match touches c k with
      | Some l => existsb (changing l) (delete i ts)
      | None => false
      end
  | None => false
  end.

Definition finished (k : point) : bool := match k with Done _ => true | _ => false end.

(** A thread is in a callback, or has come to its end. *)
Definition thread : Type := call * point.

(** ** The pool of threads

    The kernel may issue a call at any time, and any thread that has not
    finished may take the next step, unless that is a data race. *)
Inductive pool_step : list thread * M → list thread * M → Prop :=
  | pool_call ts m c : pool_step (ts, m) (ts ++ [(c, Start)], m)
  | pool_run ts m i c k m' k' :
      ts !! i = Some (c, k) → finished k = false → racing ts i = false →
      step c k m = Ret (m', k') →
      pool_step (ts, m) (<[i := (c, k')]> ts, m').

(** The threads take their steps in the order of a list of their numbers. *)
Fixpoint schedule (sched : list nat) (ts : list thread) (m : M) : outcome (list thread * M) :=
  match sched with
  | [] => Ret (ts, m)
  | i :: sched =>
      match ts !! i with
      | Some (c, k) =>
          if finished k then schedule sched ts m
          else if racing ts i then Crash DataRace
          else '(m, k) ← step c k m; schedule sched (<[i := (c, k)]> ts) m
      | None => schedule sched ts m
      end
  end.

(** A callback that no other thread disturbs: [n] steps, if it ends in them. *)
Fixpoint alone (n : nat) (c : call) (k : point) (m : M) : option (outcome (M * reply)) :=
  match k, n with
  | Done r, _ => Some (Ret (m, r))
  | _, O => None
  | _, Datatypes.S n' =>
      match step c k m with
      | Ret (m', k') => alone n' c k' m'
      | Crash f => Some (Crash f)
      end
  end.

End threads.
End Thr.
