(* ===== verification/ThreadSpec.v ===== *)
(** * Threads refine callbacks

    A callback that runs alone, step by step, does what [Dcfs.v] says it does
    as a whole; so everything proved of the callbacks holds for a file system
    that serves one call at a time. *)

From Stdlib Require Import NArith ZArith Lia.
From Stdlib Require Import Strings.String.
From stdpp Require Import base list gmap.
From S2P Require Import Prelude Const Dir Crypto Capsule Backend Cache Dcfs DcfsSpec Threads.

Section threads.
Context `{OpenSSL} `{AllocatorLaws} {S : Type} `{Storage S}.
Abbreviation M := (memory S).
Abbreviation St := (fs_state S).
Local Open Scope N_scope.
Implicit Types (m : M) (c : call) (k : point) (st : St).

(** ** The state of [Dcfs.v] behind a memory *)

Definition objects (m : M) : gmap (list Byte.byte) Inode := omap (λ a, m_heap m !! a) (m_table m).

Definition abs (m : M) : St :=
  MkFs (m_root m) (m_backend m) (m_block_size_in_kb m) (objects m) (m_fd_cnt m) (m_fd_table m).

Definition callback (c : call) (st : St) : outcome (St * reply) :=
  match c with
  | CGetattr path => '(st, b, r) ← Fs.dcfs_getattr path st; Ret (st, RStat b r)
  | CReaddir path => '(st, l, r) ← Fs.dcfs_readdir path st; Ret (st, RNames l r)
  | CCreate path fh => '(st, r, fd) ← Fs.dcfs_create path fh st; Ret (st, RHandle r fd)
  | COpen path fh => '(st, r, fd) ← Fs.dcfs_open path fh st; Ret (st, RHandle r fd)
  | CRead path buf size offset fh =>
      '(st, b, r) ← Fs.dcfs_read path buf size offset fh st; Ret (st, RData b r)
  | CWrite path buf size offset fh =>
      '(st, r) ← Fs.dcfs_write path buf size offset fh st; Ret (st, RCount r)
  | CFlush path fh => '(st, r, fd) ← Fs.dcfs_flush path fh st; Ret (st, RHandle r fd)
  end.

(** A result on memory, seen as one on the state of [Dcfs.v]. *)
Definition seen {A B} (f : M → A → B) (o : outcome (M * A)) : outcome (St * B) :=
  '(m, r) ← o; Ret (abs m, f m r).

(** The table points to objects that are allocated, each name to its own. *)
Record heap_ok (m : M) : Prop := {
  ho_live h a : m_table m !! h = Some a → is_Some (m_heap m !! a);
  ho_inj h h' a : m_table m !! h = Some a → m_table m !! h' = Some a → h = h';
}.

Lemma objects_lookup m h : objects m !! h = m_table m !! h ≫= λ a, m_heap m !! a.
Proof. unfold objects. apply lookup_omap. Qed.

(** ** Objects *)

Lemma new_address_unused m : m_heap m !! Thr.new_address m = None.
Proof. apply not_elem_of_dom, operator_new_unused. Qed.

(** The table has no pointer to the address of a new object. *)
Lemma new_address_unfiled m h a :
  heap_ok m → m_table m !! h = Some a → a ≠ Thr.new_address m.
Proof. intros [L _] [ino Ha]%L ->. by rewrite new_address_unused in Ha. Qed.

Lemma abs_deref m h a : heap_ok m → m_table m !! h = Some a →
  Fs.deref h (abs m) = Thr.deref a m.
Proof.
  intros Hok Ha. unfold Fs.deref, Thr.deref. simpl. rewrite objects_lookup, Ha. simpl.
  destruct (ho_live _ Hok h a Ha) as [ino ->]. done.
Qed.

Lemma abs_store m h a ino : heap_ok m → m_table m !! h = Some a →
  abs (Thr.store a ino m) = Fs.update h ino (abs m).
Proof.
  intros Hok Ha. unfold abs, Fs.update, Fs.set_table. simpl. f_equal. apply map_eq. intros h'.
  rewrite objects_lookup. simpl. destruct (decide (h' = h)) as [->|Hne].
  - rewrite Ha, lookup_insert_eq. simpl. by rewrite lookup_insert_eq.
  - rewrite lookup_insert_ne, objects_lookup by done.
    destruct (m_table m !! h') as [a'|] eqn:Ha'; [|done]. simpl.
    rewrite lookup_insert_ne; [done|]. intros ->. by destruct Hne; eapply ho_inj.
Qed.

Lemma store_ok m a ino : heap_ok m → is_Some (m_heap m !! a) → heap_ok (Thr.store a ino m).
Proof.
  intros [L I] Ha. split; simpl; [|done].
  intros h b Hb. destruct (decide (a = b)) as [->|]; [by rewrite lookup_insert_eq|].
  rewrite lookup_insert_ne by done. by eapply L.
Qed.

Lemma abs_new_inode m h ino : heap_ok m → abs (Thr.new_inode h ino m) = Fs.update h ino (abs m).
Proof.
  intros Hok. unfold abs, Fs.update, Fs.set_table. simpl. f_equal. apply map_eq. intros h'.
  rewrite objects_lookup. simpl. destruct (decide (h' = h)) as [->|Hne].
  - rewrite !lookup_insert_eq. simpl. by rewrite lookup_insert_eq.
  - rewrite !lookup_insert_ne, objects_lookup by done.
    destruct (m_table m !! h') as [a|] eqn:Ha; [|done]. simpl.
    rewrite lookup_insert_ne; [done|]. symmetry. by eapply new_address_unfiled.
Qed.

Lemma new_inode_ok m h ino : heap_ok m → heap_ok (Thr.new_inode h ino m).
Proof.
  intros Hok. split; simpl.
  - intros h' a. destruct (decide (h = h')) as [->|].
    + rewrite lookup_insert_eq. intros [= <-]. by rewrite lookup_insert_eq.
    + rewrite lookup_insert_ne by done. intros Ha.
      rewrite lookup_insert_ne; [by eapply ho_live|]. symmetry. by eapply new_address_unfiled.
  - intros h1 h2 a. rewrite !lookup_insert. do 2 case_decide; subst; try done.
    + intros [= <-] Ha. by eapply new_address_unfiled in Ha.
    + intros Ha [= <-]. by eapply new_address_unfiled in Ha.
    + by apply ho_inj.
Qed.

Lemma abs_release m h : heap_ok m → abs (Thr.release_inode h m) = Fs.release_inode h (abs m).
Proof.
  intros [L I]. unfold Thr.release_inode, abs, Fs.release_inode, Fs.set_table.
  destruct (m_table m !! h) as [a|] eqn:Ha; simpl; f_equal; apply map_eq; intros h';
    rewrite objects_lookup; simpl; destruct (decide (h' = h)) as [->|Hne].
  - by rewrite !lookup_delete_eq.
  - rewrite !lookup_delete_ne, objects_lookup by done.
    destruct (m_table m !! h') as [a'|] eqn:Ha'; [|done]. simpl.
    rewrite lookup_delete_ne; [done|]. intros ->. by destruct Hne; eapply I.
  - by rewrite lookup_delete_eq, Ha.
  - by rewrite lookup_delete_ne, objects_lookup.
Qed.

Lemma release_ok m h : heap_ok m → heap_ok (Thr.release_inode h m).
Proof.
  intros [L I]. unfold Thr.release_inode. destruct (m_table m !! h) as [a|] eqn:Ha; [|by split].
  split; simpl.
  - intros h' b [Hne Hb]%lookup_delete_Some. rewrite lookup_delete_ne; [by eapply L|].
    intros ->. by destruct Hne; eapply I.
  - intros h1 h2 b [_ Hb1]%lookup_delete_Some [_ Hb2]%lookup_delete_Some. by eapply I.
Qed.

(** ** The locked functions *)

Lemma abs_get_inode m h : heap_ok m →
  Fs.get_inode h (abs m) = seen (λ _ r, (λ _, h) <$> r) (Thr.get_inode h m).
Proof.
  intros Hok. unfold Fs.get_inode, Thr.get_inode, seen. simpl inode_table. rewrite objects_lookup.
  destruct (m_table m !! h) as [a|] eqn:Ha; simpl.
  { by destruct (ho_live _ Hok h a Ha) as [ino ->]. }
  destruct (ReadFileMeta _ _) as [[s [e|fm]]|]; [done| |done]. m_run. simpl block_size_in_kb.
  destruct (new_Inode _ _ _ _ _ _ _) as [ino|]; [|done]. m_run. simpl.
  by rewrite abs_new_inode by by destruct Hok.
Qed.

Lemma get_inode_ok m h m' r : heap_ok m → Thr.get_inode h m = Ret (m', r) →
  heap_ok m' ∧ ∀ a, r = Some a → m_table m' !! h = Some a.
Proof.
  intros Hok. unfold Thr.get_inode. destruct (m_table m !! h) as [a|] eqn:Ha.
  { intros [= <- <-]. split; [done|]. by intros ? [= <-]. }
  intros Hrun. m_bind Hrun. destruct r0 as [s [e|fm]]; [simplify_eq; by destruct Hok|].
  m_bind Hrun. simplify_eq. split; [by apply new_inode_ok; destruct Hok|].
  intros a [= <-]. simpl. apply lookup_insert_eq.
Qed.

Lemma abs_allocate m : heap_ok m →
  Fs.allocate_inode (abs m) =
    seen (λ m' r, r ≫= λ a, Hashname <$> m_heap m' !! a) (Thr.allocate_inode m).
Proof.
  intros Hok. unfold Fs.allocate_inode, Thr.allocate_inode, seen. simpl backend.
  destruct (CreateNewFile _) as [[s [e|[h key]]]|]; [done| |done]. m_run. simpl block_size_in_kb.
  destruct (fresh_Inode _ _ _ _) as [ino|] eqn:Hn; [|done]. m_run. simpl.
  rewrite lookup_insert_eq, abs_new_inode by by destruct Hok. simpl. do 3 f_equal.
  unfold fresh_Inode in Hn. m_bind Hn. by simplify_eq.
Qed.

Lemma allocate_ok m m' r : heap_ok m → Thr.allocate_inode m = Ret (m', r) →
  heap_ok m' ∧ ∀ a, r = Some a → ∃ ino, m_heap m' !! a = Some ino ∧ m_table m' !! Hashname ino = Some a.
Proof.
  intros Hok Hrun. unfold Thr.allocate_inode in Hrun. m_bind Hrun.
  destruct r0 as [s [e|[h key]]]; [simplify_eq; by destruct Hok|]. m_bind Hrun. simplify_eq.
  split; [by apply new_inode_ok; destruct Hok|]. intros a [= <-]. exists r0. simpl.
  rewrite lookup_insert_eq. split; [done|]. unfold fresh_Inode in Hm0. m_bind Hm0. simplify_eq.
  apply lookup_insert_eq.
Qed.

(** ** Running alone *)

Lemma alone_step n c k m : Thr.finished k = false →
  Thr.alone (Datatypes.S n) c k m =
    match Thr.step c k m with
    | Ret (m', k') => Thr.alone n c k' m'
    | Crash f => Some (Crash f)
    end.
Proof. by destruct k. Qed.

Lemma alone_mono n n' c k m o : (n ≤ n')%nat →
  Thr.alone n c k m = Some o → Thr.alone n' c k m = Some o.
Proof.
  revert n' k m. induction n as [|n IH]; intros n' k m Hle Ho.
  { destruct k; try done. by destruct n'. }
  destruct (Thr.finished k) eqn:Hk; [by destruct k, n'|].
  destruct n' as [|n']; [lia|]. rewrite alone_step in Ho |- * by done.
  destruct (Thr.step c k m) as [[m' k']|]; [|done]. apply IH; [lia|done].
Qed.

(** [ends n c k m o]: from [k] the callback comes to its end alone in at most
    [n] steps, the outcome is [o] and the heap is as it should be. *)
Definition ends (n : nat) (c : call) (k : point) (m : M) (o : outcome (St * reply)) : Prop :=
  ∃ o', Thr.alone n c k m = Some o' ∧ seen (λ _ r, r) o' = o ∧
        ∀ m' r, o' = Ret (m', r) → heap_ok m'.

Lemma ends_mono n n' c k m o : (n ≤ n')%nat → ends n c k m o → ends n' c k m o.
Proof. intros Hle (o' & Ho & Hr). exists o'. split; [by eapply alone_mono|done]. Qed.

Lemma ends_done n c r m o : heap_ok m → o = Ret (abs m, r) → ends n c (Done r) m o.
Proof.
  intros Hok ->. exists (Ret (m, r)). split; [by destruct n|]. split; [done|]. by intros ?? [= <- _].
Qed.

(** What a step leads to. *)
Definition next (n : nat) (c : call) (r : outcome (M * point)) (o : outcome (St * reply)) : Prop :=
  match r with
  | Ret (m', k') => ends n c k' m' o
  | Crash f => o = Crash f
  end.

Lemma ends_step n c k m o :
  Thr.finished k = false → next n c (Thr.step c k m) o → ends (Datatypes.S n) c k m o.
Proof.
  intros Hk Hn. unfold ends, next in *. rewrite alone_step by done.
  destruct (Thr.step c k m) as [[m' k']|f]; [done|]. subst. by exists (Crash f).
Qed.

(** A point whose function is entered first. *)
Lemma ends_enter n c k m o :
  Thr.finished k = false → (∀ k', k ≠ Inside k') → Thr.enters c k = true →
  next n c (Thr.act c k m) o → ends (Datatypes.S (Datatypes.S n)) c k m o.
Proof.
  intros Hk Hi He Hn. apply ends_step; [done|].
  assert (Thr.step c k m = Ret (m, Inside k)) as -> by
    (destruct k; cbn [Thr.step]; rewrite ?He; try done; by destruct (Hi _ eq_refl)).
  by apply ends_step.
Qed.

Lemma set_root_ok d m : heap_ok m → heap_ok (Thr.set_root d m).
Proof. by destruct 1. Qed.
Lemma set_backend_ok s m : heap_ok m → heap_ok (Thr.set_backend s m).
Proof. by destruct 1. Qed.
Lemma set_fds_ok n t m : heap_ok m → heap_ok (Thr.set_fds n t m).
Proof. by destruct 1. Qed.
Hint Resolve set_root_ok set_backend_ok set_fds_ok store_ok release_ok : dcfs.

(** The loop over the directory. *)
Lemma ends_search fuel n c name m d ent o :
  Dir.scan_until (Fs.names name) fuel (m_root m) = Ret (d, ent) →
  match ent with
  | Some e => ends n c (Thr.found c e) (Thr.set_root d m) o
  | None => next n c (k ← Thr.not_found c; Ret (Thr.set_root d m, k)) o
  end →
  ends (2 * fuel + n) c (Search name) m o.
Proof.
  revert m. induction fuel as [|fuel IH]; intros m Hscan Hend; [done|].
  replace (2 * Datatypes.S fuel + n)%nat with (Datatypes.S (Datatypes.S (2 * fuel + n))) by lia.
  simpl in Hscan. apply ends_enter; [done..|]. cbn [Thr.act].
  m_bind Hscan. rewrite Hm. m_run. destruct r as [d1 [e|]]; simpl in *.
  - destruct (Fs.names name e); simplify_eq; [eapply ends_mono; [|done]; lia|].
    apply (IH (Thr.set_root d1 m)); [done|]. by destruct m.
  - simplify_eq. destruct (Thr.not_found c) as [k|f]; simpl in *; [|done].
    eapply ends_mono; [|done]. lia.
Qed.

Lemma ends_listing fuel n c pre m d acc l o :
  let f := λ e, cstr (Dir.Filename e) in
  Dir.scan_all fuel (m_root m) acc = Ret (d, l) →
  ends n c (Done (RNames (pre ++ (f <$> l)) 0)) (Thr.set_root d m) o →
  ends (2 * fuel + n) c (Listing (pre ++ (f <$> acc))) m o.
Proof.
  intros f. revert m acc. induction fuel as [|fuel IH]; intros m acc Hscan Hend; [done|].
  replace (2 * Datatypes.S fuel + n)%nat with (Datatypes.S (Datatypes.S (2 * fuel + n))) by lia.
  simpl in Hscan. apply ends_enter; [done..|]. cbn [Thr.act].
  m_bind Hscan. rewrite Hm. m_run. destruct r as [d1 [e|]]; simpl.
  - replace ((pre ++ (f <$> acc)) ++ [cstr (Dir.Filename e)]) with (pre ++ (f <$> acc ++ [e]))
      by by rewrite fmap_app, (assoc_L (++)).
    apply (IH (Thr.set_root d1 m)); [done|]. by destruct m.
  - simplify_eq. apply (ends_mono n); [lia|exact Hend].
Qed.

(** The phases that the callbacks share. [F] is the rest of the callback. *)
Lemma ends_begin n c path m (F : St * option Dir.DirectoryEntry → outcome (St * reply)) :
  heap_ok m →
  (∀ d ent, let m' := Thr.set_root d m in heap_ok m' →
     match ent with
     | Some e => ends n c (Thr.found c e) m' (F (abs m', ent))
     | None => next n c (k ← Thr.not_found c; Ret (m', k)) (F (abs m', ent))
     end) →
  next (2 * Dir.scan_fuel (m_root m) + n + 2) c (Thr.begin_search path m) (Fs.find_entry path (abs m) ≫= F).
Proof.
  intros Hok HF. unfold Thr.begin_search, Fs.find_entry. destruct path as [|x name]; [done|].
  simpl Fs.path_tail. m_run. simpl root.
  pose proof (Dir.scan_until_spec (Fs.names name) (m_root m)) as Hs.
  apply wp_total in Hs as ([d ent] & Hs & _). rewrite Hs. m_run. cbn [next].
  rewrite Nat.add_comm. apply ends_enter; [done..|]. cbn [next Thr.act].
  eapply (ends_search _ _ _ _ (Thr.set_root _ m)); [exact Hs|]. exact (HF d ent (set_root_ok d m Hok)).
Qed.

Lemma ends_lookup n c h m (F : St * option bytes → outcome (St * reply)) :
  heap_ok m →
  (∀ m' a, heap_ok m' → m_table m' !! h = Some a → ends n c (Use h a) m' (F (abs m', Some h))) →
  (∀ m', heap_ok m' → next n c (k ← Thr.no_inode c; Ret (m', k)) (F (abs m', None))) →
  ends (Datatypes.S n) c (Lookup h) m (Fs.get_inode h (abs m) ≫= F).
Proof.
  intros Hok HS HN. apply ends_step; [done|]. rewrite abs_get_inode by done. simpl.
  destruct (Thr.get_inode h m) as [[m' r]|] eqn:Hg; [|done].
  apply get_inode_ok in Hg as [Hok' Ha]; [|done]. unfold Thr.got. m_run. simpl.
  destruct r as [a|]; simpl; [by apply HS; auto|by apply HN].
Qed.

Lemma ends_handle n c u path fh m (F : St * option bytes → outcome (St * reply)) :
  heap_ok m → (∀ e, Thr.found c e = Lookup (Dir.Hashname e)) → Thr.handle_of c = fh →
  (∀ m' h a, heap_ok m' → m_table m' !! h = Some a → ends n c (Use h a) m' (F (abs m', Some h))) →
  (∀ m', heap_ok m' → next n c (k ← Thr.no_inode c; Ret (m', k)) (F (abs m', None))) →
  (∀ m', heap_ok m' → next n c (k ← Thr.not_found c; Ret (m', k))
     (if u : bool then Crash Indeterminate else F (abs m', None))) →
  next (2 * Dir.scan_fuel (m_root m) + Datatypes.S n + 2) c (Thr.begin_handle path fh m)
    (Fs.find_inode u path fh (abs m) ≫= F).
Proof.
  intros Hok Hfound Hfh HS HN HU. unfold Thr.begin_handle, Fs.find_inode. simpl fd_table.
  destruct (0 <? fh).
  - cbn [next]. apply (ends_mono (Datatypes.S (Datatypes.S n))); [lia|].
    apply ends_step; [done|]. cbn [Thr.step Thr.enters Thr.act]. rewrite Hfh.
    destruct (vec_get _ _) as [h|]; [|done]. m_run. cbn [next]. by apply ends_lookup; eauto.
  - rewrite bind_assoc. apply ends_begin; [done|]. intros d [e|] m' Hok'.
    + rewrite Hfound. by apply ends_lookup; eauto.
    + specialize (HU m' Hok'). destruct (Thr.not_found c) as [k|f], u; simpl in *; try done;
        (eapply ends_mono; [|done]; lia).
Qed.

(** [alone_fuel m] steps are enough for any callback. *)
Definition alone_fuel (m : M) : nat := (2 * Dir.scan_fuel (m_root m) + 12)%nat.

Lemma ends_fd n c h m : heap_ok m →
  ends (4 + n) c (NextFd h) m
    (('(st, fd) ← Fs.new_fd h (abs m); Ret (st, 0%Z, fd)) ≫= λ '(st, r, fd), Ret (st, RHandle r fd)).
Proof.
  intros Hok. apply ends_step; [done|]. simpl. apply ends_step; [done|]. simpl.
  apply ends_enter; [done..|]. unfold Fs.new_fd. simpl. destruct (vec_set _ _ _) as [t|]; [|done]. simpl.
  apply ends_done; [by auto with dcfs|done].
Qed.

(** ** Each callback *)

Ltac one_step := apply ends_step; [done|]; cbn [Thr.step Thr.enters Thr.act].
Ltac enter := apply ends_enter; [done..|]; cbn [Thr.act].

Lemma ends_getattr m path : heap_ok m →
  ends (alone_fuel m) (CGetattr path) Start m (callback (CGetattr path) (abs m)).
Proof.
  intros Hok. apply (ends_mono (Datatypes.S (2 * Dir.scan_fuel (m_root m) + 2 + 2))); [unfold alone_fuel; lia|].
  one_step. unfold callback, Fs.dcfs_getattr, Thr.start.
  destruct (bool_decide _); [by apply ends_done|]. rewrite bind_assoc.
  apply ends_begin; [done|]. intros d [e|] m' Hok'; m_run; [|by apply ends_done].
  rewrite bind_assoc. apply ends_lookup; [done| |done].
  intros m2 a Hok2 Ha. one_step. unfold Thr.use. m_run. rewrite (abs_deref _ _ _ Hok2 Ha).
  destruct (Thr.deref a m2) as [ino|]; [|done]. by apply ends_done.
Qed.

Lemma ends_readdir m path : heap_ok m →
  ends (alone_fuel m) (CReaddir path) Start m (callback (CReaddir path) (abs m)).
Proof.
  intros Hok. apply (ends_mono (3 + (2 * Dir.scan_fuel (m_root m) + 2))); [unfold alone_fuel; lia|].
  one_step. unfold callback, Fs.dcfs_readdir, Thr.start.
  destruct (negb _); [by apply ends_done|]. cbn [next]. enter. cbn [next].
  pose proof (Dir.scan_all_spec (m_root m)) as Hs. simpl root. rewrite Hs. m_run.
  apply (ends_listing _ 2 _ [lit "."; lit ".."] (Thr.set_root _ m) (Dir.InitReaddir (m_root m)) [] _ _ Hs).
  apply ends_done; [by auto with dcfs|done].
Qed.

Lemma ends_create m path fh : heap_ok m →
  ends (alone_fuel m) (CCreate path fh) Start m (callback (CCreate path fh) (abs m)).
Proof.
  intros Hok. apply (ends_mono (Datatypes.S (2 * Dir.scan_fuel (m_root m) + 9 + 2))); [unfold alone_fuel; lia|].
  one_step. unfold callback, Fs.dcfs_create, Thr.start. rewrite bind_assoc.
  apply ends_begin; [done|]. intros d [e|] m' Hok'; m_run; [by apply ends_done|].
  rewrite bind_assoc. cbn [next Thr.not_found]. m_run. one_step.
  rewrite abs_allocate by done. unfold seen.
  destruct (Thr.allocate_inode m') as [[m2 r]|] eqn:Hal; [|done]. m_run.
  apply allocate_ok in Hal as [Hok2 Ha]; [|done]. unfold Thr.got. simpl.
  destruct r as [a|]; simpl; [|by apply ends_done].
  destruct (Ha a eq_refl) as (ino & Hino & Htab). rewrite Hino. simpl.
  rewrite (abs_deref _ _ _ Hok2 Htab). enter. unfold Thr.use, Thr.deref. rewrite Hino. m_run.
  assert (heap_ok (Thr.store a (Ino.Ref ino) m2)) as Hok3 by (apply store_ok; [done|by rewrite Hino]).
  cbn [next]. enter. unfold Thr.deref. simpl m_heap. rewrite lookup_insert_eq. m_run. cbn [Thr.path_of].
  destruct (Fs.path_tail path) as [name|]; [|done]. m_run. cbn [next].
  rewrite <-(abs_store _ _ _ _ Hok2 Htab).
  refine (ends_fd 0 _ _ (Thr.set_root _ _) _). by apply set_root_ok.
Qed.

Lemma ends_open m path fh : heap_ok m →
  ends (alone_fuel m) (COpen path fh) Start m (callback (COpen path fh) (abs m)).
Proof.
  intros Hok. apply (ends_mono (Datatypes.S (2 * Dir.scan_fuel (m_root m) + 7 + 2))); [unfold alone_fuel; lia|].
  one_step. unfold callback, Fs.dcfs_open, Thr.start. rewrite bind_assoc.
  apply ends_begin; [done|]. intros d [e|] m' Hok'; m_run; [|by apply ends_done].
  rewrite bind_assoc. apply ends_lookup; [done| |by intros; apply ends_done].
  intros m2 a Hok2 Ha. m_run. rewrite (abs_deref _ _ _ Hok2 Ha). enter. unfold Thr.use.
  destruct (Thr.deref a m2) as [ino|] eqn:Hd; [|done]. m_run. cbn [next].
  rewrite <-(abs_store _ _ _ _ Hok2 Ha). apply ends_fd, store_ok; [done|].
  exact (ho_live _ Hok2 _ _ Ha).
Qed.

Lemma ends_read m path buf size offset fh : heap_ok m →
  ends (alone_fuel m) (CRead path buf size offset fh) Start m
    (callback (CRead path buf size offset fh) (abs m)).
Proof.
  intros Hok. apply (ends_mono (Datatypes.S (2 * Dir.scan_fuel (m_root m) + 3 + 2))); [unfold alone_fuel; lia|].
  one_step. unfold callback, Fs.dcfs_read, Thr.start. rewrite bind_assoc.
  apply (ends_handle 2); [done|done|done| |by intros; apply ends_done|done].
  intros m2 h a Hok2 Ha. m_run. rewrite (abs_deref _ _ _ Hok2 Ha). enter. unfold Thr.use.
  destruct (Thr.deref a m2) as [ino|] eqn:Hd; [|done]. m_run. cbv zeta.
  destruct (_ <? _); [|by apply ends_done]. simpl backend.
  destruct (Ino.Read _ _ _ _ _) as [[[[s ino'] b] r]|]; [|done]. m_run. cbn [next].
  apply ends_done; [apply store_ok; [by apply set_backend_ok|exact (ho_live _ Hok2 _ _ Ha)]|].
  rewrite (abs_store (Thr.set_backend s m2) h) by (done || by apply set_backend_ok). by destruct r.
Qed.

Lemma ends_write m path buf size offset fh : heap_ok m →
  ends (alone_fuel m) (CWrite path buf size offset fh) Start m
    (callback (CWrite path buf size offset fh) (abs m)).
Proof.
  intros Hok. apply (ends_mono (Datatypes.S (2 * Dir.scan_fuel (m_root m) + 3 + 2))); [unfold alone_fuel; lia|].
  one_step. unfold callback, Fs.dcfs_write, Thr.start. rewrite bind_assoc.
  apply (ends_handle 2); [done|done|done| |by intros; apply ends_done|by intros; apply ends_done].
  intros m2 h a Hok2 Ha. m_run. rewrite (abs_deref _ _ _ Hok2 Ha). enter. unfold Thr.use.
  destruct (Thr.deref a m2) as [ino|] eqn:Hd; [|done]. m_run. simpl backend.
  destruct (Ino.Write _ _ _ _ _) as [[[s ino'] r]|]; [|done]. m_run. cbn [next].
  apply ends_done; [apply store_ok; [by apply set_backend_ok|exact (ho_live _ Hok2 _ _ Ha)]|].
  rewrite (abs_store (Thr.set_backend s m2) h) by (done || by apply set_backend_ok). by destruct r.
Qed.

Lemma ends_flush m path fh : heap_ok m →
  ends (alone_fuel m) (CFlush path fh) Start m (callback (CFlush path fh) (abs m)).
Proof.
  intros Hok. apply (ends_mono (Datatypes.S (2 * Dir.scan_fuel (m_root m) + 6 + 2))); [unfold alone_fuel; lia|].
  one_step. unfold callback, Fs.dcfs_flush, Thr.start. rewrite bind_assoc.
  apply (ends_handle 5); [done|done|done| |by intros; apply ends_done|by intros; apply ends_done].
  intros m2 h a Hok2 Ha. m_run. rewrite (abs_deref _ _ _ Hok2 Ha). enter. unfold Thr.use.
  destruct (Thr.deref a m2) as [ino|] eqn:Hd; [|done]. m_run. simpl backend.
  destruct (Ino.Unref _ _) as [[[s ino'] cnt]|]; [|done]. m_run. cbn [next].
  rewrite <-(abs_store (Thr.set_backend s m2) h a) by (done || by apply set_backend_ok).
  assert (heap_ok (Thr.store a ino' (Thr.set_backend s m2))) as Hok3
    by (apply store_ok; [by apply set_backend_ok|exact (ho_live _ Hok2 _ _ Ha)]).
  destruct (cnt =? 0); [|by apply ends_done]. one_step. unfold Thr.deref. simpl m_heap.
  rewrite lookup_insert_eq. m_run. rewrite <-abs_release by done.
  pose proof (release_ok _ (Hashname ino') Hok3) as Hok4.
  cbn [Thr.handle_of]. destruct (0 <? fh); [|by apply ends_done]. cbn [next]. enter.
  cbn [Thr.handle_of]. simpl fd_table. destruct (vec_set _ _ _) as [t|]; [|done]. m_run.
  apply ends_done; [by apply set_fds_ok|done].
Qed.

Lemma ends_callback c m : heap_ok m → ends (alone_fuel m) c Start m (callback c (abs m)).
Proof.
  destruct c; auto using ends_getattr, ends_readdir, ends_create, ends_open, ends_read, ends_write,
    ends_flush.
Qed.

(** C15. The steps of a callback make up the callback: when no other thread
    takes a step in between, the callback comes to its end within twice
    the number of directory entries and fourteen more steps, and its outcome,
    the reply, the state behind the memory or the fault that stops the process,
    is the one that the definition of the callback in [Dcfs.v] gives. *)
Theorem callbacks_alone c m :
  heap_ok m →
  ∃ o, Thr.alone (alone_fuel m) c Start m = Some o ∧ seen (λ _ r, r) o = callback c (abs m).
Proof. intros (o & Ho & Hs & _)%(ends_callback c). by exists o. Qed.

(** ** One call at a time *)

Lemma init_ok kb s : heap_ok (Thr.init kb s).
Proof. split; simpl; intros *; rewrite ?lookup_empty; done. Qed.

Lemma abs_init kb s : abs (Thr.init kb s) = Fs.dcfs_init kb s.
Proof. reflexivity. Qed.

Lemma callback_step c st st' r : callback c st = Ret (st', r) → fs_step st st'.
Proof.
  destruct c; simpl; intros Hrun; m_bind Hrun; repeat case_match; simplify_eq; eauto using fs_step.
Qed.

Definition idle (ts : list Thr.thread) : Prop := ∀ t, t ∈ ts → Thr.finished t.2 = true.

(** The kernel waits for the answer before it calls again. *)
Inductive serial_step : list Thr.thread * M → list Thr.thread * M → Prop :=
  | serial_call ts m c : idle ts → serial_step (ts, m) (ts ++ [(c, Start)], m)
  | serial_run ts m i c k m' k' :
      ts !! i = Some (c, k) → Thr.finished k = false → Thr.step c k m = Ret (m', k') →
      serial_step (ts, m) (<[i := (c, k')]> ts, m').

Lemma schedule_serial sched ts m x :
  Thr.schedule sched ts m = Ret x → rtc serial_step (ts, m) x.
Proof.
  revert ts m. induction sched as [|i sched IH]; intros ts m; simpl; [by intros [= <-]|].
  destruct (ts !! i) as [[c k]|] eqn:Hi; [|apply IH].
  destruct (Thr.finished k) eqn:Hk; [apply IH|].
  destruct (Thr.racing ts i) eqn:Hrace; [done|]. intros Hr. m_bind Hr. destruct r as [m' k'].
  eapply rtc_l; [by eapply serial_run|by apply IH].
Qed.

(** The runs of the sequential file system: a list of calls with their answers
    leads to a state when each callback, in the state that the ones before it
    have left, gives its answer. *)
Inductive sequential kb (s : S) : list (call * reply) → St → Prop :=
  | seq_init : sequential kb s [] (Fs.dcfs_init kb s)
  | seq_call l c r st st' :
      sequential kb s l st → callback c st = Ret (st', r) → sequential kb s (l ++ [(c, r)]) st'.

Lemma sequential_reachable kb s l st : sequential kb s l st → reachable kb s st.
Proof. induction 1; [apply reach_init|]. eapply reach_step; [done|by eapply callback_step]. Qed.

(** The threads of calls that are answered. *)
Definition ended (l : list (call * reply)) : list Thr.thread := (λ x, (x.1, Done x.2)) <$> l.

Lemma ended_idle l : idle (ended l).
Proof. intros t Ht. apply list_elem_of_fmap in Ht as ([c r] & -> & _). done. Qed.

(** All calls are answered, or one is on its way. *)
Definition serial_inv kb (s : S) (x : list Thr.thread * M) : Prop :=
  (∃ l, x.1 = ended l ∧ sequential kb s l (abs x.2) ∧ heap_ok x.2) ∨
  ∃ l c k m0 n, x.1 = ended l ++ [(c, k)] ∧ Thr.finished k = false ∧
    sequential kb s l (abs m0) ∧ heap_ok m0 ∧
    ∀ n', Thr.alone (n + n') c Start m0 = Thr.alone n' c k x.2.

Lemma alone_done n c r m : Thr.alone n c (Done r) m = Some (Ret (m, r)).
Proof. by destruct n. Qed.

Lemma serial_finish m0 m c r n :
  heap_ok m0 → (∀ n', Thr.alone (n + n') c Start m0 = Thr.alone n' c (Done r) m) →
  heap_ok m ∧ callback c (abs m0) = Ret (abs m, r).
Proof.
  intros Hok Hrun. destruct (ends_callback c m0 Hok) as (o & Ho & Hs & Hend).
  assert (o = Ret (m, r)) as ->.
  { specialize (Hrun (alone_fuel m0)). rewrite alone_done in Hrun.
    apply (alone_mono _ (n + alone_fuel m0)) in Ho; [|lia]. congruence. }
  split; [by eapply Hend|done].
Qed.

Lemma idle_app ts t : idle (ts ++ [t]) ↔ idle ts ∧ Thr.finished t.2 = true.
Proof.
  unfold idle. setoid_rewrite elem_of_app. setoid_rewrite list_elem_of_singleton. split.
  - intros Hx. split; [intros x Hin; apply Hx; by left|apply Hx; by right].
  - intros [Hx Ht] x [Hin| ->]; auto.
Qed.

Lemma serial_inv_step kb s x y : serial_inv kb s x → serial_step x y → serial_inv kb s y.
Proof.
  intros Hinv Hstep. destruct Hstep as [ts m c Hidle|ts m i c k m' k' Hi Hk Hs];
    destruct Hinv as [(l & Hts & Hr & Hok)|(l & c0 & k0 & m0 & n & Hts & Hf & Hr & Hok & Hal)];
    simpl in *; subst.
  - right. by exists l, c, Start, m, 0%nat.
  - apply idle_app in Hidle as [_ Hx]. simpl in Hx. congruence.
  - apply list_elem_of_lookup_2, ended_idle in Hi. simpl in Hi. congruence.
  - assert (i = length (ended l)) as ->.
    { apply lookup_app_Some in Hi as [Hi|[Hle Hi]].
      - apply list_elem_of_lookup_2, ended_idle in Hi. simpl in Hi. congruence.
      - apply list_lookup_singleton_Some in Hi as [Hz%Nat.sub_0_le _]. by apply Nat.le_antisymm. }
    rewrite lookup_app_r, Nat.sub_diag in Hi by done. simpl in Hi. simplify_eq.
    rewrite insert_app_r_alt, Nat.sub_diag by done. simpl.
    assert (∀ n', Thr.alone (Datatypes.S n + n') c Start m0 = Thr.alone n' c k' m') as Hal'.
    { intros n'. rewrite Nat.add_succ_comm, Hal, alone_step, Hs by done. done. }
    destruct (Thr.finished k') eqn:Hk'; [|right; by exists l, c, k', m0, (Datatypes.S n)].
    destruct k' as [| | | | | | | | | | | | | | |r]; try done. left. exists (l ++ [(c, r)]).
    destruct (serial_finish m0 m' c r (Datatypes.S n) Hok Hal') as [Hok' Hcb].
    split; [unfold ended; by rewrite fmap_app|]. split; [by eapply seq_call|done].
Qed.

(** C16. While the kernel waits for each answer before it makes the next call,
    the threads refine the sequential file system: whenever no call is on its
    way, all calls that were made are answered, and they are, in the order in
    which they were made and with these answers, a run of whole callbacks that
    starts with [dcfs_init] and leads to the state behind the memory. *)
Theorem serial_runs kb s ts m :
  rtc serial_step ([], Thr.init kb s) (ts, m) → idle ts →
  ∃ l, ts = ended l ∧ sequential kb s l (abs m) ∧ reachable kb s (abs m).
Proof.
  intros Hrun Hidle.
  assert (serial_inv kb s (ts, m)) as [(l & Hts & Hr & _)|Hmid].
  { eapply (rtc_ind_r (λ y, serial_inv kb s y)); [| |exact Hrun].
    - left. exists []. split; [done|]. split; [apply seq_init|apply init_ok].
    - intros y z _ Hyz Hy. by eapply serial_inv_step. }
  - exists l. split; [done|]. split; [done|by eapply sequential_reachable].
  - destruct Hmid as (l & c & k & m0 & n & Hts & Hf & _). simpl in Hts. subst ts.
    apply idle_app in Hidle as [_ Hx]. simpl in Hx. congruence.
Qed.
End threads.
