(* ===== verification/ThreadInv.v ===== *)
(** * What every interleaving keeps

    The steps of all threads in any order, and any allocator: the effects a step
    can have on the shared memory, the invariants they keep, and what the mutex
    over the inode table is good for. *)

From Stdlib Require Import NArith ZArith Lia.
From Stdlib Require Import Strings.String.
From stdpp Require Import base list gmap.
From S2P Require Import Prelude Const Dir Crypto Capsule Backend Cache Dcfs DcfsSpec Threads ThreadSpec.

Section interleavings.
Context `{OpenSSL} `{AllocatorLaws} {S : Type} `{Storage S}.
Abbreviation M := (memory S).
Local Open Scope N_scope.
Implicit Types (m : M) (c : call) (k : point) (ts : list Thr.thread).

(** ** Runs *)

Lemma calls_run (cs : list call) m : rtc Thr.pool_step ([], m) ((λ c, (c, Start)) <$> cs, m).
Proof.
  induction cs as [|c cs IH] using rev_ind; [done|]. rewrite fmap_app.
  eapply rtc_r; [exact IH|]. apply Thr.pool_call.
Qed.

Lemma schedule_runs sched ts m x :
  Thr.schedule sched ts m = Ret x → rtc Thr.pool_step (ts, m) x.
Proof.
  revert ts m. induction sched as [|i sched IH]; intros ts m; simpl; [by intros [= <-]|].
  destruct (ts !! i) as [[c k]|] eqn:Hi; [|apply IH].
  destruct (Thr.finished k) eqn:Hk; [apply IH|].
  destruct (Thr.racing ts i) eqn:Hrace; [done|]. intros Hr. m_bind Hr. destruct r as [m' k'].
  eapply rtc_l; [by eapply Thr.pool_run|by apply IH].
Qed.

(** Some calls are made, and their steps come in the order of [sched]. *)
Definition run_calls (kb : N) (s : S) (cs : list call) (sched : list nat) :
    outcome (list Thr.thread * M) :=
  Thr.schedule sched ((λ c, (c, Start)) <$> cs) (Thr.init kb s).

Lemma run_calls_reached kb s cs sched x :
  run_calls kb s cs sched = Ret x → rtc Thr.pool_step ([], Thr.init kb s) x.
Proof. intros Hr%schedule_runs. etrans; [apply calls_run|done]. Qed.

(** ** Effects *)

Inductive effect (k : point) (m : M) : M → Prop :=
  | eff_none : effect k m m
  | eff_dir d : effect k m (Thr.set_root d m)
  | eff_backend s : effect k m (Thr.set_backend s m)
  | eff_store a ino ino' s :
      m_heap m !! a = Some ino → Hashname ino' = Hashname ino →
      effect k m (Thr.store a ino' (Thr.set_backend s m))
  | eff_new h ino s :
      Hashname ino = h →
      (m_table m !! h = None ∨
       k = Allocate ∧ ∃ key, CreateNewFile (m_backend m) = Ret (s, inr (h, key))) →
      effect k m (Thr.new_inode h ino (Thr.set_backend s m))
  | eff_release a ino :
      m_heap m !! a = Some ino → effect k m (Thr.release_inode (Hashname ino) m)
  | eff_fds n t : effect k m (Thr.set_fds n t m).
Hint Constructors effect : dcfs.

Lemma begin_search_memory path m m' k' : Thr.begin_search path m = Ret (m', k') → m' = m.
Proof. unfold Thr.begin_search. intros Hr. m_bind Hr. by simplify_eq. Qed.

Lemma start_memory c m m' k' : Thr.start c m = Ret (m', k') → m' = m.
Proof.
  assert (∀ path fh, Thr.begin_handle path fh m = Ret (m', k') → m' = m) as Hh.
  { intros path fh. unfold Thr.begin_handle. destruct (_ <? _); [by intros [= <-]|].
    apply begin_search_memory. }
  unfold Thr.start. intros Hr. destruct c; eauto using begin_search_memory.
  - destruct (bool_decide _); [by simplify_eq|by eapply begin_search_memory].
  - destruct (negb _); by simplify_eq.
Qed.

Lemma got_memory c h r m' k' : Thr.got c h r = Ret (m', k') → m' = r.1.
Proof. unfold Thr.got. intros Hr. destruct r.2; [by simplify_eq|]. m_bind Hr. by simplify_eq. Qed.

Lemma get_inode_effect k h m m' r : Thr.get_inode h m = Ret (m', r) → effect k m m'.
Proof.
  unfold Thr.get_inode. intros Hr. destruct (m_table m !! h) eqn:Ht; [simplify_eq; constructor|].
  m_bind Hr. destruct r0 as [s [e|fm]]; [simplify_eq; constructor|]. m_bind Hr. simplify_eq.
  constructor; [by eapply new_Inode_name|by left].
Qed.

Lemma allocate_effect m m' r : Thr.allocate_inode m = Ret (m', r) → effect Allocate m m'.
Proof.
  unfold Thr.allocate_inode. intros Hr. m_bind Hr.
  destruct r0 as [s [e|[h key]]]; [simplify_eq; constructor|]. m_bind Hr. simplify_eq.
  constructor; [unfold fresh_Inode in Hm0; m_bind Hm0; by simplify_eq|]. right. by eauto.
Qed.

Lemma set_backend_same m : Thr.set_backend (m_backend m) m = m.
Proof. by destruct m. Qed.

Lemma use_effect k c ent a m m' k' : Thr.use c ent a m = Ret (m', k') → effect k m m'.
Proof.
  unfold Thr.use, Thr.deref. intros Hr. destruct (m_heap m !! a) as [ino|] eqn:Ha; [|done].
  m_run in Hr. destruct c.
  - simplify_eq. constructor.
  - done.
  - simplify_eq. rewrite <-(set_backend_same m) at 2. by econstructor.
  - simplify_eq. rewrite <-(set_backend_same m) at 2. by econstructor.
  - cbv zeta in Hr. destruct (_ <? _); [|simplify_eq; constructor]. m_bind Hr.
    destruct r as [[[s ino'] b] r]. simplify_eq. econstructor; [done|by eapply Read_name].
  - m_bind Hr. destruct r as [[s ino'] r]. simplify_eq. econstructor; [done|by eapply Write_name].
  - m_bind Hr. destruct r as [[s ino'] n]. simplify_eq. econstructor; [done|by eapply Unref_name].
Qed.

Lemma act_effect c k m m' k' : Thr.act c k m = Ret (m', k') → effect k m m'.
Proof.
  destruct k; cbn [Thr.act]; intros Hr.
  - apply start_memory in Hr as ->. constructor.
  - simplify_eq. constructor.
  - m_bind Hr. destruct r as [d [e|]]; [|m_bind Hr]; simplify_eq; constructor.
  - m_bind Hr. destruct r as [d [e|]]; simplify_eq; constructor.
  - m_bind Hr. simplify_eq. constructor.
  - m_bind Hr. destruct r as [m1 r]. apply got_memory in Hr as ->. by eapply get_inode_effect.
  - m_bind Hr. destruct r as [m1 r]. apply got_memory in Hr as ->. by eapply allocate_effect.
  - by eapply use_effect.
  - m_bind Hr. m_bind Hr. simplify_eq. constructor.
  - simplify_eq. constructor.
  - simplify_eq. constructor.
  - m_bind Hr. simplify_eq. constructor.
  - m_bind Hr. unfold Thr.deref in Hm. destruct (m_heap m !! a) eqn:Ha; [|done]. simplify_eq. by eapply eff_release.
  - m_bind Hr. simplify_eq. constructor.
  - simplify_eq. constructor.
  - simplify_eq. constructor.
Qed.

(** Where a thread is, inside a function or not. *)
Definition at_point (k : point) : point := match k with Inside k => k | _ => k end.

Lemma step_effect c k m m' k' : Thr.step c k m = Ret (m', k') → effect (at_point k) m m'.
Proof.
  destruct k; cbn [Thr.step Thr.enters at_point]; try apply act_effect; repeat case_match;
    try apply act_effect; intros; simplify_eq; constructor.
Qed.

(** ** The memory *)

(** Every pointer in the table leads to an object that is allocated and has the
    name it is filed under. *)
Record table_ok (m : M) : Prop := {
  to_heap : heap_ok m;
  to_name h a ino : m_table m !! h = Some a → m_heap m !! a = Some ino → Hashname ino = h;
}.

Lemma effect_heap_ok k m m' : effect k m m' → heap_ok m → heap_ok m'.
Proof.
  intros [] Hh; try done; try by auto using set_root_ok, set_backend_ok, set_fds_ok.
  - apply store_ok; [by apply set_backend_ok|by eexists].
  - by apply new_inode_ok, set_backend_ok.
  - by apply release_ok.
Qed.

Lemma effect_ok k m m' : effect k m m' → table_ok m → table_ok m'.
Proof.
  intros He [Hh Hn]. split; [by eapply effect_heap_ok|].
  destruct He as [| | |a ino ino' s Ha Hi|h ino s Hi _|a ino Ha|]; try done.
  - intros h b i Hb. simpl in *. rewrite lookup_insert. case_decide; [|by apply Hn].
    subst b. intros [= <-]. rewrite Hi. by eapply Hn.
  - intros h' b i. simpl. rewrite lookup_insert. case_decide.
    + intros [= <-]. rewrite lookup_insert_eq. by intros [= <-]; subst.
    + intros Hb. rewrite lookup_insert_ne; [by apply Hn|].
      symmetry.
      eapply new_address_unfiled; [by apply set_backend_ok|done].
  - unfold Thr.release_inode. destruct (m_table m !! Hashname ino) as [b|]; [|done].
    intros h x i. simpl.
    intros [_ Hx]%lookup_delete_Some [_ Hi]%lookup_delete_Some. by eapply Hn.
Qed.

(** C17. In every interleaving of the callbacks' steps, however many threads
    there are and whatever addresses the allocator reuses: the table of inodes
    has no pointer to an inode that was deleted, every inode in it is filed
    under its own name, and two names never share an inode. *)
Theorem interleavings_keep kb s ts m :
  rtc Thr.pool_step ([], Thr.init kb s) (ts, m) → table_ok m.
Proof.
  apply (rtc_ind_r (λ y : list Thr.thread * M, table_ok y.2)).
  - split; [apply init_ok|]. intros h a ino. simpl. by rewrite lookup_empty.
  - intros y z _ [|ts1 m1 i c k m2 k' _ _ _ Hs%step_effect]; [done|].
    by eapply effect_ok.
Qed.

(** ** One object per file *)

(** Every object that is allocated is the one that the table has under its
    name. *)
Definition filed (m : M) : Prop :=
  ∀ a ino, m_heap m !! a = Some ino → m_table m !! Hashname ino = Some a.

Lemma release_filed m h : heap_ok m → filed m → filed (Thr.release_inode h m).
Proof.
  intros Hok Hf. unfold Thr.release_inode. destruct (m_table m !! h) as [a|] eqn:Ha; [|done].
  intros b ino. simpl. intros [Hne Hb]%lookup_delete_Some. rewrite lookup_delete_ne; [by apply Hf|].
  intros ->. apply Hf in Hb. congruence.
Qed.

Lemma effect_filed k m m' :
  (k = Allocate → ∀ s h key, CreateNewFile (m_backend m) = Ret (s, inr (h, key)) → m_table m !! h = None) →
  effect k m m' → heap_ok m → filed m → filed m'.
Proof.
  intros Hfresh He Hok Hf. destruct He as [| | |a ino ino' s Ha Hn|h ino s Hn Hnew|a ino Ha|]; try done.
  - intros b i. simpl. rewrite lookup_insert. case_decide; [|apply Hf].
    subst b. intros [= <-]. rewrite Hn. by apply Hf.
  - assert (m_table m !! h = None) as Hnone by (destruct Hnew as [?|[-> (key & Hc)]]; [done|by eapply Hfresh]).
    intros b i. simpl. rewrite lookup_insert. case_decide as Hb.
    + intros [= <-]. rewrite Hn, lookup_insert_eq. by subst.
    + intros Hi. apply Hf in Hi. rewrite lookup_insert_ne; [done|]. intros ->. congruence.
  - by apply release_filed.
Qed.

(** No new capsule has the name of a file that is in memory. *)
Definition fresh_names (x : list Thr.thread * M) : Prop :=
  ∀ c k s h key, (c, k) ∈ x.1 → at_point k = Allocate →
    CreateNewFile (m_backend x.2) = Ret (s, inr (h, key)) → m_table x.2 !! h = None.

(** C18. What the lock over the inode table is for: in every interleaving in
    in which new capsules get new names, and whatever addresses the allocator
    reuses, a file never has two objects in memory, so that all threads that use
    it share one cache and one count of references, and a file that is opened
    while another thread is still loading it is not loaded twice. *)
Theorem one_object_per_file kb s ts m a b i j :
  rtc (λ x y, fresh_names x ∧ Thr.pool_step x y) ([], Thr.init kb s) (ts, m) →
  m_heap m !! a = Some i → m_heap m !! b = Some j → Hashname i = Hashname j → a = b.
Proof.
  intros Hrun Hi Hj Hn.
  assert (heap_ok m ∧ filed m) as [_ Hf].
  { apply (rtc_ind_r (λ y : list Thr.thread * M, heap_ok y.2 ∧ filed y.2)) in Hrun; [done| |].
    - split; [apply init_ok|]. intros x ino. simpl. by rewrite lookup_empty.
    - intros y z _ [Hfresh Hyz] [Hok Hf].
      destruct Hyz as [|ts1 m1 i1 c k m2 k' Hk _ _ Hs%step_effect]; [done|]. simpl in *.
      split; [by eapply effect_heap_ok|].
      eapply effect_filed; [|done..]. intros Hal s' h key. eapply (Hfresh c k); [|done].
      by eapply list_elem_of_lookup_2. }
  apply Hf in Hi, Hj. congruence.
Qed.
End interleavings.
