(* ===== verification/ClientComm.v ===== *)
(** * The network client's sockets: [src/dc-client/client_comm.hpp],
    [src/dc-client/client_comm.cpp] and [src/dc-client/dc_config.hpp]

    [ClientComm] knows the addresses of the DataCapsule servers, sends records
    and requests to them, and counts acknowledgements. ZeroMQ is outside: a
    socket is the endpoint it is connected to, and what is sent is the list of
    (endpoint, message) pairs handed to it. The configuration is
    [OUTGOING_MODE == 1], so the proxy's socket is never used. *)

From Stdlib Require Import NArith ZArith Lia.
From Stdlib Require Import Strings.String.
From stdpp Require Import base list gmap.
From S2P Require Import Prelude Const Encode Options Middleware.

(** ** [dc_config.hpp] *)
Definition NET_DC_SERVER_BASE_PORT : N := 4001.
Definition NET_SERVE_PORT : N := 4300.
Definition WRITE_THRESHOLD : Z := 1.
Definition REPLICATION_ACK : bytes := lit "REPLICATION_ACK".
Definition INIT_DC_SERVER_ID : N := 101.
Definition NET_CLIENT_RECV_GET_RESP_PORT : N := 5101.

Module Comm.

(** ** The standard library's string functions *)

(** [s.find(c, from)] for a delimiter of one character. *)
Fixpoint find_from (c : byte) (s : bytes) (i : nat) : option nat :=
  match s with
  | [] => None
  | x :: s' => if decide (x = c) then Some i else find_from c s' (S i)
  end.
Definition find (c : byte) (s : bytes) (from : nat) : option nat :=
  find_from c (drop from s) from.

(** [s.substr(pos, n)]; [None] for [npos]. *)
Definition substr (s : bytes) (pos : nat) (n : option nat) : outcome bytes :=
  if decide (pos ≤ length s)%nat then
    Ret (match n with Some n => take n (drop pos s) | None => drop pos s end)
  else Crash Thrown.

(** [std::stoi(s)]: white space, a sign, decimal digits; it throws when there
    is no digit or the value does not fit an [int]. *)
Definition dec_value (c : byte) : option Z :=
  let n := Z.of_N (Byte.to_N c) in
  if ((48 <=? n) && (n <=? 57))%Z then Some (n - 48)%Z else None.

Fixpoint dec_read (acc : Z) (s : bytes) : Z :=
  match s with
  | c :: s' => match dec_value c with Some d => dec_read (acc * 10 + d) s' | None => acc end
  | [] => acc
  end.

Definition stoi_unsigned (s : bytes) : option Z :=
  match s with
  | c :: _ => match dec_value c with Some _ => Some (dec_read 0 s) | None => None end
  | [] => None
  end.

Definition stoi (s : bytes) : outcome Z :=
  let s := Encode.skip_spaces s in
  let v := match s with
           | c :: s' => if decide (c = Byte.x2d) then Z.opp <$> stoi_unsigned s'
                        else if decide (c = Byte.x2b) then stoi_unsigned s'
                        else stoi_unsigned s
           | [] => None
           end in
  match v with
  | Some z => if ((-2147483648 <=? z) && (z <=? 2147483647))%Z then Ret z else Crash Thrown
  | None => Crash Thrown
  end.

(** ** The list of servers: "ip:count,ip:count,..." *)

(** Lines 46-47 and 51-52. Without a colon [pos] is [npos], and both parts are
    the whole string. *)
Definition ip_count (s : bytes) : outcome (bytes * Z) :=
  match find Byte.x3a s 0 with
  | Some pos =>
      ip ← substr s 0 (Some pos);
      count ← substr s (pos + 1) None;
      n ← stoi count; Ret (ip, n)
  | None => n ← stoi s; Ret (s, n)
  end.

(** Lines 43-52: every round starts behind the comma of the one before. *)
Fixpoint server_list (fuel : nat) (server_ips : bytes) (last : nat) (acc : list (bytes * Z)) :
    outcome (list (bytes * Z)) :=
  match fuel with
  | O => Crash OutOfFuel
  | S fuel' =>
      match find Byte.x2c server_ips last with
      | Some next =>
          s ← substr server_ips last (Some (next - last)%nat);
          p ← ip_count s;
          server_list fuel' server_ips (next + 1) (acc ++ [p])
      | None =>
          s ← substr server_ips last None;
          p ← ip_count s;
          Ret (acc ++ [p])
      end
  end.

Definition parse_servers (server_ips : bytes) : outcome (list (bytes * Z)) :=
  server_list (S (length server_ips)) server_ips 0 [].

(** ** The object *)
Record ClientComm := MkComm {
  m_ip : bytes;
  m_recv_ack_port : bytes;
  m_recv_ack_addr : bytes;
  m_recv_get_resp_port : bytes;
  m_recv_get_resp_addr : bytes;
  m_dc_server_dc_sockets : gmap (list Byte.byte) (list Byte.byte);
  m_dc_server_serve_sockets : gmap (list Byte.byte) (list Byte.byte);
  m_recv_ack_map : gmap (list Byte.byte) Z;   (* an [int] per name, too small for 2^31 of them *)
  outbox : list (bytes * bytes);
}.

(** Lines 56-67, 72-83: a socket per server; [emplace] keeps the first one. *)
Definition server_addr (base : N) (ip : bytes) (i : N) : bytes :=
  ip ++ lit ":" ++ to_string (base + i).

Definition emplace_socket (addr : bytes) (m : gmap (list Byte.byte) (list Byte.byte)) :
    gmap (list Byte.byte) (list Byte.byte) :=
  match m !! addr with Some _ => m | None => <[addr := lit "tcp://" ++ addr]> m end.

Definition server_addrs (base : N) (p : bytes * Z) : list bytes :=
  (λ k, server_addr base p.1 (INIT_DC_SERVER_ID + N.of_nat k)) <$> seq 0 (Z.to_nat p.2).

(** [p.second + INIT_DC_SERVER_ID] or [base + i] is too large for an [int]. *)
Definition int_overflow (base : N) (p : bytes * Z) : bool :=
  (2147483647 <? Z.of_N (base + INIT_DC_SERVER_ID) + p.2 - 1)%Z ||
  (2147483647 <? Z.of_N INIT_DC_SERVER_ID + p.2)%Z.

Definition connect_all (base : N) (l : list (bytes * Z)) :
    outcome (gmap (list Byte.byte) (list Byte.byte)) :=
  if existsb (int_overflow base) l then Crash Unspecified
  else Ret (foldl (λ m addr, emplace_socket addr m) ∅ (l ≫= server_addrs base)).

(** [ClientComm(ip, client_id, dc_client)] *)
Definition new_ClientComm (ip : bytes) (client_id : N) (server_ips : bytes) : outcome ClientComm :=
  if decide (ip = []) then Crash Exited
  else if decide (server_ips = []) then Crash Exited
  else
    let ack_port := to_string (NET_CLIENT_RECV_ACK_PORT + client_id) in
    let resp_port := to_string (NET_CLIENT_RECV_GET_RESP_PORT + client_id) in
    l ← parse_servers server_ips;
    dc_sockets ← connect_all NET_DC_SERVER_BASE_PORT l;
    serve_sockets ← connect_all NET_SERVE_PORT l;
    Ret (MkComm ip ack_port (ip ++ lit ":" ++ ack_port) resp_port (ip ++ lit ":" ++ resp_port)
           dc_sockets serve_sockets ∅ []).

Definition send (l : list (bytes * bytes)) (c : ClientComm) : ClientComm :=
  MkComm (m_ip c) (m_recv_ack_port c) (m_recv_ack_addr c) (m_recv_get_resp_port c)
    (m_recv_get_resp_addr c) (m_dc_server_dc_sockets c) (m_dc_server_serve_sockets c)
    (m_recv_ack_map c) (outbox c ++ l).
Definition set_acks (m : gmap (list Byte.byte) Z) (c : ClientComm) : ClientComm :=
  MkComm (m_ip c) (m_recv_ack_port c) (m_recv_ack_addr c) (m_recv_get_resp_port c)
    (m_recv_get_resp_addr c) (m_dc_server_dc_sockets c) (m_dc_server_serve_sockets c)
    m (outbox c).

(** [mcast_dc]: one copy per server (the order of an [unordered_map] is
    unspecified; here it is that of [map_to_list]). *)
Definition mcast_dc (msg : bytes) (c : ClientComm) : ClientComm :=
  send ((λ p, (p.2, msg)) <$> map_to_list (m_dc_server_dc_sockets c)) c.

(** [send_get_req]: to the server number [rand() % size()]. *)
Definition send_get_req (rand : N) (msg : bytes) (c : ClientComm) : outcome ClientComm :=
  let servers := map_to_list (m_dc_server_serve_sockets c) in
  i ← umod rand (nlen servers);
  p ← vec_get servers i;
  Ret (send [(p.2, msg)] c).

(** ** Correctness of the parser *)

(** A list of servers as the user writes it. *)
Definition print_server (p : bytes * N) : bytes := p.1 ++ lit ":" ++ to_string p.2.

Fixpoint print_servers (l : list (bytes * N)) : bytes :=
  match l with
  | [] => []
  | [p] => print_server p
  | p :: l' => print_server p ++ lit "," ++ print_servers l'
  end.

Lemma find_from_app c a b i :
  c ∉ a → find_from c (a ++ c :: b) i = Some (i + length a)%nat.
Proof.
  revert i. induction a as [|x a IH]; intros i Ha; simpl.
  - by rewrite decide_True, Nat.add_0_r.
  - apply not_elem_of_cons in Ha as [Hx Ha]. rewrite decide_False by congruence.
    rewrite IH by done. f_equal. lia.
Qed.

Lemma find_from_None c a i : c ∉ a → find_from c a i = None.
Proof.
  revert i. induction a as [|x a IH]; intros i Ha; [done|]. simpl.
  apply not_elem_of_cons in Ha as [Hx Ha]. rewrite decide_False by congruence. by apply IH.
Qed.

(** Decimal digits are read back. *)
Definition is_digit (c : byte) : Prop := (48 ≤ Byte.to_N c ≤ 57)%N.

Lemma dec_digit_spec n :
  is_digit (dec_digit n) ∧ dec_value (dec_digit n) = Some (Z.of_N (n `mod` 10)).
Proof.
  unfold dec_digit, is_digit, dec_value.
  assert (n `mod` 10 < 10)%N as Hlt by by apply N.mod_lt.
  generalize dependent (n `mod` 10)%N. intros r Hlt.
  destruct (byte_of_N_small (48 + r)) as (b & -> & Hb); [lia|]. simpl. rewrite Hb.
  split; [lia|].
  rewrite (proj2 (Z.leb_le _ _)), (proj2 (Z.leb_le _ _)) by lia. simpl. f_equal. lia.
Qed.

Lemma dec_read_digits s acc : Forall is_digit s →
  dec_read acc s = (acc * 10 ^ Z.of_nat (length s) + dec_read 0 s)%Z.
Proof.
  intros Hs. revert acc. induction Hs as [|c s Hc _ IH]; intros acc.
  { simpl. lia. }
  cbn [dec_read length]. unfold dec_value.
  rewrite (proj2 (Z.leb_le _ _)), (proj2 (Z.leb_le _ _)) by (unfold is_digit in Hc; lia).
  cbn [andb]. rewrite IH, (IH (0 * 10 + _)%Z).
  rewrite Nat2Z.inj_succ, Z.pow_succ_r by lia. ring.
Qed.

Lemma dec_digits_spec fuel n acc :
  (n < 10 ^ N.of_nat fuel)%N → Forall is_digit acc →
  Forall is_digit (dec_digits fuel n acc) ∧
  dec_read 0 (dec_digits fuel n acc) =
    (Z.of_N n * 10 ^ Z.of_nat (length acc) + dec_read 0 acc)%Z.
Proof.
  revert n acc. induction fuel as [|fuel IH]; intros n acc Hn Hacc; simpl.
  { simpl in Hn. assert (n = 0)%N as -> by lia. by split. }
  destruct (dec_digit_spec n) as [Hd Hv].
  assert (dec_read 0 (dec_digit n :: acc) =
    (Z.of_N (n `mod` 10) * 10 ^ Z.of_nat (length acc) + dec_read 0 acc)%Z) as Hone.
  { cbn [dec_read]. rewrite Hv. rewrite dec_read_digits by done. f_equal. }
  destruct (N.ltb_spec n 10).
  - split; [by constructor|]. rewrite Hone. by rewrite N.mod_small.
  - assert (n `div` 10 < 10 ^ N.of_nat fuel)%N as Hq.
    { apply N.Div0.div_lt_upper_bound. rewrite Nat2N.inj_succ, N.pow_succ_r in Hn by lia. lia. }
    destruct (IH (n / 10)%N (dec_digit n :: acc) Hq) as [Hall Hval]; [by constructor|].
    split; [done|]. rewrite Hval, Hone. cbn [length].
    rewrite Nat2Z.inj_succ, Z.pow_succ_r by lia.
    pose proof (N.div_mod n 10 ltac:(done)) as Hdm.
    rewrite Hdm at 3. rewrite N2Z.inj_add, N2Z.inj_mul. simpl (Z.of_N 10). ring.
Qed.

Lemma to_string_spec n :
  Forall is_digit (to_string n) ∧ dec_read 0 (to_string n) = Z.of_N n.
Proof.
  destruct (dec_digits_spec (S (N.to_nat (N.log2 n))) n []) as [Ha Hv].
  - destruct (decide (n = 0)%N) as [->|Hn]; [done|].
    eapply N.lt_le_trans; [apply N.log2_spec; lia|].
    rewrite Nat2N.inj_succ, N2Nat.id. apply N.pow_le_mono_l. lia.
  - constructor.
  - split; [done|]. unfold to_string. rewrite Hv. simpl. lia.
Qed.

Lemma dec_digits_cons fuel n acc : ∃ c s, dec_digits (S fuel) n acc = c :: s.
Proof.
  revert n acc. induction fuel as [|fuel IH]; intros n acc; cbn [dec_digits].
  - destruct (_ <? _)%N; eauto.
  - destruct (_ <? _)%N; [eauto|apply IH].
Qed.

Lemma stoi_to_string n : (n ≤ 2147483647)%N → stoi (to_string n) = Ret (Z.of_N n).
Proof.
  intros Hn. destruct (to_string_spec n) as [Hd Hv].
  destruct (dec_digits_cons (N.to_nat (N.log2 n)) n []) as (c & s & Hcs).
  fold (to_string n) in Hcs. rewrite Hcs in *. apply Forall_cons in Hd as [Hc _].
  unfold stoi, is_digit in *.
  assert (Encode.skip_spaces (c :: s) = c :: s) as ->.
  { simpl. unfold Encode.is_space. rewrite (proj2 (N.eqb_neq _ _)), (proj2 (N.leb_gt _ 13)) by lia.
    by rewrite andb_false_r. }
  rewrite !decide_False by (intros ->; vm_compute in Hc; destruct Hc as [[] _] || destruct Hc; done).
  unfold stoi_unsigned.
  assert (dec_value c = Some (Z.of_N (Byte.to_N c) - 48)%Z) as ->.
  { unfold dec_value. by rewrite (proj2 (Z.leb_le _ _)), (proj2 (Z.leb_le _ _)) by lia. }
  rewrite Hv, (proj2 (Z.leb_le _ _)), (proj2 (Z.leb_le _ _)) by lia. done.
Qed.

Lemma digits_free c n : (Byte.to_N c < 48)%N ∨ (57 < Byte.to_N c)%N → c ∉ to_string n.
Proof.
  intros Hc Hin. destruct (to_string_spec n) as [Hd _]. rewrite Forall_forall in Hd.
  apply Hd in Hin. unfold is_digit in Hin. lia.
Qed.

(** One "ip:count" entry is read back. *)
Lemma ip_count_print p :
  Byte.x3a ∉ p.1 → (p.2 ≤ 2147483647)%N → ip_count (print_server p) = Ret (p.1, Z.of_N p.2).
Proof.
  intros Hip Hn. unfold ip_count, print_server, find. rewrite drop_0.
  change (lit ":" ++ to_string p.2) with (Byte.x3a :: to_string p.2).
  rewrite find_from_app by done. unfold substr. rewrite Nat.add_0_l.
  rewrite !decide_True by (rewrite length_app; simpl; lia). m_run.
  rewrite drop_0, take_app_length. m_run.
  rewrite drop_app_ge by lia. replace (length p.1 + 1 - length p.1)%nat with 1%nat by lia.
  simpl drop. rewrite drop_0. by rewrite stoi_to_string.
Qed.

Lemma print_server_no_comma p : Byte.x2c ∉ p.1 → Byte.x2c ∉ print_server p.
Proof.
  intros Hip. unfold print_server. rewrite !elem_of_app. intros [?|[Hx|Hx]]; [done|..].
  - by apply list_elem_of_singleton in Hx.
  - revert Hx. apply digits_free. vm_compute. by left.
Qed.

Lemma server_list_print l pre acc fuel :
  l ≠ [] → (length l ≤ fuel)%nat →
  Forall (λ p, (Byte.x2c ∉ p.1) ∧ (Byte.x3a ∉ p.1) ∧ (p.2 ≤ 2147483647)%N) l →
  server_list fuel (pre ++ print_servers l) (length pre) acc =
    Ret (acc ++ ((λ p, (p.1, Z.of_N p.2)) <$> l)).
Proof.
  intros Hne Hf Hall. revert pre acc fuel Hne Hf.
  induction Hall as [|p l (Hc & Hip & Hn) Hall IH]; intros pre acc fuel Hne Hf; [done|].
  destruct fuel as [|fuel]; [simpl in Hf; lia|]. cbn [server_list].
  pose proof (print_server_no_comma p Hc) as Hnc.
  unfold find. rewrite drop_app_length. destruct l as [|q l].
  - cbn [print_servers]. rewrite find_from_None by done.
    unfold substr. rewrite decide_True by (rewrite length_app; lia). m_run.
    rewrite drop_app_length, ip_count_print by done. done.
  - change (print_servers (p :: q :: l)) with
      (print_server p ++ Byte.x2c :: print_servers (q :: l)).
    rewrite find_from_app by done. unfold substr.
    rewrite decide_True by (rewrite length_app; lia). m_run.
    replace (length pre + length (print_server p) - length pre)%nat
      with (length (print_server p)) by lia.
    rewrite drop_app_length, take_app_length, ip_count_print by done. m_run.
    specialize (IH (pre ++ print_server p ++ [Byte.x2c]) (acc ++ [(p.1, Z.of_N p.2)]) fuel).
    rewrite !length_app in IH. simpl length in IH. rewrite <-!(assoc_L (++)) in IH.
    cbn [app] in IH. rewrite <-Nat.add_assoc, IH; [done|done|simpl in *; lia].
Qed.

Lemma length_print_servers l : (length l ≤ S (length (print_servers l)))%nat.
Proof.
  induction l as [|p [|q l] IH]; simpl in *; [lia..|].
  rewrite !length_app. simpl in *. lia.
Qed.

(** C38. The list of servers given on the command line is understood: every
    list "ip:count,ip:count,..." whose addresses hold no comma and no colon is
    parsed into exactly its addresses and counts. *)
Theorem parse_print_servers l :
  l ≠ [] → Forall (λ p, (Byte.x2c ∉ p.1) ∧ (Byte.x3a ∉ p.1) ∧ (p.2 ≤ 2147483647)%N) l →
  parse_servers (print_servers l) = Ret ((λ p, (p.1, Z.of_N p.2)) <$> l).
Proof.
  intros Hne Hall. apply (server_list_print l [] []); [done| |done].
  apply length_print_servers.
Qed.
End Comm.
