(* ===== verification/DcClient.v ===== *)
(** * The network client: [src/dc-client/dc_client.cpp], the handlers of
    [src/dc-client/client_comm.cpp], and [DCServerNet]
    ([src/fs/backend_real.cpp])

    Two threads share a [DCClient]: the one that calls [Put] and [Get], and
    the listener that receives acknowledgements and responses. A call sends
    its request and waits on a condition variable until the listener has set
    the operation's [done] flag. The threads are the steps of a transition
    system; the parts of a call before and after the wait are separate steps,
    a message handled is one step. (The code does not lock its two maps; a
    step here is atomic.) *)

From Stdlib Require Import NArith ZArith Lia.
From Stdlib Require Import Strings.String.
From stdpp Require Import base list gmap.
From S2P Require Import Prelude Const Encode Options Capsule Middleware ClientComm.

Module Client.

(** ** Data *)
Record DCGetOptions := MkGetOptions { is_fresh_req : bool; is_metaonly_req : bool }.

Record put_status := MkPut { put_done : bool; put_ret : Z }.
Record get_status := MkGet {
  get_done : bool;
  get_ret : Z;
  srl_pdu : option bytes;
  get_is_fresh_req : bool;
  get_is_metaonly_req : bool;
}.

(** [gs_key]: a hash and the metaonly flag. *)
Abbreviation gs_key := (list Byte.byte * bool)%type.

Record DCClient := MkClient {
  client_comm_ : Comm.ClientComm;
  put_status_ : gmap (list Byte.byte) put_status;
  get_status_ : gmap gs_key get_status;
}.

Section client.
Context `{Protobuf}.
Local Open Scope Z_scope.

Definition set_comm (m : Comm.ClientComm) (c : DCClient) : DCClient :=
  MkClient m (put_status_ c) (get_status_ c).
Definition set_puts (m : gmap (list Byte.byte) put_status) (c : DCClient) : DCClient :=
  MkClient (client_comm_ c) m (get_status_ c).
Definition set_gets (m : gmap gs_key get_status) (c : DCClient) : DCClient :=
  MkClient (client_comm_ c) (put_status_ c) m.

(** [DCClient(client_id)] *)
Definition new_DCClient (opts : Options.option_map) (client_id : N) : outcome DCClient :=
  m ← Comm.new_ClientComm (Options.load_client_ip opts) client_id (Options.load_dcserver_ip opts);
  Ret (MkClient m ∅ ∅).

(** ** [Put] *)

(** Up to the wait: a key that is already there is not inserted again, and
    nothing is sent for it. *)
Definition Put_begin (hash srl : bytes) (c : DCClient) : DCClient :=
  match put_status_ c !! hash with
  | Some _ => c
  | None => set_comm (Comm.mcast_dc srl (client_comm_ c))
              (set_puts (<[hash := MkPut false 0]> (put_status_ c)) c)
  end.

(** The predicate of the wait. *)
Definition Put_ready (hash : bytes) (c : DCClient) : bool :=
  match put_status_ c !! hash with Some p => put_done p | None => false end.

(** After it; an error is only logged. *)
Definition Put_end (hash : bytes) (c : DCClient) : DCClient :=
  set_puts (delete hash (put_status_ c)) c.

(** ** [Get] *)
Definition Get_begin (hash : bytes) (opt : DCGetOptions) (rand : N) (c : DCClient) :
    outcome DCClient :=
  _ ← c_assert (negb (is_fresh_req opt) || bool_decide (hash = []));
  _ ← c_assert (negb (is_fresh_req opt && is_metaonly_req opt));
  let gk := (hash, is_metaonly_req opt) in
  match get_status_ c !! gk with
  | Some _ => Ret c
  | None =>
      let gops := MkGet false 0 None (is_fresh_req opt) (is_metaonly_req opt) in
      let req := MkGetRequest hash (Comm.m_recv_get_resp_addr (client_comm_ c))
                   (is_fresh_req opt) (is_metaonly_req opt) in
      m ← Comm.send_get_req rand (SerializeGetRequest req) (client_comm_ c);
      Ret (set_comm m (set_gets (<[gk := gops]> (get_status_ c)) c))
  end.

Definition Get_ready (gk : gs_key) (c : DCClient) : bool :=
  match get_status_ c !! gk with Some g => get_done g | None => false end.

(** The result; the entry stays in the map. *)
Definition Get_end (gk : gs_key) (c : DCClient) : option bytes :=
  match get_status_ c !! gk with
  | Some g => if get_ret g =? 0 then srl_pdu g else None
  | None => None
  end.

(** ** What the listener commits *)
Definition CommitAck (hash : bytes) (c : DCClient) : DCClient * bool :=
  match put_status_ c !! hash with
  | None => (c, false)
  | Some _ => (set_puts (<[hash := MkPut true 0]> (put_status_ c)) c, true)
  end.

Definition commit_get (gk : gs_key) (srl : bytes) (c : DCClient) : DCClient * bool :=
  match get_status_ c !! gk with
  | None => (c, false)
  | Some g =>
      (set_gets (<[gk := MkGet true 0 (Some srl) (get_is_fresh_req g) (get_is_metaonly_req g)]>
         (get_status_ c)) c, true)
  end.

Definition CommitGetResp (hash : bytes) (pdu : CapsulePDU) (c : DCClient) : DCClient * bool :=
  commit_get (hash, (nlen (pdu_payload_in_transit pdu) =? 0)%N) (SerializePDU pdu) c.

Definition CommitFreshResp (hash : bytes) (fhc : FreshHashesContainer) (c : DCClient) :
    DCClient * bool :=
  commit_get (hash, false) (SerializeFreshHashes fhc) c.

(** ** The handlers of [ClientComm] *)

(** [m_recv_ack_map[h] += 1]; the counters are never reset. At the threshold
    32 bytes of the hash are logged. *)
Definition acks (hash : bytes) (c : DCClient) : Z :=
  default 0 (Comm.m_recv_ack_map (client_comm_ c) !! hash).

Definition handle_ack (msg : bytes) (c : DCClient) : outcome DCClient :=
  let ack := ParsePDU msg in
  _ ← c_assert (bool_decide (h_msgType (pdu_header ack) = REPLICATION_ACK));
  let hash := pdu_header_hash ack in
  let n := acks hash c + 1 in
  let c := set_comm (Comm.set_acks (<[hash := n]> (Comm.m_recv_ack_map (client_comm_ c)))
                       (client_comm_ c)) c in
  if n =? WRITE_THRESHOLD then
    _ ← Encode.binary_to_hex_string (c_str hash) 32;
    Ret (CommitAck hash c).1
  else Ret c.

Definition handle_get_resp (msg : bytes) (c : DCClient) : outcome DCClient :=
  let resp := ParseGetResponse msg in
  if resp_fresh_resp resp then
    if resp_success resp
    then Ret (CommitFreshResp (resp_hash resp) (MkFreshHashes (resp_fresh_hashes resp)) c).1
    else Ret c
  else
    let print_len := (if nlen (resp_hash resp) <? 16 then nlen (resp_hash resp) else 16)%N in
    _ ← Encode.binary_to_hex_string (c_str (resp_hash resp)) print_len;
    if resp_success resp
    then Ret (CommitGetResp (resp_hash resp) (resp_record resp) c).1
    else Ret c.

(** ** [DCServerNet] *)

(** Both operations use the record's name only. The part of [ReadRecord] after
    [Get], and the arguments of the calls. *)
Definition net_get_options : DCGetOptions := MkGetOptions false false.

Definition ReadRecord_end (out : option bytes) (size : N) : outcome (result bytes) :=
  match out with
  | None => Ret (inl ERR_IO)
  | Some data => _ ← c_assert (nlen data <=? size)%N; Ret (inr data)
  end.

Definition ReadRecord_begin (dcname recordname : bytes) (rand : N) (c : DCClient) :
    outcome DCClient := Get_begin recordname net_get_options rand c.
Definition WriteRecord_begin (dcname recordname data : bytes) (c : DCClient) : DCClient :=
  Put_begin recordname data c.

(** ** The two threads *)

(** Where the calling thread is. *)
Inductive caller := Idle | InPut (hash : bytes) | InGet (gk : gs_key).

Record net := MkNet { thread : caller; client : DCClient }.

Inductive event :=
  | EvPut (hash srl : bytes)
  | EvPutRet (hash : bytes)
  | EvGet (hash : bytes) (opt : DCGetOptions) (rand : N)
  | EvGetRet (gk : gs_key) (res : option bytes)
  | EvAck (msg : bytes)
  | EvResp (msg : bytes).

Inductive net_step : event → net → net → Prop :=
  | step_put hash srl c :
      net_step (EvPut hash srl) (MkNet Idle c) (MkNet (InPut hash) (Put_begin hash srl c))
  | step_put_ret hash c :
      Put_ready hash c = true →
      net_step (EvPutRet hash) (MkNet (InPut hash) c) (MkNet Idle (Put_end hash c))
  | step_get hash opt rand c c' :
      Get_begin hash opt rand c = Ret c' →
      net_step (EvGet hash opt rand) (MkNet Idle c) (MkNet (InGet (hash, is_metaonly_req opt)) c')
  | step_get_ret gk c :
      Get_ready gk c = true →
      net_step (EvGetRet gk (Get_end gk c)) (MkNet (InGet gk) c) (MkNet Idle c)
  | step_ack msg t c c' :
      handle_ack msg c = Ret c' → net_step (EvAck msg) (MkNet t c) (MkNet t c')
  | step_resp msg t c c' :
      handle_get_resp msg c = Ret c' → net_step (EvResp msg) (MkNet t c) (MkNet t c').

(** The histories of a process that starts with client [c0]. *)
Inductive run (c0 : DCClient) : list event → net → Prop :=
  | run_nil : run c0 [] (MkNet Idle c0)
  | run_snoc l e s s' : run c0 l s → net_step e s s' → run c0 (l ++ [e]) s'.

Inductive steps : net → list event → net → Prop :=
  | steps_nil s : steps s [] s
  | steps_cons e l s s' s'' : net_step e s s' → steps s' l s'' → steps s (e :: l) s''.

End client.
End Client.
