(* ===== verification/Listener.v ===== *)
(** * The listener of the network client: [run_dc_client_listen_server] of
    [src/dc-client/client_comm.cpp], [RunListenServer] of
    [src/dc-client/dc_client.cpp] and the message functions of
    [src/dc-client/client_comm.hpp]

    The loop polls two sockets, hands what arrives to the handlers, and stops
    when the end signal is set. What a poll finds is outside; a [round] is
    what the loop sees in one turn. *)

From Stdlib Require Import NArith ZArith Lia.
From stdpp Require Import base list gmap.
From S2P Require Import Prelude Const Options Capsule Middleware ClientComm DcClient.

Module Listener.

(** ** Messages

    A [zmq::message_t] owns an array of the size it was made with. *)
Definition string_to_message (s : bytes) : outcome (list cell) :=
  memcpy (new_array (nlen s)) 0 (Some <$> c_str s) 0 (nlen s).

Definition message_to_string (m : list cell) : outcome bytes := cells_bytes m.

(** [recv_string] and [send_string]: what [recv] delivers, what [send] is
    handed. *)
Definition recv_string (m : list cell) : outcome bytes := message_to_string m.
Definition send_string (s : bytes) (endpoint : bytes) : outcome (bytes * list cell) :=
  m ← string_to_message s; Ret (endpoint, m).

(** [send_dc_proxy]: to the proxy's socket, when there is one. *)
Definition send_dc_proxy (msg : bytes) (m_proxy_write_socket : option bytes) :
    outcome (bytes * list cell) :=
  match m_proxy_write_socket with
  | Some endpoint => send_string msg endpoint
  | None => Crash NullDeref
  end.

(** ** The loop *)

(** One turn: the message on the socket of acknowledgements and the one on
    the socket of responses, if [ZMQ_POLLIN] is set, and the end signal. *)
Record round := MkRound {
  ack_in : option (list cell);
  resp_in : option (list cell);
  end_signal : bool;
}.

Section listener.
Context `{Protobuf}.

Definition on_message (handle : bytes → Client.DCClient → outcome Client.DCClient)
    (m : option (list cell)) (c : Client.DCClient) : outcome Client.DCClient :=
  match m with
  | Some m => msg ← recv_string m; handle msg c
  | None => Ret c
  end.

Definition listen_round (r : round) (c : Client.DCClient) : outcome Client.DCClient :=
  c ← on_message Client.handle_ack (ack_in r) c;
  on_message Client.handle_get_resp (resp_in r) c.

(** [run_dc_client_listen_server] on the rounds that happen: the result tells
    whether the loop has returned, or is still polling when [rounds] ends. *)
Fixpoint run_dc_client_listen_server (rounds : list round) (c : Client.DCClient) :
    outcome (Client.DCClient * bool) :=
  match rounds with
  | [] => Ret (c, false)
  | r :: rounds' =>
      c ← listen_round r c;
      if end_signal r then Ret (c, true) else run_dc_client_listen_server rounds' c
  end.

(** [RunListenServer]: its [int] is 0 once the loop has returned. *)
Definition RunListenServer (rounds : list round) (c : Client.DCClient) :
    outcome (Client.DCClient * option Z) :=
  '(c, returned) ← run_dc_client_listen_server rounds c;
  Ret (c, if (returned : bool) then Some 0%Z else None).

(** ** Sending and receiving *)

(** A string crosses a socket unchanged. *)
Lemma message_round_trip s :
  ∃ m, string_to_message s = Ret m ∧ message_to_string m = Ret s.
Proof.
  exists (Some <$> s). unfold string_to_message, message_to_string.
  split; [|apply cells_bytes_ok].
  rewrite memcpy_ok.
  - f_equal. rewrite !to_nat_nlen. unfold slice, c_str. rewrite fmap_app, drop_0.
    rewrite take_app_le by (rewrite length_fmap; lia).
    rewrite take_ge by (rewrite length_fmap; lia).
    rewrite splice_0. rewrite (drop_ge (new_array _)); [by rewrite app_nil_r|].
    rewrite length_new_array, length_fmap, to_nat_nlen. lia.
  - unfold nlen, c_str. rewrite length_fmap, length_app. simpl. lia.
  - unfold nlen. rewrite length_new_array. unfold nlen. lia.
Qed.

(** ** The events of the loop *)

(** The messages that the loop handles, in its order: in every round first
    the acknowledgement, and no message after the round of the signal. *)
Definition text (m : list cell) : bytes := default [] (mapM id m).

Definition round_events (r : round) : list Client.event :=
  (match ack_in r with Some m => [Client.EvAck (text m)] | None => [] end) ++
  (match resp_in r with Some m => [Client.EvResp (text m)] | None => [] end).

Fixpoint handled (rounds : list round) : list Client.event :=
  match rounds with
  | [] => []
  | r :: rounds' => round_events r ++ if end_signal r then [] else handled rounds'
  end.

Lemma existsb_exists_list {A} (p : A → bool) (l : list A) :
  existsb p l = true ↔ ∃ x, x ∈ l ∧ p x = true.
Proof.
  induction l as [|y l IH]; simpl; [split; [done|intros (x & Hx & _); inversion Hx]|].
  rewrite orb_true_iff, IH. split.
  - intros [Hy|(x & Hx & Hp)]; [exists y|exists x]; (split; [|done]); by constructor.
  - intros (x & [->|Hx]%elem_of_cons & Hp); [by left|right; by exists x].
Qed.

Lemma steps_app s l s' l' s'' :
  Client.steps s l s' → Client.steps s' l' s'' → Client.steps s (l ++ l') s''.
Proof. induction 1; [done|]. intros. simpl. econstructor; eauto. Qed.

Lemma steps_one e s s' : Client.net_step e s s' → Client.steps s [e] s'.
Proof. intros. econstructor; [done|constructor]. Qed.

Lemma recv_text m s : recv_string m = Ret s → s = text m.
Proof.
  intros Hm. apply cells_bytes_inv in Hm as ->. unfold text.
  replace (mapM id (Some <$> s)) with (Some s); [done|]. symmetry. apply mapM_fmap_Some; auto.
Qed.

Lemma listen_round_steps t r c c' :
  listen_round r c = Ret c' →
  Client.steps (Client.MkNet t c) (round_events r) (Client.MkNet t c').
Proof.
  intros Hrun. unfold listen_round in Hrun. m_bind Hrun. unfold round_events.
  apply (steps_app _ _ (Client.MkNet t r0)).
  - destruct (ack_in r) as [m|]; simpl in Hm; [|simplify_eq; constructor].
    m_bind Hm. apply recv_text in Hm0 as ->. by apply steps_one, Client.step_ack.
  - destruct (resp_in r) as [m|]; simpl in Hrun; [|simplify_eq; constructor].
    m_bind Hrun. apply recv_text in Hm0 as ->. by apply steps_one, Client.step_resp.
Qed.

Lemma listen_steps t rounds c c' b :
  run_dc_client_listen_server rounds c = Ret (c', b) →
  Client.steps (Client.MkNet t c) (handled rounds) (Client.MkNet t c') ∧
  b = existsb end_signal rounds.
Proof.
  revert c. induction rounds as [|r rounds IH]; intros c Hrun; simpl in *.
  { simplify_eq. split; [constructor|done]. }
  m_bind Hrun. apply (listen_round_steps t) in Hm. destruct (end_signal r); simpl.
  - simplify_eq. rewrite app_nil_r. by split.
  - apply IH in Hrun as [Hs ->]. split; [|done]. by eapply steps_app.
Qed.

(** C36. The listening loop is a path of the client's transition system: it
    handles, in the order of arrival, exactly the messages of the rounds up to
    the one in which the end signal is set, and it returns, with 0, if and
    only if there is such a round. What holds in every interleaving of single
    messages therefore holds for the loop. *)
Theorem listener_refines t rounds c c' res :
  RunListenServer rounds c = Ret (c', res) →
  Client.steps (Client.MkNet t c) (handled rounds) (Client.MkNet t c') ∧
  (res = Some 0%Z ↔ ∃ r, r ∈ rounds ∧ end_signal r = true).
Proof.
  unfold RunListenServer. intros Hrun. m_bind Hrun. destruct r as [c1 b]. simplify_eq.
  apply (listen_steps t) in Hm as [Hs Hb]. split; [done|].
  rewrite <-(existsb_exists_list end_signal rounds), <-Hb. by destruct b.
Qed.

End listener.
End Listener.
