(* ===== verification/NetServer.v ===== *)
(** * The server over the network: [DCServerNet] of [src/fs/backend_real.cpp]

    [DCServerNet] owns a [DCClient] and the thread that runs its listener. Its
    operations call [Put] and [Get], which wait while the listener works. Here
    the two threads are put together: an operation sends its request, the
    listener's loop runs on what then arrives, and the operation returns when
    its wait is over. [NetSpec.v] proves that this is one way through the
    transition system of [DcClient.v]. *)

From Stdlib Require Import NArith ZArith Lia.
From stdpp Require Import base list gmap.
From S2P Require Import Prelude Const Options Capsule DcServer Middleware ClientComm DcClient Listener.

(** The DataCapsule servers, of state [R]: [remote_step sent r] is what the
    listener's polls find while a call waits, when [sent] is all that the
    client has sent so far. [c_rand n] is the n-th value of [rand()]. *)
Class Remote (R : Type) := {
  remote_step : list (bytes * bytes) → R → R * list (option (list cell) * option (list cell));
  c_rand : nat → N;
}.

Module Net.
Section net.
Context `{Protobuf} {R : Type} `{Remote R}.

Record DCServerNet := MkNetServer {
  dcclient_ : Client.DCClient;
  end_signal_ : bool;
  remote : R;
  draws : nat;      (* how often rand() has been called *)
}.

(** [DCServerNet()]: the listener thread starts without an end signal. *)
Definition new_DCServerNet (opts : Options.option_map) (r : R) : outcome DCServerNet :=
  c ← Client.new_DCClient opts CLIENT_ID; Ret (MkNetServer c false r 0).

(** [~DCServerNet()] sets the signal; the listener sees it in the round in
    which it is when [join] begins, or the next one. *)
Definition signal (d : DCServerNet) : DCServerNet :=
  MkNetServer (dcclient_ d) true (remote d) (draws d).

Definition delete_DCServerNet (last : option (list cell) * option (list cell))
    (d : DCServerNet) : outcome (DCServerNet * option Z) :=
  let d := signal d in
  '(c, res) ← Listener.RunListenServer
    [Listener.MkRound last.1 last.2 (end_signal_ d)] (dcclient_ d);
  Ret (MkNetServer c true (remote d) (draws d), res).

(** While a call waits, the listener polls; nobody sets the end signal. *)
Definition wait (c : Client.DCClient) (d : DCServerNet) :
    outcome (Client.DCClient * R) :=
  let '(r, polls) := remote_step (Comm.outbox (Client.client_comm_ c)) (remote d) in
  '(c, _) ← Listener.run_dc_client_listen_server
    ((λ p, Listener.MkRound p.1 p.2 (end_signal_ d)) <$> polls) c;
  Ret (c, r).

(** [WriteRecord] returns [NO_ERR] or not at all. *)
Definition WriteRecord (dcname recordname data : bytes) (d : DCServerNet) :
    outcome (DCServerNet * result unit) :=
  let c := Client.WriteRecord_begin dcname recordname data (dcclient_ d) in
  '(c, r) ← wait c d;
  if Client.Put_ready recordname c
  then Ret (MkNetServer (Client.Put_end recordname c) (end_signal_ d) r (draws d), inr tt)
  else Crash Blocked.

Definition get_key (recordname : bytes) : Client.gs_key :=
  (recordname, Client.is_metaonly_req Client.net_get_options).

(** [rand()] is called when a request is sent. *)
Definition ReadRecord (dcname recordname : bytes) (size : N) (d : DCServerNet) :
    outcome (DCServerNet * result bytes) :=
  let new := bool_decide (Client.get_status_ (dcclient_ d) !! get_key recordname = None) in
  c ← Client.ReadRecord_begin dcname recordname (c_rand (draws d)) (dcclient_ d);
  let n := if new then S (draws d) else draws d in
  '(c, r) ← wait c d;
  if Client.Get_ready (get_key recordname) c
  then res ← Client.ReadRecord_end (Client.Get_end (get_key recordname) c) size;
       Ret (MkNetServer c (end_signal_ d) r n, res)
  else Crash Blocked.

#[export] Instance DCServer_net : DCServer DCServerNet := {|
  DcServer.ReadRecord := ReadRecord;
  DcServer.WriteRecord := WriteRecord;
|}.

End net.
Arguments DCServerNet R : clear implicits.
End Net.
