(* ===== verification/Main.v ===== *)
(** * The program: [main] of [src/fs/dcfs.cpp] and the start of the file
    system

    libfuse parses the command line and calls back; here its functions are
    parameters. [main] hands the options over, and [dcfs_init] builds the
    backend over the network server. *)

From Stdlib Require Import NArith ZArith Lia.
From Stdlib Require Import Strings.String.
From stdpp Require Import base list gmap.
From S2P Require Import Prelude Const Options Crypto Capsule DcServer Middleware Backend.
From S2P Require Import Cache Dcfs ClientComm DcClient Listener NetServer.

(** [struct dcfs_options] *)
Record dcfs_options := MkOptions {
  opt_block_size_in_kb : N;
  opt_client_ip : option bytes;       (* a pointer, which may be null *)
  opt_dcserver_ip : option bytes;
  opt_show_help : Z;
}.

(** An entry of [option_spec]: a template and the member of [options] that
    it sets. The [value] that [OPTION] gives is 1 in all of them. *)
Inductive option_member := M_block_size_in_kb | M_client_ip | M_dcserver_ip | M_show_help.

Definition option_spec : list (bytes * option_member) :=
  [(lit "--block_size_in_kb=%d", M_block_size_in_kb);
   (lit "--client_ip=%s", M_client_ip);
   (lit "--dcserver_ip=%s", M_dcserver_ip);
   (lit "-h", M_show_help);
   (lit "--help", M_show_help)].

(** libfuse: [fuse_opt_parse(&args, &options, option_spec, NULL)] fails or
    gives the remaining arguments and the options set; [fuse_opt_add_arg]
    fails or appends; [fuse_main] returns an exit code. *)
Class Fuse := {
  fuse_opt_parse : list bytes → dcfs_options → list (bytes * option_member) →
    option (list bytes * dcfs_options);
  fuse_opt_add_arg : list bytes → bytes → option (list bytes);
  fuse_main : list bytes → Z;
}.

Module Program.
Section program.
Context `{Fuse}.

(** [show_help(progname)] *)
Definition show_help (progname : bytes) : bytes :=
  lit "usage: " ++ cstr progname ++ lit " [options] <mountpoint>" ++ [Byte.x0a; Byte.x0a] ++
  lit "File-system specific options:" ++ [Byte.x0a; Byte.x0a].

(** The defaults that [main] sets. *)
Definition default_options : dcfs_options :=
  MkOptions DEFAULT_BLOCK_SIZE_IN_KB (Some []) (Some []) 0.

(** What a run of [main] leaves: the option map of [Util], what it printed,
    the arguments of [fuse_main] if it was called, and the exit code. *)
Record run := MkRun {
  option_map : Options.option_map;
  printed : bytes;
  main_args : option (list bytes);
  exit_code : Z;
}.

(** Lines 380-384: print the help and make [fuse_main] print its own, with an
    empty program name. *)
Definition help (argv args : list bytes) (o : dcfs_options) : outcome (list bytes * bytes) :=
  if decide (opt_show_help o = 0%Z) then Ret (args, [])
  else
    progname ← vec_get argv 0;
    match fuse_opt_add_arg args (lit "--help") with
    | None => Crash AssertFailed
    | Some args =>
        args ← vec_set args 0 [];
        Ret (args, show_help progname)
    end.

Definition main (argv : list bytes) : outcome run :=
  match fuse_opt_parse argv default_options option_spec with
  | None => Ret (MkRun ∅ [] None 1)
  | Some (args, o) =>
      '(args, out) ← help argv args o;
      let m := Options.store_options (opt_client_ip o) (opt_dcserver_ip o) ∅ in
      Ret (MkRun m out (Some args) (fuse_main args))
  end.

(** ** From the options to a mounted file system *)

Context `{OpenSSL} `{Protobuf} `{RunEnv} {R : Type} `{Remote R}.
Abbreviation Backend := (Backend.StorageBackend (D := Net.DCServerNet R)).

(** [init_backend]: the constructor of [StorageBackend] makes the network
    server from the addresses in the option map. *)
Definition init_backend (opts : Options.option_map) (r : R) : outcome Backend :=
  d ← Net.new_DCServerNet opts r; Ret (Backend.new_StorageBackend d).

(** [dcfs_init] with its backend. *)
Definition mount (o : dcfs_options) (opts : Options.option_map) (r : R) :
    outcome (fs_state Backend) :=
  b ← init_backend opts r; Ret (Fs.dcfs_init (opt_block_size_in_kb o) b).

(** ** The end of a mounted file system *)

(** The classes whose objects are deleted, and whether the destructor is
    declared [virtual], in the class or in a base of it: in none of them. *)
Inductive class := C_Directory | C_DCServer | C_DCServerNet | C_DCFSMid | C_DCFSMidSim.
#[global] Instance class_eq_dec : EqDecision class.
Proof. solve_decision. Defined.

Definition virtual_destructor (c : class) : bool :=
  match c with
  | C_Directory | C_DCServer | C_DCServerNet | C_DCFSMid | C_DCFSMidSim => false
  end.

(** [delete p] where [p] points to an object of class [dyn] and is declared as
    a pointer to [stat]: the destructor of the object, unless the class of the
    pointer is another one without a virtual destructor. *)
Definition delete_as {A} (stat dyn : class) (destructor : outcome A) : outcome A :=
  if bool_decide (stat = dyn) || virtual_destructor stat then destructor else Crash Unspecified.

(** [~StorageBackend]. The listener's last rounds are [last]; the result is its
    exit code. [DCFSMidSim] has no destructor of its own. *)
Definition delete_StorageBackend (last : option (list cell) * option (list cell)) (b : Backend) :
    outcome (option Z) :=
  '(_, code) ← delete_as C_DCServer C_DCServerNet
    (Net.delete_DCServerNet last (server (Backend.backend_world b)));
  _ ← delete_as C_DCFSMid C_DCFSMidSim (Ret tt);
  Ret code.

(** [dcfs_destroy], which runs [~DCFS]: both pointers are set since
    [dcfs_init]. *)
Definition dcfs_destroy (last : option (list cell) * option (list cell)) (st : fs_state Backend) :
    outcome (option Z) :=
  _ ← delete_as C_Directory C_Directory (Ret tt);
  delete_StorageBackend last (backend st).

(** Unmounting has no defined behaviour: the server object is deleted through
    its base class. *)
Lemma destroy_undefined last (st : fs_state Backend) : dcfs_destroy last st = Crash Unspecified.
Proof. done. Qed.

Lemma main_help_off argv args o :
  fuse_opt_parse argv default_options option_spec = Some (args, o) → opt_show_help o = 0%Z →
  main argv = Ret (MkRun (Options.store_options (opt_client_ip o) (opt_dcserver_ip o) ∅) []
    (Some args) (fuse_main args)).
Proof. intros Hp Hh. unfold main, help. rewrite Hp, Hh. by rewrite decide_True. Qed.

Lemma empty_addresses opts (r : R) :
  Options.load_client_ip opts = [] ∨ Options.load_dcserver_ip opts = [] →
  Net.new_DCServerNet opts r = Crash Exited.
Proof.
  intros Hor. unfold Net.new_DCServerNet, Client.new_DCClient, Comm.new_ClientComm.
  destruct (decide (Options.load_client_ip opts = [])); [done|].
  rewrite decide_True by tauto. done.
Qed.

(** [main] refuses a command line that does not parse with code 1 and
    runs nothing. Otherwise the addresses the user gave are those the client
    will use, and without both of them, as with the defaults, mounting ends
    the process: the constructor of [ClientComm] exits. *)
Theorem main_needs_addresses argv :
  match fuse_opt_parse argv default_options option_spec with
  | None => main argv = Ret (MkRun ∅ [] None 1)
  | Some (args, o) => ∀ res (r : R), main argv = Ret res →
      Options.load_client_ip (option_map res) = default [] (opt_client_ip o) ∧
      Options.load_dcserver_ip (option_map res) = default [] (opt_dcserver_ip o) ∧
      (default [] (opt_client_ip o) = [] ∨ default [] (opt_dcserver_ip o) = [] →
       mount o (option_map res) r = Crash Exited)
  end.
Proof.
  unfold main. destruct (fuse_opt_parse argv default_options option_spec) as [[args o]|] eqn:Hp; [|done].
  intros res r Hrun. m_bind Hrun. destruct r0 as [args' out]. simplify_eq. simpl.
  assert (∀ a b, Options.load_client_ip (Options.store_options a b ∅) = default [] a ∧
    Options.load_dcserver_ip (Options.store_options a b ∅) = default [] b) as Hl.
  { intros [a|] [b|]; split; vm_compute; reflexivity. }
  destruct (Hl (opt_client_ip o) (opt_dcserver_ip o)) as [Hc Hd].
  split; [done|]. split; [done|]. intros Hor. unfold mount, init_backend.
  rewrite empty_addresses; [done|]. by rewrite Hc, Hd.
Qed.

End program.
End Program.
