(* ===== verification/Termination.v ===== *)
(** * Termination: the fuel of the model is never used up

    The loops of the source that are not structural recursion (the searches of
    the directory, the splitting of a block map, the parser of the server
    list) run on fuel here. No function of the program ever runs out of it, so
    each of these loops ends, whatever the servers answer and however the
    callbacks are called. *)

From Stdlib Require Import NArith ZArith Lia.
From stdpp Require Import base list gmap.
From S2P Require Import Prelude Const Encode Options Dir Crypto Capsule DcServer Middleware Backend.
From S2P Require Import BackendSpec Cache Dcfs ClientComm DcClient Listener NetServer Main.

(** A computation that does not run out of fuel. *)
Definition fueled {A} (m : outcome A) : Prop := m ≠ Crash OutOfFuel.

Lemma fueled_ret {A} (a : A) : fueled (Ret a).
Proof. done. Qed.

Lemma fueled_crash {A} f : f ≠ OutOfFuel → fueled (Crash (A := A) f).
Proof. unfold fueled. congruence. Qed.

Lemma fueled_bind {A B} (m : outcome A) (k : A → outcome B) :
  fueled m → (∀ a, fueled (k a)) → fueled (m ≫= k).
Proof. destruct m; unfold fueled in *; [intros _ Hk; apply Hk|]. intros Hm _ [= ->]. by apply Hm. Qed.

Create HintDb fueled.
#[export] Hint Resolve fueled_ret : fueled.
#[export] Hint Extern 1 (fueled (Crash _)) => apply fueled_crash; discriminate : fueled.

(** [fueled] goes through a body step by step and case by case. *)
Ltac fueled :=
  repeat first
    [ progress (intros; cbv beta zeta)
    | solve [eauto with fueled]
    | apply fueled_bind
    | case_match ].

(** ** The primitives *)
Section primitives.
Context {A : Type}.
Implicit Types l src dst : list A.

Lemma fueled_assert b : fueled (c_assert b).
Proof. unfold c_assert. fueled. Qed.
Lemma fueled_udiv a b : fueled (udiv a b).
Proof. unfold udiv. fueled. Qed.
Lemma fueled_umod a b : fueled (umod a b).
Proof. unfold umod. fueled. Qed.
Lemma fueled_mem_read l o n : fueled (mem_read l o n).
Proof. unfold mem_read. fueled. Qed.
Lemma fueled_mem_write dst o src : fueled (mem_write dst o src).
Proof. unfold mem_write. fueled. Qed.
Lemma fueled_vec_get l i : fueled (vec_get l i).
Proof. unfold vec_get. fueled. Qed.
Lemma fueled_vec_set l i a : fueled (vec_set l i a).
Proof. unfold vec_set. fueled. Qed.
End primitives.

Lemma fueled_cells l : fueled (cells_bytes l).
Proof. unfold cells_bytes. fueled. Qed.
Lemma fueled_strcmp a b : fueled (strcmp_eq a b).
Proof. revert b. induction a as [|[x|] a IH]; intros [|[y|] b]; simpl; fueled. Qed.

#[export] Hint Resolve fueled_assert fueled_udiv fueled_umod fueled_mem_read fueled_mem_write
  fueled_vec_get fueled_vec_set fueled_cells fueled_strcmp : fueled.

Lemma fueled_memcpy {A} (dst : list A) d src s n : fueled (memcpy dst d src s n).
Proof. unfold memcpy. fueled. Qed.
Lemma fueled_memset0 dst n : fueled (memset0 dst n).
Proof. unfold memset0. fueled. Qed.
Lemma fueled_hash d h : fueled (Encode.binary_to_hex_string d h).
Proof. unfold Encode.binary_to_hex_string. fueled. Qed.
#[export] Hint Resolve fueled_memcpy fueled_memset0 fueled_hash : fueled.

Lemma fueled_for_loop {S R} cnt i (body : N → S → outcome (S + R)) s :
  (∀ j t, fueled (body j t)) → fueled (for_loop cnt i body s).
Proof. intros Hb. revert i s. induction cnt as [|cnt IH]; intros i s; simpl; fueled. Qed.

Lemma fueled_for_each {S} cnt i (body : N → S → outcome S) s :
  (∀ j t, fueled (body j t)) → fueled (for_each cnt i body s).
Proof. intros Hb. revert i s. induction cnt as [|cnt IH]; intros i s; simpl; fueled. Qed.

(** ** The loops on fuel *)

(** Every round of the splitter advances by 32 bytes. *)
Lemma fueled_split fuel payload offset acc :
  (nlen payload ≤ offset + 32 * N.of_nat fuel)%N →
  fueled (Mid.split_hashes (S fuel) payload offset acc).
Proof.
  revert offset acc. induction fuel as [|fuel IH]; intros offset acc Hf;
    cbn [Mid.split_hashes]; destruct (N.ltb_spec offset (nlen payload)); try (by fueled); [lia|].
  apply fueled_bind; [by fueled|]. intros h. apply IH. unfold HASHLEN_IN_BYTES. lia.
Qed.

(** Every round of the server list's parser starts behind a comma. *)
Lemma find_from_bound c s i j : Comm.find_from c s i = Some j → (i ≤ j < i + length s)%nat.
Proof.
  revert i. induction s as [|x s IH]; intros i; simpl; [done|].
  case_decide; [intros [= <-]; lia|]. intros Hj%IH. lia.
Qed.

Lemma find_bound c s from j : Comm.find c s from = Some j → (from ≤ j < length s)%nat.
Proof. intros Hj%find_from_bound. rewrite length_drop in Hj. lia. Qed.

Lemma fueled_substr s p n : fueled (Comm.substr s p n).
Proof. unfold Comm.substr. fueled. Qed.
Lemma fueled_stoi s : fueled (Comm.stoi s).
Proof. unfold Comm.stoi. cbv zeta. destruct (match Encode.skip_spaces s with [] => _ | _ => _ end); fueled. Qed.
#[local] Hint Resolve fueled_substr fueled_stoi : fueled.

Lemma fueled_ip_count s : fueled (Comm.ip_count s).
Proof. unfold Comm.ip_count. fueled. Qed.
#[local] Hint Resolve fueled_ip_count : fueled.

Lemma fueled_server_list fuel s last acc :
  (length s ≤ last + fuel)%nat → fueled (Comm.server_list (S fuel) s last acc).
Proof.
  revert last acc. induction fuel as [|fuel IH]; intros last acc Hf; cbn [Comm.server_list];
    destruct (Comm.find _ s last) as [j|] eqn:Hj; try (by fueled); apply find_bound in Hj; [lia|].
  apply fueled_bind; [by fueled|]. intros x. apply fueled_bind; [by fueled|]. intros p.
  apply IH. lia.
Qed.

Lemma fueled_parse s : fueled (Comm.parse_servers s).
Proof. apply fueled_server_list. lia. Qed.

(** The loops over the directory. *)
Lemma fueled_scan_until p d : fueled (Dir.scan_until p (Dir.scan_fuel d) (Dir.InitReaddir d)).
Proof.
  pose proof (Dir.scan_until_spec p d) as Hs. apply wp_total in Hs as (r & -> & _). done.
Qed.

Lemma fueled_scan_all d : fueled (Dir.scan_all (Dir.scan_fuel d) (Dir.InitReaddir d) []).
Proof. by rewrite Dir.scan_all_spec. Qed.
#[export] Hint Resolve fueled_parse fueled_scan_until fueled_scan_all fueled_for_loop
  fueled_for_each : fueled.

(** ** Cryptography *)
Section crypto.
Context `{OpenSSL}.

Lemma fueled_sha d h : fueled (Crypto.hash256 d h).
Proof. unfold Crypto.hash256. fueled. Qed.
Lemma fueled_sign k d : fueled (Crypto.sign k d).
Proof. unfold Crypto.sign. fueled. Qed.
Lemma fueled_verify k d s : fueled (Crypto.verify k d s).
Proof. unfold Crypto.verify. fueled. Qed.
Lemma fueled_cipher e k iv i l o n : fueled (Crypto.cipher e k iv i l o n).
Proof. unfold Crypto.cipher. fueled. Qed.
Lemma fueled_encrypt k iv i l o n : fueled (Crypto.encrypt_symmetric k iv i l o n).
Proof. apply fueled_cipher. Qed.
Lemma fueled_decrypt k iv i l o n : fueled (Crypto.decrypt_symmetric k iv i l o n).
Proof. apply fueled_cipher. Qed.
End crypto.
#[export] Hint Resolve fueled_sha fueled_sign fueled_verify fueled_encrypt fueled_decrypt : fueled.

(** ** Middleware and backend, over a server whose operations end *)
Class ServerFueled (D : Type) `{DCServer D} := {
  server_read_fueled dc r n (d : D) : fueled (DcServer.ReadRecord dc r n d);
  server_write_fueled dc r data (d : D) : fueled (DcServer.WriteRecord dc r data d);
}.
#[export] Hint Resolve server_read_fueled server_write_fueled : fueled.

(** What the inodes and callbacks need: a backend whose operations end. *)
Class StorageFueled (S : Type) `{Storage S} := {
  meta_fueled n (s : S) : fueled (ReadFileMeta n s);
  data_fueled dc r n (s : S) : fueled (ReadRecordData dc r n s);
  store_fueled dc ds r k (s : S) : fueled (StoreRecord dc ds r k s);
  create_fueled (s : S) : fueled (CreateNewFile s);
}.
#[export] Hint Resolve meta_fueled data_fueled store_fueled create_fueled : fueled.

Section middleware.
Context `{OpenSSL} `{Protobuf} `{RunEnv} {D : Type} `{ServerFueled D}.
Implicit Types w : world D.

Lemma fueled_compose t h b w : fueled (Mid.composeRecord t h b w).
Proof. unfold Mid.composeRecord. fueled. Qed.
Lemma fueled_read_record dc r n w : fueled (Mid.read_record dc r n w).
Proof. unfold Mid.read_record. fueled. Qed.
Lemma fueled_write_record dc r data w : fueled (Mid.write_record dc r data w).
Proof. unfold Mid.write_record. fueled. Qed.
Lemma fueled_pack_descs args o ds : fueled (Mid.pack_descs args o ds).
Proof. revert args o. induction ds as [|d ds IH]; intros args o; simpl; fueled. Qed.
#[local] Hint Resolve fueled_compose fueled_read_record fueled_write_record fueled_pack_descs : fueled.

Lemma fueled_pack_args dc ds i k : fueled (Mid.pack_args dc ds i k).
Proof. unfold Mid.pack_args. fueled. Qed.
Lemma fueled_backend_pack_args dc ds i k : fueled (Backend.pack_args dc ds i k).
Proof. rewrite Backend.pack_args_same. apply fueled_pack_args. Qed.
#[local] Hint Resolve fueled_pack_args fueled_backend_pack_args : fueled.

Lemma fueled_load dc l k w : fueled (Mid.load_records dc l k w).
Proof.
  unfold Mid.load_records, Mid.prevhash. fueled; apply fueled_split; unfold nlen; lia.
Qed.
Lemma fueled_push_data dc l ds p bs w : fueled (Mid.push_data_blocks dc l ds p bs w).
Proof. revert p bs w. induction ds as [|d ds IH]; intros p bs w; simpl; fueled. Qed.
Lemma fueled_update n bs hs : fueled (Mid.update_hashes n bs hs).
Proof. revert hs. induction bs as [|b bs IH]; intros hs; simpl; fueled. Qed.
Lemma fueled_concat hs : fueled (Mid.concat_hashes hs).
Proof. induction hs as [|h hs IH]; simpl; fueled. Qed.
#[local] Hint Resolve fueled_load fueled_push_data fueled_update fueled_concat : fueled.

Lemma fueled_push_blockmap dc ir bm bs w : fueled (Mid.push_blockmap dc ir bm bs w).
Proof. unfold Mid.push_blockmap. fueled. Qed.
Lemma fueled_inode_payload k n f : fueled (Mid.inode_payload k n f).
Proof. unfold Mid.inode_payload. fueled. Qed.
#[local] Hint Resolve fueled_push_blockmap fueled_inode_payload : fueled.
Lemma fueled_push_inode dc ir n bm w : fueled (Mid.push_inode dc ir n bm w).
Proof. unfold Mid.push_inode. fueled. Qed.
Lemma fueled_verify_args m dc ds i k s : fueled (Mid.verify_args m dc ds i k s).
Proof. unfold Mid.verify_args. fueled. Qed.
#[local] Hint Resolve fueled_push_inode fueled_verify_args : fueled.

Lemma fueled_Modify dc ds i k s w : fueled (Mid.Modify dc ds i k s w).
Proof. unfold Mid.Modify. fueled. Qed.
Lemma fueled_CreateNew w : fueled (Mid.CreateNew w).
Proof. unfold Mid.CreateNew. fueled. Qed.
Lemma fueled_GetInodeName n s w : fueled (Mid.GetInodeName n s w).
Proof. unfold Mid.GetInodeName. fueled. Qed.
Lemma fueled_DecryptAESKey k m : fueled (Mid.DecryptAESKey k m).
Proof. unfold Mid.DecryptAESKey. fueled. Qed.
#[local] Hint Resolve fueled_Modify fueled_CreateNew fueled_GetInodeName fueled_DecryptAESKey : fueled.

#[export] Instance StorageFueled_backend : StorageFueled (Backend.StorageBackend (D := D)).
Proof.
  split; intros; simpl.
  - unfold Backend.ReadFileMeta, Mid.prevhash. fueled.
  - unfold Backend.ReadRecordData. fueled.
  - unfold Backend.WriteRecord. fueled.
  - unfold Backend.CreateNewFile. fueled.
Qed.
End middleware.

(** ** The two servers *)
#[local] Existing Instance Sim.DCServer_sim.
#[local] Existing Instance Net.DCServer_net.

#[export] Instance ServerFueled_sim `{HostFs} : ServerFueled Sim.DCServerSim.
Proof.
  split; intros; simpl.
  - unfold Sim.ReadRecord. fueled.
  - unfold Sim.WriteRecord. fueled.
Qed.

Section net.
Context `{Protobuf} {R : Type} `{Remote R}.

Lemma fueled_ack m c : fueled (Client.handle_ack m c).
Proof. unfold Client.handle_ack. fueled. Qed.
Lemma fueled_resp m c : fueled (Client.handle_get_resp m c).
Proof. unfold Client.handle_get_resp. fueled. Qed.
#[local] Hint Resolve fueled_ack fueled_resp : fueled.

Lemma fueled_listen rounds c : fueled (Listener.run_dc_client_listen_server rounds c).
Proof.
  revert c. induction rounds as [|r rounds IH]; intros c; simpl; [by fueled|].
  unfold Listener.listen_round, Listener.on_message, Listener.recv_string, Listener.message_to_string.
  fueled.
Qed.
#[local] Hint Resolve fueled_listen : fueled.

Lemma fueled_wait c (d : Net.DCServerNet R) : fueled (Net.wait c d).
Proof. unfold Net.wait. fueled. Qed.
#[local] Hint Resolve fueled_wait : fueled.

#[export] Instance ServerFueled_net : ServerFueled (Net.DCServerNet R).
Proof.
  split; intros; simpl.
  - unfold Net.ReadRecord, Client.ReadRecord_begin, Client.Get_begin, Comm.send_get_req,
      Client.ReadRecord_end. fueled.
  - unfold Net.WriteRecord. fueled.
Qed.

Lemma fueled_connect_all base l : fueled (Comm.connect_all base l).
Proof. unfold Comm.connect_all. fueled. Qed.
#[local] Hint Resolve fueled_connect_all : fueled.

Lemma fueled_new_server opts r : fueled (Net.new_DCServerNet (R := R) opts r).
Proof. unfold Net.new_DCServerNet, Client.new_DCClient, Comm.new_ClientComm. fueled. Qed.
End net.
#[export] Hint Resolve fueled_new_server : fueled.

(** ** Inodes and callbacks *)
Section fs.
Context `{OpenSSL} {S : Type} `{StorageFueled S}.
Implicit Types (st : fs_state S) (s : S).

Lemma fueled_new_cache n b : fueled (new_RecordCache n b).
Proof. unfold new_RecordCache. fueled. Qed.
#[local] Hint Resolve fueled_new_cache : fueled.
Lemma fueled_new_Inode a r m kb cov n k : fueled (new_Inode a r m kb cov n k).
Proof. unfold new_Inode. fueled. Qed.
Lemma fueled_fresh_Inode a kb cov k : fueled (fresh_Inode a kb cov k).
Proof. unfold fresh_Inode. fueled. Qed.
Lemma fueled_block_at c i : fueled (RC.block_at c i).
Proof. unfold RC.block_at. fueled. Qed.
Lemma fueled_set_block c i b : fueled (RC.set_block c i b).
Proof. unfold RC.set_block. fueled. Qed.
Lemma fueled_set_stat c i f : fueled (RC.set_stat c i f).
Proof. unfold RC.set_stat. fueled. Qed.
#[local] Hint Resolve fueled_new_Inode fueled_fresh_Inode fueled_block_at fueled_set_block
  fueled_set_stat : fueled.

Lemma fueled_copy_out c b bo i so n : fueled (RC.copy_out c b bo i so n).
Proof. unfold RC.copy_out. fueled. Qed.
Lemma fueled_copy_in b bo c i so n : fueled (RC.copy_in b bo c i so n).
Proof. unfold RC.copy_in. fueled. Qed.
Lemma fueled_bmCheck h c i : fueled (RC.bmCheck h c i).
Proof. unfold RC.bmCheck. fueled. Qed.
Lemma fueled_fillBmcache h o n c s : fueled (RC.fillBmcache h o n c s).
Proof. unfold RC.fillBmcache. fueled. Qed.
#[local] Hint Resolve fueled_copy_out fueled_copy_in fueled_bmCheck fueled_fillBmcache : fueled.

Lemma fueled_fill_block h i c s : fueled (RC.fill_block h i c s).
Proof. unfold RC.fill_block. fueled. Qed.
#[local] Hint Resolve fueled_fill_block : fueled.
Lemma fueled_fill_step h i sc : fueled (RC.fill_step h i sc).
Proof. unfold RC.fill_step. fueled. Qed.
#[local] Hint Resolve fueled_fill_step : fueled.
Lemma fueled_fillDcache h o n c s : fueled (RC.fillDcache h o n c s).
Proof. unfold RC.fillDcache. fueled. Qed.
Lemma fueled_read_copy c b bs sb eb so eo n : fueled (RC.read_copy c b bs sb eb so eo n).
Proof. unfold RC.read_copy. fueled. apply fueled_for_each. fueled. Qed.
Lemma fueled_write_copy b c bs sb eb so eo n : fueled (RC.write_copy b c bs sb eb so eo n).
Proof. unfold RC.write_copy. fueled. apply fueled_for_each. fueled. Qed.
Lemma fueled_flush_step h c i ds : fueled (RC.flush_step h c i ds).
Proof. unfold RC.flush_step. fueled. Qed.
#[local] Hint Resolve fueled_fillDcache fueled_read_copy fueled_write_copy fueled_flush_step : fueled.

Lemma fueled_flush h c s : fueled (RC.FlushCache h c s).
Proof. unfold RC.FlushCache. fueled. Qed.
#[local] Hint Resolve fueled_flush : fueled.

Lemma fueled_read b o n i s : fueled (Ino.Read b o n i s).
Proof. unfold Ino.Read, RC.Read. fueled. Qed.
Lemma fueled_write b o n i s : fueled (Ino.Write b o n i s).
Proof. unfold Ino.Write, RC.Write. fueled. Qed.
Lemma fueled_unref i s : fueled (Ino.Unref i s).
Proof. unfold Ino.Unref. fueled. Qed.
Lemma fueled_deref p st : fueled (Fs.deref p st).
Proof. unfold Fs.deref. fueled. Qed.
Lemma fueled_get_inode n st : fueled (Fs.get_inode n st).
Proof. unfold Fs.get_inode. fueled. Qed.
Lemma fueled_allocate st : fueled (Fs.allocate_inode st).
Proof. unfold Fs.allocate_inode. fueled. Qed.
Lemma fueled_tail p : fueled (Fs.path_tail p).
Proof. unfold Fs.path_tail. fueled. Qed.
Lemma fueled_new_fd n st : fueled (Fs.new_fd n st).
Proof. unfold Fs.new_fd. fueled. Qed.
#[local] Hint Resolve fueled_read fueled_write fueled_unref fueled_deref fueled_get_inode
  fueled_allocate fueled_tail fueled_new_fd : fueled.

Lemma fueled_find_entry p st : fueled (Fs.find_entry p st).
Proof. unfold Fs.find_entry. fueled. Qed.
#[local] Hint Resolve fueled_find_entry : fueled.
Lemma fueled_find_inode u p fh st : fueled (Fs.find_inode u p fh st).
Proof. unfold Fs.find_inode. fueled. Qed.
#[local] Hint Resolve fueled_find_inode : fueled.

Lemma callbacks_fueled path fh fh' (buf : list cell) size offset st :
  fueled (Fs.dcfs_getattr path st) ∧ fueled (Fs.dcfs_readdir path st) ∧
  fueled (Fs.dcfs_create path fh st) ∧ fueled (Fs.dcfs_open path fh st) ∧
  fueled (Fs.dcfs_read path buf size offset fh' st) ∧
  fueled (Fs.dcfs_write path buf size offset fh' st) ∧ fueled (Fs.dcfs_flush path fh' st).
Proof.
  split_and!; [unfold Fs.dcfs_getattr|unfold Fs.dcfs_readdir|unfold Fs.dcfs_create
    |unfold Fs.dcfs_open|unfold Fs.dcfs_read|unfold Fs.dcfs_write|unfold Fs.dcfs_flush]; fueled.
Qed.
End fs.

(** ** The whole program *)
Section program.
Context `{OpenSSL} `{Protobuf} `{RunEnv}.

(** C22. Over the storage backend every callback ends, whatever a server
    whose operations end has stored or answers, in any state and for any
    arguments: none of the loops that run on fuel here, through the directory
    and through the payload of a block map, runs out of it. The instances of
    [ServerFueled] show that the operations of both servers of the source end
    (or block, which is a fault of its own). *)
Theorem callbacks_terminate {D : Type} `{ServerFueled D} path fh fh' (buf : list cell) size offset
    (st : fs_state (Backend.StorageBackend (D := D))) :
  fueled (Fs.dcfs_getattr path st) ∧ fueled (Fs.dcfs_readdir path st) ∧
  fueled (Fs.dcfs_create path fh st) ∧ fueled (Fs.dcfs_open path fh st) ∧
  fueled (Fs.dcfs_read path buf size offset fh' st) ∧
  fueled (Fs.dcfs_write path buf size offset fh' st) ∧ fueled (Fs.dcfs_flush path fh' st).
Proof. apply callbacks_fueled. Qed.

(** Mounting ends too: the list of servers is parsed, whatever it is. *)
Lemma mount_fueled {R : Type} `{Remote R} o opts r : fueled (Program.mount (R := R) o opts r).
Proof. unfold Program.mount, Program.init_backend. fueled. Qed.
End program.
