(* ===== verification/DcClientSpec.v ===== *)
(** * Theorems about the network client

    What a caller of [Put] and [Get] may rely on in every interleaving with
    the listener, and the interleavings in which it waits forever. *)

From Stdlib Require Import NArith ZArith Lia.
From Stdlib Require Import Strings.String.
From stdpp Require Import base list gmap.
From S2P Require Import Prelude Const Encode Options Capsule Middleware ClientComm DcClient.

Section client.
Context `{Protobuf}.
Local Open Scope Z_scope.

(** An acknowledgement of the record [h] has been received. *)
Definition acked (l : list Client.event) (h : bytes) : Prop :=
  ∃ m, Client.EvAck m ∈ l ∧ h_msgType (pdu_header (ParsePDU m)) = REPLICATION_ACK ∧
       pdu_header_hash (ParsePDU m) = h.

(** A response with result [x] for the key [gk] has been received. *)
Definition responded (l : list Client.event) (gk : Client.gs_key) (x : bytes) : Prop :=
  ∃ m, Client.EvResp m ∈ l ∧ let r := ParseGetResponse m in
    resp_success r = true ∧ resp_hash r = gk.1 ∧
    if resp_fresh_resp r
    then gk.2 = false ∧ x = SerializeFreshHashes (MkFreshHashes (resp_fresh_hashes r))
    else gk.2 = (nlen (pdu_payload_in_transit (resp_record r)) =? 0)%N ∧
         x = SerializePDU (resp_record r).

(** A client that has not sent anything yet. *)
Definition fresh_client (c : Client.DCClient) : Prop :=
  Client.put_status_ c = ∅ ∧ Client.get_status_ c = ∅ ∧
  Comm.m_recv_ack_map (Client.client_comm_ c) = ∅.

(** The invariant of a history [l] that concerns the client alone, whatever
    threads have called it. *)
Record client_inv (l : list Client.event) (c : Client.DCClient) : Prop := {
  ci_put h p : Client.put_status_ c !! h = Some p → Client.put_done p = true → acked l h;
  ci_acks h : acked l h → 1 ≤ Client.acks h c;
  ci_acks_nonneg h : 0 ≤ Client.acks h c;
  ci_get gk g : Client.get_status_ c !! gk = Some g →
    Client.get_ret g = 0 ∧
    (Client.get_done g = true → ∃ x, Client.srl_pdu g = Some x ∧ responded l gk x);
}.

(** An operation has a status only while its caller waits for it. *)
Definition waits (s : Client.net) : Prop :=
  ∀ h, is_Some (Client.put_status_ (Client.client s) !! h) → Client.thread s = Client.InPut h.

Record net_inv (l : list Client.event) (s : Client.net) : Prop := {
  ni_client : client_inv l (Client.client s);
  ni_waits : waits s;
}.

Lemma ni_put l s h p : net_inv l s → Client.put_status_ (Client.client s) !! h = Some p →
  Client.thread s = Client.InPut h ∧ (Client.put_done p = true → acked l h).
Proof. intros [Hc Hw] Hp. split; [by apply Hw|by eapply ci_put]. Qed.

Lemma acked_app l e h : acked l h → acked (l ++ [e]) h.
Proof. intros (m & Hm & Hr). exists m. split; [|done]. apply elem_of_app. by left. Qed.

Lemma responded_app l e gk x : responded l gk x → responded (l ++ [e]) gk x.
Proof. intros (m & Hm & Hr). exists m. split; [|done]. apply elem_of_app. by left. Qed.

(** Only an acknowledgement adds to [acked]. *)
Lemma acked_snoc l e h :
  acked (l ++ [e]) h → acked l h ∨
  ∃ m, e = Client.EvAck m ∧ h_msgType (pdu_header (ParsePDU m)) = REPLICATION_ACK ∧
       pdu_header_hash (ParsePDU m) = h.
Proof.
  intros (m & Hm & Hr). apply elem_of_app in Hm as [Hm|Hm]; [left; by exists m|].
  apply list_elem_of_singleton in Hm as <-. right. by exists m.
Qed.

Lemma client_init c : fresh_client c → client_inv [] c.
Proof.
  intros (Hp & Hg & Ha). split.
  - intros h p. by rewrite Hp, lookup_empty.
  - intros h (m & Hm & _). by apply not_elem_of_nil in Hm.
  - intros h. unfold Client.acks. by rewrite Ha, lookup_empty.
  - intros gk g. by rewrite Hg, lookup_empty.
Qed.

Lemma inv_init c : fresh_client c → net_inv [] (Client.MkNet Client.Idle c).
Proof.
  intros Hc. split; [by apply client_init|]. destruct Hc as (Hp & _).
  intros h. simpl. rewrite Hp, lookup_empty. by intros [].
Qed.

(** Steps that neither acknowledge nor respond, and change statuses only to
    ones that are not done. *)
Lemma client_weaken l e c c' :
  (∀ m, e ≠ Client.EvAck m) → client_inv l c →
  (∀ h p, Client.put_status_ c' !! h = Some p →
     Client.put_status_ c !! h = Some p ∨ Client.put_done p = false) →
  (∀ h, Client.acks h c' = Client.acks h c) →
  (∀ gk g, Client.get_status_ c' !! gk = Some g →
     Client.get_status_ c !! gk = Some g ∨ (Client.get_ret g = 0 ∧ Client.get_done g = false)) →
  client_inv (l ++ [e]) c'.
Proof.
  intros He [P A Z G] Hp Ha Hg. split.
  - intros h p Hx Hd. destruct (Hp h p Hx) as [Hy|Hy]; [|congruence]. by eapply acked_app, P.
  - intros h Hx. rewrite Ha. apply acked_snoc in Hx as [Hx|(m & -> & _)]; [by apply A|by destruct (He m)].
  - intros h. rewrite Ha. apply Z.
  - intros gk g Hx. destruct (Hg gk g Hx) as [Hy|[? Hd]]; [|split; [done|congruence]].
    destruct (G gk g Hy) as [? Hd]. split; [done|].
    intros Hz. destruct (Hd Hz) as (x & ? & ?). exists x. split; [done|]. by apply responded_app.
Qed.

Lemma handle_ack_inv msg c c' :
  Client.handle_ack msg c = Ret c' →
  let h := pdu_header_hash (ParsePDU msg) in
  h_msgType (pdu_header (ParsePDU msg)) = REPLICATION_ACK ∧
  Client.get_status_ c' = Client.get_status_ c ∧
  (∀ h', Client.acks h' c' = if decide (h' = h) then Client.acks h c + 1 else Client.acks h' c) ∧
  Client.put_status_ c' =
    if Client.acks h c + 1 =? WRITE_THRESHOLD then
      match Client.put_status_ c !! h with
      | Some _ => <[h := Client.MkPut true 0]> (Client.put_status_ c)
      | None => Client.put_status_ c
      end
    else Client.put_status_ c.
Proof.
  intros Hrun h. unfold Client.handle_ack in Hrun. m_bind Hrun.
  unfold c_assert in Hm. destruct (bool_decide _) eqn:Ht; [|done].
  apply bool_decide_eq_true in Ht. split; [done|]. fold h in Hrun.
  set (c1 := Client.set_comm _ c) in Hrun.
  assert (∀ h', Client.acks h' c1 = if decide (h' = h) then Client.acks h c + 1 else Client.acks h' c) as Hacks.
  { intros h'. unfold Client.acks at 1. simpl. rewrite lookup_insert. repeat case_decide; simplify_eq; done. }
  destruct (_ =? WRITE_THRESHOLD); [|by simplify_eq].
  m_bind Hrun. simplify_eq. unfold Client.CommitAck. simpl.
  destruct (Client.put_status_ c !! h); simpl; by split_and!.
Qed.

Lemma commit_get_inv gk srl c c' :
  (Client.commit_get gk srl c).1 = c' →
  Client.put_status_ c' = Client.put_status_ c ∧
  (∀ h, Client.acks h c' = Client.acks h c) ∧
  ∀ gk' g', Client.get_status_ c' !! gk' = Some g' →
    Client.get_status_ c !! gk' = Some g' ∨
    (gk' = gk ∧ Client.get_ret g' = 0 ∧ Client.srl_pdu g' = Some srl).
Proof.
  intros <-. unfold Client.commit_get. destruct (Client.get_status_ c !! gk) as [g|] eqn:E; simpl.
  - split; [done|]. split; [done|]. intros gk' g'. rewrite lookup_insert. case_decide; [|by left].
    intros [= <-]. by right.
  - split_and!; auto.
Qed.

Lemma handle_get_resp_inv msg c c' :
  Client.handle_get_resp msg c = Ret c' →
  Client.put_status_ c' = Client.put_status_ c ∧
  (∀ h, Client.acks h c' = Client.acks h c) ∧
  ∀ gk g, Client.get_status_ c' !! gk = Some g →
    Client.get_status_ c !! gk = Some g ∨
    (Client.get_ret g = 0 ∧ ∃ x, Client.srl_pdu g = Some x ∧ responded [Client.EvResp msg] gk x).
Proof.
  intros Hrun. unfold Client.handle_get_resp in Hrun.
  destruct (resp_fresh_resp (ParseGetResponse msg)) eqn:Hf.
  - destruct (resp_success (ParseGetResponse msg)) eqn:Hs; [|by simplify_eq; auto]. simplify_eq.
    unfold Client.CommitFreshResp. match goal with |- context [Client.commit_get ?a ?b c] =>
      destruct (commit_get_inv a b c _ eq_refl) as (Hp & Ha & Hg) end. split; [done|]. split; [done|].
    intros gk g Hx. destruct (Hg gk g Hx) as [?|(-> & Hr & Hsr)]; [by left|]. right. split; [done|].
    eexists. split; [done|]. exists msg. split; [by apply list_elem_of_singleton|].
    cbv zeta. by rewrite Hf.
  - m_bind Hrun. destruct (resp_success (ParseGetResponse msg)) eqn:Hs; [|by simplify_eq; auto].
    simplify_eq. unfold Client.CommitGetResp. match goal with |- context [Client.commit_get ?a ?b c] =>
      destruct (commit_get_inv a b c _ eq_refl) as (Hp & Ha & Hg) end.
    split; [done|]. split; [done|].
    intros gk g Hx. destruct (Hg gk g Hx) as [?|(-> & Hr & Hsr)]; [by left|]. right. split; [done|].
    eexists. split; [done|]. exists msg. split; [by apply list_elem_of_singleton|].
    cbv zeta. by rewrite Hf.
Qed.

Lemma Get_begin_inv hash opt rand c c' :
  Client.Get_begin hash opt rand c = Ret c' →
  Client.put_status_ c' = Client.put_status_ c ∧
  (∀ h, Client.acks h c' = Client.acks h c) ∧
  ∀ gk g, Client.get_status_ c' !! gk = Some g →
    Client.get_status_ c !! gk = Some g ∨ (Client.get_ret g = 0 ∧ Client.get_done g = false).
Proof.
  unfold Client.Get_begin. intros Hrun. m_bind Hrun. m_bind Hrun.
  destruct (Client.get_status_ c !! _); [simplify_eq; by auto|].
  m_bind Hrun. simplify_eq. simpl. split; [done|]. split.
  - intros h. unfold Comm.send_get_req in Hm1. m_bind Hm1. m_bind Hm1. by simplify_eq.
  - intros gk g. rewrite lookup_insert. case_decide; [|by left]. intros [= <-]. by right.
Qed.

Lemma ack_step l msg c c' :
  client_inv l c → Client.handle_ack msg c = Ret c' → client_inv (l ++ [Client.EvAck msg]) c'.
Proof.
  intros [P A Z G] Ha. destruct (handle_ack_inv _ _ _ Ha) as (Ht & Hg & Hac & Hp).
  set (hh := pdu_header_hash (ParsePDU msg)) in *.
  assert (acked (l ++ [Client.EvAck msg]) hh) as Hnew.
  { exists msg. split; [|done]. apply elem_of_app. right. by apply list_elem_of_singleton. }
  split.
  - intros h p. rewrite Hp. intros Hx Hd.
    assert (Client.put_status_ c !! h = Some p ∨ h = hh) as [Hy| ->]; [|by eapply acked_app, P|done].
    destruct (_ =? _) in Hx; [|by left]. destruct (Client.put_status_ c !! hh); [|by left].
    rewrite lookup_insert in Hx. case_decide; [by right|by left].
  - intros h Hack. rewrite Hac. case_decide as Hx.
    + pose proof (Z hh). lia.
    + apply acked_snoc in Hack as [Hack|(m & [= <-] & _ & Hh)]; [by apply A|]. by subst hh.
  - intros h. rewrite Hac. case_decide; [|done]. pose proof (Z hh). lia.
  - intros gk g. rewrite Hg. intros Hx. destruct (G gk g Hx) as [? Hd]. split; [done|].
    intros Hy. destruct (Hd Hy) as (x & ? & ?). exists x. split; [done|]. by apply responded_app.
Qed.

Lemma resp_step l msg c c' :
  client_inv l c → Client.handle_get_resp msg c = Ret c' →
  client_inv (l ++ [Client.EvResp msg]) c'.
Proof.
  intros [P A Z G] Hm. destruct (handle_get_resp_inv _ _ _ Hm) as (Hp & Hac & Hgs). split.
  - intros h p. rewrite Hp. intros Hx Hy. by eapply acked_app, P.
  - intros h Hack. rewrite Hac. apply acked_snoc in Hack as [Hack|(m & [=] & _)]. by apply A.
  - intros h. rewrite Hac. apply Z.
  - intros gk g Hx. destruct (Hgs gk g Hx) as [Hy|(Hr & x & Hsr & m & Hin & Hresp)].
    + destruct (G gk g Hy) as [? Hd]. split; [done|].
      intros Hz. destruct (Hd Hz) as (x & ? & ?). exists x. split; [done|]. by apply responded_app.
    + split; [done|]. intros _. exists x. split; [done|]. exists m. split; [|done].
      apply elem_of_app. by right.
Qed.

(** Whatever its caller did before, a step keeps the client's invariant. *)
Lemma client_step l e s s' :
  client_inv l (Client.client s) → Client.net_step e s s' → client_inv (l ++ [e]) (Client.client s').
Proof.
  intros Hi Hs.
  destruct Hs as [hash srl c|hash c Hr|hash opt rand c c' Hg|gk c Hr|msg t c c' Ha|msg t c c' Hm]; simpl in *.
  - unfold Client.Put_begin. destruct (Client.put_status_ c !! hash) as [q|].
    + eapply client_weaken; [done|done|auto|done|auto].
    + eapply client_weaken; [done|done| |done|auto]. simpl. intros h p. rewrite lookup_insert.
      case_decide; [|by left]. intros [= <-]. by right.
  - eapply client_weaken; [done|done| |done|auto]. simpl. intros h p [_ Hp]%lookup_delete_Some. by left.
  - destruct (Get_begin_inv _ _ _ _ _ Hg) as (Hp & Hac & Hgs). eapply client_weaken; [done|done| |done|done].
    rewrite Hp. auto.
  - eapply client_weaken; [done|done|auto|done|auto].
  - by eapply ack_step.
  - by eapply resp_step.
Qed.

(** Which statuses there are. *)
Lemma step_status e s s' h :
  Client.net_step e s s' → is_Some (Client.put_status_ (Client.client s') !! h) →
  is_Some (Client.put_status_ (Client.client s) !! h) ∨ ∃ srl, e = Client.EvPut h srl.
Proof.
  intros [hash srl c|hash c Hr|hash opt rand c c' Hg|gk c Hr|msg t c c' Ha|msg t c c' Hm]; simpl.
  - unfold Client.Put_begin. destruct (Client.put_status_ c !! hash); simpl; [by left|].
    rewrite lookup_insert. case_decide; [subst; right; by eexists|by left].
  - intros [p [_ Hp]%lookup_delete_Some]. left. by eexists.
  - destruct (Get_begin_inv _ _ _ _ _ Hg) as (-> & _). by left.
  - by left.
  - destruct (handle_ack_inv _ _ _ Ha) as (_ & _ & _ & ->). left.
    destruct (_ =? _); [|done]. destruct (Client.put_status_ c !! _) eqn:E; [|done].
    rewrite lookup_insert in *. case_decide; [by subst; rewrite E|done].
  - destruct (handle_get_resp_inv _ _ _ Hm) as (-> & _). by left.
Qed.

Lemma waits_step e s s' : waits s → Client.net_step e s s' → waits s'.
Proof.
  intros Hw Hstep h Hh. destruct (step_status _ _ _ h Hstep Hh) as [Hp|[srl ->]]; [|by inversion Hstep].
  pose proof (Hw h Hp) as Ht. destruct Hstep; simpl in *; simplify_eq; try done.
  by rewrite lookup_delete_eq in Hh; destruct Hh.
Qed.

Lemma inv_step l e s s' : net_inv l s → Client.net_step e s s' → net_inv (l ++ [e]) s'.
Proof. intros [Hc Hw] Hs. split; [by eapply client_step|by eapply waits_step]. Qed.

Lemma inv_run c0 l s : fresh_client c0 → Client.run c0 l s → net_inv l s.
Proof. intros Hc. induction 1 as [|l e s s' _ IH Hs]; [by apply inv_init|by eapply inv_step]. Qed.

Lemma idle_no_put l c h :
  net_inv l (Client.MkNet Client.Idle c) → Client.put_status_ c !! h = None.
Proof.
  intros Hi. destruct (Client.put_status_ c !! h) as [p|] eqn:E; [|done].
  by destruct (ni_put _ _ _ _ Hi E).
Qed.

Lemma ready_acked l c h : client_inv l c → Client.Put_ready h c = true → acked l h.
Proof.
  intros Hi Hr. unfold Client.Put_ready in Hr.
  destruct (Client.put_status_ c !! h) as [p|] eqn:E; [|done]. by eapply ci_put.
Qed.

Lemma ready_responded l c gk :
  client_inv l c → Client.Get_ready gk c = true →
  ∃ x, Client.Get_end gk c = Some x ∧ responded l gk x.
Proof.
  intros Hi Hr. unfold Client.Get_ready, Client.Get_end in *.
  destruct (Client.get_status_ c !! gk) as [g|] eqn:E; [|done].
  destruct (ci_get _ _ Hi gk g E) as [-> Hd]. destruct (Hd Hr) as (x & -> & Hx). by exists x.
Qed.

(** ** Theorems *)

(** [Put] returns only after an acknowledgement of that very record has
    been received, in every interleaving of the two threads. *)
Theorem Put_returns_after_ack c0 l (s s' : Client.net) h :
  fresh_client c0 → Client.run c0 l s → Client.net_step (Client.EvPutRet h) s s' → acked l h.
Proof.
  intros Hc Hrun Hstep. pose proof (inv_run _ _ _ Hc Hrun) as Hi.
  inversion Hstep as [|? c Hr| | | |]; subst. exact (ready_acked _ _ _ (ni_client _ _ Hi) Hr).
Qed.

(** What [Get] returns was received: it is the serialised record (or the
    list of fresh hashes) of a successful response for the requested hash, and
    a record without a payload only answers a metadata request. [Get] never
    returns NULL, so [DCServerNet::ReadRecord] never returns [ERR_IO]. *)
Theorem Get_returns_response c0 l (s s' : Client.net) gk res :
  fresh_client c0 → Client.run c0 l s → Client.net_step (Client.EvGetRet gk res) s s' →
  ∃ x, res = Some x ∧ responded l gk x.
Proof.
  intros Hc Hrun Hstep. pose proof (inv_run _ _ _ Hc Hrun) as Hi.
  inversion Hstep as [| | |? c Hr| |]; subst. exact (ready_responded _ _ _ (ni_client _ _ Hi) Hr).
Qed.

(** A read waits forever when the record does not exist or is empty: as
    long as every response for the hash is unsuccessful or carries a record
    without a payload, as a capsule's META record is, [Get] of the full record
    does not return. *)
Theorem Get_waits_forever c0 l (s s' : Client.net) h res :
  fresh_client c0 → Client.run c0 l s →
  (∀ m, Client.EvResp m ∈ l → resp_hash (ParseGetResponse m) = h →
     resp_success (ParseGetResponse m) = false ∨
     (resp_fresh_resp (ParseGetResponse m) = false ∧
      pdu_payload_in_transit (resp_record (ParseGetResponse m)) = [])) →
  ¬ Client.net_step (Client.EvGetRet (h, false) res) s s'.
Proof.
  intros Hc Hrun Hall Hstep. pose proof (inv_run _ _ _ Hc Hrun) as Hi.
  inversion Hstep as [| | |? c Hr| |]; subst.
  destruct (ready_responded _ _ _ (ni_client _ _ Hi) Hr) as (x & _ & m & Hm & Hs & Hh & Hx).
  destruct (Hall m Hm Hh) as [Hf|[Hf Hp]]; [congruence|]. rewrite Hf, Hp in Hx. by destruct Hx.
Qed.

(** A [Put] whose record has been acknowledged before. *)
Definition stuck (h : bytes) (s : Client.net) : Prop :=
  Client.thread s = Client.InPut h ∧
  (∃ p, Client.put_status_ (Client.client s) !! h = Some p ∧ Client.put_done p = false) ∧
  1 ≤ Client.acks h (Client.client s).

Lemma stuck_step h e s s' :
  stuck h s → Client.net_step e s s' → stuck h s' ∧ e ≠ Client.EvPutRet h.
Proof.
  intros (Ht & (p & Hp & Hd) & Ha) Hstep.
  destruct Hstep as [| hash c Hr| | |msg t c c' Hack|msg t c c' Hm]; simpl in *; simplify_eq.
  - unfold Client.Put_ready in Hr. rewrite Hp in Hr. congruence.
  - split; [|done]. destruct (handle_ack_inv _ _ _ Hack) as (_ & _ & Hac & Hps).
    set (hh := pdu_header_hash (ParsePDU msg)) in *. split; [done|]. simpl. split.
    + exists p. split; [|done]. rewrite Hps. destruct (decide (hh = h)) as [->|Hne].
      * unfold WRITE_THRESHOLD. by rewrite (proj2 (Z.eqb_neq _ _)) by lia.
      * destruct (_ =? _); [|done]. destruct (Client.put_status_ c !! hh); [|done].
        by rewrite lookup_insert_ne.
    + rewrite Hac. case_decide as Hx; [rewrite <-Hx; lia|done].
  - split; [|done]. destruct (handle_get_resp_inv _ _ _ Hm) as (Hps & Hac & _).
    split; [done|]. simpl. rewrite Hps, Hac. eauto.
Qed.

Lemma stuck_forever h l s s' :
  stuck h s → Client.steps s l s' → stuck h s' ∧ Client.EvPutRet h ∉ l.
Proof.
  intros Hs Hsteps. induction Hsteps as [s|e l s s1 s2 Hstep _ IH].
  { split; [done|]. apply not_elem_of_nil. }
  destruct (stuck_step _ _ _ _ Hs Hstep) as [Hs1 He]. destruct (IH Hs1) as [Hs2 Hl].
  split; [done|]. rewrite not_elem_of_cons. auto.
Qed.

(** C30. Storing the same record twice hangs the client: the counter of
    acknowledgements is never reset and the threshold is compared with [==],
    so after a first acknowledgement no further one completes a later [Put] of
    the same hash, whatever else happens. *)
Theorem second_Put_never_returns c0 l c h srl l' s' :
  fresh_client c0 → Client.run c0 l (Client.MkNet Client.Idle c) → acked l h →
  Client.steps (Client.MkNet (Client.InPut h) (Client.Put_begin h srl c)) l' s' →
  Client.EvPutRet h ∉ l'.
Proof.
  intros Hc Hrun Hack Hsteps. pose proof (inv_run _ _ _ Hc Hrun) as Hi.
  refine (proj2 (stuck_forever h _ _ _ _ Hsteps)).
  assert (Client.put_status_ c !! h = None) as Hn.
  { by eapply idle_no_put. }
  unfold stuck, Client.Put_begin. rewrite Hn. simpl. split; [done|]. split; [|by apply Hi].
  exists (Client.MkPut false 0). by rewrite lookup_insert_eq.
Qed.

(** [Put] sends the record exactly once to every server it is connected
    to, and nothing else. *)
Theorem Put_sends_to_all c0 l c h srl (s' : Client.net) :
  fresh_client c0 → Client.run c0 l (Client.MkNet Client.Idle c) →
  Client.net_step (Client.EvPut h srl) (Client.MkNet Client.Idle c) s' →
  Comm.outbox (Client.client_comm_ (Client.client s')) =
  Comm.outbox (Client.client_comm_ c) ++
    ((λ p, (p.2, srl)) <$> map_to_list (Comm.m_dc_server_dc_sockets (Client.client_comm_ c))).
Proof.
  intros Hc Hrun Hstep. pose proof (inv_run _ _ _ Hc Hrun) as Hi.
  inversion Hstep; subst. simpl. unfold Client.Put_begin. by rewrite (idle_no_put _ _ h Hi).
Qed.
End client.
