(* ===== verification/Callers.v ===== *)
(** * Many callers of one client

    The callbacks run in several threads, so several calls of [Put] and [Get]
    may be under way on the one [DCClient]: one waits for its answer while
    others begin, end, or wait themselves, and the listener works. A step of any
    of them is a step of [DcClient.v], and steps come one after another.

    That is an assumption: nothing in the client is locked, and [dc_client.hpp]
    says of [client_comm_] that it is for a single thread. When two threads are
    inside [Put], [Get] or a handler at the same time, they race for the maps
    and the sockets, and nothing is said here of what happens then. *)

From Stdlib Require Import NArith ZArith Lia.
From stdpp Require Import base list gmap.
From S2P Require Import Prelude Const Capsule ClientComm DcClient DcClientSpec.

Module Callers.
Section callers.
Context `{Protobuf}.

Record state := MkCallers { callers : list Client.caller; shared : Client.DCClient }.

(** The events of a caller, and those of the listener. *)
Definition is_call (e : Client.event) : bool :=
  match e with Client.EvAck _ | Client.EvResp _ => false | _ => true end.

(** A step of caller [i], or of the listener. *)
Inductive step : Client.event → state → state → Prop :=
  | step_caller e ts i t t' c c' :
      ts !! i = Some t → is_call e = true →
      Client.net_step e (Client.MkNet t c) (Client.MkNet t' c') →
      step e (MkCallers ts c) (MkCallers (<[i := t']> ts) c')
  | step_listener e ts t c c' :
      is_call e = false → Client.net_step e (Client.MkNet t c) (Client.MkNet t c') →
      step e (MkCallers ts c) (MkCallers ts c').

(** The histories of a client with [n] callers. *)
Inductive run (n : nat) (c0 : Client.DCClient) : list Client.event → state → Prop :=
  | run_nil : run n c0 [] (MkCallers (replicate n Client.Idle) c0)
  | run_snoc l e s s' : run n c0 l s → step e s s' → run n c0 (l ++ [e]) s'.

(** The operation of a caller has its status. Without it [put_status_[hash]]
    is a null pointer, and the condition variable the caller waits on is freed. *)
Definition has_status (t : Client.caller) (c : Client.DCClient) : Prop :=
  match t with
  | Client.Idle => True
  | Client.InPut h => is_Some (Client.put_status_ c !! h)
  | Client.InGet gk => is_Some (Client.get_status_ c !! gk)
  end.

(** ** What the operations promise to every caller *)

Lemma step_net e s s' :
  step e s s' → ∃ t t', Client.net_step e (Client.MkNet t (shared s)) (Client.MkNet t' (shared s')).
Proof. intros []; eauto. Qed.

Lemma shared_step l e s s' :
  client_inv l (shared s) → step e s s' → client_inv (l ++ [e]) (shared s').
Proof. intros Hi (t & t' & Hn)%step_net. exact (client_step l e (Client.MkNet t _) (Client.MkNet t' _) Hi Hn). Qed.

Lemma shared_run n c0 l s : fresh_client c0 → run n c0 l s → client_inv l (shared s).
Proof. intros Hc. induction 1 as [|l e s s' _ IH Hs]; [by apply client_init|by eapply shared_step]. Qed.

(** C29. However many callers have operations under way, one step of one thread
    at a time: a [Put] returns only after an
    acknowledgement of that very record has been received, and what a [Get]
    returns was received in a successful response for the requested hash; it is
    never NULL, so [DCServerNet::ReadRecord] never returns [ERR_IO]. *)
Theorem results_were_received n c0 l e s s' :
  fresh_client c0 → run n c0 l s → step e s s' →
  match e with
  | Client.EvPutRet h => acked l h
  | Client.EvGetRet gk res => ∃ x, res = Some x ∧ responded l gk x
  | _ => True
  end.
Proof.
  intros Hc Hrun Hstep. pose proof (shared_run _ _ _ _ Hc Hrun) as Hi.
  destruct Hstep as [e ts i t t' c c' _ _ Hn|e ts t c c' He Hn]; [|by destruct e].
  inversion Hn; subst; try done; [by eapply ready_acked|by eapply ready_responded].
Qed.

(** ** Two callers that store one record *)

(** They share one status. The one that returns first erases it, and the other
    waits for a condition variable that is freed. *)
Lemma same_put_lost h i j (ts : list Client.caller) c t' c' :
  ts !! i = Some (Client.InPut h) → ts !! j = Some (Client.InPut h) → i ≠ j →
  Client.net_step (Client.EvPutRet h) (Client.MkNet (Client.InPut h) c) (Client.MkNet t' c') →
  ∃ t, <[i := t']> ts !! j = Some t ∧ ¬ has_status t c'.
Proof.
  intros _ Hj Hij Hstep. exists (Client.InPut h). rewrite list_lookup_insert_ne by done.
  split; [done|]. inversion Hstep; subst. simpl. rewrite lookup_delete_eq. by intros [].
Qed.

End callers.
End Callers.
