(* ===== verification/NetSpec.v ===== *)
(** * [DCServerNet] keeps what the network promises

    Every operation of [DCServerNet] is a path of the client's transition
    system. Over servers that are honest (they answer with the record that is
    stored under the requested name, keep it for ever, and acknowledge only
    what is stored), a record that was written is read back. *)

From Stdlib Require Import NArith ZArith Lia.
From stdpp Require Import base list gmap.
From S2P Require Import Prelude Const Encode Options Capsule DcServer Middleware.
From S2P Require Import ClientComm DcClient Listener NetServer DcClientSpec.

#[export] Existing Instance Net.DCServer_net.

(** ** Honest servers *)

(** [remote_record r name] is the record the servers hold under a name. *)
Class HonestRemote (R : Type) `{Protobuf} `{Remote R} := {
  remote_record : R → bytes → option bytes;
  remote_keeps sent r r' polls h x :
    remote_step sent r = (r', polls) → remote_record r h = Some x → remote_record r' h = Some x;
  remote_acks sent r r' polls m o :
    remote_step sent r = (r', polls) → (Some m, o) ∈ polls →
    is_Some (remote_record r' (pdu_header_hash (ParsePDU (Listener.text m))));
  remote_answers sent r r' polls m o :
    remote_step sent r = (r', polls) → (o, Some m) ∈ polls →
    let resp := ParseGetResponse (Listener.text m) in
    resp_success resp = true →
    resp_fresh_resp resp = false ∧
    remote_record r' (resp_hash resp) = Some (SerializePDU (resp_record resp));
}.

Section paths.
Context `{Protobuf} {R : Type} `{Remote R}.
Abbreviation Srv := (Net.DCServerNet R).
Abbreviation at_rest := (Client.MkNet Client.Idle).

Lemma run_steps c0 l s l' s' :
  Client.run c0 l s → Client.steps s l' s' → Client.run c0 (l ++ l') s'.
Proof.
  intros Hr Hs. revert l Hr. induction Hs as [s|e l' s s1 s2 Hstep _ IH]; intros l Hr.
  { by rewrite app_nil_r. }
  replace (l ++ e :: l') with ((l ++ [e]) ++ l') by by rewrite <-(assoc_L (++)).
  apply IH. by eapply Client.run_snoc.
Qed.

Lemma steps_snoc s l e s' :
  Client.steps s (l ++ [e]) s' → ∃ s1, Client.steps s l s1 ∧ Client.net_step e s1 s'.
Proof.
  revert s. induction l as [|x l IH]; intros s Hs; inversion Hs as [|? ? ? s2 ? H1 H2]; subst.
  - inversion H2; subst. exists s. split; [constructor|done].
  - destruct (IH _ H2) as (s1 & Ha & Hb). exists s1. split; [by econstructor|done].
Qed.

(** The rounds of a wait. *)
Definition rounds (b : bool) (polls : list (option (list cell) * option (list cell))) :
    list Listener.round := (λ p, Listener.MkRound p.1 p.2 b) <$> polls.

Lemma wait_steps t c c' (d : Srv) r' :
  Net.wait c d = Ret (c', r') →
  ∃ polls, remote_step (Comm.outbox (Client.client_comm_ c)) (Net.remote d) = (r', polls) ∧
    Client.steps (Client.MkNet t c) (Listener.handled (rounds (Net.end_signal_ d) polls))
      (Client.MkNet t c').
Proof.
  unfold Net.wait. intros Hrun. destruct (remote_step _ _) as [r polls]. m_bind Hrun.
  destruct r0 as [c1 b]. simplify_eq. exists polls. split; [done|].
  by apply (Listener.listen_steps t) in Hm as [Hs _].
Qed.

Lemma write_path dc r data (d d' : Srv) res :
  Net.WriteRecord dc r data d = Ret (d', res) →
  ∃ polls, remote_step (Comm.outbox (Client.client_comm_ (Client.Put_begin r data (Net.dcclient_ d))))
      (Net.remote d) = (Net.remote d', polls) ∧ res = inr tt ∧
    let l := Listener.handled (rounds (Net.end_signal_ d) polls) in
    Client.steps (at_rest (Net.dcclient_ d)) (Client.EvPut r data :: l ++ [Client.EvPutRet r])
      (at_rest (Net.dcclient_ d')).
Proof.
  unfold Net.WriteRecord, Client.WriteRecord_begin. intros Hrun. m_bind Hrun.
  destruct r0 as [c1 r1]. destruct (Client.Put_ready r c1) eqn:Hready; [|done]. simplify_eq.
  apply (wait_steps (Client.InPut r)) in Hm as (polls & Hp & Hs). exists polls.
  split_and!; [done|done|]. eapply Client.steps_cons; [constructor|].
  eapply Listener.steps_app; [done|]. apply Listener.steps_one. by constructor.
Qed.

Lemma read_path dc r n (d d' : Srv) res :
  Net.ReadRecord dc r n d = Ret (d', res) →
  ∃ c1 polls out, remote_step (Comm.outbox (Client.client_comm_ c1)) (Net.remote d) =
      (Net.remote d', polls) ∧
    Client.Get_begin r Client.net_get_options (c_rand (Net.draws d)) (Net.dcclient_ d) = Ret c1 ∧
    Client.ReadRecord_end out n = Ret res ∧
    let l := Listener.handled (rounds (Net.end_signal_ d) polls) in
    Client.steps (at_rest (Net.dcclient_ d))
      (Client.EvGet r Client.net_get_options (c_rand (Net.draws d)) :: l ++
        [Client.EvGetRet (r, false) out]) (at_rest (Net.dcclient_ d')).
Proof.
  unfold Net.ReadRecord, Client.ReadRecord_begin. intros Hrun. cbv zeta in Hrun.
  m_bind Hrun. m_bind Hrun. destruct r1 as [c2 r2].
  destruct (Client.Get_ready _ c2) eqn:Hready; [|done]. m_bind Hrun. simplify_eq.
  apply (wait_steps (Client.InGet (r, false))) in Hm0 as (polls & Hp & Hs).
  exists r0, polls, (Client.Get_end (r, false) c2).
  split_and!; [done|done|done|]. eapply Client.steps_cons; [by constructor|].
  eapply Listener.steps_app; [done|]. apply Listener.steps_one. by constructor.
Qed.

(** One operation of the server object, and sequences of them. *)
Inductive net_op : Srv → Srv → Prop :=
  | op_write dc r data d d' res : WriteRecord dc r data d = Ret (d', res) → net_op d d'
  | op_read dc r n d d' res : ReadRecord dc r n d = Ret (d', res) → net_op d d'.

Lemma handled_in e b polls :
  e ∈ Listener.handled (rounds b polls) →
  ∃ p, p ∈ polls ∧ ((∃ m, p.1 = Some m ∧ e = Client.EvAck (Listener.text m)) ∨
                    (∃ m, p.2 = Some m ∧ e = Client.EvResp (Listener.text m))).
Proof.
  induction polls as [|[a o] polls IH]; simpl; [by intros ?%not_elem_of_nil|].
  intros [Hin|Hin]%elem_of_app.
  - exists (a, o). split; [by constructor|]. unfold Listener.round_events in Hin. simpl in Hin.
    apply elem_of_app in Hin as [Hin|Hin].
    + left. destruct a as [m|]; [|by apply not_elem_of_nil in Hin].
      apply list_elem_of_singleton in Hin. by exists m.
    + right. destruct o as [m|]; [|by apply not_elem_of_nil in Hin].
      apply list_elem_of_singleton in Hin. by exists m.
  - destruct b; [by apply not_elem_of_nil in Hin|].
    destruct (IH Hin) as (p & Hp & Hc). exists p. split; [by constructor|done].
Qed.

(** C35. The operations of [DCServerNet] are paths of the client's transition
    system from rest to rest: the request is sent, the listener handles what
    the polls find, and the call returns as [Put] or [Get] does. A write
    returns [NO_ERR] whatever was acknowledged. *)
Theorem server_ops_refine dc r (d d' : Srv) :
  (∀ data res, WriteRecord dc r data d = Ret (d', res) →
     res = inr tt ∧ ∃ polls, let l := Listener.handled (rounds (Net.end_signal_ d) polls) in
       Client.steps (at_rest (Net.dcclient_ d)) (Client.EvPut r data :: l ++ [Client.EvPutRet r])
         (at_rest (Net.dcclient_ d'))) ∧
  (∀ n res, ReadRecord dc r n d = Ret (d', res) →
     ∃ polls out, let l := Listener.handled (rounds (Net.end_signal_ d) polls) in
       Client.ReadRecord_end out n = Ret res ∧
       Client.steps (at_rest (Net.dcclient_ d))
         (Client.EvGet r Client.net_get_options (c_rand (Net.draws d)) ::
            l ++ [Client.EvGetRet (r, false) out]) (at_rest (Net.dcclient_ d'))).
Proof.
  split.
  - intros data res Hw. apply write_path in Hw as (polls & _ & -> & Hs). split; [done|]. by exists polls.
  - intros n res Hr. apply read_path in Hr as (? & polls & out & _ & _ & He & Hs). by exists polls, out.
Qed.

(** ** A write that is acknowledged returns *)

(** A message the handler of acknowledgements accepts. *)
Definition good_ack (m : list cell) : Prop :=
  ∃ s, m = Some <$> s ∧ h_msgType (pdu_header (ParsePDU s)) = REPLICATION_ACK ∧
       (32 ≤ length (pdu_header_hash (ParsePDU s)))%nat.

Definition good_poll (p : option (list cell) * option (list cell)) : Prop :=
  (∀ m, p.1 = Some m → good_ack m) ∧ (∀ m, p.2 = Some m → Forall is_Some m).

Lemma good_poll_ack s :
  h_msgType (pdu_header (ParsePDU s)) = REPLICATION_ACK →
  (32 ≤ length (pdu_header_hash (ParsePDU s)))%nat → good_poll (Some (Some <$> s), None).
Proof. intros Ht Hl. split; [|done]. intros m [= <-]. by exists s. Qed.

Lemma hex_total s n : (n ≤ nlen s)%N → ∃ x, Encode.binary_to_hex_string s n = Ret x.
Proof. intros Hn. unfold Encode.binary_to_hex_string. rewrite mem_read_ok by lia. by eexists. Qed.

Lemma handle_ack_total s c :
  h_msgType (pdu_header (ParsePDU s)) = REPLICATION_ACK →
  (32 ≤ length (pdu_header_hash (ParsePDU s)))%nat →
  ∃ c', Client.handle_ack s c = Ret c'.
Proof.
  intros Ht Hl. unfold Client.handle_ack. rewrite bool_decide_eq_true_2 by done. m_run.
  destruct (_ =? _)%Z; [|by eexists].
  destruct (hex_total (c_str (pdu_header_hash (ParsePDU s))) 32) as [x ->]; [|by eexists].
  unfold nlen, c_str. rewrite length_app. lia.
Qed.

Lemma handle_get_resp_total s c : ∃ c', Client.handle_get_resp s c = Ret c'.
Proof.
  unfold Client.handle_get_resp. destruct (resp_fresh_resp _).
  { destruct (resp_success _); by eexists. }
  cbv zeta. match goal with |- context [Encode.binary_to_hex_string ?a ?b] =>
    destruct (hex_total a b) as [x ->] end.
  - unfold c_str. rewrite nlen_app. destruct (N.ltb_spec (nlen (resp_hash (ParseGetResponse s))) 16); lia.
  - m_run. destruct (resp_success _); by eexists.
Qed.

(** The counter of [r] tells whether an acknowledgement has been counted. *)
Definition waiting (r : bytes) (c : Client.DCClient) : Prop :=
  ∃ p, Client.put_status_ c !! r = Some p ∧ (Client.acks r c = 0%Z ∨ Client.put_done p = true).

Lemma ack_progress r m c :
  waiting r c → good_ack m →
  ∃ c', Listener.on_message Client.handle_ack (Some m) c = Ret c' ∧ waiting r c' ∧
    (pdu_header_hash (ParsePDU (Listener.text m)) = r ∨ Client.Put_ready r c = true →
     Client.Put_ready r c' = true).
Proof.
  intros (p & Hp & Hor) (s & -> & Ht & Hl). destruct (handle_ack_total s c Ht Hl) as [c' Hc'].
  assert (Listener.recv_string (Some <$> s) = Ret s) as Hrecv by apply cells_bytes_ok.
  pose proof (Listener.recv_text _ _ Hrecv) as <-.
  exists c'. unfold Listener.on_message. rewrite Hrecv. m_run. split; [done|].
  apply handle_ack_inv in Hc' as (_ & _ & Hacks & Hput). unfold waiting, Client.Put_ready.
  unfold WRITE_THRESHOLD in Hput. rewrite Hput, Hacks, Hp.
  destruct (decide (r = pdu_header_hash (ParsePDU s))) as [->|Hne].
  - destruct Hor as [Hz|Hd].
    + rewrite Hz, Hp. simpl. rewrite lookup_insert_eq. eauto.
    + destruct (_ =? 1)%Z; [rewrite Hp, lookup_insert_eq|rewrite Hp]; eauto.
  - assert ((if (Client.acks (pdu_header_hash (ParsePDU s)) c + 1 =? 1)%Z then
       match Client.put_status_ c !! pdu_header_hash (ParsePDU s) with
       | Some _ => <[pdu_header_hash (ParsePDU s):=Client.MkPut true 0]> (Client.put_status_ c)
       | None => Client.put_status_ c
       end else Client.put_status_ c) !! r = Some p) as ->.
    { repeat case_match; rewrite ?lookup_insert_ne by congruence; done. }
    split; [eauto|]. by intros [?|?]; [congruence|].
Qed.

Lemma resp_progress r m c :
  waiting r c → Forall is_Some m →
  ∃ c', Listener.on_message Client.handle_get_resp (Some m) c = Ret c' ∧ waiting r c' ∧
    (Client.Put_ready r c = true → Client.Put_ready r c' = true).
Proof.
  intros Hw Hm. assert (∃ s, m = Some <$> s) as [s ->].
  { induction Hm as [|x m [b ->] _ [s ->]]; [by exists []|by exists (b :: s)]. }
  destruct (handle_get_resp_total s c) as [c' Hc']. exists c'.
  unfold Listener.on_message, Listener.recv_string, Listener.message_to_string.
  rewrite cells_bytes_ok. m_run. split; [done|].
  apply handle_get_resp_inv in Hc' as (Hp & Ha & _). unfold waiting, Client.Put_ready.
  by rewrite Hp, Ha.
Qed.

Lemma listen_progress r polls c :
  waiting r c → Forall good_poll polls →
  ∃ c', Listener.run_dc_client_listen_server (rounds false polls) c = Ret (c', false) ∧
    ((∃ m o, (Some m, o) ∈ polls ∧ pdu_header_hash (ParsePDU (Listener.text m)) = r) ∨
     Client.Put_ready r c = true → Client.Put_ready r c' = true).
Proof.
  intros Hw Hall. revert c Hw. induction Hall as [|[a o] polls [Hga Hgo] _ IH]; intros c Hw.
  { exists c. split; [done|]. intros [(m & o & Hx & _)|?]; [by apply not_elem_of_nil in Hx|done]. }
  simpl in *. unfold Listener.listen_round. simpl.
  assert (∃ c1, Listener.on_message Client.handle_ack a c = Ret c1 ∧ waiting r c1 ∧
    ((∃ m, a = Some m ∧ pdu_header_hash (ParsePDU (Listener.text m)) = r) ∨
      Client.Put_ready r c = true → Client.Put_ready r c1 = true)) as (c1 & -> & Hw1 & Hr1).
  { destruct a as [m|]; [|exists c; split_and!; [done|done|by intros [(? & [=] & _)|?]]].
    destruct (ack_progress r m c Hw (Hga m eq_refl)) as (c1 & ? & ? & Hd). exists c1.
    split_and!; [done|done|]. intros [(? & [= <-] & ?)|?]; apply Hd; auto. }
  m_run. assert (∃ c2, Listener.on_message Client.handle_get_resp o c1 = Ret c2 ∧ waiting r c2 ∧
    (Client.Put_ready r c1 = true → Client.Put_ready r c2 = true)) as (c2 & -> & Hw2 & Hr2).
  { destruct o as [m|]; [by apply resp_progress; auto|by exists c1]. }
  m_run. destruct (IH c2 Hw2) as (c3 & Hrun & Hr3). exists c3. split; [done|].
  intros [(m & o' & [Heq|Hin]%elem_of_cons & Hh)|Hr]; apply Hr3.
  - injection Heq as <- <-. right. apply Hr2, Hr1. left. by exists m.
  - left. by exists m, o'.
  - right. auto.
Qed.

(** C34. A first write comes back: if no acknowledgement of a record of that
    name was ever counted by the object ([acks r] is 0), and, while the call
    waits, one arrives and no message that arrives is malformed, [WriteRecord]
    returns [NO_ERR]. (A later write of a name whose acknowledgement was counted
    before never returns: [DcClientSpec.second_Put_never_returns].) *)
Theorem acknowledged_write_returns dc r data (d : Srv) c0 l :
  fresh_client c0 → Client.run c0 l (at_rest (Net.dcclient_ d)) →
  Net.end_signal_ d = false → Client.acks r (Net.dcclient_ d) = 0%Z →
  let polls := (remote_step (Comm.outbox (Client.client_comm_
    (Client.Put_begin r data (Net.dcclient_ d)))) (Net.remote d)).2 in
  Forall good_poll polls →
  (∃ m o, (Some m, o) ∈ polls ∧ pdu_header_hash (ParsePDU (Listener.text m)) = r) →
  ∃ d', WriteRecord dc r data d = Ret (d', inr tt).
Proof.
  intros Hc0 Hrun Hsig Hacks polls Hgood Hack.
  pose proof (idle_no_put _ _ r (inv_run _ _ _ Hc0 Hrun)) as Hnone.
  simpl. unfold Net.WriteRecord, Client.WriteRecord_begin, Net.wait.
  destruct (remote_step _ _) as [r' polls'] eqn:Hstep. rewrite Hsig.
  destruct (listen_progress r polls' (Client.Put_begin r data (Net.dcclient_ d)))
    as (c' & Hlisten & Hready); [|done|].
  { unfold waiting, Client.Put_begin. rewrite Hnone. simpl. rewrite lookup_insert_eq.
    eexists. split; [done|]. by left. }
  unfold rounds in Hlisten. rewrite Hlisten. m_run. rewrite Hready by by left. by eexists.
Qed.

End paths.

Section honest.
Context `{Protobuf} {R : Type} `{Remote R} `{!HonestRemote R}.
Abbreviation Srv := (Net.DCServerNet R).
Abbreviation at_rest := (Client.MkNet Client.Idle).
Local Open Scope N_scope.

(** The invariant: the client's state has a history, and all that was
    acknowledged or answered in it is stored. *)
Record net_ok (d : Srv) (l : list Client.event) : Prop := {
  no_run : ∃ c0, fresh_client c0 ∧ Client.run c0 l (at_rest (Net.dcclient_ d));
  no_acked h : acked l h → is_Some (remote_record (Net.remote d) h);
  no_responded gk x : responded l gk x → remote_record (Net.remote d) gk.1 = Some x;
}.

Lemma net_ok_inv d l : net_ok d l → net_inv l (at_rest (Net.dcclient_ d)).
Proof. intros [(c0 & Hc & Hr) _ _]. by eapply inv_run. Qed.

Definition honest_events (r : R) (l : list Client.event) : Prop :=
  (∀ h, acked l h → is_Some (remote_record r h)) ∧
  (∀ gk x, responded l gk x → remote_record r gk.1 = Some x).

Lemma handled_honest sent r r' polls b :
  remote_step sent r = (r', polls) → honest_events r' (Listener.handled (rounds b polls)).
Proof.
  intros Hp. split.
  - intros h (m & Hin & _ & <-).
    apply handled_in in Hin as ([a o] & Hin & [(m' & Ha & [= ->])|(m' & _ & [=])]).
    simpl in Ha. subst. by eapply remote_acks.
  - intros gk x (m & Hin & Hs & Hgk & Hx).
    apply handled_in in Hin as ([a o] & Hin & [(m' & _ & [=])|(m' & Ho & [= ->])]).
    simpl in Ho. subst. rewrite <-Hgk.
    destruct (remote_answers _ _ _ _ m' a Hp Hin Hs) as [Hf Hrec].
    rewrite Hf in Hx. destruct Hx as [_ ->]. done.
Qed.

(** The events of an operation: a request, what arrives, and the return. *)
Lemma net_ok_extend (d d' : Srv) l e l' e' :
  net_ok d l → (∀ m, e ≠ Client.EvAck m ∧ e ≠ Client.EvResp m) →
  (∀ m, e' ≠ Client.EvAck m ∧ e' ≠ Client.EvResp m) →
  honest_events (Net.remote d') l' →
  (∀ h x, remote_record (Net.remote d) h = Some x → remote_record (Net.remote d') h = Some x) →
  Client.steps (at_rest (Net.dcclient_ d)) (e :: l' ++ [e']) (at_rest (Net.dcclient_ d')) →
  net_ok d' (l ++ e :: l' ++ [e']).
Proof.
  intros [(c0 & Hc0 & Hrun) Ha Hr] He He' [Ha' Hr'] Hkeep Hs.
  assert (∀ x, (∃ m, x = Client.EvAck m ∨ x = Client.EvResp m) →
    x ∈ l ++ e :: l' ++ [e'] → x ∈ l ∨ x ∈ l') as Hin.
  { intros x (m & Hx). rewrite elem_of_app, elem_of_cons, elem_of_app, list_elem_of_singleton.
    destruct (He m), (He' m). intros [?|[ -> |[?| -> ]]]; [by left| |by right|];
      (destruct Hx; subst; done). }
  split.
  - exists c0. split; [done|]. by eapply run_steps.
  - intros h (m & Hm & Hack). destruct (Hin _ (ex_intro _ m (or_introl eq_refl)) Hm) as [Hl|Hl].
    + destruct (Ha h) as [x Hx]; [by exists m|]. exists x. by apply Hkeep.
    + apply Ha'. by exists m.
  - intros gk x (m & Hm & Hresp). destruct (Hin _ (ex_intro _ m (or_intror eq_refl)) Hm) as [Hl|Hl].
    + apply Hkeep, Hr. by exists m.
    + apply Hr'. by exists m.
Qed.

Lemma write_ok dc r data (d d' : Srv) res l :
  net_ok d l → Net.WriteRecord dc r data d = Ret (d', res) →
  ∃ l', let l1 := l ++ Client.EvPut r data :: l' ++ [Client.EvPutRet r] in
    net_ok d' l1 ∧ acked l1 r ∧
    (∀ h x, remote_record (Net.remote d) h = Some x → remote_record (Net.remote d') h = Some x) ∧
    is_Some (remote_record (Net.remote d') r) ∧ res = inr tt.
Proof.
  intros Hok Hw. apply write_path in Hw as (polls & Hp & -> & Hs).
  set (l' := Listener.handled _) in Hs. exists l'.
  assert (∀ h x, remote_record (Net.remote d) h = Some x → remote_record (Net.remote d') h = Some x)
    as Hkeep by (intros h x; by eapply remote_keeps).
  assert (net_ok d' (l ++ Client.EvPut r data :: l' ++ [Client.EvPutRet r])) as Hok'.
  { eapply net_ok_extend; try done. by eapply handled_honest. }
  assert (acked (l ++ Client.EvPut r data :: l' ++ [Client.EvPutRet r]) r) as Hack;
    [|split_and!; [done|done|done|by apply (no_acked _ _ Hok')|done]].
  destruct (no_run _ _ Hok) as (c0 & Hc0 & Hrun).
  inversion Hs as [|? ? ? s1 ? Hput Hrest]; subst.
  assert (∃ s2, Client.steps s1 l' s2 ∧ Client.net_step (Client.EvPutRet r) s2
    (at_rest (Net.dcclient_ d'))) as (s2 & Hl' & Hret).
  { by apply steps_snoc. }
  assert (Client.run c0 (l ++ Client.EvPut r data :: l') s2) as Hrun2.
  { eapply run_steps; [done|]. by econstructor. }
  pose proof (inv_run _ _ _ Hc0 Hrun2) as Hi. inversion Hret as [|? c Hr| | | |]; subst.
  destruct (ready_acked _ _ _ (ni_client _ _ Hi) Hr) as (m & Hm & Hack). exists m. split; [|done].
  rewrite elem_of_app, elem_of_cons in Hm. rewrite elem_of_app, elem_of_cons, elem_of_app. tauto.
Qed.

Lemma read_ok dc r n (d d' : Srv) res l :
  net_ok d l → Net.ReadRecord dc r n d = Ret (d', res) →
  ∃ l' x, net_ok d' (l ++ l') ∧
    (∀ h y, remote_record (Net.remote d) h = Some y → remote_record (Net.remote d') h = Some y) ∧
    remote_record (Net.remote d') r = Some x ∧ res = inr x ∧ nlen x ≤ n.
Proof.
  intros Hok Hrd. apply read_path in Hrd as (c1 & polls & out & Hp & _ & He & Hs).
  set (l' := Listener.handled _) in Hs.
  assert (∀ h x, remote_record (Net.remote d) h = Some x → remote_record (Net.remote d') h = Some x)
    as Hkeep by (intros h x; by eapply remote_keeps).
  assert (net_ok d' (l ++ Client.EvGet r Client.net_get_options (c_rand (Net.draws d)) ::
    l' ++ [Client.EvGetRet (r, false) out])) as Hok'.
  { eapply net_ok_extend; try done. by eapply handled_honest. }
  assert (∃ x, out = Some x ∧ remote_record (Net.remote d') r = Some x) as (x & -> & Hx).
  { destruct (no_run _ _ Hok') as (c0 & Hc0 & Hrun).
    rewrite app_comm_cons, (assoc_L (++)) in Hrun.
    inversion Hrun as [Hnil|l0 e s s' Hrun0 Hret Hl]; subst.
    { by destruct l. }
    apply app_inj_tail in Hl as [-> ->].
    inversion Hret as [| | |? c Hr| |]; subst.
    pose proof (ni_client _ _ (inv_run _ _ _ Hc0 Hrun0)) as Hi.
    apply (ready_responded _ _ _ Hi) in Hr as (x & Hx & m & Hm & Hresp). exists x. split; [done|].
    apply (no_responded _ _ Hok' (r, false)). exists m. split; [|done].
    rewrite elem_of_app, elem_of_cons in Hm. rewrite elem_of_app, elem_of_cons, elem_of_app. tauto. }
  eexists _, x. split_and!; try done.
  - simpl in He. m_bind He. by simplify_eq.
  - simpl in He. m_bind He. unfold c_assert in Hm. destruct (_ <=? _) eqn:Hle; [|done].
    by apply N.leb_le.
Qed.

Lemma op_ok d d' l :
  net_ok d l → net_op d d' →
  ∃ l', net_ok d' l' ∧
    ∀ h x, remote_record (Net.remote d) h = Some x → remote_record (Net.remote d') h = Some x.
Proof.
  intros Hok Hop. inversion Hop as [dc r data d1 d2 res Hw|dc r n d1 d2 res Hr]; subst.
  - destruct (write_ok _ _ _ _ _ _ _ Hok Hw) as (l' & ? & _ & ? & _). eauto.
  - destruct (read_ok _ _ _ _ _ _ _ Hok Hr) as (l' & x & ? & ? & _). eauto.
Qed.

Lemma ops_ok d d' l :
  net_ok d l → rtc net_op d d' →
  ∃ l', net_ok d' l' ∧
    ∀ h x, remote_record (Net.remote d) h = Some x → remote_record (Net.remote d') h = Some x.
Proof.
  intros Hok Hops. revert l Hok. induction Hops as [d|d d1 d2 Hop _ IH]; intros l Hok.
  { eauto. }
  destruct (op_ok _ _ _ Hok Hop) as (l1 & Hok1 & Hk1). destruct (IH _ Hok1) as (l2 & Hok2 & Hk2).
  exists l2. split; [done|]. auto.
Qed.

Lemma new_ok opts r0 d : Net.new_DCServerNet opts r0 = Ret d → net_ok d [].
Proof.
  unfold Net.new_DCServerNet, Client.new_DCClient, Comm.new_ClientComm. intros Hn.
  m_bind Hn. m_bind Hm. simplify_eq. repeat case_decide; try done. m_bind Hm0. m_bind Hm0. m_bind Hm0. simplify_eq.
  split; simpl.
  - eexists. split; [|constructor]. done.
  - intros h (m & Hm' & _). by apply not_elem_of_nil in Hm'.
  - intros gk x (m & Hm' & _). by apply not_elem_of_nil in Hm'.
Qed.

(** C33. Over honest servers a record that was written through [DCServerNet]
    is read back: when [WriteRecord] has returned and the servers hold no
    other record of that name, every later [ReadRecord] of the name that
    returns, whatever was read and written in between, gives the bytes of the
    record. [WriteRecord] reports success and [ReadRecord] no error. *)
Theorem net_write_read_back opts r0 dc dc' r data n (d0 d d1 d2 d3 : Srv) res res' :
  Net.new_DCServerNet opts r0 = Ret d0 → rtc net_op d0 d →
  WriteRecord dc r data d = Ret (d1, res) →
  (∀ x, remote_record (Net.remote d1) r = Some x → x = data) →
  rtc net_op d1 d2 → ReadRecord dc' r n d2 = Ret (d3, res') →
  res = inr tt ∧ res' = inr data ∧ nlen data ≤ n.
Proof.
  intros Hnew Hops Hw Huniq Hops' Hr.
  destruct (ops_ok _ _ _ (new_ok _ _ _ Hnew) Hops) as (l & Hok & _).
  destruct (write_ok _ _ _ _ _ _ _ Hok Hw) as (l1 & Hok1 & _ & _ & [x Hx] & ->).
  pose proof (Huniq x Hx) as ->.
  destruct (ops_ok _ _ _ Hok1 Hops') as (l2 & Hok2 & Hk2).
  destruct (read_ok _ _ _ _ _ _ _ Hok2 Hr) as (l3 & y & _ & Hk3 & Hy & -> & Hn).
  apply Hk2, Hk3 in Hx. by simplify_eq.
Qed.

End honest.
