(* ===== verification/NetLaws.v ===== *)
(** * The network server keeps the contract of [DCServer]

    [NetSpec.v] says what the calls of [DCServerNet] do when servers are
    honest. If besides the servers keep only what this client stores, then the
    states that a [DCServerNet] can get into satisfy all that the middleware
    and the storage backend rely on, [DCServerLaws]; so every theorem that is
    proved over that interface holds of the program as it is built. *)

From Stdlib Require Import NArith ZArith Lia.
From stdpp Require Import base list gmap.
From S2P Require Import Prelude Const Encode Options Capsule DcServer Middleware.
From S2P Require Import ClientComm DcClient Listener NetServer DcClientSpec NetSpec.

(** Servers with no other client: what they hold was there before or has been
    sent to an endpoint on which they take records, and is kept under the hash
    of its header. *)
Class ExclusiveRemote (R : Type) `{HonestRemote R} := {
  record_socket : bytes → bool;
  remote_only sent r r' polls h x :
    remote_step sent r = (r', polls) → remote_record r' h = Some x →
    remote_record r h = Some x ∨
    pdu_header_hash (ParsePDU x) = h ∧ ∃ a, (a, x) ∈ sent ∧ record_socket a = true;
}.

(** ** How the calls may stop the process *)

(** A failed assertion, no server to ask ([rand() % 0]), an acknowledgement
    whose hash is too short to be logged, a message that is not all there, a
    wait that nothing ends. *)
Definition net_fault (f : fault) : Prop :=
  f ∈ [AssertFailed; DivByZero; OutOfBounds; Indeterminate; Blocked].

Definition stops {A} (m : outcome A) : Prop := wp net_fault m (λ _, True).

Lemma stops_bind {A B} (m : outcome A) (k : A → outcome B) :
  stops m → (∀ a, stops (k a)) → stops (m ≫= k).
Proof. intros Hm Hk. eapply wp_bind; [exact Hm|]. intros a _. apply Hk. Qed.

Lemma stops_crash {A} f : net_fault f → stops (@Crash A f).
Proof. done. Qed.

Create HintDb net_stops.
Ltac net_stops :=
  repeat first
    [ exact I
    | apply stops_crash; unfold net_fault; set_solver
    | apply stops_bind; [|intros ?]
    | progress (unfold c_assert, mem_read, umod, vec_get)
    | solve [auto with net_stops]
    | case_match ].

Section laws.
Context `{Protobuf} {R : Type} `{Remote R}.

Lemma stops_hex s n : stops (Encode.binary_to_hex_string s n).
Proof. unfold Encode.binary_to_hex_string. net_stops. Qed.
Lemma stops_cells l : stops (cells_bytes l).
Proof. unfold cells_bytes. net_stops. Qed.
#[local] Hint Resolve stops_hex stops_cells : net_stops.

Lemma stops_ack m c : stops (Client.handle_ack m c).
Proof. unfold Client.handle_ack. net_stops. Qed.
Lemma stops_resp m c : stops (Client.handle_get_resp m c).
Proof. unfold Client.handle_get_resp. net_stops. Qed.
#[local] Hint Resolve stops_ack stops_resp : net_stops.

Lemma stops_listen rs c : stops (Listener.run_dc_client_listen_server rs c).
Proof.
  revert c. induction rs as [|r rs IH]; intros c; simpl; [exact I|].
  unfold Listener.listen_round, Listener.on_message, Listener.recv_string, Listener.message_to_string.
  net_stops.
Qed.
#[local] Hint Resolve stops_listen : net_stops.

Lemma stops_wait c (d : Net.DCServerNet R) : stops (Net.wait c d).
Proof. unfold Net.wait. net_stops. Qed.
#[local] Hint Resolve stops_wait : net_stops.

Lemma stops_write dc r data (d : Net.DCServerNet R) : stops (WriteRecord dc r data d).
Proof. simpl. unfold Net.WriteRecord. net_stops. Qed.

Lemma stops_read dc r n (d : Net.DCServerNet R) : stops (ReadRecord dc r n d).
Proof.
  simpl. unfold Net.ReadRecord, Client.ReadRecord_begin, Client.Get_begin, Comm.send_get_req,
    Client.ReadRecord_end. net_stops.
Qed.
End laws.

(** ** What the client has sent *)
Section sent.
Context `{Protobuf}.

Definition sent (c : Client.DCClient) : list (bytes * bytes) := Comm.outbox (Client.client_comm_ c).
Definition serve_sockets (c : Client.DCClient) : gmap (list Byte.byte) (list Byte.byte) :=
  Comm.m_dc_server_serve_sockets (Client.client_comm_ c).

(** What a step changes of the sockets, the counters and the messages sent. *)
Record grows (e : list Client.event) (c c' : Client.DCClient) : Prop := {
  gr_sockets : serve_sockets c' = serve_sockets c;
  gr_acks h : (Client.acks h c ≤ Client.acks h c')%Z;
  gr_sent a x : (a, x) ∈ sent c' → (a, x) ∈ sent c ∨
    (∃ h, Client.EvPut h x ∈ e) ∨ ∃ k, serve_sockets c !! k = Some a;
}.

Lemma grows_same e c c' :
  Client.client_comm_ c' = Client.client_comm_ c → grows e c c'.
Proof.
  intros Hc. split; [unfold serve_sockets; by rewrite Hc|intros h; unfold Client.acks; by rewrite Hc|].
  intros a x. unfold sent. rewrite Hc. by left.
Qed.

Lemma grows_put h srl c : grows [Client.EvPut h srl] c (Client.Put_begin h srl c).
Proof.
  unfold Client.Put_begin. destruct (Client.put_status_ c !! h); [by apply grows_same|].
  split; [done|done|]. intros a x. unfold sent. simpl. rewrite elem_of_app. intros [Hx|Hx]; [by left|].
  right. left. apply list_elem_of_fmap in Hx as (p & [= -> ->] & _). exists h. by apply list_elem_of_singleton.
Qed.

Lemma grows_get e h o n c c' : Client.Get_begin h o n c = Ret c' → grows e c c'.
Proof.
  unfold Client.Get_begin. intros Hrun. m_bind Hrun. m_bind Hrun.
  destruct (Client.get_status_ c !! _); [simplify_eq; by apply grows_same|].
  m_bind Hrun. simplify_eq. unfold Comm.send_get_req in Hm1. m_bind Hm1. m_bind Hm1. simplify_eq.
  split; [done|done|]. intros a x. unfold sent. simpl.
  rewrite elem_of_app, list_elem_of_singleton. intros [Hx|[= -> ->]]; [by left|]. right. right.
  apply vec_get_inv, list_elem_of_lookup_2 in Hm3.
  exists r3.1. apply elem_of_map_to_list. by destruct r3.
Qed.

Lemma commit_get_comm gk srl c :
  Client.client_comm_ (Client.commit_get gk srl c).1 = Client.client_comm_ c.
Proof. unfold Client.commit_get. by destruct (Client.get_status_ c !! gk). Qed.

Lemma grows_ack e msg c c' :
  Client.handle_ack msg c = Ret c' → grows e c c'.
Proof.
  intros Hrun. pose proof Hrun as (_ & _ & Hac & _)%handle_ack_inv.
  assert (serve_sockets c' = serve_sockets c ∧ sent c' = sent c) as [Hs Hb].
  { unfold Client.handle_ack in Hrun. m_bind Hrun. destruct (_ =? _)%Z; [|by simplify_eq].
    m_bind Hrun. simplify_eq. unfold Client.CommitAck. by destruct (Client.put_status_ _ !! _). }
  split; [done| |rewrite Hb; by left]. intros h. rewrite Hac. case_decide; [subst; lia|done].
Qed.

Lemma grows_resp e msg c c' : Client.handle_get_resp msg c = Ret c' → grows e c c'.
Proof.
  unfold Client.handle_get_resp. intros Hrun. apply grows_same.
  destruct (resp_fresh_resp _); [|cbv zeta in Hrun; m_bind Hrun];
    (destruct (resp_success _); simplify_eq; [apply commit_get_comm|done]).
Qed.

Lemma grows_mono e e' c c' : (∀ x, x ∈ e → x ∈ e') → grows e c c' → grows e' c c'.
Proof.
  intros He [S A T]. split; [done|done|]. intros a x Hx. destruct (T a x Hx) as [?|[(h & Hh)|?]]; eauto.
Qed.

Lemma grows_trans e c c1 c2 : grows e c c1 → grows e c1 c2 → grows e c c2.
Proof.
  intros [S A T] [S' A' T']. split; [congruence|intros h; etrans; [apply A|apply A']|].
  intros a x Hx. destruct (T' a x Hx) as [Hy|[?|Hk]]; [by apply T|by eauto|]. rewrite S in Hk. by eauto.
Qed.

Lemma grows_steps s l s' :
  Client.steps s l s' → grows l (Client.client s) (Client.client s').
Proof.
  induction 1 as [s|e l s s1 s2 Hstep _ IH]; [by apply grows_same|].
  eapply grows_trans; [|eapply grows_mono; [|exact IH]; intros x Hx; by apply elem_of_cons; right].
  apply (grows_mono [e]); [intros x ->%list_elem_of_singleton; by left|].
  destruct Hstep; simpl; [by apply grows_put|by apply grows_same|by eapply grows_get|by apply grows_same|
    |by eapply grows_resp].
  eapply grows_ack; done.
Qed.
End sent.

(** ** The states a server object can be in *)
Section good.
Context `{Protobuf} {R : Type} `{Remote R} `{!HonestRemote R} `{!ExclusiveRemote R}.
Abbreviation Srv := (Net.DCServerNet R).
Abbreviation at_rest := (Client.MkNet Client.Idle).

(** The client has a history; it asks for records on other endpoints than it
    stores them on; what it has stored so far is on the servers; and what is on
    the servers has been acknowledged. *)
Record good (d : Srv) : Prop := {
  gd_history : ∃ l, net_ok d l;
  gd_sockets k a : serve_sockets (Net.dcclient_ d) !! k = Some a → record_socket a = false;
  gd_sent a x : (a, x) ∈ sent (Net.dcclient_ d) → record_socket a = true →
    remote_record (Net.remote d) (pdu_header_hash (ParsePDU x)) = Some x;
  gd_stored h x : remote_record (Net.remote d) h = Some x → (1 ≤ Client.acks h (Net.dcclient_ d))%Z;
}.

(** The constructor makes such a state, if no server holds anything yet. *)
Lemma new_good opts r0 d :
  Net.new_DCServerNet opts r0 = Ret d → (∀ h, remote_record r0 h = None) →
  (∀ k a, serve_sockets (Net.dcclient_ d) !! k = Some a → record_socket a = false) → good d.
Proof.
  intros Hn Hr Hs. split; [exists []; by eapply new_ok|done| |];
    unfold Net.new_DCServerNet, Client.new_DCClient, Comm.new_ClientComm in Hn;
    m_bind Hn; m_bind Hm; simplify_eq; repeat case_decide; try done; m_bind Hm0; m_bind Hm0; m_bind Hm0; simplify_eq.
  - intros a x Hx. by apply not_elem_of_nil in Hx.
  - intros h x. simpl. by rewrite Hr.
Qed.

(** A record that was acknowledged once cannot be stored again. *)
Lemma put_is_new l r data (c c' : Client.DCClient) l' :
  net_inv l (at_rest c) →
  Client.steps (at_rest c) (Client.EvPut r data :: l' ++ [Client.EvPutRet r]) (at_rest c') →
  (Client.acks r c < 1)%Z.
Proof.
  intros Hi Hs. apply Z.nle_gt. intros Hack.
  inversion Hs as [|? ? ? s1 ? Hput Hrest]; subst. inversion Hput; subst.
  refine (proj2 (stuck_forever r _ _ _ _ Hrest) _); [|apply elem_of_app; right; by apply list_elem_of_singleton].
  unfold stuck, Client.Put_begin. rewrite (idle_no_put _ _ r Hi). simpl. split; [done|]. split; [|done].
  eexists. rewrite lookup_insert_eq. done.
Qed.

(** Storing: the record is on the servers, and nothing else has changed there. *)
Lemma good_write dc r data (d d' : Srv) res :
  good d → WriteRecord dc r data d = Ret (d', res) →
  good d' ∧ res = inr tt ∧ remote_record (Net.remote d') r = Some data ∧
  ∀ h, h ≠ r → remote_record (Net.remote d') h = remote_record (Net.remote d) h.
Proof.
  intros [(l & Hok) Hsock Hsent Hst] Hw.
  destruct (write_ok _ _ _ _ _ _ _ Hok Hw) as (l1 & Hok1 & Hack & Hkeep & [x Hx] & ->).
  apply write_path in Hw as (polls & Hp & _ & Hs). cbv zeta in Hs.
  pose proof (put_is_new _ _ _ _ _ _ (net_ok_inv _ _ Hok) Hs) as Hnew.
  destruct (grows_steps _ _ _ Hs) as [Gsock Gacks Gsent]. cbn [Client.client] in *.
  assert (∀ h y, remote_record (Net.remote d') h = Some y → remote_record (Net.remote d) h = Some y ∨
    pdu_header_hash (ParsePDU y) = h ∧ y = data) as Honly.
  { intros h y Hy. destruct (remote_only _ _ _ _ _ _ Hp Hy) as [?|(<- & a & Ha & Hra)]; [by left|].
    destruct (gr_sent _ _ _ (grows_put r data _) a y Ha) as [Hold|[(h & Hh)|(k & Hk)]].
    - left. by eapply Hsent.
    - apply list_elem_of_singleton in Hh as [= _ ->]. by right.
    - rewrite (Hsock _ _ Hk) in Hra. done. }
  assert (pdu_header_hash (ParsePDU data) = r ∧ x = data) as [Hname ->].
  { destruct (Honly r x Hx) as [Hy|[? ->]]; [|done]. apply Hst in Hy. lia. }
  assert (∀ h, h ≠ r → remote_record (Net.remote d') h = remote_record (Net.remote d) h) as Hframe.
  { intros h Hh. destruct (remote_record (Net.remote d') h) as [y|] eqn:Hy.
    - destruct (Honly h y Hy) as [->|[Hz ->]]; [done|]. by rewrite Hz in Hname.
    - destruct (remote_record (Net.remote d) h) as [y|] eqn:Hz; [|done]. apply Hkeep in Hz. congruence. }
  split_and!; [|done|done|done]. split.
  - by eexists.
  - rewrite Gsock. done.
  - intros a y Hy Hra. destruct (Gsent a y Hy) as [Hold|[(h & Hh)|(k & Hk)]].
    + by eapply Hkeep, Hsent.
    + assert (y = data) as ->; [|by rewrite Hname]. rewrite elem_of_cons, elem_of_app in Hh.
      destruct Hh as [[= _ ->]|[Hh|Hh]]; [done| |by apply list_elem_of_singleton in Hh].
      apply handled_in in Hh as (? & _ & [(? & _ & [=])|(? & _ & [=])]).
    + rewrite (Hsock _ _ Hk) in Hra. done.
  - intros h y Hy. destruct (decide (h = r)) as [->|Hne].
    + apply (ci_acks _ _ (ni_client _ _ (net_ok_inv _ _ Hok1)) r Hack).
    + rewrite Hframe in Hy by done. etrans; [by eapply Hst|apply Gacks].
Qed.

(** Reading: what is on the servers is what was there, and is what is read. *)
Lemma good_read dc r n (d d' : Srv) res :
  good d → ReadRecord dc r n d = Ret (d', res) →
  good d' ∧ (∀ h, remote_record (Net.remote d') h = remote_record (Net.remote d) h) ∧
  ∃ x, res = inr x ∧ remote_record (Net.remote d) r = Some x ∧ (nlen x ≤ n)%N.
Proof.
  intros [(l & Hok) Hsock Hsent Hst] Hr.
  destruct (read_ok _ _ _ _ _ _ _ Hok Hr) as (l1 & x & Hok1 & Hkeep & Hx & -> & Hn).
  apply read_path in Hr as (c1 & polls & out & Hp & Hget & _ & Hs). cbv zeta in Hs.
  destruct (grows_steps _ _ _ Hs) as [Gsock Gacks Gsent]. cbn [Client.client] in *.
  assert (∀ h y, remote_record (Net.remote d') h = Some y → remote_record (Net.remote d) h = Some y) as Honly.
  { intros h y Hy. destruct (remote_only _ _ _ _ _ _ Hp Hy) as [?|(<- & a & Ha & Hra)]; [done|].
    destruct (gr_sent _ _ _ (grows_get [] _ _ _ _ _ Hget) a y Ha) as [Hold|[(h & Hh)|(k & Hk)]].
    - by eapply Hsent.
    - by apply not_elem_of_nil in Hh.
    - rewrite (Hsock _ _ Hk) in Hra. done. }
  assert (∀ h, remote_record (Net.remote d') h = remote_record (Net.remote d) h) as Hsame.
  { intros h. apply option_eq. intros y. split; [apply Honly|apply Hkeep]. }
  split; [|split; [done|exists x; by rewrite <-Hsame]]. split.
  - by eexists.
  - rewrite Gsock. done.
  - intros a y Hy Hra. rewrite Hsame. destruct (Gsent a y Hy) as [Hold|[(h & Hh)|(k & Hk)]].
    + by eapply Hsent.
    + rewrite elem_of_cons, elem_of_app, list_elem_of_singleton in Hh.
      destruct Hh as [[=]|[Hh|[=]]]. apply handled_in in Hh as (? & _ & [(? & _ & [=])|(? & _ & [=])]).
    + rewrite (Hsock _ _ Hk) in Hra. done.
  - intros h y. rewrite Hsame. intros Hy. etrans; [by eapply Hst|apply Gacks].
Qed.

Lemma read_contract dc r n (d : Srv) :
  good d → wp net_fault (Net.ReadRecord dc r n d) (λ '(d', res), good d' ∧
    (∀ h, remote_record (Net.remote d') h = remote_record (Net.remote d) h) ∧
    ∃ x, res = inr x ∧ remote_record (Net.remote d) r = Some x ∧ (nlen x ≤ n)%N).
Proof.
  intros Hd. pose proof (stops_read dc r n d) as Hs. simpl in Hs.
  destruct (Net.ReadRecord dc r n d) as [[d' res]|f] eqn:Hr; [|exact Hs].
  exact (good_read _ _ _ _ _ _ Hd Hr).
Qed.

Lemma write_contract dc r data (d : Srv) :
  good d → wp net_fault (Net.WriteRecord dc r data d) (λ '(d', res), good d' ∧
    res = inr tt ∧ remote_record (Net.remote d') r = Some data ∧
    ∀ h, h ≠ r → remote_record (Net.remote d') h = remote_record (Net.remote d) h).
Proof.
  intros Hd. pose proof (stops_write dc r data d) as Hs. simpl in Hs.
  destruct (Net.WriteRecord dc r data d) as [[d' res]|f] eqn:Hw; [|exact Hs].
  exact (good_write _ _ _ _ _ _ Hd Hw).
Qed.

(** C31. [DCServerNet] keeps the contract of [class DCServer]. From a state that
    its constructor makes, with honest servers that hold nothing else, every
    state it gets into is good; and in a good state a read that returns gives
    the record that is stored under the name, which fits the buffer, and changes
    nothing on the servers; a write that returns has stored the record and
    changed nothing else; and a call that does not return has stopped with one
    of the faults of [net_fault]. *)
Theorem net_keeps_contract :
  (∀ opts r0 (d : Srv), Net.new_DCServerNet opts r0 = Ret d → (∀ h, remote_record r0 h = None) →
     (∀ k a, serve_sockets (Net.dcclient_ d) !! k = Some a → record_socket a = false) → good d) ∧
  ∀ d : Srv, good d →
    (∀ dc r n, wp net_fault (Net.ReadRecord dc r n d) (λ '(d', res), good d' ∧
       (∀ h, remote_record (Net.remote d') h = remote_record (Net.remote d) h) ∧
       ∃ x, res = inr x ∧ remote_record (Net.remote d) r = Some x ∧ (nlen x ≤ n)%N)) ∧
    (∀ dc r data, wp net_fault (Net.WriteRecord dc r data d) (λ '(d', res), good d' ∧
       res = inr tt ∧ remote_record (Net.remote d') r = Some data ∧
       ∀ h, h ≠ r → remote_record (Net.remote d') h = remote_record (Net.remote d) h)).
Proof.
  split; [intros opts r0 d; apply new_good|].
  intros d Hd. split; intros; [by apply read_contract|by apply write_contract].
Qed.

(** ** An instance of the interface

    The server objects in a good state, with the operations of [DCServerNet]. *)
Definition GoodServer : Type := { d : Srv | good d }.

Definition guard {A} (m : outcome (Srv * A)) : (∀ d a, m = Ret (d, a) → good d) →
    outcome (GoodServer * A) :=
  match m with
  | Ret (d, a) => λ Hm, Ret (exist good d (Hm d a eq_refl), a)
  | Crash f => λ _, Crash f
  end.

(** The guard changes nothing. *)
Lemma guard_same {A} (m : outcome (Srv * A)) Hm :
  (λ '(d, a), (proj1_sig d, a)) <$> guard m Hm = m.
Proof. by destruct m as [[d a]|f]. Qed.

Lemma guard_wp {A} F (m : outcome (Srv * A)) Hm (Q : Srv → A → Prop) :
  wp F m (λ '(d, a), Q d a) → wp F (guard m Hm) (λ '(d, a), Q (proj1_sig d) a).
Proof. by destruct m as [[d a]|f]. Qed.

Definition read_good dc r n (d : GoodServer) : outcome (GoodServer * result bytes) :=
  guard (Net.ReadRecord dc r n (proj1_sig d))
    (λ d' res Hr, proj1 (good_read dc r n _ d' res (proj2_sig d) Hr)).
Definition write_good dc r data (d : GoodServer) : outcome (GoodServer * result unit) :=
  guard (Net.WriteRecord dc r data (proj1_sig d))
    (λ d' res Hw, proj1 (good_write dc r data _ d' res (proj2_sig d) Hw)).

#[export] Instance DCServer_good : DCServer GoodServer := {|
  DcServer.ReadRecord := read_good;
  DcServer.WriteRecord := write_good;
|}.

#[export] Instance DCServer_good_laws : DCServerLaws GoodServer.
Proof.
  refine {| server_fault := net_fault; record_of d dc r := remote_record (Net.remote (proj1_sig d)) r |}.
  - intros dc r n [d Hd] _.
    apply (guard_wp _ _ _ (λ d' res,
      (∀ dc' r', remote_record (Net.remote d') r' = remote_record (Net.remote d) r') ∧
      ∀ data, res = inr data → remote_record (Net.remote d) r = Some data ∧ (nlen data ≤ n)%N)).
    eapply wp_mono; [by apply (read_contract dc r n d)|].
    intros [d' res] (_ & Hsame & x & -> & Hx & Hn). split; [done|]. by intros ? [= <-].
  - intros dc r data [d Hd].
    apply (guard_wp _ _ _ (λ d' res,
      (∀ dc' r', r' ≠ r → remote_record (Net.remote d') r' = remote_record (Net.remote d) r') ∧
      (res = inr tt → r ≠ [] → remote_record (Net.remote d') r = Some data))).
    eapply wp_mono; [by apply (write_contract dc r data d)|].
    intros [d' res] (_ & -> & Hx & Hf). split; [intros _ r'; apply Hf|done].
Defined.

(** In a good state a call that returns has not failed. *)
#[export] Instance DCServer_good_answers : DCServerAnswers GoodServer.
Proof.
  refine {| down := net_fault; container _ _ := True |}.
  - intros dc r n [d Hd] data Hrec _ _.
    apply (guard_wp _ _ _ (λ d' res, res = inr data ∧ ∀ dc' : bytes, True → True)).
    eapply wp_mono; [by apply (read_contract dc r n d)|].
    intros [d' res] (_ & _ & x & -> & Hx & _). split; [|done].
    change (remote_record (Net.remote d) r = Some data) in Hrec. congruence.
  - intros dc r data [d Hd] _ _.
    apply (guard_wp _ _ _ (λ d' res, res = inr tt ∧ True ∧ ∀ dc' : bytes, True → True)).
    eapply wp_mono; [by apply (write_contract dc r data d)|].
    by intros [d' res] (_ & -> & _).
Defined.
End good.
