(* ===== verification/NetFiles.v ===== *)
(** * Files over the network

    The program builds its storage backend over [DCServerNet], whose good
    states keep the contract of [DCServer] ([NetLaws.v]). So what is proved of
    commits and files over any such server holds of the program as it is built,
    up to calls that never return; here it is stated for a whole file, and for a
    whole session of callbacks. *)

From Stdlib Require Import NArith ZArith Lia.
From stdpp Require Import base list gmap.
From S2P Require Import Prelude Const Options Dir Crypto Capsule DcServer Middleware Backend.
From S2P Require Import Cache CacheSpec InodeSpec Dcfs MidSpec CommitSpec Commits BackendSpec Reopen.
From S2P Require Import DcfsSpec FileOps Session NetServer NetSpec NetLaws.

Section files.
Context `{OpenSSLLaws} `{ProtobufLaws} `{RunEnvOk} {R : Type} `{Remote R}.
Context `{!HonestRemote R} `{!ExclusiveRemote R}.
Local Open Scope N_scope.
Abbreviation SB := (Backend.StorageBackend (D := GoodServer (R := R))).

(** What the servers hold when the backend is in state [b]. *)
Definition on_servers (b : SB) (name : bytes) : option bytes :=
  remote_record (Net.remote (proj1_sig (server (Backend.backend_world b)))) name.

(** C32. A file over the network: when the flush of a new file has succeeded
    through [DCServerNet], every record that it made is on the servers, and an
    [open] that succeeds afterwards finds the size in whole blocks, the same
    key and, in every block whose SHA-256 name does not start with a zero byte,
    the bytes that were in the cache. (No two new records may have one name. A
    call may also never return; then nothing is said.) *)
Theorem net_flush_then_open (b b' b'' : SB) ino ino' n c' sk size :
  keys_ok (Backend.backend_world b) sk → new_file b ino n →
  RC.FlushCache ino (i_cache_ ino) b = Ret (b', c', inr tt) →
  NoDup (flush_names b ino) → opens b' (i_hashname_ ino) size b'' ino' →
  size = N.of_nat n * DEFAULT_BLOCK_SIZE ∧ AESKey ino' = AESKey ino ∧
  ∃ ns bm rn, flush_names b ino = ns ++ [bm; rn] ∧ length ns = n ∧
    (∀ name, name ∈ ns ++ [bm; rn] → is_Some (on_servers b' name)) ∧
    ∀ i r name, i < N.of_nat n → r < DEFAULT_BLOCK_SIZE →
      ns !! N.to_nat i = Some name → head name ≠ Some Byte.x00 →
      contents ino' b'' (DEFAULT_BLOCK_SIZE * i + r) = contents ino b (DEFAULT_BLOCK_SIZE * i + r).
Proof.
  intros Hks Hnew Hflush Hnd Hopen.
  destruct (reopen_safe b b' ino n c' sk Hks Hnew Hflush) as (ns & bm & rn & Hnames & Hln & Hsafe).
  destruct (Hsafe Hnd _ _ _ Hopen) as [Hsize Hre]. split; [done|]. split; [apply Hre|].
  exists ns, bm, rn. split; [done|]. split; [done|]. split; [|apply Hre].
  intros name Hin. destruct (re_committed _ _ _ _ _ _ _ _ _ Hre) as [payload Hcm].
  destruct Hcm as (pi & pb & prev & prev' & lb & Hi & _ & _ & Hb & _).
  destruct (re_blocks _ _ _ _ _ _ _ _ _ Hre) as (descs & Hl & _ & Hblocks).
  apply elem_of_app in Hin as [(i & Hi')%list_elem_of_lookup|Hin].
  - destruct (lookup_lt_is_Some_2 descs i) as [d Hd]; [apply lookup_lt_Some in Hi'; lia|].
    destruct (lookup_lt_is_Some_2 (first_back (i_hashname_ ino) [] :: ns) i) as [bk Hbk];
      [apply lookup_lt_Some in Hi'; simpl; lia|].
    destruct (Hblocks i d name bk Hd Hi' Hbk) as (p & Hp & _). by eexists.
  - rewrite elem_of_cons, list_elem_of_singleton in Hin. destruct Hin as [->| ->]; by eexists.
Qed.

(** C3. A session over the network. The callbacks of [session_round_trip], on
    the program as it is built: with honest servers that no other client stores
    records on, and libraries that work, each of [create], [flush], [open] and
    [read] either stops with a fault of [net_fault] (it may wait forever) or
    returns what it should: [create] and [flush] succeed, [write] needs nothing
    from the servers, and after them [open] finds the file and [read] gives the
    bytes that were written. Record names are subject to the same conditions as
    there, and both buffers have a byte to spare behind the request, too. *)
Theorem net_session st x name path2 fh fh' (buf buf2 : list cell) size sk ck :
  fs_inv st → block_size_in_kb st = DEFAULT_BLOCK_SIZE_IN_KB → fd_cnt st + 2 < FD_TABLE_MAX →
  backend_up (D := GoodServer (R := R)) (backend st) sk ck → cstr name ∉ dir_names st →
  0 < size → size < BLOCKMAP_COVER * DEFAULT_BLOCK_SIZE → size + 1 <= nlen buf →
  Forall is_Some buf → size + 1 <= nlen buf2 →
  let fd := fd_cnt st + 1 in
  wp net_fault (Fs.dcfs_create (x :: name) fh st) (λ '(st1, r1, fd1), r1 = 0%Z ∧ fd1 = fd ∧
    ∃ st2 ino, Fs.dcfs_write path2 buf size 0 fd st1 = Ret (st2, to_int size) ∧
    fd_table st2 !! N.to_nat fd = Some (Hashname ino) ∧
    inode_table st2 !! Hashname ino = Some ino ∧
    wp net_fault (Fs.dcfs_flush path2 fd st2) (λ '(st3, r3, fh3), r3 = 0%Z ∧ fh3 = 0 ∧
      ∃ ns bm rn, flush_names (backend st2) ino = ns ++ [bm; rn] ∧
      (NoDup (flush_names (backend st2) ino) → Forall (λ n, head n ≠ Some Byte.x00) ns →
       wp net_fault (Fs.dcfs_open (x :: name) fh' st3) (λ '(st4, r4, fd4), r4 = 0%Z ∧ fd4 = fd + 1 ∧
         wp net_fault (Fs.dcfs_read path2 buf2 size 0 fd4 st4) (λ '(st5, buf', r5), r5 = to_int size ∧
           take (N.to_nat size) buf' = take (N.to_nat size) buf))))).
Proof. exact (session_up (D := GoodServer (R := R)) st x name path2 fh fh' buf buf2 size sk ck). Qed.
End files.
