(* ===== verification/Concrete.v ===== *)
(** * A concrete environment

    One instance of every library the development is parametric in, with
    proofs of its laws: the theorems are applied to it in [Witnesses.v], so
    that none of them is about hypotheses that cannot be met. The digest, the
    cipher and the codec are small functions with the documented properties
    of the real ones, not the real ones. *)

From Stdlib Require Import NArith ZArith Lia.
From Stdlib Require Import Strings.String.
From stdpp Require Import base list gmap.
From S2P Require Import Prelude Const Options Crypto Capsule DcServer Middleware.
From S2P Require Import ClientComm DcClient Listener NetServer NetSpec NetLaws.

Module Toy.

(** ** Digest, signature, cipher *)

Definition byte_of (n : N) : byte := default Byte.x00 (Byte.of_N (n `mod` 256)).

Lemma to_N_byte_of n : Byte.to_N (byte_of n) = (n `mod` 256)%N.
Proof.
  unfold byte_of. destruct (byte_of_N_small (n `mod` 256)) as (b & -> & Hb); [by apply N.mod_lt|done].
Qed.

Lemma byte_bound b : (Byte.to_N b < 256)%N.
Proof. pose proof (Byte.to_N_bounded b). lia. Qed.

Lemma to_N_inj b b' : Byte.to_N b = Byte.to_N b' → b = b'.
Proof. intros Hb. apply (f_equal Byte.of_N) in Hb. rewrite !Byte.of_to_N in Hb. by simplify_eq. Qed.

(** A running 64-bit checksum between a byte that is not zero and padding. *)
Definition checksum (d : bytes) : N :=
  foldl (λ h b, N.land (h * 257 + Byte.to_N b + 1) 18446744073709551615) 1%N d.
Definition digest (d : bytes) : bytes :=
  Byte.x01 :: le_bytes 8 (checksum d) ++ replicate 23 Byte.x00.

Definition shift (k : N) (b : byte) : byte := byte_of (Byte.to_N b + k).
Definition key_num (key : bytes) : N :=
  match key with [] => 0%N | k :: _ => Byte.to_N k end.

Lemma shift_inverse k b : (k < 256)%N → shift (256 - k) (shift k b) = b.
Proof.
  intros Hk. apply to_N_inj. unfold shift. rewrite !to_N_byte_of.
  rewrite N.Div0.add_mod_idemp_l. replace (Byte.to_N b + k + (256 - k))%N with (Byte.to_N b + 1 * 256)%N by lia.
  rewrite N.Div0.mod_add. apply N.mod_small, byte_bound.
Qed.

(** PKCS padding of a message of [n] bytes. *)
Definition pad_len (n : nat) : nat := 16 - n mod 16.
Definition padding (n : nat) : bytes := replicate (pad_len n) (byte_of (N.of_nat (pad_len n))).

Definition unpad (c : bytes) : bytes :=
  match last c with
  | None => []
  | Some b => take (length c - N.to_nat (Byte.to_N b)) c
  end.

Lemma pad_len_bounds n : (1 ≤ pad_len n ≤ 16)%nat.
Proof. unfold pad_len. pose proof (Nat.mod_upper_bound n 16). lia. Qed.

Lemma unpad_padded (m : bytes) (n : nat) : unpad (m ++ padding n) = m.
Proof.
  pose proof (pad_len_bounds n).
  assert (last (padding n) = Some (byte_of (N.of_nat (pad_len n)))) as Hl.
  { unfold padding. generalize (byte_of (N.of_nat (pad_len n))). intros b.
    destruct (pad_len n) as [|p]; [lia|]. by rewrite replicate_S_end, last_snoc. }
  unfold unpad. rewrite last_app, Hl, to_N_byte_of, N.mod_small by lia.
  unfold padding. rewrite length_app, length_replicate. apply take_app_length'. lia.
Qed.

#[export] Instance toy_openssl : OpenSSL := {|
  EC_KEY := bytes;
  sha256 d := Some (digest d);
  ecdsa_sign k d := Some (k ++ d);
  ecdsa_verify k d s := bool_decide (s = k ++ d);
  evp_update enc k _ m := Some (if enc then shift (key_num k) <$> m else []);
  evp_final enc k _ m :=
    Some (if enc then padding (length m)
          else shift (256 - key_num k) <$> unpad m);
  ec_generate n := Some [byte_of (N.of_nat n)];
  rand_bytes n := Some (replicate 16 (byte_of (N.of_nat n)));
|}.

Lemma key_num_bound k : (key_num k < 256)%N.
Proof. destruct k; simpl; [lia|apply byte_bound]. Qed.

#[export] Instance toy_openssl_laws : OpenSSLLaws.
Proof.
  split; cbn [sha256 ecdsa_sign ecdsa_verify evp_update evp_final rand_bytes toy_openssl].
  - intros d h [= <-]. unfold nlen, digest. cbn [length].
    by rewrite length_app, length_le_bytes, length_replicate.
  - intros k d s [= <-]. by apply bool_decide_eq_true.
  - intros e k iv m c [= <-]. destruct e; simpl; rewrite ?length_fmap; lia.
  - intros k iv m c1 c2 [= <-] [= <-]. rewrite length_app, length_fmap. unfold padding.
    rewrite length_replicate. unfold pad_len.
    pose proof (Nat.div_mod_eq (length m) 16). pose proof (Nat.mod_upper_bound (length m) 16). lia.
  - intros k iv c m1 m2 [= <-] [= <-]. simpl. rewrite length_fmap. unfold unpad.
    destruct (last c); simpl; [rewrite length_take|]; lia.
  - intros k iv m c1 c2 [= <-] [= <-]. eexists _, _. split; [done|]. split; [done|]. simpl.
    rewrite unpad_padded, <-list_fmap_compose. rewrite <-(list_fmap_id m) at 2.
    apply list_fmap_ext. intros i b _. simpl. apply shift_inverse, key_num_bound.
  - by intros n r [= <-].
Qed.

(** ** Messages: length-prefixed fields, the payload last *)

Definition enc_field (f : bytes) : bytes := le_bytes 2 (nlen f) ++ f.
Definition enc_int (z : Z) : bytes := le_bytes 8 (Z.to_N (z + 9223372036854775808)).
Definition enc_list (l : list bytes) : bytes := le_bytes 1 (nlen l) ++ concat (enc_field <$> l).

Definition enc_header (h : CapsuleHeader) : bytes :=
  enc_int (h_sender h) ++ enc_list (h_prevHash h) ++ enc_field (h_hash h) ++
  enc_int (h_timestamp h) ++ enc_int (h_last_logical_timestamp h) ++
  enc_field (h_msgType h) ++ enc_int (h_msgLen h) ++ enc_field (h_replyAddr h) ++
  enc_field (h_appMeta h) ++ [if h_verified h then Byte.x01 else Byte.x00].
Definition enc_pdu (p : CapsulePDU) : bytes :=
  enc_header (pdu_header p) ++ enc_field (pdu_header_hash p) ++ enc_field (pdu_signature p) ++
  enc_int (pdu_signature_len p) ++ pdu_payload_in_transit p.

Definition dec_bytes (n : nat) (b : bytes) : option (bytes * bytes) :=
  if decide (n ≤ length b)%nat then Some (take n b, drop n b) else None.
Definition dec_field (b : bytes) : option (bytes * bytes) :=
  '(l, b) ← dec_bytes 2 b; dec_bytes (N.to_nat (le_value l)) b.
Definition dec_int (b : bytes) : option (Z * bytes) :=
  '(l, b) ← dec_bytes 8 b; Some ((Z.of_N (le_value l) - 9223372036854775808)%Z, b).
Fixpoint dec_fields (n : nat) (b : bytes) : option (list bytes * bytes) :=
  match n with
  | O => Some ([], b)
  | S n' => '(f, b) ← dec_field b; '(fs, b) ← dec_fields n' b; Some (f :: fs, b)
  end.
Definition dec_list (b : bytes) : option (list bytes * bytes) :=
  '(l, b) ← dec_bytes 1 b; dec_fields (N.to_nat (le_value l)) b.

Definition dec_header (b : bytes) : option (CapsuleHeader * bytes) :=
  '(sender, b) ← dec_int b; '(prev, b) ← dec_list b; '(hash, b) ← dec_field b;
  '(ts, b) ← dec_int b; '(last, b) ← dec_int b; '(ty, b) ← dec_field b;
  '(len, b) ← dec_int b; '(addr, b) ← dec_field b; '(meta, b) ← dec_field b;
  '(v, b) ← dec_bytes 1 b;
  Some (MkHeader sender prev hash ts last ty len addr meta (bool_decide (v = [Byte.x01])), b).
Definition dec_pdu (b : bytes) : option CapsulePDU :=
  '(h, b) ← dec_header b; '(hh, b) ← dec_field b; '(sig, b) ← dec_field b;
  '(sl, b) ← dec_int b; Some (MkPDU h hh sig sl b).

Lemma dec_bytes_app a b n : length a = n → dec_bytes n (a ++ b) = Some (a, b).
Proof.
  intros <-. unfold dec_bytes. rewrite decide_True by (rewrite length_app; lia).
  by rewrite take_app_length, drop_app_length.
Qed.

Lemma dec_field_app f b : field_small f → dec_field (enc_field f ++ b) = Some (f, b).
Proof.
  intros Hf. unfold dec_field, enc_field. rewrite <-(assoc_L (++)).
  rewrite dec_bytes_app by apply length_le_bytes. cbn [mbind option_bind].
  rewrite le_value_bytes, N.mod_small by exact Hf. apply dec_bytes_app. by rewrite to_nat_nlen.
Qed.

Lemma dec_int_app z b : int64_range z → dec_int (enc_int z ++ b) = Some (z, b).
Proof.
  intros Hz. unfold dec_int, enc_int, int64_range in *. rewrite dec_bytes_app by apply length_le_bytes.
  cbn [mbind option_bind]. rewrite le_value_u64 by lia. do 2 f_equal. lia.
Qed.

Lemma dec_fields_app fs b :
  Forall field_small fs → dec_fields (length fs) (concat (enc_field <$> fs) ++ b) = Some (fs, b).
Proof.
  induction 1 as [|f fs Hf _ IH]; [done|]. rewrite fmap_cons. cbn [dec_fields length concat].
  rewrite <-(assoc_L (++)), dec_field_app by done. cbn [mbind option_bind].
  by rewrite IH.
Qed.

Lemma dec_list_app l b :
  (nlen l < 256)%N → Forall field_small l → dec_list (enc_list l ++ b) = Some (l, b).
Proof.
  intros Hn Hl. unfold dec_list, enc_list. rewrite <-(assoc_L (++)).
  rewrite dec_bytes_app by apply length_le_bytes. cbn [mbind option_bind].
  rewrite le_value_bytes, N.mod_small by exact Hn. rewrite to_nat_nlen. by apply dec_fields_app.
Qed.

Lemma dec_header_app h b : header_wf h → dec_header (enc_header h ++ b) = Some (h, b).
Proof.
  intros [H1 H2 H3 H4 [H5 H5'] H6 [_ H7] [_ H8] [_ H9]]. unfold dec_header, enc_header.
  rewrite <-!(assoc_L (++)).
  rewrite dec_int_app by done. cbn [mbind option_bind].
  rewrite dec_list_app by done. cbn [mbind option_bind].
  rewrite dec_field_app by done. cbn [mbind option_bind].
  rewrite dec_int_app by done. cbn [mbind option_bind].
  rewrite dec_int_app by done. cbn [mbind option_bind].
  rewrite dec_field_app by done. cbn [mbind option_bind].
  rewrite dec_int_app by done. cbn [mbind option_bind].
  rewrite dec_field_app by done. cbn [mbind option_bind].
  rewrite dec_field_app by done. cbn [mbind option_bind].
  rewrite (dec_bytes_app [if h_verified h then Byte.x01 else Byte.x00]) by done.
  cbn [mbind option_bind]. destruct h as [? ? ? ? ? ? ? ? ? []]; done.
Qed.

Lemma dec_pdu_enc p : pdu_wf p → dec_pdu (enc_pdu p) = Some p.
Proof.
  intros [H1 H2 H3 H4 _]. unfold dec_pdu, enc_pdu.
  rewrite dec_header_app by done. cbn [mbind option_bind].
  rewrite dec_field_app by done. cbn [mbind option_bind].
  rewrite dec_field_app by done. cbn [mbind option_bind].
  rewrite dec_int_app by done. cbn [mbind option_bind]. by destruct p.
Qed.

(** A response: a flag byte (1 success, 2 fresh, 3 both), the hash, a record. *)
Definition dec_response (b : bytes) : ClientGetResponse :=
  default (MkGetResponse false [] default_pdu [] false [])
    ('(flag, b) ← dec_bytes 1 b; '(hash, b) ← dec_field b; p ← dec_pdu b;
     Some (MkGetResponse (bool_decide (flag = [Byte.x01] ∨ flag = [Byte.x03])) hash p []
             (bool_decide (flag = [Byte.x02] ∨ flag = [Byte.x03])) [])).

#[export] Instance toy_protobuf : Protobuf := {|
  SerializeHeader := enc_header;
  SerializePDU := enc_pdu;
  ParsePDU b := default default_pdu (dec_pdu b);
  SerializeGetRequest r := enc_field (req_hash r) ++ enc_field (req_replyAddr r);
  ParseGetResponse := dec_response;
  SerializeFreshHashes f := enc_list (fhc_fresh_hashes f);
|}.

Lemma nlen_enc_field f : nlen (enc_field f) = (2 + nlen f)%N.
Proof. unfold enc_field. rewrite nlen_app. unfold nlen at 1. by rewrite length_le_bytes. Qed.
Lemma nlen_enc_int z : nlen (enc_int z) = 8%N.
Proof. unfold enc_int, nlen. by rewrite length_le_bytes. Qed.
Lemma nlen_enc_list l :
  (nlen (enc_list l) ≤ 1 + foldr (λ b n, nlen b + 6 + n) 0 l)%N.
Proof.
  unfold enc_list. rewrite nlen_app. unfold nlen at 1. rewrite length_le_bytes.
  apply N.add_le_mono_l. induction l as [|f l IH]; [done|]. rewrite fmap_cons. cbn [concat foldr].
  rewrite nlen_app, nlen_enc_field. lia.
Qed.

#[export] Instance toy_protobuf_laws : ProtobufLaws.
Proof.
  split; simpl.
  - intros p Hp. by rewrite dec_pdu_enc.
  - done.
  - intros p _. unfold enc_pdu, enc_header, fields_size.
    rewrite !nlen_app, !nlen_enc_field, !nlen_enc_int.
    pose proof (nlen_enc_list (h_prevHash (pdu_header p))).
    assert (∀ b : byte, nlen [b] = 1%N) as -> by done. cbn zeta. lia.
Qed.

(** ** The process and its disk *)
#[export] Instance toy_env : RunEnv := {|
  clock n := (Z.of_nat n mod 9223372036854775808)%Z;
  run_options := {[ lit "client_ip" := lit "10.0.0.1"; lit "dcserver_ip" := lit "10.0.0.2:1" ]};
|}.

#[export] Instance toy_disk : HostFs := {|
  can_open _ := true; read_fault _ := false; can_create _ := true;
  write_fault _ := None; can_mkdir _ := true;
|}.

#[export] Instance toy_disk_benign : HostFsBenign.
Proof. by split. Qed.

(** ** The DataCapsule servers

    A store of records that acts on the last message it was sent: a record is
    kept, unless there is one of its name, and acknowledged; a request is
    answered if the record is there. It sends only what [may_send] finds true. *)
Abbreviation store := (gmap (list Byte.byte) (list Byte.byte)).

Definition ack_of (h : bytes) : bytes :=
  enc_pdu (MkPDU (MkHeader 0 [] [] 0 0 REPLICATION_ACK 0 [] [] false) h [] 0 []).

Definition may_send (r : store) (p : option (list cell) * option (list cell)) : bool :=
  match p.1 with
  | Some m => bool_decide (is_Some (r !! pdu_header_hash (ParsePDU (Listener.text m))))
  | None => true
  end &&
  match p.2 with
  | Some m =>
      let resp := ParseGetResponse (Listener.text m) in
      negb (resp_success resp) || (negb (resp_fresh_resp resp) &&
        bool_decide (r !! resp_hash resp = Some (SerializePDU (resp_record resp))))
  | None => true
  end.

(** Requests come in on the port of the one server, records on all others. *)
Definition takes_records (addr : bytes) : bool :=
  negb (bool_decide (addr = lit "tcp://10.0.0.2:4401")).

Definition serve (sent : list (bytes * bytes)) (r : store) :
    store * list (option (list cell) * option (list cell)) :=
  match last sent with
  | None => (r, [])
  | Some (addr, msg) =>
      let h := pdu_header_hash (ParsePDU msg) in
      if negb (takes_records addr) then
        match dec_field msg with
        | Some (k, _) =>
            match r !! k with
            | Some x => (r, [(None, Some (Some <$> Byte.x01 :: enc_field k ++ x))])
            | None => (r, [])
            end
        | None => (r, [])
        end
      else
        (match r !! h with Some _ => r | None => <[h := msg]> r end,
         [(Some (Some <$> ack_of h), None)])
  end.

#[export] Instance toy_remote : Remote store := {|
  remote_step sent r := let '(r', polls) := serve sent r in (r', List.filter (may_send r') polls);
  c_rand n := N.of_nat n;
|}.

#[export] Instance toy_remote_honest : HonestRemote store.
Proof.
  refine {| remote_record r h := r !! h |}.
  - intros sent r r' polls h x. simpl. destruct (serve sent r) as [r1 l] eqn:E.
    intros [= <- _] Hx. unfold serve in E. repeat case_match; simplify_eq; try done.
    rewrite lookup_insert_ne; [done|]. intros <-. congruence.
  - intros sent r r' polls m o. simpl. destruct (serve sent r) as [r1 l]. intros [= <- <-] Hin.
    apply list_elem_of_In, filter_In in Hin as [_ Hok].
    apply andb_true_iff in Hok as [Hok _]. by apply bool_decide_eq_true in Hok.
  - intros sent r r' polls m o. simpl. destruct (serve sent r) as [r1 l]. intros [= <- <-] Hin Hs.
    apply list_elem_of_In, filter_In in Hin as [_ Hok].
    apply andb_true_iff in Hok as [_ Hok]. simpl in Hok. rewrite Hs in Hok. simpl in Hok.
    apply andb_true_iff in Hok as [Hf Hr]. apply negb_true_iff in Hf.
    by apply bool_decide_eq_true in Hr.
Defined.

#[export] Instance toy_remote_exclusive : ExclusiveRemote store.
Proof.
  refine {| record_socket := takes_records |}.
  intros sent r r' polls h x. simpl. destruct (serve sent r) as [r1 l] eqn:E. intros [= <- _] Hx.
  change (r1 !! h = Some x) in Hx. change (remote_record r h) with (r !! h).
  unfold serve in E. destruct (last sent) as [[a msg]|] eqn:Hlast; [|simplify_eq; by left].
  cbv zeta in E. destruct (takes_records a) eqn:Ha; cbn [negb] in E.
  - destruct (r !! pdu_header_hash (ParsePDU msg)) eqn:Hr; simplify_eq; [by left|].
    apply lookup_insert_Some in Hx as [[<- <-]|[_ Hx]]; [|by left]. right. split; [done|].
    exists a. split; [|done]. apply last_Some in Hlast as [l' ->]. apply elem_of_app. right.
    by apply list_elem_of_singleton.
  - repeat case_match; simplify_eq; by left.
Defined.
End Toy.
