(* ===== verification/Witnesses.v ===== *)
(** * The theorems at concrete inputs

    Every theorem with hypotheses is applied to the instances of [Concrete.v]
    at an input that meets them. *)

From Stdlib Require Import NArith ZArith Lia.
From Stdlib Require Import Strings.String.
From stdpp Require Import base list gmap.
From S2P Require Import Prelude Const Encode Options Dir Crypto Capsule DcServer Middleware Backend.
From S2P Require Import Cache CacheSpec InodeSpec Dcfs MidSpec CommitSpec Commits BackendSpec Reopen.
From S2P Require Import CacheEquiv Inodes Progress DcfsSpec Types FileOps RefCount Session Termination ClientComm DcClient.
From S2P Require Import DcClientSpec Concrete.

#[local] Existing Instance Toy.toy_openssl.
#[local] Existing Instance Toy.toy_openssl_laws.
#[local] Existing Instance Toy.toy_protobuf.
#[local] Existing Instance Toy.toy_protobuf_laws.
#[local] Existing Instance Toy.toy_env.
#[local] Existing Instance Toy.toy_disk.
#[local] Existing Instance Toy.toy_disk_benign.
#[local] Existing Instance Sim.DCServer_sim.
#[local] Existing Instance Sim.DCServer_sim_laws.
#[local] Existing Instance Sim.DCServer_sim_answers.
#[local] Existing Instance Sim.DCServer_sim_reliable.
#[local] Existing Instance Backend.Storage_backend.
#[local] Existing Instance StorageLaws_backend.

(** [is_ret m]: the computation returns. *)
Definition is_ret {A} (m : outcome A) : bool := match m with Ret _ => true | _ => false end.
Definition ret_and {A} (p : A → bool) (m : outcome A) : bool :=
  match m with Ret a => p a | _ => false end.

Lemma is_ret_true {A} (m : outcome A) : is_ret m = true → ∃ a, m = Ret a.
Proof. destruct m; [eauto|done]. Qed.
Lemma ret_and_true {A} p (m : outcome A) : ret_and p m = true → ∃ a, m = Ret a ∧ p a = true.
Proof. destruct m; [eauto|done]. Qed.

(** ** A small system: one capsule, a fresh server *)
Definition dc : bytes := lit "capsule".
Definition sk : bytes := replicate 16 Byte.x05.
Definition ck : bytes := lit "K".
Definition file_key : bytes := replicate 16 Byte.x41.

Definition d0 : Sim.DCServerSim :=
  Sim.MkSim BACKEND_MNT_POINT
    {[ Sim.dc_path (Sim.MkSim BACKEND_MNT_POINT ∅ ∅) (Encode.to_hex dc) ]} ∅.
Definition w0 : world Sim.DCServerSim :=
  MkWorld (MkMid ∅ ([], []) (Some ck) (Some ck) (Some <$> sk)) d0 0 1.
Definition b0 : Backend.StorageBackend (D := Sim.DCServerSim) := Backend.MkBackend (Some ck) w0.

#[local] Instance run_env_ok : RunEnvOk.
Proof.
  split; [by repeat constructor|by vm_compute|].
  intros n. unfold int64_range. cbn [clock Toy.toy_env].
  pose proof (Z.mod_pos_bound (Z.of_nat n) 9223372036854775808). lia.
Qed.

Lemma sha_total d : is_Some (sha256 d).
Proof. by eexists. Qed.
Lemma enc_total k m : (nlen m < 2147483648)%N → is_Some (Crypto.ciphertext k m).
Proof.
  intros Hm. unfold Crypto.ciphertext, Crypto.whole. rewrite Crypto.int_bytes_small by done. by eexists.
Qed.
Lemma enc_key k m : length m = 16%nat → is_Some (Crypto.ciphertext k m).
Proof. intros Hm. apply enc_total. unfold nlen. by rewrite Hm. Qed.
Lemma head0 : head_ok w0 dc [].
Proof. done. Qed.
Lemma keys0 : keys_ok w0 sk.
Proof. done. Qed.
Lemma container0 : container (server w0) dc.
Proof. change (Sim.sim_container d0 dc). unfold Sim.sim_container. simpl. set_solver. Qed.

(** ** Commits *)
Definition d1 : list buf_desc := [MkDesc (lit "hello") 0].
Definition d2 : list buf_desc := [MkDesc (lit "hel") 0; MkDesc (lit "lo") 16384].

(** The client's signature of a request. *)
Definition signed (descs : list buf_desc) (inode_hash : bytes) : bytes :=
  ck ++ Toy.digest (request dc descs inode_hash file_key).

Lemma verify0 descs ih :
  (nlen (request dc descs ih file_key) < 18446744073709551616)%N →
  Mid.verify_args (mid w0) dc descs ih file_key (signed descs ih) = Ret true.
Proof.
  intros Hl. unfold Mid.verify_args. rewrite pack_args_spec by done. m_run.
  unfold Crypto.hash256. cbn [sha256 Toy.toy_openssl mbind outcome_bind]. simpl.
  by rewrite bool_decide_eq_true_2.
Qed.

Lemma commit0 :
  ∃ w, Mid.Modify dc d1 [] file_key (signed d1 []) w0 = Ret (w, inr tt) ∧ container (server w) dc.
Proof.
  apply (Modify_total dc d1 file_key (signed d1 []) w0 [] sk).
  - apply sha_total.
  - intros k. apply enc_key.
  - apply head0.
  - apply keys0.
  - by apply Nat.leb_le.
  - done.
  - done.
  - apply container0.
  - by apply verify0.
Qed.

Lemma small0 : request_small dc d1 [].
Proof. by split. Qed.

Lemma names0 : NoDup (new_names dc d1 file_key w0).
Proof. apply (bool_decide_eq_true_1 _). vm_compute. reflexivity. Qed.

Lemma Modify_commits_witness :
  ∃ w ns bm ino, Mid.Modify dc d1 [] file_key (signed d1 []) w0 = Ret (w, inr tt) ∧
    length ns = 1%nat ∧ latest w dc = ino ∧ NoDup (ns ++ [bm; ino]) ∧ head_ok w dc ns.
Proof.
  destruct commit0 as (w & Hw & _). exists w.
  destruct (Modify_commits dc d1 [] file_key (signed d1 []) w0 w [] sk
    head0 keys0 ltac:(by apply Nat.leb_le) small0 Hw) as (_ & ns & bm & ino & Hnames & Hl & Hlat & _ & Hn).
  exists ns, bm, ino. split; [exact Hw|]. split; [exact Hl|].
  split; [by rewrite Hlat, decide_True|].
  assert (NoDup (ns ++ [bm; ino])) as Hnd by (rewrite <-Hnames; apply names0).
  split; [exact Hnd|]. apply (Hn Hnd).
Defined.

Lemma Modify_succeeds_witness :
  ∃ w, Mid.Modify dc d1 (latest w0 dc) file_key (signed d1 []) w0 = Ret (w, inr tt) ∧
       container (server w) dc.
Proof.
  apply (Modify_succeeds dc d1 file_key (signed d1 []) w0 [] sk).
  - apply sha_total.
  - intros k. apply enc_key.
  - apply head0.
  - apply keys0.
  - by apply Nat.leb_le.
  - done.
  - done.
  - apply container0.
  - by apply verify0.
Defined.

(** A server on which the capsule's directory does not exist. *)
Definition w_down : world Sim.DCServerSim :=
  MkWorld (mid w0) (Sim.MkSim BACKEND_MNT_POINT ∅ ∅) 0 1.

Definition is_error {A B} (r : A * result B) : bool :=
  match r.2 with inl _ => true | inr _ => false end.

Lemma Modify_failure_keeps_heads_witness :
  ∃ w e, Mid.Modify dc d1 [] file_key (signed d1 []) w_down = Ret (w, inl e) ∧
    latest w dc = latest w_down dc.
Proof.
  assert (ret_and is_error (Mid.Modify dc d1 [] file_key (signed d1 []) w_down) = true) as Hrun
    by (vm_compute; reflexivity).
  apply ret_and_true in Hrun as ([w [e|u]] & Hrun & He); [|discriminate].
  exists w, e. split; [exact Hrun|].
  apply (Modify_failure_keeps_heads dc d1 [] file_key (signed d1 []) w_down w e Hrun).
Defined.

Lemma Modify_refuses_witness :
  ∃ w, Mid.Modify dc d1 (lit "old") file_key (signed d1 (lit "old")) w0 = Ret (w, inl ERR_NOT_FOUND) ∧
    server w = server w0 ∧ ∀ dc', latest w dc' = latest w0 dc'.
Proof.
  apply (Modify_refuses dc d1 (lit "old") file_key (signed d1 (lit "old")) w0 true).
  - by apply verify0.
  - right. by vm_compute.
Defined.

Lemma Modify_exclusive_witness :
  ∃ w1, Mid.Modify dc d1 [] file_key (signed d1 []) w0 = Ret (w1, inr tt) ∧
    ∀ w3, Mid.Modify dc d2 [] file_key (signed d2 []) w1 ≠ Ret (w3, inr tt).
Proof.
  destruct commit0 as (w1 & Hw & _). exists w1. split; [exact Hw|]. intros w3.
  apply (Modify_exclusive dc d1 d2 [] file_key file_key (signed d1 []) (signed d2 []) w0 w1 w1 w3 [] sk).
  - apply head0.
  - apply keys0.
  - by apply Nat.leb_le.
  - apply small0.
  - exact Hw.
  - reflexivity.
  - reflexivity.
Defined.

(** A capsule with one committed block. *)
Definition data_name : bytes := replicate 32 Byte.x07.
Definition key_ct : bytes := default [] (Crypto.ciphertext sk file_key).
Definition ino_payload : bytes := le_bytes 8 16384 ++ key_ct.

Definition mk_header (t : record_type) (prev : list bytes) (payload : bytes) : CapsuleHeader :=
  MkHeader 0 prev (Toy.digest payload) (clock 0) 0 (record_type_to_string t) 0 Mid.reply_addr [] false.
Definition mk_record (t : record_type) (prev : list bytes) (payload : bytes) : CapsulePDU :=
  MkPDU (mk_header t prev payload) (Toy.digest (Toy.enc_header (mk_header t prev payload)))
    (lit "0") 0 payload.

Definition bm_record : CapsulePDU := mk_record BLOCKMAP [dc; data_name] data_name.
Definition bm_name : bytes := pdu_header_hash bm_record.
Definition ino_record : CapsulePDU := mk_record INODE [dc; bm_name] ino_payload.
Definition ino_name : bytes := pdu_header_hash ino_record.

Definition file_of (r : bytes) : bytes :=
  Sim.record_path d0 (Encode.to_hex dc) (Encode.to_hex r).
Definition d_one : Sim.DCServerSim :=
  Sim.set_files (<[file_of ino_name := SerializePDU ino_record]>
                   {[file_of bm_name := SerializePDU bm_record]}) d0.
Definition w_one : world Sim.DCServerSim :=
  MkWorld (Mid.set_index {[dc := ino_name]} (mid w0)) d_one 0 1.

Lemma mk_record_ok t prev payload :
  record_ok t prev payload (pdu_header_hash (mk_record t prev payload)) (mk_record t prev payload).
Proof. split; try done. by exists 0%nat. Qed.

Lemma names_differ : bm_name ≠ ino_name.
Proof. by vm_compute. Qed.

Lemma stored_ino : stored w_one dc ino_name = Some (SerializePDU ino_record).
Proof. apply (lookup_insert_eq (M := gmap (list Byte.byte))). Qed.

Lemma stored_bm : stored w_one dc bm_name = Some (SerializePDU bm_record).
Proof.
  change (Sim.fs_files d_one !! file_of bm_name = Some (SerializePDU bm_record)).
  unfold d_one, Sim.set_files, Sim.fs_files.
  rewrite lookup_insert_ne; [apply lookup_singleton_eq|].
  intros Heq. apply Sim.record_path_inj in Heq as [_ Heq]. exact (names_differ (eq_sym Heq)).
Qed.

Lemma mk_record_wf t prev payload :
  (nlen prev < 256)%N → Forall field_small prev → (nlen payload < 16777216)%N →
  pdu_wf (mk_record t prev payload).
Proof. intros. by eapply record_wf; [apply mk_record_ok|..]. Qed.

Lemma committed_one : committed w_one dc ino_name bm_name [data_name] ino_payload.
Proof.
  exists ino_record, bm_record, dc, dc, data_name.
  split; [apply stored_ino|]. split.
  { apply mk_record_wf; [done| |by vm_compute].
    repeat (apply Forall_cons; split; [by vm_compute|]). constructor. }
  split; [apply mk_record_ok|]. split; [apply stored_bm|]. split.
  { apply mk_record_wf; [done| |by vm_compute].
    repeat (apply Forall_cons; split; [by vm_compute|]). constructor. }
  split; [apply mk_record_ok|]. split_and!; [by repeat constructor|done|by vm_compute|by vm_compute].
Qed.

Lemma latest_one : latest w_one dc = ino_name.
Proof. unfold latest, w_one. simpl. by rewrite lookup_singleton_eq. Qed.

Lemma head_one : head_ok w_one dc [data_name].
Proof.
  unfold head_ok. rewrite latest_one, decide_False by by vm_compute.
  exists bm_name, ino_payload. split; [done|apply committed_one].
Qed.

Lemma commit_one :
  ∃ w, Mid.Modify dc d1 ino_name file_key (signed d1 ino_name) w_one = Ret (w, inr tt).
Proof.
  destruct (Modify_total dc d1 file_key (signed d1 ino_name) w_one [data_name] sk) as (w & Hw & _).
  - apply sha_total.
  - intros k. apply enc_key.
  - apply head_one.
  - done.
  - by apply Nat.leb_le.
  - done.
  - done.
  - apply container0.
  - rewrite latest_one. by apply verify0.
  - exists w. by rewrite latest_one in Hw.
Qed.

Lemma small_one : request_small dc d1 [data_name].
Proof. by split. Qed.

Lemma names_one : NoDup (new_names dc d1 file_key w_one).
Proof. apply (bool_decide_eq_true_1 _). vm_compute. reflexivity. Qed.

Lemma Modify_never_replaces_witness :
  ∃ w bm payload hs', Mid.Modify dc d1 ino_name file_key (signed d1 ino_name) w_one = Ret (w, inr tt) ∧
    length hs' = 2%nat ∧ hs' !! 0%nat = Some data_name ∧
    committed w dc (latest w dc) bm hs' payload.
Proof.
  destruct commit_one as (w & Hw). exists w.
  destruct (Modify_never_replaces dc d1 ino_name file_key (signed d1 ino_name) w_one w [data_name] sk
    head_one keys0 ltac:(by apply Nat.leb_le) small_one Hw names_one)
    as (bm & payload & hs' & Hl & Hold & Hc).
  exists bm, payload, hs'. split; [exact Hw|]. split; [exact Hl|]. split; [|exact Hc].
  by apply Hold.
Defined.

Lemma Modify_corrupts_key_witness :
  ∃ w bm' hs' size' c1,
    Mid.Modify dc d1 ino_name file_key (signed d1 ino_name) w_one = Ret (w, inr tt) ∧
    take 16 key_ct ≠ file_key ∧
    committed w dc (latest w dc) bm' hs' (le_bytes 8 size' ++ c1) ∧
    Crypto.plaintext sk c1 = Some (take 16 key_ct).
Proof.
  destruct commit_one as (w & Hw). exists w.
  destruct (Modify_corrupts_key dc d1 ino_name file_key (signed d1 ino_name) w_one w [data_name] sk
    bm_name 16384 key_ct) as (bm' & hs' & size' & c1 & Hc & Hp).
  - rewrite latest_one. by vm_compute.
  - done.
  - rewrite latest_one. apply committed_one.
  - apply keys0.
  - by apply Nat.leb_le.
  - apply small_one.
  - exact Hw.
  - apply names_one.
  - exists bm', hs', size', c1. split; [exact Hw|]. split; [by vm_compute|]. split; [exact Hc|exact Hp].
Defined.

Lemma signature_ignores_layout_witness :
  Mid.verify_args (mid w0) dc d1 [] file_key (signed d1 []) =
  Mid.verify_args (mid w0) dc d2 [] file_key (signed d1 []).
Proof. by apply (signature_ignores_layout dc d1 d2 [] file_key (signed d1 []) w0). Defined.

Lemma unknown_capsule_is_new_witness :
  Mid.Modify dc d1 [] file_key (signed d1 []) w0 =
  Mid.Modify dc d1 [] file_key (signed d1 [])
    (Mid.set_mid (Mid.set_index (<[dc := []]> (index_ (mid w0))) (mid w0)) w0).
Proof.
  apply (unknown_capsule_is_new dc d1 [] file_key (signed d1 []) w0).
  - reflexivity.
  - by apply verify0.
Defined.

(** ** The backend and a whole file *)

Lemma backend_ok0 : backend_ok b0 dc sk ck.
Proof.
  split; [|apply container0].
  split; [apply sha_total|intros k m _; apply enc_total|intros n; by eexists|intros d; by eexists
         |done|done|apply keys0].
Qed.

Lemma backend_requests_verify_witness :
  ∃ b' sig, Backend.WriteRecord dc d1 [] file_key b0 = Ret (b', inr tt) ∧
    Mid.verify_args (mid w0) dc d1 [] file_key sig = Ret true.
Proof.
  pose proof (WriteRecord_up b0 dc d1 file_key [] sk ck backend_ok0) as Hw.
  apply (wp_always _ _ _ never_down) in Hw as ([b' res] & Hw & -> & _).
  - destruct (backend_requests_verify dc d1 [] file_key b0 b' (inr tt)) as [[_ [[Hd _]|He]]|(sig & Hv & _)].
    + reflexivity.
    + exact Hw.
    + discriminate Hd.
    + discriminate He.
    + exists b', sig. split; [exact Hw|exact Hv].
  - apply head0.
  - by apply Nat.leb_le.
  - done.
  - done.
  - apply small0.
  - done.
Defined.

Lemma ReadRecordData_correct_witness :
  wp Sim.sim_fault (Backend.ReadRecordData dc data_name 100 b0) (λ '(b', res),
    (∀ dc' r', backend_payload b' dc' r' = backend_payload b0 dc' r') ∧
    ∀ data, res = inr data → backend_payload b0 dc data_name = Some data ∧ (nlen data ≤ 100)%N).
Proof. exact (ReadRecordData_correct (D := Sim.DCServerSim) dc data_name 100 b0 ltac:(discriminate)). Defined.

Lemma block_map_round_trip_witness :
  ∃ payload, Mid.concat_hashes [data_name; bm_name] = Ret payload ∧
    nlen payload = (HASHLEN_IN_BYTES * 2)%N ∧
    Mid.split_hashes (S (length payload)) payload 0 [] = Ret [data_name; bm_name].
Proof. apply (block_map_round_trip [data_name; bm_name]). by repeat constructor. Defined.

(** A new file of one block full of the letter A, not yet flushed. *)
Definition block_A : list cell := replicate (N.to_nat (16384 + 16)) (Some Byte.x41).
Definition ino_A : Inode :=
  MkInode dc [] 5 16384 BLOCKMAP_COVER [] (MkCache [MkStat true true] [Some block_A] None) file_key 1.

Lemma length_block_A : length block_A = N.to_nat (16384 + 16).
Proof. apply length_replicate. Qed.

Lemma one_block {A} i (a x : A) : [a] !! i = Some x → i = 0%nat ∧ x = a.
Proof. destruct i as [|[|i]]; intros [= <-]; by split. Qed.

Lemma ino_A_wf : ino_wf ino_A.
Proof.
  split; [|split|].
  - split; [done|done|done|]. unfold AESKey. cbn [i_aes_key_ ino_A]. by apply Nat.leb_le.
  - done.
  - intros i b Hb. apply one_block in Hb as [_ [= ->]]. apply length_block_A.
  - intros i st Hst _. apply one_block in Hst as [-> _]. by exists block_A.
  - done.
  - done.
Qed.

Lemma is_dirty_A i : is_dirty (i_cache_ ino_A) i = true → i = 0%N.
Proof.
  unfold is_dirty. cbn [dcache_stats_ i_cache_ ino_A].
  destruct ([_] !! N.to_nat i) as [st|] eqn:E; [|done]. apply one_block in E as [E _]. lia.
Qed.

Lemma new_file_A : new_file b0 ino_A 1.
Proof.
  split; try done.
  - apply ino_A_wf.
  - split; [lia|by vm_compute].
  - intros i Hi. apply is_dirty_A in Hi as ->. unfold block_bytes.
    cbn [dcache_blocks_ i_cache_ ino_A]. change ([Some block_A] !! N.to_nat 0) with (Some (Some block_A)).
    cbn [mbind option_bind]. unfold block_A. rewrite take_replicate, <-fmap_replicate, mapM_id_some.
    by eexists.
  - intros i Hi. by apply is_dirty_A in Hi as ->.
Qed.

Lemma names_A : NoDup (flush_names b0 ino_A).
Proof. apply (bool_decide_eq_true_1 _). vm_compute. reflexivity. Qed.

Lemma flush_then_open_witness :
  ∃ b' c' b'' ino', RC.FlushCache ino_A (i_cache_ ino_A) b0 = Ret (b', c', inr tt) ∧
    opens b' dc 16384 b'' ino' ∧ AESKey ino' = file_key.
Proof.
  destruct (flush_then_open b0 ino_A 1 sk ck backend_ok0 new_file_A)
    as (b' & c' & Hf & ns & bm & rn & _ & Hl & Hn).
  destruct (Hn names_A) as (b'' & ino' & Ho & Hk & _).
  exists b', c', b'', ino'. split; [exact Hf|]. split; [exact Ho|exact Hk].
Defined.

(** ** Inodes with blocks of four bytes *)

Definition small_inode (size : N) (bm_name : bytes) (c : RecordCache) : Inode :=
  MkInode dc [] size 4 2 bm_name c file_key 1.
Definition empty_cache : RecordCache := MkCache [MkStat false false] [None] None.

(** An empty file, a file of eight bytes, and a file whose block map is not on
    the server. *)
Definition ino_E : Inode := small_inode 0 [] empty_cache.
Definition ino_F : Inode := small_inode 8 [] empty_cache.
Definition ino_M : Inode := small_inode 8 bm_name empty_cache.

Lemma empty_rc_wf h : rc_wf h empty_cache.
Proof.
  split; [done| | |done].
  - intros i b Hb. by apply one_block in Hb as [_ [=]].
  - intros i st Hst Hc. by apply one_block in Hst as [_ ->].
Qed.

Lemma small_host_wf size bm c : host_wf (small_inode size bm c).
Proof. split; [done|done|done|]. by apply Nat.leb_le. Qed.

Lemma small_wf size bm : (size < 9223372036854775808)%N → ino_wf (small_inode size bm empty_cache).
Proof. intros Hs. split; [apply small_host_wf|apply empty_rc_wf|done]. Qed.

(** What filling the caches of the two files leaves, whatever the backend. *)
Definition filled (ino : Inode) (off size : N) : RecordCache :=
  match RC.fillDcache ino off size (i_cache_ ino) b0 with
  | Ret (_, c, _) => c
  | Crash _ => i_cache_ ino
  end.
Definition cache_1 : RecordCache := Eval vm_compute in filled ino_E 0 3.
Definition cache_2 : RecordCache := Eval vm_compute in filled ino_E 0 5.

Lemma fill_E3 (b : Backend.StorageBackend (D := Sim.DCServerSim)) :
  RC.fillDcache ino_E 0 3 (i_cache_ ino_E) b = Ret (b, cache_1, inr tt).
Proof. reflexivity. Qed.
Lemma fill_E5 (b : Backend.StorageBackend (D := Sim.DCServerSim)) :
  RC.fillDcache ino_E 0 5 (i_cache_ ino_E) b = Ret (b, cache_2, inr tt).
Proof. reflexivity. Qed.
Lemma fill_F5 (b : Backend.StorageBackend (D := Sim.DCServerSim)) :
  RC.fillDcache ino_F 0 5 (i_cache_ ino_F) b = Ret (b, cache_2, inr tt).
Proof. reflexivity. Qed.

Definition buf6 : list cell := Some <$> lit "abcdef".

Lemma Write_correct_witness :
  (∃ ino', Ino.Write (take 3 buf6) 0 3 ino_E b0 = Ret (b0, ino', inr 3%N) ∧ i_size_ ino' = 3%N ∧
     contents ino' b0 1 = Some Byte.x62) ∧
  Ino.Write (take 5 buf6) 0 5 ino_E b0 = Crash OutOfBounds.
Proof.
  split.
  - destruct (Write_correct ino_E b0 b0 cache_1 (take 3 buf6) 0 3) as [_ Hw];
      [by apply small_wf|done|done|apply fill_E3|].
    destruct (Hw ltac:(by vm_compute)) as (ino' & Hw' & _ & Hs & Hnew & _).
    exists ino'. split; [exact Hw'|]. split; [exact Hs|]. by apply (Hnew 1%N Byte.x62).
  - destruct (Write_correct ino_E b0 b0 cache_2 (take 5 buf6) 0 5) as [Hw _];
      [by apply small_wf|done|done|apply fill_E5|].
    by apply Hw.
Defined.

Lemma Read_correct_witness :
  wp Sim.sim_fault (Ino.Read buf6 2 3 ino_F b0) (λ '(s', ino', buf', r),
    i_size_ ino' = 8%N ∧ length buf' = 6%nat).
Proof.
  change Sim.sim_fault with (storage_fault (S := Backend.StorageBackend (D := Sim.DCServerSim))).
  eapply wp_mono; [apply (Read_correct ino_F b0 buf6 2 3)|].
  - by apply small_wf.
  - done.
  - done.
  - by vm_compute.
  - intros [[[s' ino'] buf'] r] (_ & Hs & Hl & _). by split.
Defined.

Lemma read_after_write_witness :
  ∃ ino' buf', Ino.Write buf6 0 5 ino_E b0 = Ret (b0, ino', inr 5%N) ∧
    Ino.Read (replicate 6 None) 0 5 ino' b0 = Ret (b0, ino', buf', inr (Some 5%N)) ∧
    take 5 buf' = Some <$> lit "abcde".
Proof.
  destruct (read_after_write ino_E b0 b0 cache_2 buf6 (replicate 6 None) 0 5)
    as (ino' & buf' & Hw & Hr & Ht).
  - by apply small_wf.
  - done.
  - done.
  - by vm_compute.
  - repeat (apply Forall_cons; split; [by eexists|]). constructor.
  - by vm_compute.
  - apply fill_E5.
  - exists ino', buf'. split; [exact Hw|]. split; [exact Hr|exact Ht].
Defined.

Lemma crossing_write_clobbers_witness :
  ∃ ino', Ino.Write buf6 0 5 ino_F b0 = Ret (b0, ino', inr 5%N) ∧
    contents ino' b0 5 = Some Byte.x66.
Proof.
  apply (crossing_write_clobbers ino_F b0 b0 cache_2 buf6 0 5 Byte.x66).
  - by apply small_wf.
  - done.
  - done.
  - by vm_compute.
  - apply fill_F5.
  - by vm_compute.
  - reflexivity.
Defined.

Lemma crossing_read_overruns_witness :
  Ino.Read (take 5 buf6) 0 5 ino_F b0 = Crash OutOfBounds.
Proof.
  apply (crossing_read_overruns ino_F b0 b0 cache_2 (take 5 buf6) 0 5).
  - by apply small_wf.
  - done.
  - by vm_compute.
  - reflexivity.
  - vm_compute. discriminate.
  - apply fill_F5.
Defined.

Lemma write_behind_end_is_moved_witness :
  ∃ ino', Ino.Write buf6 7 3 ino_E b0 = Ret (b0, ino', inr 3%N) ∧ i_size_ ino' = 3%N ∧
    contents ino' b0 0 = Some Byte.x61.
Proof.
  destruct (write_behind_end_is_moved ino_E b0 b0 cache_1 buf6 7 3)
    as (ino' & Hw & Hs & Hnew).
  - by apply small_wf.
  - done.
  - done.
  - by vm_compute.
  - done.
  - apply fill_E3.
  - exists ino'. split; [exact Hw|]. split; [exact Hs|]. by apply (Hnew 0%N Byte.x61).
Defined.

Lemma failed_map_load_sticks_witness :
  ∃ s1 c1 e, RC.fillBmcache ino_M 0 1 empty_cache b0 = Ret (s1, c1, inl e) ∧
    ∀ s2 : Backend.StorageBackend, RC.fillBmcache ino_M 0 1 c1 s2 = Ret (s2, c1, inr tt).
Proof.
  assert (ret_and is_error (RC.fillBmcache ino_M 0 1 empty_cache b0) = true) as Hrun
    by (vm_compute; reflexivity).
  apply ret_and_true in Hrun as ([[s1 c1] [e|u]] & Hrun & He); [|discriminate].
  exists s1, c1, e. split; [exact Hrun|]. intros s2.
  apply (failed_map_load_sticks ino_M 0 1 empty_cache c1 b0 s1 e
    (small_host_wf 8 bm_name empty_cache) (empty_rc_wf ino_M) Hrun s2).
Defined.

(** A block map whose first name starts with a zero byte. *)
Definition zero_map : list cell :=
  (Some <$> Byte.x00 :: replicate 31 Byte.x07) ++ replicate 32 (Some Byte.x00).
Definition zero_cache : RecordCache := MkCache [MkStat false false] [None] (Some zero_map).

Lemma zero_name_is_unseen_witness :
  ∃ c', RC.fill_block (small_inode 4 bm_name zero_cache) 0 zero_cache b0 = Ret (b0, c', inr tt) ∧
    is_cached c' 0 = true ∧ view (small_inode 4 bm_name zero_cache) c' b0 (4 * 0 + 1) = Some Byte.x00.
Proof.
  destruct (zero_name_is_unseen (small_inode 4 bm_name zero_cache) 0 zero_cache b0 zero_map
    (replicate 31 Byte.x07)) as (c' & Hf & Hc & Hv).
  - apply small_host_wf.
  - split; [done| | |].
    + intros i b Hb. by apply one_block in Hb as [_ [=]].
    + intros i st Hst Hx. by apply one_block in Hst as [_ ->].
    + intros bm [= <-]. split; [done|]. unfold zero_map. apply Forall_app. split.
      * apply Forall_fmap, Forall_true. by eexists.
      * apply Forall_replicate. by eexists.
  - done.
  - done.
  - done.
  - done.
  - reflexivity.
  - exists c'. split; [exact Hf|]. split; [exact Hc|]. by apply (Hv 1%N).
Defined.

Lemma write_after_failed_fill_witness :
  Ino.Write buf6 0 3 ino_M b0 = Crash NullDeref.
Proof.
  assert (ret_and (λ r, is_error r && bool_decide (dcache_blocks_ r.1.2 = [None]))
    (RC.fillDcache ino_M 0 3 (i_cache_ ino_M) b0) = true) as Hrun by (vm_compute; reflexivity).
  apply ret_and_true in Hrun as ([[s1 c1] [e|u]] & Hrun & He); [|discriminate].
  apply bool_decide_eq_true in He. simpl in He.
  apply (write_after_failed_fill ino_M b0 s1 c1 buf6 0 3 e).
  - by apply small_wf.
  - done.
  - exact Hrun.
  - rewrite He. reflexivity.
Defined.

Lemma FlushCache_refines_witness :
  ∃ ds, flush_descs ino_A (i_cache_ ino_A) = Some ds ∧
    RC.FlushCache ino_A (i_cache_ ino_A) b0 =
      ('(s, r) ← StoreRecord dc ds [] file_key b0;
       match r with
       | inl e => Ret (s, i_cache_ ino_A, inl e)
       | inr _ => Ret (s, RC.drop_caches (i_cache_ ino_A), inr tt)
       end).
Proof.
  destruct (flush_descs_total ino_A (i_cache_ ino_A) b0 dc sk ck backend_ok0 (iw_host _ ino_A_wf)
    (iw_cache _ ino_A_wf) eq_refl
    (nf_flushable _ _ _ new_file_A)) as (ds & Hd & _).
  exists ds. split; [exact Hd|].
  pose proof (FlushCache_refines ino_A (i_cache_ ino_A) b0 (iw_host _ ino_A_wf) (iw_cache _ ino_A_wf)
    (nf_flushable _ _ _ new_file_A)) as Hf.
  rewrite Hd in Hf. exact Hf.
Defined.

Lemma copies_by_block_witness :
  RC.Read ino_F (replicate 10 None) 2 6 empty_cache b0 =
    read_by_block ino_F (replicate 10 None) 2 6 empty_cache b0 ∧
  RC.Write ino_F buf6 2 5 empty_cache b0 = write_by_block ino_F buf6 2 5 empty_cache b0.
Proof.
  split; apply (copies_by_block ino_F); done.
Defined.

(** A client without a key, and a file with one dirty block. *)
Definition b_nokey : Backend.StorageBackend (D := Sim.DCServerSim) := Backend.MkBackend None w0.
Definition dirty_cache : RecordCache :=
  MkCache [MkStat true true] [Some (replicate 20 (Some Byte.x41))] None.
Definition ino_D : Inode := small_inode 4 [] dirty_cache.

Lemma ino_D_wf : ino_wf ino_D.
Proof.
  split; [apply small_host_wf|split|done]; [done| | |done].
  - intros i b Hb. by apply one_block in Hb as [_ [= ->]].
  - intros i st Hst _. apply one_block in Hst as [-> _]. by eexists.
Qed.

Lemma ino_D_flushable : flushable ino_D dirty_cache.
Proof.
  intros i Hi. unfold is_dirty in Hi. cbn [dcache_stats_ dirty_cache] in Hi.
  destruct ([_] !! N.to_nat i) as [st|] eqn:E in Hi; [|done]. apply one_block in E as [E _].
  unfold block_bytes. rewrite E. by eexists.
Qed.

(** Without a key nothing can be signed. *)
Lemma nokey_write ds :
  nlen ds ≠ 0%N → (nlen (request dc ds [] file_key) < 18446744073709551616)%N →
  Backend.WriteRecord dc ds [] file_key b_nokey = Ret (b_nokey, inl ERR_SIGN).
Proof.
  intros Hne Hl. unfold Backend.WriteRecord. rewrite (proj2 (N.eqb_neq _ _)) by done.
  by rewrite Backend.pack_args_same, pack_args_spec.
Qed.

Definition descs_D : list buf_desc := default [] (flush_descs ino_D (i_cache_ ino_D)).

Lemma Unref_drops_flush_error_witness :
  Ino.Unref ino_D b_nokey = Ret (b_nokey, set_ref 0 ino_D, 0%N).
Proof.
  apply (Unref_drops_flush_error ino_D b_nokey b_nokey descs_D ERR_SIGN).
  - apply ino_D_wf.
  - apply ino_D_flushable.
  - reflexivity.
  - vm_compute. reflexivity.
  - apply nokey_write; [discriminate|vm_compute; reflexivity].
Defined.

(** ** The file system *)
Abbreviation fs := (fs_state (Backend.StorageBackend (D := Sim.DCServerSim))).
Definition fs0 : fs := Fs.dcfs_init 16 b0.
Definition path_f : bytes := lit "/f".

Lemma create_runs : ∃ x, Fs.dcfs_create path_f 0 fs0 = Ret x ∧
  bool_decide (x.1.2 = 0%Z ∧ fd_cnt x.1.1 = 11%N) = true.
Proof. apply ret_and_true. vm_compute. reflexivity. Qed.

Lemma reachable_inv_witness :
  ∃ st r fd, Fs.dcfs_create path_f 0 fs0 = Ret (st, r, fd) ∧ fs_inv st.
Proof.
  destruct create_runs as ([[st r] fd] & Hc & _). exists st, r, fd. split; [exact Hc|].
  apply (reachable_inv 16 b0 st). eapply reach_step; [apply reach_init|].
  eapply step_create. exact Hc.
Defined.

Lemma readdir_correct_witness :
  ∃ st, Fs.dcfs_readdir (lit "/") fs0 = Ret (st, [lit "."; lit ".."], 0%Z).
Proof.
  destruct (proj1 (readdir_correct (lit "/") fs0) eq_refl) as (st & Hr & _). exists st. exact Hr.
Defined.

Lemma open_after_create_witness :
  ∃ st1 fd st2, Fs.dcfs_create path_f 0 fs0 = Ret (st1, 0%Z, fd) ∧
    Fs.dcfs_open path_f 0 st1 = Ret (st2, 0%Z, 12%N).
Proof.
  destruct create_runs as ([[st1 r] fd] & Hc & Hr). apply bool_decide_eq_true in Hr as [Hr Hcnt].
  simpl in Hr, Hcnt. subst r. exists st1, fd.
  destruct (open_after_create path_f 0 0 fs0 st1 fd) as (st2 & h & ino & _ & _ & Ho & _).
  - apply init_inv.
  - exact Hc.
  - by rewrite Hcnt.
  - exists st2. split; [exact Hc|]. rewrite Hcnt in Ho. exact Ho.
Defined.

(** Two handles on one file: a [create] and an [open]. *)
Definition two_handles (x : fs * Z * N) : bool :=
  bool_decide (x.1.2 = 0%Z ∧ x.2 = 12%N ∧
    handles x.1.1 [12; 11]%N (default [] (fd_table x.1.1 !! 12%nat)) = 2%N).

Lemma two_handles_run : ∃ x y, Fs.dcfs_create path_f 0 fs0 = Ret (x, 0%Z, 11%N) ∧
  Fs.dcfs_open path_f 0 x = Ret (y, 0%Z, 12%N) ∧
  handles y [12; 11]%N (default [] (fd_table y !! 12%nat)) = 2%N.
Proof.
  assert (ret_and (λ x, bool_decide (x.1.2 = 0%Z ∧ x.2 = 11%N) &&
    ret_and two_handles (Fs.dcfs_open path_f 0 x.1.1)) (Fs.dcfs_create path_f 0 fs0) = true) as Hrun
    by (vm_compute; reflexivity).
  apply ret_and_true in Hrun as ([[x r] fd] & Hc & Hrun). apply andb_prop in Hrun as [Hx Hrun].
  apply bool_decide_eq_true in Hx as [Hr Hfd]. simpl in Hr, Hfd. subst r fd.
  apply ret_and_true in Hrun as ([[y r] fd] & Ho & Hy).
  apply bool_decide_eq_true in Hy as (Hr & Hfd & Hh). cbn [fst snd] in Hr, Hfd, Hh. subst r fd.
  exists x, y. split; [exact Hc|]. split; [exact Ho|exact Hh].
Qed.

Lemma references_count_witness :
  ∃ x y p ino, Fs.dcfs_create path_f 0 fs0 = Ret (x, 0%Z, 11%N) ∧
    Fs.dcfs_open path_f 0 x = Ret (y, 0%Z, 12%N) ∧
    opened y 12 p ino ∧ i_ref_count_ ino = 2%N.
Proof.
  destruct two_handles_run as (x & y & Hc & Ho & Hh).
  assert (used 16 b0 y [12; 11]%N) as Hu.
  { apply (used_open 16 b0 path_f 0 x y [11]%N 0%Z 12%N); [|exact Ho].
    apply (used_create 16 b0 path_f 0 fs0 x [] 0%Z 11%N); [apply used_init| |exact Hc].
    intros s p k _. reflexivity. }
  destruct (references_count 16 b0 y [12; 11]%N Hu) as (Hrefs & Hopen & _).
  destruct (Hopen 12%N) as (p & ino & Hp & _); [apply list_elem_of_here|].
  exists x, y, p, ino. split; [exact Hc|]. split; [exact Ho|]. split; [exact Hp|].
  destruct Hp as (_ & Hslot & Hino). change (N.to_nat 12) with 12%nat in Hslot. rewrite Hslot in Hh.
  specialize (Hrefs p). unfold refs in Hrefs. rewrite Hino in Hrefs. rewrite Hrefs. exact Hh.
Defined.

(** libfuse calls [flush] for every [close], more than once where a descriptor
    was duplicated. Then a handle gives back references of other handles: after
    the second [flush] through 12 the inode of 11 is gone. *)
Example flush_twice_drops_open_file :
  match Fs.dcfs_create path_f 0 fs0 ≫= λ '(x, _, _), Fs.dcfs_open path_f 0 x with
  | Ret (y, _, _) =>
      match Fs.dcfs_flush path_f 12 y ≫= λ '(y1, _, _), Fs.dcfs_flush path_f 12 y1 with
      | Ret (y2, r, _) => bool_decide (r = 0%Z ∧ inode_table y2 = ∅ ∧
          fd_table y2 !! 11%nat = fd_table y !! 11%nat)
      | Crash _ => false
      end
  | Crash _ => false
  end = true.
Proof. vm_compute. reflexivity. Qed.

Lemma inodes_well_formed_witness :
  ∃ st r fd p ino, Fs.dcfs_create path_f 0 fs0 = Ret (st, r, fd) ∧
    inode_table st !! p = Some ino ∧ inode_typed 16 ino.
Proof.
  destruct create_runs as ([[st r] fd] & Hc & Hr). apply bool_decide_eq_true in Hr as [Hr _].
  simpl in Hr. subst r.
  destruct (create_spec path_f 0 fs0 st 0%Z fd (init_inv 16 b0) Hc)
    as (_ & name & _ & [(Hx & _)|[(Hx & _)|(_ & _ & _ & ino & _ & Ht & _)]]);
    [discriminate Hx|discriminate Hx|].
  exists st, 0%Z, fd, (i_hashname_ ino), ino. split; [exact Hc|]. split; [exact Ht|].
  apply (inodes_well_formed 16 eq_refl eq_refl b0 st (i_hashname_ ino) ino); [|exact Ht].
  eapply reach_step; [apply reach_init|]. eapply step_create. exact Hc.
Defined.

Lemma callbacks_terminate_witness :
  fueled (Fs.dcfs_open path_f 0 fs0) ∧ fueled (Fs.dcfs_readdir (lit "/") fs0).
Proof.
  destruct (callbacks_terminate path_f 0 0 [] 0 0 fs0) as (_ & _ & _ & Ho & _).
  destruct (callbacks_terminate (lit "/") 0 0 [] 0 0 fs0) as (_ & Hr & _).
  split; [exact Ho|exact Hr].
Defined.

(** A file that was made and written to: its descriptor is open. *)
Definition write_check (x : fs * Z * N) : bool :=
  match Fs.dcfs_write [] buf6 5 0 11 x.1.1 with
  | Ret (st2, r2) =>
      match fd_table st2 !! 11%nat ≫= λ p, inode_table st2 !! p with
      | Some ino => bool_decide (x.1.2 = 0%Z ∧ x.2 = 11%N ∧ r2 = 5%Z ∧ i_size_ ino = 5%N)
      | None => false
      end
  | Crash _ => false
  end.

Lemma write_runs : ∃ st p ino, reachable 16 b0 st ∧ opened st 11 p ino ∧ i_size_ ino = 5%N.
Proof.
  assert (ret_and write_check (Fs.dcfs_create path_f 0 fs0) = true) as Hrun
    by (vm_compute; reflexivity).
  apply ret_and_true in Hrun as ([[st1 r] fd] & Hc & Hw). unfold write_check in Hw. simpl in Hw.
  destruct (Fs.dcfs_write _ _ _ _ _ st1) as [[st2 r2]|] eqn:Hwr; [|done].
  destruct (fd_table st2 !! 11%nat) as [p|] eqn:Hp; [|done]. cbn [mbind option_bind] in Hw.
  destruct (inode_table st2 !! p) as [ino|] eqn:Hi; [|done].
  apply bool_decide_eq_true in Hw as (_ & _ & _ & Hsz).
  exists st2, p, ino. split; [|split; [|exact Hsz]].
  2: { split; [reflexivity|]. split; [exact Hp|exact Hi]. }
  eapply reach_step; [eapply reach_step; [apply reach_init|eapply step_create; exact Hc]|].
  eapply step_write. exact Hwr.
Qed.

Lemma dcfs_read_correct_witness :
  ∃ st p ino, opened st 11 p ino ∧ i_size_ ino = 5%N ∧
    wp Sim.sim_fault (Fs.dcfs_read [] (take 3 buf6) 3 4 11 st) (λ '(st', _, r),
      (r = (- EIO)%Z ∨ r = 1%Z) ∧ root st' = root st).
Proof.
  destruct write_runs as (st & p & ino & Hr & Ho & Hsz). exists st, p, ino.
  split; [exact Ho|]. split; [exact Hsz|].
  change Sim.sim_fault with (storage_fault (S := Backend.StorageBackend (D := Sim.DCServerSim))).
  eapply wp_fault_mono; [|eapply wp_mono;
    [apply (dcfs_read_correct 16 eq_refl eq_refl b0 st [] (take 3 buf6) 3 4 11 p ino Hr Ho)|]].
  - intros f [Hf|(_ & _ & Hf)]; [exact Hf|]. rewrite Hsz in Hf.
    pose proof (span_bounds (BlockSize ino) (Z.to_N 4) (N.min 3 (5 - Z.to_N 4))) as Hb.
    change (nlen (take 3 buf6)) with 3%N in Hf. lia.
  - by rewrite Hsz.
  - done.
  - done.
  - done.
  - intros [[st' buf'] r] ((ino' & _ & _ & Hres) & Hroot & _). split; [|exact Hroot].
    rewrite Hsz in Hres. destruct Hres as [[-> _]|[-> _]]; [by left|by right].
Defined.

(** A file that was made and nothing else: its inode is new and open. *)
Lemma create_fresh : ∃ st p key, reachable 16 b0 st ∧ opened st 11 p (fresh p key 1) ∧
  length key = 16%nat ∧ fd_cnt st = 11%N ∧ Dir.entries_ (root st) = [Dir.MkEntry (lit "f") p].
Proof.
  pose proof (create_up fs0 Byte.x2f (lit "f") 0 sk ck (init_inv 16 b0) eq_refl eq_refl
    (bo_up _ _ _ _ backend_ok0) ltac:(apply not_elem_of_nil)) as Hc.
  apply (wp_always _ _ _ never_down) in Hc as ([[st r] fd] & Hc & -> & -> & p & key &
    (Hent & Ht & Hfd & Hcnt & _ & _ & Hkey & _) & _).
  exists st, p, key. rewrite Hcnt in Hfd. split.
  { eapply reach_step; [apply reach_init|]. eapply step_create. exact Hc. }
  split; [exact (conj eq_refl (conj Hfd Ht))|]. split; [exact Hkey|]. split; [exact Hcnt|exact Hent].
Qed.

Lemma dcfs_write_correct_witness :
  ∃ st st' p ino', Fs.dcfs_write [] buf6 4 0 11 st = Ret (st', 4%Z) ∧ opened st' 11 p ino' ∧
    contents ino' (backend st') 3 = Some Byte.x64.
Proof.
  destruct create_fresh as (st & p & key & Hr & Ho & Hkey & _ & _).
  destruct (fill_new_file (fresh p key 1) 0 4 (i_cache_ (fresh p key 1)) (backend st)) as (c1 & Hf);
    [apply (fresh_wf p key 1 Hkey)|apply (fresh_wf p key 1 Hkey)|done|done|].
  destruct (dcfs_write_correct 16 eq_refl eq_refl b0 st [] buf6 4 0 11 p (fresh p key 1) (backend st) c1)
    as (st' & ino' & Hw & Ho' & Hb & _ & Hnew & _).
  - exact Hr.
  - exact Ho.
  - reflexivity.
  - reflexivity.
  - reflexivity.
  - lia.
  - by vm_compute.
  - exact Hf.
  - exists st, st', p, ino'. split; [exact Hw|]. split; [exact Ho'|]. rewrite Hb.
    by apply (Hnew 3%N Byte.x64).
Defined.

Lemma dcfs_open_correct_witness :
  ∃ st st' p key, Fs.dcfs_open path_f 0 st = Ret (st', 0%Z, 12%N) ∧
    inode_table st !! p = Some (fresh p key 1) ∧ inode_table st' !! p = Some (fresh p key 2).
Proof.
  destruct create_fresh as (st & p & key & Hr & (_ & _ & Ht) & _ & Hcnt & Hent).
  pose proof (dcfs_open_correct 16 b0 st Byte.x2f (lit "f") 0 Hr) as Ho.
  rewrite Hcnt, Hent in Ho. specialize (Ho eq_refl).
  change (Dir.first_entry _ _) with (Some (Dir.MkEntry (lit "f") p)) in Ho.
  cbv zeta in Ho. cbn [Dir.Hashname Dir.d_hashname_] in Ho. rewrite Ht in Ho.
  destruct Ho as (st' & Ho & _ & _ & Ht' & _).
  exists st, st', p, key. split; [exact Ho|]. split; [exact Ht|]. rewrite Ht'. apply lookup_insert_eq.
Defined.

Lemma dcfs_create_correct_witness :
  ∃ st' p key, Fs.dcfs_create path_f 0 fs0 = Ret (st', 0%Z, 11%N) ∧
    Dir.entries_ (root st') = [Dir.MkEntry (lit "f") p] ∧
    inode_table st' !! p = Some (empty_file p key 16384 1).
Proof.
  assert (ret_and (λ x, if x.2 is inr _ then true else false) (CreateNewFile (backend fs0)) = true) as Hc
    by (vm_compute; reflexivity).
  apply ret_and_true in Hc as ([s [e|[p key]]] & Hc & Hr); [discriminate Hr|].
  pose proof (dcfs_create_correct 16 b0 fs0 Byte.x2f (lit "f") 0 (reach_init 16 b0) eq_refl) as Ho.
  destruct (Ho ltac:(discriminate) s (inr (p, key)) Hc) as (st' & Ho' & He & _ & Ht & _).
  exists st', p, key. split; [exact Ho'|]. split; [exact He|]. rewrite Ht. apply lookup_insert_eq.
Defined.

Lemma dcfs_flush_correct_witness :
  ∃ st p, Fs.dcfs_flush [] 11 st = Ret (closed st 11 p (backend st), 0%Z, 0%N).
Proof.
  destruct create_fresh as (st & p & key & Hr & Ho & Hkey & _). exists st, p.
  destruct (dcfs_flush_correct 16 b0 st [] 11 p (fresh p key 1)) as [_ Hf].
  - exact Hr.
  - exact Ho.
  - apply (fresh_wf p key 1 Hkey).
  - apply (fresh_wf p key 1 Hkey).
  - intros i Hi. unfold is_dirty in Hi. simpl in Hi. by destruct (N.to_nat i) as [|[|?]].
  - specialize (Hf eq_refl). rewrite Hf. reflexivity.
Defined.

(** The premises of the session, on the run itself: no two records of the
    flush have the same name, and the block's does not start with a zero byte. *)
Definition session_names : list bytes :=
  match Fs.dcfs_create path_f 0 fs0 with
  | Ret (st1, _, fd) =>
      match Fs.dcfs_write [] buf6 5 0 fd st1 with
      | Ret (st2, _) =>
          match fd_table st2 !! N.to_nat fd ≫= λ p, inode_table st2 !! p with
          | Some ino => flush_names (backend st2) ino
          | None => []
          end
      | Crash _ => []
      end
  | Crash _ => []
  end.

Lemma session_names_ok :
  bool_decide (NoDup session_names ∧ length session_names = 3%nat ∧
    Forall (λ n, head n ≠ Some Byte.x00) session_names) = true.
Proof. vm_compute. reflexivity. Qed.

Lemma session_round_trip_witness :
  ∃ st1 st2 st3 st4 st5 buf', Fs.dcfs_create path_f 0 fs0 = Ret (st1, 0%Z, 11%N) ∧
    Fs.dcfs_write [] buf6 5 0 11 st1 = Ret (st2, 5%Z) ∧
    Fs.dcfs_flush [] 11 st2 = Ret (st3, 0%Z, 0%N) ∧
    Fs.dcfs_open path_f 0 st3 = Ret (st4, 0%Z, 12%N) ∧
    Fs.dcfs_read [] (replicate 6 None) 5 0 12 st4 = Ret (st5, buf', 5%Z) ∧
    take 5 buf' = Some <$> lit "abcde".
Proof.
  destruct (session_round_trip fs0 Byte.x2f (lit "f") [] 0 0 buf6 (replicate 6 None) 5 sk ck)
    as (st1 & st2 & st3 & ino & Hc & Hw & Hf & Hfd & Hi & ns & bm & rn & Hn & Hrest).
  - apply init_inv.
  - reflexivity.
  - done.
  - apply backend_ok0.
  - apply not_elem_of_nil.
  - done.
  - by vm_compute.
  - by vm_compute.
  - repeat (apply Forall_cons; split; [by eexists|]). constructor.
  - by vm_compute.
  - assert (session_names = flush_names (backend st2) ino) as Hs.
    { unfold session_names. change path_f with (Byte.x2f :: lit "f"). rewrite Hc, Hw, Hfd.
      cbn [mbind option_bind]. by rewrite Hi. }
    pose proof session_names_ok as Hok. apply bool_decide_eq_true in Hok as (Hnd & _ & Hz).
    rewrite Hs in Hnd, Hz. destruct Hrest as (st4 & st5 & buf' & Ho & Hr & Ht).
    + exact Hnd.
    + rewrite Hn in Hz. by apply Forall_app in Hz as [Hz _].
    + exists st1, st2, st3, st4, st5, buf'. split_and!; assumption.
Defined.

(** A directory with one entry, whose inode is in memory or not, and 245
    descriptors in use. *)
Definition fs_full (t : gmap (list Byte.byte) Inode) : fs :=
  MkFs (Dir.MkDirectory [Dir.MkEntry (lit "f") dc] 0) b0 16 t 255 (replicate 256 []).


Lemma getattr_null_witness :
  Fs.dcfs_getattr path_f (Fs.set_backend b_nokey (fs_full ∅)) = Crash NullDeref.
Proof.
  apply (getattr_null path_f (Fs.set_backend b_nokey (fs_full ∅)) (lit "f")
    (Dir.MkEntry (lit "f") dc) b_nokey ERR_SIGN).
  - discriminate.
  - reflexivity.
  - reflexivity.
  - apply lookup_empty.
  - reflexivity.
Defined.

(** ** The simulated server *)
Lemma write_read_back_witness :
  ∃ d, Sim.WriteRecord dc data_name (lit "data") d0 = Ret (d, inr tt) ∧
    Sim.ReadRecord dc data_name 4 d = Ret (d, inr (lit "data")).
Proof.
  destruct (Sim.write_read_back dc data_name (lit "data") d0) as (d & Hw & Hr & _).
  - discriminate.
  - left. apply container0.
  - exists d. split; [exact Hw|]. by apply Hr.
Defined.

(** ** The network client *)
Definition servers : list (bytes * N) := [(lit "10.0.0.2", 2%N); (lit "10.0.0.3", 1%N)].

Lemma parse_print_servers_witness :
  Comm.print_servers servers = lit "10.0.0.2:2,10.0.0.3:1" ∧
  Comm.parse_servers (lit "10.0.0.2:2,10.0.0.3:1") = Ret [(lit "10.0.0.2", 2%Z); (lit "10.0.0.3", 1%Z)].
Proof.
  split; [by vm_compute|]. apply (Comm.parse_print_servers servers).
  - discriminate.
  - apply (bool_decide_eq_true _). vm_compute. reflexivity.
Defined.

(** A client of one server, an acknowledgement and a response. *)
Definition comm0 : Comm.ClientComm :=
  Comm.MkComm (lit "10.0.0.1") [] [] [] []
    {[lit "10.0.0.2:4102" := lit "tcp://10.0.0.2:4102"]}
    {[lit "10.0.0.2:4401" := lit "tcp://10.0.0.2:4401"]} ∅ [].
Definition client0 : Client.DCClient := Client.MkClient comm0 ∅ ∅.

Lemma fresh0 : fresh_client client0.
Proof. by split_and!. Qed.

Definition ack_msg : bytes :=
  Toy.enc_pdu (MkPDU (MkHeader 0 [] [] 0 0 REPLICATION_ACK 0 [] [] false) data_name [] 0 []).
Definition record : CapsulePDU := mk_record DATABLOCK [dc] (lit "data").
Definition resp_msg : bytes :=
  Byte.x01 :: Toy.enc_field data_name ++ Toy.enc_pdu record.
(** The server's answer for a record it does not have. *)
Definition no_msg : bytes := Byte.x00 :: Toy.enc_field data_name ++ Toy.enc_pdu default_pdu.

Definition put_events : list Client.event :=
  [Client.EvPut data_name (lit "data"); Client.EvAck ack_msg].
Definition after_put : Client.DCClient :=
  match Client.handle_ack ack_msg (Client.Put_begin data_name (lit "data") client0) with
  | Ret c => c
  | Crash _ => client0
  end.

Lemma run_put : Client.run client0 put_events (Client.MkNet (Client.InPut data_name) after_put).
Proof.
  eapply (Client.run_snoc _ [_]).
  { eapply (Client.run_snoc _ []); [apply Client.run_nil|apply Client.step_put]. }
  apply Client.step_ack. vm_compute. reflexivity.
Qed.

Lemma put_ready : Client.Put_ready data_name after_put = true.
Proof. vm_compute. reflexivity. Qed.

Lemma Put_returns_after_ack_witness :
  Client.net_step (Client.EvPutRet data_name) (Client.MkNet (Client.InPut data_name) after_put)
    (Client.MkNet Client.Idle (Client.Put_end data_name after_put)) ∧
  acked put_events data_name.
Proof.
  assert (Client.net_step (Client.EvPutRet data_name)
    (Client.MkNet (Client.InPut data_name) after_put)
    (Client.MkNet Client.Idle (Client.Put_end data_name after_put))) as Hs
    by apply Client.step_put_ret, put_ready.
  split; [exact Hs|].
  exact (Put_returns_after_ack client0 put_events _ _ data_name fresh0 run_put Hs).
Defined.

(** A second [Put] of the record, and what a second acknowledgement makes of it. *)
Definition second_put : Client.DCClient :=
  Client.Put_begin data_name (lit "data") (Client.Put_end data_name after_put).
Definition acked_again : Client.DCClient :=
  match Client.handle_ack ack_msg second_put with Ret c => c | Crash _ => client0 end.

Lemma second_Put_never_returns_witness :
  Client.steps (Client.MkNet (Client.InPut data_name) second_put) [Client.EvAck ack_msg]
    (Client.MkNet (Client.InPut data_name) acked_again) ∧
  Client.EvPutRet data_name ∉ [Client.EvAck ack_msg].
Proof.
  assert (Client.steps (Client.MkNet (Client.InPut data_name) second_put) [Client.EvAck ack_msg]
    (Client.MkNet (Client.InPut data_name) acked_again)) as Hsteps.
  { eapply Client.steps_cons; [|apply Client.steps_nil].
    apply Client.step_ack. vm_compute. reflexivity. }
  split; [exact Hsteps|].
  apply (second_Put_never_returns client0 (put_events ++ [Client.EvPutRet data_name])
    (Client.Put_end data_name after_put) data_name (lit "data") [Client.EvAck ack_msg]
    (Client.MkNet (Client.InPut data_name) acked_again) fresh0); [| |exact Hsteps].
  - eapply Client.run_snoc; [apply run_put|]. apply Client.step_put_ret, put_ready.
  - exists ack_msg. split; [|split; [by vm_compute|by vm_compute]].
    apply elem_of_app. left. apply list_elem_of_further, list_elem_of_here.
Defined.

Lemma Put_sends_to_all_witness :
  Comm.outbox (Client.client_comm_ (Client.Put_begin data_name (lit "data") client0)) =
  (λ p, (p.2, lit "data")) <$> map_to_list (Comm.m_dc_server_dc_sockets comm0).
Proof.
  apply (Put_sends_to_all client0 [] client0 data_name (lit "data")
    (Client.MkNet (Client.InPut data_name) (Client.Put_begin data_name (lit "data") client0))).
  - apply fresh0.
  - apply Client.run_nil.
  - apply Client.step_put.
Defined.

(** A [Get], answered with [msg]. *)
Definition get_events (msg : bytes) : list Client.event :=
  [Client.EvGet data_name Client.net_get_options 0; Client.EvResp msg].
Definition get_begun : Client.DCClient :=
  match Client.Get_begin data_name Client.net_get_options 0 client0 with
  | Ret c => c
  | Crash _ => client0
  end.
Definition after_get (msg : bytes) : Client.DCClient :=
  match Client.handle_get_resp msg get_begun with Ret c => c | Crash _ => client0 end.

Lemma run_get msg :
  is_ret (Client.handle_get_resp msg get_begun) = true →
  Client.run client0 (get_events msg) (Client.MkNet (Client.InGet (data_name, false)) (after_get msg)).
Proof.
  intros Hr. eapply (Client.run_snoc _ [_]).
  { eapply (Client.run_snoc _ []); [apply Client.run_nil|]. apply (Client.step_get _ Client.net_get_options).
    vm_compute. reflexivity. }
  apply Client.step_resp. change (Client.handle_get_resp msg get_begun = Ret (after_get msg)).
  unfold after_get. revert Hr. generalize (Client.handle_get_resp msg get_begun).
  intros []; [reflexivity|discriminate].
Qed.

Lemma Get_returns_response_witness :
  Client.net_step (Client.EvGetRet (data_name, false) (Client.Get_end (data_name, false) (after_get resp_msg)))
    (Client.MkNet (Client.InGet (data_name, false)) (after_get resp_msg))
    (Client.MkNet Client.Idle (after_get resp_msg)) ∧
  ∃ x, Client.Get_end (data_name, false) (after_get resp_msg) = Some x ∧
       responded (get_events resp_msg) (data_name, false) x.
Proof.
  assert (Client.net_step
    (Client.EvGetRet (data_name, false) (Client.Get_end (data_name, false) (after_get resp_msg)))
    (Client.MkNet (Client.InGet (data_name, false)) (after_get resp_msg))
    (Client.MkNet Client.Idle (after_get resp_msg))) as Hs
    by (apply Client.step_get_ret; vm_compute; reflexivity).
  split; [exact Hs|].
  apply (Get_returns_response client0 (get_events resp_msg) _ _ (data_name, false) _ fresh0
    (run_get resp_msg ltac:(vm_compute; reflexivity)) Hs).
Defined.

Lemma Get_waits_forever_witness :
  Client.run client0 (get_events no_msg)
    (Client.MkNet (Client.InGet (data_name, false)) (after_get no_msg)) ∧
  ¬ Client.net_step (Client.EvGetRet (data_name, false) None)
      (Client.MkNet (Client.InGet (data_name, false)) (after_get no_msg))
      (Client.MkNet Client.Idle (after_get no_msg)).
Proof.
  assert (Client.run client0 (get_events no_msg)
    (Client.MkNet (Client.InGet (data_name, false)) (after_get no_msg))) as Hrun
    by (apply run_get; vm_compute; reflexivity).
  split; [done|].
  apply (Get_waits_forever client0 (get_events no_msg)); [apply fresh0|done|].
  intros m Hm _. left. apply elem_of_cons in Hm as [Hm|Hm]; [discriminate|].
  apply list_elem_of_singleton in Hm. injection Hm as ->. vm_compute. reflexivity.
Defined.
