(* ===== verification/ThreadWitnesses.v ===== *)
(** * The callbacks in threads, at concrete inputs

    The theorems of [ThreadSpec.v] and [ThreadInv.v] on runs over the small
    system of [Witnesses.v], and runs that show what the missing locks allow. *)

From Stdlib Require Import NArith ZArith Lia.
From Stdlib Require Import Strings.String.
From stdpp Require Import base list gmap.
From S2P Require Import Prelude Const Dir Crypto Capsule DcServer Middleware Backend Cache Dcfs.
From S2P Require Import BackendSpec CacheEquiv DcfsSpec Types Threads ThreadSpec ThreadInv Concrete Witnesses.

#[local] Existing Instance Toy.toy_openssl.
#[local] Existing Instance Toy.toy_openssl_laws.
#[local] Existing Instance Toy.toy_protobuf.
#[local] Existing Instance Toy.toy_protobuf_laws.
#[local] Existing Instance Toy.toy_env.
#[local] Existing Instance Toy.toy_disk.
#[local] Existing Instance Toy.toy_disk_benign.
#[local] Existing Instance Sim.DCServer_sim.
#[local] Existing Instance Sim.DCServer_sim_laws.
#[local] Existing Instance Sim.DCServer_sim_answers.
#[local] Existing Instance Sim.DCServer_sim_reliable.
#[local] Existing Instance Backend.Storage_backend.
#[local] Existing Instance StorageLaws_backend.

Abbreviation mem := (memory (Backend.StorageBackend (D := Sim.DCServerSim))).

(** An allocator that gives a freed address out again: the address behind the
    highest one in use. *)
#[local] Instance toy_allocator : Allocator :=
  λ _ used, (1 + foldr N.max 0 (elements used))%N.

Lemma foldr_max_le (l : list N) a : a ∈ l → (a <= foldr N.max 0 l)%N.
Proof. induction 1; simpl; lia. Qed.

#[local] Instance toy_allocator_laws : AllocatorLaws.
Proof.
  split. intros n used Hin. unfold operator_new, toy_allocator in Hin.
  pose proof (foldr_max_le (elements used) _ (proj2 (elem_of_elements _ _) Hin)). lia.
Qed.

(** The names in the directory and the places of the threads after a run. *)
Definition names_of (m : mem) : list bytes := Dir.Filename <$> Dir.entries_ (m_root m).
Definition places (x : list Thr.thread * mem) : list point := x.1.*2.

(** ** What the missing locks allow *)

Lemma run_reached cs sched (p : list Thr.thread * mem → bool) :
  ret_and p (run_calls 16 b0 cs sched) = true →
  ∃ ts (m : mem), rtc Thr.pool_step ([], Thr.init 16 b0) (ts, m) ∧ p (ts, m) = true.
Proof.
  intros ([ts m] & Hr & Hp)%ret_and_true. exists ts, m. split; [|exact Hp].
  eapply run_calls_reached. exact Hr.
Qed.

Abbreviation times := replicate.
Definition path_g : bytes := lit "/g".

(** Two [create]s of one name that both search before either has added the
    name succeed both: the directory has two entries of that name. *)
Lemma create_create_race : ∃ (ts : list Thr.thread) (m : mem),
  rtc Thr.pool_step ([], Thr.init 16 b0) (ts, m) ∧
  ts.*2 = [Done (RHandle 0 11); Done (RHandle 0 12)] ∧ names_of m = [lit "f"; lit "f"].
Proof.
  destruct (run_reached [CCreate path_f 0; CCreate path_f 0] (times 5 0 ++ times 5 1 ++ times 9 0 ++ times 9 1)
    (λ x, bool_decide (x.1.*2 = [Done (RHandle 0 11); Done (RHandle 0 12)] ∧
      names_of x.2 = [lit "f"; lit "f"]))) as (ts & m & Hrun & Hp%bool_decide_eq_true).
  - vm_compute. reflexivity.
  - exists ts, m. split; [exact Hrun|exact Hp].
Qed.

(** Two calls get one descriptor: the second loads the counter before the first
    has stored it, and the descriptor leads to the file of the one that writes
    the slot last. *)
Lemma descriptor_race : ∃ (ts : list Thr.thread) (m : mem),
  rtc Thr.pool_step ([], Thr.init 16 b0) (ts, m) ∧
  ts.*2 = [Done (RHandle 0 11); Done (RHandle 0 11)] ∧ names_of m = [lit "f"; lit "g"] ∧
  m_fd_table m !! 11%nat = Dir.Hashname <$> Dir.entries_ (m_root m) !! 0%nat ∧
  m_fd_table m !! 11%nat ≠ Dir.Hashname <$> Dir.entries_ (m_root m) !! 1%nat.
Proof.
  destruct (run_reached [CCreate path_f 0; CCreate path_g 0]
    (times 11 0 ++ times 16 1 ++ times 3 0)
    (λ x, bool_decide (x.1.*2 = [Done (RHandle 0 11); Done (RHandle 0 11)] ∧
      names_of x.2 = [lit "f"; lit "g"] ∧
      m_fd_table x.2 !! 11%nat = Dir.Hashname <$> Dir.entries_ (m_root x.2) !! 0%nat ∧
      m_fd_table x.2 !! 11%nat ≠ Dir.Hashname <$> Dir.entries_ (m_root x.2) !! 1%nat)))
    as (ts & m & Hrun & Hp%bool_decide_eq_true).
  - vm_compute. reflexivity.
  - exists ts, m. split; [exact Hrun|exact Hp].
Qed.

(** [open] goes over the directory while [create] is in [push_back]. *)
Lemma push_back_race :
  run_calls 16 b0 [CCreate path_f 0; COpen path_g 0] (times 9 0 ++ times 2 1) =
    Crash DataRace (A := list Thr.thread * mem).
Proof. vm_compute. reflexivity. Qed.

(** A file is created and flushed, and opened by another thread meanwhile:
    [open] has found the inode and not yet counted its reference when the last
    [flush] deletes it. *)
Lemma open_flush_race : ∃ ts (m : mem) h a,
  rtc Thr.pool_step ([], Thr.init 16 b0) (ts, m) ∧
  ts !! 2%nat = Some (COpen path_f 0, Inside (Use h a)) ∧
  Thr.step (COpen path_f 0) (Inside (Use h a)) m = Crash UseAfterFree.
Proof.
  destruct (run_reached [CCreate path_f 0; CFlush path_f 11; COpen path_f 0]
    (times 14 0 ++ times 6 2 ++ times 6 1 ++ [2])%nat
    (λ x, match x.1 !! 2%nat with
          | Some (COpen p 0, Inside (Use h a)) =>
              bool_decide (p = path_f) &&
              match m_heap x.2 !! a with None => true | Some _ => false end
          | _ => false
          end)) as (ts & m & Hrun & Hp).
  - vm_compute. reflexivity.
  - cbn [fst snd] in Hp. destruct (ts !! 2%nat) as [[[] k]|] eqn:Ht; try discriminate Hp.
    destruct fh; [|discriminate Hp]. destruct k as [| | | | | | | | | | | | | |k|]; try discriminate Hp.
    destruct k as [| | | | | | |h a| | | | | | | |]; try discriminate Hp.
    apply andb_prop in Hp as [Hp%bool_decide_eq_true Ha]. subst path.
    exists ts, m, h, a. split; [exact Hrun|]. split; [exact Ht|].
    simpl. unfold Thr.use, Thr.deref. by destruct (m_heap m !! a).
Qed.

(** The same, and a third thread creates a file before [open] goes on: the new
    inode has the address of the deleted one, and [open] of the first file
    counts its reference on the second. *)
Lemma stale_address_race : ∃ (ts : list Thr.thread) (m : mem),
  rtc Thr.pool_step ([], Thr.init 16 b0) (ts, m) ∧
  ts.*2 = [Done (RHandle 0 11); Done (RHandle 0 0); Done (RHandle 0 13); Done (RHandle 0 12)] ∧
  ((λ x, (i_ref_count_ x.2)) <$> map_to_list (m_heap m)) = [2%N].
Proof.
  destruct (run_reached [CCreate path_f 0; CFlush path_f 11; COpen path_f 0; CCreate path_g 0]
    (times 14 0 ++ times 6 2 ++ times 8 1 ++ times 16 3 ++ times 10 2)
    (λ x, bool_decide (x.1.*2 = [Done (RHandle 0 11); Done (RHandle 0 0); Done (RHandle 0 13); Done (RHandle 0 12)] ∧
      ((λ x, (i_ref_count_ x.2)) <$> map_to_list (m_heap x.2)) = [2%N])))
    as (ts & m & Hrun & Hp%bool_decide_eq_true).
  - vm_compute. reflexivity.
  - exists ts, m. split; [exact Hrun|exact Hp].
Qed.

(** All threads share the iterator of the directory: a [readdir] takes the
    entry that [open] is looking for, and [open] does not find a file that
    exists. *)
Lemma open_readdir_race : ∃ (ts : list Thr.thread) (m : mem),
  rtc Thr.pool_step ([], Thr.init 16 b0) (ts, m) ∧
  ts.*2 = [Done (RHandle 0 11); Done (RHandle (- ENOENT) 0); Listing [lit "."; lit ".."; lit "f"]] ∧
  names_of m = [lit "f"].
Proof.
  destruct (run_reached [CCreate path_f 0; COpen path_f 0; CReaddir (lit "/")]
    (times 14 0 ++ times 3 1 ++ times 5 2 ++ times 2 1)
    (λ x, bool_decide (x.1.*2 = [Done (RHandle 0 11); Done (RHandle (- ENOENT) 0);
       Listing [lit "."; lit ".."; lit "f"]] ∧ names_of x.2 = [lit "f"])))
    as (ts & m & Hrun & Hp%bool_decide_eq_true).
  - vm_compute. reflexivity.
  - exists ts, m. split; [exact Hrun|exact Hp].
Qed.

(** ** The theorems *)

Lemma callbacks_alone_witness : ∃ o,
  Thr.alone (alone_fuel (Thr.init 16 b0)) (CCreate path_f 0) Start (Thr.init 16 b0) = Some o ∧
  seen (λ _ r, r) o = callback (CCreate path_f 0) fs0.
Proof.
  destruct (callbacks_alone (CCreate path_f 0) (Thr.init 16 b0)) as (o & Ho & Hs).
  - apply init_ok.
  - exists o. split; [exact Ho|]. rewrite Hs. by rewrite abs_init.
Defined.

Lemma serial_runs_witness : ∃ (ts : list Thr.thread) (m : mem),
  ts.*2 = [Done (RHandle 0 11)] ∧
  ∃ l, ts = ended l ∧ sequential 16 b0 l (abs m) ∧ reachable 16 b0 (abs m).
Proof.
  assert (ret_and (λ x, bool_decide (x.1.*2 = [Done (RHandle 0 11)]))
    (run_calls 16 b0 [CCreate path_f 0] (times 14 0)) = true) as Hr
    by (vm_compute; reflexivity).
  apply ret_and_true in Hr as ([ts m] & Hr & Hp%bool_decide_eq_true). exists ts, m.
  split; [exact Hp|]. apply (serial_runs 16 b0).
  - eapply rtc_l; [apply (serial_call [] (Thr.init 16 b0) (CCreate path_f 0))|].
    + intros t Ht. destruct (not_elem_of_nil t Ht).
    + eapply schedule_serial. exact Hr.
  - clear Hr. intros [c k] Ht. apply (list_elem_of_fmap_2 snd) in Ht. cbn [fst] in Hp.
    rewrite Hp in Ht. apply list_elem_of_singleton in Ht. simpl in Ht. by subst k.
Defined.

Lemma interleavings_keep_witness : ∃ (ts : list Thr.thread) (m : mem),
  ts.*2 = [Done (RHandle 0 11); Done (RHandle 0 11)] ∧ table_ok m.
Proof.
  destruct descriptor_race as (ts & m & Hrun & Hts & _). exists ts, m. split; [exact Hts|].
  exact (interleavings_keep 16 b0 ts m Hrun).
Defined.

(** A schedule along which a test holds before every step. *)
Fixpoint checked (p : list Thr.thread * mem → bool) (sched : list nat) (ts : list Thr.thread)
    (m : mem) : bool :=
  match sched with
  | [] => true
  | i :: sched =>
      p (ts, m) &&
      match ts !! i with
      | Some (c, k) =>
          if Thr.finished k then checked p sched ts m
          else if Thr.racing ts i then false
          else match Thr.step c k m with
               | Ret (m', k') => checked p sched (<[i := (c, k')]> ts) m'
               | Crash _ => false
               end
      | None => checked p sched ts m
      end
  end.

Lemma checked_runs p (Q : list Thr.thread * mem → Prop) sched ts m x :
  (∀ y, p y = true → Q y) → checked p sched ts m = true →
  Thr.schedule sched ts m = Ret x → rtc (λ x y, Q x ∧ Thr.pool_step x y) (ts, m) x.
Proof.
  intros HQ. revert ts m. induction sched as [|i sched IH]; intros ts m; simpl; [by intros _ [= <-]|].
  intros [Hp Hc]%andb_prop. destruct (ts !! i) as [[c k]|] eqn:Hi; [|by apply IH].
  destruct (Thr.finished k) eqn:Hk; [by apply IH|]. destruct (Thr.racing ts i) eqn:Hrace; [done|].
  destruct (Thr.step c k m) as [[m' k']|] eqn:Hs; [|done]. simpl. intros Hr.
  eapply rtc_l; [|by apply IH]. split; [by apply HQ|by eapply Thr.pool_run].
Qed.

(** The capsule that a thread would be given next is not in memory. *)
Definition fresh_name (x : list Thr.thread * mem) : bool :=
  match CreateNewFile (m_backend x.2) with
  | Ret (_, inr (h, _)) => bool_decide (m_table x.2 !! h = None)
  | _ => true
  end.

Lemma fresh_name_fresh x : fresh_name x = true → fresh_names x.
Proof.
  unfold fresh_name. intros Hf c k s h key _ _ Hc. rewrite Hc in Hf.
  by apply bool_decide_eq_true in Hf.
Qed.

Lemma one_object_per_file_witness : ∃ (m : mem) a i,
  m_heap m !! a = Some i ∧
  ∀ b j, m_heap m !! b = Some j → Hashname i = Hashname j → a = b.
Proof.
  pose (t0 := [(CCreate path_f 0, Start)]).
  pose (sched := times 14 0).
  assert (checked fresh_name sched t0 (Thr.init 16 b0) = true) as Hc by (vm_compute; reflexivity).
  assert (ret_and (λ x, bool_decide (is_Some (m_heap x.2 !! 1%N)))
    (Thr.schedule sched t0 (Thr.init 16 b0)) = true) as Hr by (vm_compute; reflexivity).
  apply ret_and_true in Hr as ([ts m] & Hr & [i Hi]%bool_decide_eq_true).
  exists m, 1%N, i. split; [exact Hi|]. intros b j.
  apply (one_object_per_file 16 b0 ts m 1%N b i j); [|exact Hi].
  eapply rtc_l.
  - split; [|apply (Thr.pool_call [] (Thr.init 16 b0) (CCreate path_f 0))].
    apply fresh_name_fresh. vm_compute. reflexivity.
  - eapply checked_runs; [exact fresh_name_fresh|exact Hc|exact Hr].
Defined.
