(* ===== verification/NetWitnesses.v ===== *)
(** * The theorems about the network server at concrete inputs *)

From Stdlib Require Import NArith ZArith Lia.
From Stdlib Require Import Strings.String.
From stdpp Require Import base list gmap.
From S2P Require Import Prelude Const Encode Options Dir Crypto Capsule DcServer Middleware Backend.
From S2P Require Import Cache Dcfs ClientComm DcClient Listener NetServer Main DcClientSpec Callers NetSpec.
From S2P Require Import CacheSpec InodeSpec Commits BackendSpec Reopen DcfsSpec FileOps Session NetLaws NetFiles.
From S2P Require Import Concrete Witnesses.

#[local] Existing Instance Toy.toy_openssl.
#[local] Existing Instance Toy.toy_protobuf.
#[local] Existing Instance Toy.toy_protobuf_laws.
#[local] Existing Instance Toy.toy_env.
#[local] Existing Instance Toy.toy_remote.
#[local] Existing Instance Toy.toy_remote_honest.
#[local] Existing Instance Toy.toy_remote_exclusive.
#[local] Existing Instance Toy.toy_openssl_laws.
#[local] Existing Instance Backend.Storage_backend.
#[local] Existing Instance Witnesses.run_env_ok.

(** A server object as its constructor builds it, with empty servers behind it. *)
Definition get_ret {A} (d : A) (m : outcome A) : A := match m with Ret a => a | _ => d end.

(** The state after a computation whose result is known. *)
Lemma get_ret_eq {A B} `{EqDecision B} (d : A * B) m b :
  match m with Ret ab => bool_decide (ab.2 = b) | _ => false end = true →
  m = Ret ((get_ret d m).1, b).
Proof. destruct m as [[a b']|]; [|done]. simpl. intros ->%bool_decide_eq_true. done. Qed.

Definition n_none : Net.DCServerNet Toy.store := Net.MkNetServer client0 false ∅ 0.
Definition n0 : Net.DCServerNet Toy.store := get_ret n_none (Net.new_DCServerNet run_options ∅).

Lemma new_n0 : Net.new_DCServerNet run_options ∅ = Ret n0.
Proof. vm_compute. reflexivity. Qed.

(** The record to be stored, its name, and the object after the write. *)
Definition rec_name : bytes := pdu_header_hash record.
Definition rec_data : bytes := Toy.enc_pdu record.
Definition n1 : Net.DCServerNet Toy.store :=
  (get_ret (n_none, inr tt) (WriteRecord dc rec_name rec_data n0)).1.

Lemma write_n0 : WriteRecord dc rec_name rec_data n0 = Ret (n1, inr tt).
Proof. apply get_ret_eq. vm_compute. reflexivity. Qed.

Lemma held_n1 : Net.remote n1 !! rec_name = Some rec_data.
Proof. vm_compute. reflexivity. Qed.

Definition n2 : Net.DCServerNet Toy.store :=
  (get_ret (n_none, inl ERR_IO) (ReadRecord dc rec_name 4096 n1)).1.

Lemma read_n1 : ReadRecord dc rec_name 4096 n1 = Ret (n2, inr rec_data).
Proof. apply get_ret_eq. vm_compute. reflexivity. Qed.

Lemma net_write_read_back_witness :
  Net.new_DCServerNet run_options ∅ = Ret n0 ∧
  WriteRecord dc rec_name rec_data n0 = Ret (n1, inr tt) ∧
  ReadRecord dc rec_name 4096 n1 = Ret (n2, inr rec_data) ∧ (nlen rec_data ≤ 4096)%N.
Proof.
  assert (∀ x, remote_record (Net.remote n1) rec_name = Some x → x = rec_data) as Huniq.
  { intros x Hx. change (Net.remote n1 !! rec_name = Some x) in Hx. rewrite held_n1 in Hx. congruence. }
  destruct (net_write_read_back run_options ∅ dc dc rec_name rec_data 4096 n0 n0 n1 n1 n2 (inr tt)
    (inr rec_data) new_n0 (rtc_refl _ _) write_n0 Huniq (rtc_refl _ _) read_n1) as (_ & _ & Hn).
  exact (conj new_n0 (conj write_n0 (conj read_n1 Hn))).
Defined.

Lemma server_ops_refine_witness :
  ∃ polls out, let l := Listener.handled (rounds (Net.end_signal_ n1) polls) in
    Client.ReadRecord_end out 4096 = Ret (inr rec_data) ∧
    Client.steps (Client.MkNet Client.Idle (Net.dcclient_ n1))
      (Client.EvGet rec_name Client.net_get_options (c_rand (Net.draws n1)) ::
         l ++ [Client.EvGetRet (rec_name, false) out]) (Client.MkNet Client.Idle (Net.dcclient_ n2)).
Proof. exact (proj2 (server_ops_refine dc rec_name n1 n2) 4096%N (inr rec_data) read_n1). Defined.

(** What arrives while the write waits. *)
Definition acks_n0 : list (option (list cell) * option (list cell)) :=
  [(Some (Some <$> Toy.ack_of rec_name), None)].

Lemma acks_n0_step :
  (remote_step (Comm.outbox (Client.client_comm_
    (Client.Put_begin rec_name rec_data (Net.dcclient_ n0)))) (Net.remote n0)).2 = acks_n0.
Proof. vm_compute. reflexivity. Qed.

Lemma fresh_n0 : fresh_client (Net.dcclient_ n0).
Proof. split_and!; vm_compute; reflexivity. Qed.

Lemma acknowledged_write_returns_witness :
  ∃ d', WriteRecord dc rec_name rec_data n0 = Ret (d', inr tt).
Proof.
  apply (acknowledged_write_returns dc rec_name rec_data n0 (Net.dcclient_ n0) []).
  - exact fresh_n0.
  - apply Client.run_nil.
  - reflexivity.
  - vm_compute. reflexivity.
  - rewrite acks_n0_step. apply Forall_singleton, good_poll_ack; [vm_compute; reflexivity|].
    apply Nat.leb_le. vm_compute. reflexivity.
  - rewrite acks_n0_step. exists (Some <$> Toy.ack_of rec_name), None.
    split; [apply list_elem_of_here|]. vm_compute. reflexivity.
Defined.

(** A round with an acknowledgement, then one in which the signal is set. *)
Definition two_rounds : list Listener.round :=
  [Listener.MkRound (Some (Some <$> ack_msg)) None false; Listener.MkRound None None true;
   Listener.MkRound (Some (Some <$> ack_msg)) None false].
Definition begun : Client.DCClient := Client.Put_begin data_name (lit "data") client0.

Lemma listen_two : Listener.RunListenServer two_rounds begun = Ret (after_put, Some 0%Z).
Proof. vm_compute. reflexivity. Qed.

Lemma listener_refines_witness :
  Client.steps (Client.MkNet Client.Idle begun) [Client.EvAck ack_msg]
    (Client.MkNet Client.Idle after_put) ∧
  ∃ r, r ∈ two_rounds ∧ Listener.end_signal r = true.
Proof.
  destruct (Listener.listener_refines Client.Idle two_rounds begun after_put (Some 0%Z) listen_two)
    as [Hs Hr].
  split; [|exact (proj1 Hr eq_refl)].
  assert (Listener.handled two_rounds = [Client.EvAck ack_msg]) as Hh by (vm_compute; reflexivity).
  rewrite Hh in Hs. exact Hs.
Defined.

(** Two callers: the first stores a record, the second one reads it. *)
Definition get_begun : Client.DCClient :=
  get_ret client0 (Client.Get_begin data_name Client.net_get_options 0 after_put).
Definition put_get : list Client.event :=
  put_events ++ [Client.EvGet data_name Client.net_get_options 0].
Definition two_callers : Callers.state :=
  Callers.MkCallers [Client.InPut data_name; Client.InGet (data_name, false)] get_begun.

Lemma run_two : Callers.run 2 client0 put_get two_callers.
Proof.
  eapply (Callers.run_snoc _ _ put_events).
  - eapply (Callers.run_snoc _ _ [_]).
    + eapply (Callers.run_snoc _ _ []); [apply Callers.run_nil|].
      eapply (Callers.step_caller _ _ 0); [reflexivity|reflexivity|apply Client.step_put].
    + eapply (Callers.step_listener _ _ Client.Idle); [reflexivity|].
      apply (Client.step_ack _ _ _ after_put). vm_compute. reflexivity.
  - refine (Callers.step_caller (Client.EvGet _ _ _) [Client.InPut data_name; Client.Idle] 1 Client.Idle
      (Client.InGet (data_name, false)) after_put get_begun eq_refl eq_refl _).
    apply Client.step_get. vm_compute. reflexivity.
Qed.

Definition put_returned : Callers.state :=
  Callers.MkCallers [Client.Idle; Client.InGet (data_name, false)] (Client.Put_end data_name get_begun).

Lemma put_returns : Callers.step (Client.EvPutRet data_name) two_callers put_returned.
Proof.
  refine (Callers.step_caller (Client.EvPutRet _) [Client.InPut data_name; Client.InGet (data_name, false)] 0
    (Client.InPut data_name) Client.Idle get_begun _ eq_refl eq_refl _).
  apply Client.step_put_ret. vm_compute. reflexivity.
Qed.

Lemma results_were_received_witness :
  Callers.step (Client.EvPutRet data_name) two_callers put_returned ∧ acked put_get data_name.
Proof.
  split; [exact put_returns|].
  exact (Callers.results_were_received 2 client0 put_get (Client.EvPutRet data_name) two_callers
    put_returned fresh0 run_two put_returns).
Defined.

(** The whole program runs over the network server: a file is created,
    written, flushed, opened again and read. *)
Example session_over_net :
  let k := Crypto.generate_ECDSA_key 0 in
  let b := Backend.MkBackend k (MkWorld (Mid.new_DCFSMidSim k 1 0) n0 0 1) in
  ('(st, created, fd) ← Fs.dcfs_create (lit "/f") 0 (Fs.dcfs_init 16 b);
   '(st, written) ← Fs.dcfs_write (lit "/f") (Some <$> lit "hello.") 5 0 fd st;
   '(st, flushed, _) ← Fs.dcfs_flush (lit "/f") fd st;
   '(st, opened, fd) ← Fs.dcfs_open (lit "/f") 0 st;
   '(st, buf, read) ← Fs.dcfs_read (lit "/f") (replicate 6 None) 5 0 fd st;
   Ret ([created; written; flushed; opened; read], fd, buf)) =
  Ret ([0; 5; 0; 0; 5]%Z, 12%N, (Some <$> lit "hello") ++ [None]).
Proof. vm_compute. reflexivity. Qed.

(** The servers hold nothing else: the object is in a good state. *)
Lemma good_n0 : good n0.
Proof.
  apply (new_good run_options ∅ n0 new_n0).
  - intros h. exact (lookup_empty h).
  - intros k a Ha. assert (serve_sockets (Net.dcclient_ n0) =
      {[ lit "10.0.0.2:4401" := lit "tcp://10.0.0.2:4401" ]}) as Hs
      by (apply (bool_decide_eq_true_1 _); vm_compute; reflexivity).
    rewrite Hs in Ha. apply lookup_singleton_Some in Ha as [_ <-]. reflexivity.
Qed.

Lemma net_keeps_contract_witness :
  good n0 ∧ wp net_fault (Net.WriteRecord dc rec_name rec_data n0) (λ '(d', res),
    res = inr tt ∧ remote_record (Net.remote d') rec_name = Some rec_data).
Proof.
  destruct (net_keeps_contract (R := Toy.store)) as [Hnew Hops]. split; [exact good_n0|].
  destruct (Hops n0 good_n0) as [_ Hw].
  eapply wp_mono; [exact (Hw dc rec_name rec_data)|].
  intros [d' res] (_ & -> & Hx & _). split; [reflexivity|exact Hx].
Defined.

(** The backend over it, and the flush of a file of one block. *)
Definition net_b : Backend.StorageBackend (D := GoodServer (R := Toy.store)) :=
  Backend.MkBackend (Some ck) (MkWorld (mid w0) (exist good n0 good_n0) 0 1).

Lemma new_file_net : new_file net_b ino_A 1.
Proof. destruct new_file_A. by split. Qed.

Lemma names_net : NoDup (flush_names net_b ino_A).
Proof. apply (bool_decide_eq_true_1 _). vm_compute. reflexivity. Qed.

(** The flush, and the metadata and the inode that are made afterwards. *)
Definition net_reopens (b' : Backend.StorageBackend (D := GoodServer (R := Toy.store))) : bool :=
  match Backend.ReadFileMeta dc b' with
  | Ret (_, inr m) => is_ret (new_Inode dc (fm_recordname m) (fm_blockmap_hash m)
      DEFAULT_BLOCK_SIZE_IN_KB BLOCKMAP_COVER (fm_i_size m) (fm_aes_key m))
  | _ => false
  end.

Lemma net_flush : ∃ b' c', RC.FlushCache ino_A (i_cache_ ino_A) net_b = Ret (b', c', inr tt) ∧
  net_reopens b' = true.
Proof.
  assert (ret_and (λ x, match x.2 with inr _ => net_reopens x.1.1 | inl _ => false end)
    (RC.FlushCache ino_A (i_cache_ ino_A) net_b) = true) as Hr by (vm_compute; reflexivity).
  apply ret_and_true in Hr as ([[b' c'] [e|[]]] & Hf & Hr); [discriminate Hr|].
  exists b', c'. split; [exact Hf|exact Hr].
Qed.

Lemma net_opens b' : net_reopens b' = true → ∃ size b'' ino', opens b' dc size b'' ino'.
Proof.
  unfold net_reopens. intros Ho. destruct (Backend.ReadFileMeta dc b') as [[b'' [e|m]]|] eqn:Hm;
    [discriminate Ho| |discriminate Ho].
  apply is_ret_true in Ho as [ino' Hi]. exists (fm_i_size m), b'', ino', m.
  split; [exact Hm|]. split; [reflexivity|exact Hi].
Qed.

Lemma net_flush_then_open_witness :
  ∃ b' c' b'' ino', RC.FlushCache ino_A (i_cache_ ino_A) net_b = Ret (b', c', inr tt) ∧
    opens b' dc 16384 b'' ino' ∧ AESKey ino' = file_key.
Proof.
  destruct net_flush as (b' & c' & Hf & Hr). destruct (net_opens b' Hr) as (size & b'' & ino' & Ho).
  destruct (net_flush_then_open net_b b' b'' ino_A ino' 1 c' sk size keys0 new_file_net Hf names_net Ho)
    as (Hsize & Hk & _).
  exists b', c', b'', ino'. split; [exact Hf|]. rewrite Hsize in Ho. split; [exact Ho|exact Hk].
Defined.

(** The session over this object: it runs to its end, the names of its records
    differ and the block's does not start with a zero byte. *)
Definition net_fs0 : fs_state (Backend.StorageBackend (D := GoodServer (R := Toy.store))) :=
  Fs.dcfs_init 16 net_b.

Definition names_fit (st : fs_state (Backend.StorageBackend (D := GoodServer (R := Toy.store)))) : bool :=
  match fd_table st !! 11%nat ≫= λ p, inode_table st !! p with
  | Some ino => let names := flush_names (backend st) ino in
      bool_decide (NoDup names ∧ Forall (λ n, head n ≠ Some Byte.x00) names)
  | None => false
  end.

Definition net_run : outcome bool :=
  '(st1, _, _) ← Fs.dcfs_create path_f 0 net_fs0;
  '(st2, _) ← Fs.dcfs_write [] buf6 5 0 11 st1;
  '(st3, _, _) ← Fs.dcfs_flush [] 11 st2;
  '(st4, _, _) ← Fs.dcfs_open path_f 0 st3;
  '(_, _, _) ← Fs.dcfs_read [] (replicate 6 None) 5 0 12 st4;
  Ret (names_fit st2).

Lemma net_runs : net_run = Ret true.
Proof. vm_compute. reflexivity. Qed.

Lemma net_up : backend_up net_b sk ck.
Proof.
  split; [apply sha_total|intros k m _; apply enc_total|intros n; by eexists|intros d; by eexists
         |done|done|apply keys0].
Qed.

Lemma net_session_witness :
  ∃ st4 st5 buf', Fs.dcfs_read [] (replicate 6 None) 5 0 12 st4 = Ret (st5, buf', 5%Z) ∧
    take 5 buf' = Some <$> lit "abcde".
Proof.
  pose proof (net_session net_fs0 Byte.x2f (lit "f") [] 0 0 buf6 (replicate 6 None) 5 sk ck
    (init_inv 16 net_b) eq_refl eq_refl net_up (not_elem_of_nil _) eq_refl eq_refl
    ltac:(by vm_compute) ltac:(repeat (apply Forall_cons; split; [by eexists|]); constructor)
    ltac:(by vm_compute)) as Hs. cbv zeta in Hs.
  change (fd_cnt net_fs0 + 1)%N with 11%N in Hs. change (11 + 1)%N with 12%N in Hs.
  pose proof net_runs as Hrun. unfold net_run in Hrun.
  apply bind_ret_inv in Hrun as ([[st1 r1] fd1] & Hc & Hrun).
  apply (wp_elim _ _ _ _ Hs) in Hc as (_ & _ & st2 & ino & Hw & Hslot & Htab & Hf). clear Hs.
  apply bind_ret_inv in Hrun as ([st2' n] & Hw' & Hrun).
  assert (st2' = st2) as -> by (rewrite Hw in Hw'; by injection Hw' as <- _). clear Hw Hw'.
  apply bind_ret_inv in Hrun as ([[st3 r3] fh3] & Hf' & Hrun).
  apply (wp_elim _ _ _ _ Hf) in Hf' as (_ & _ & ns & bm & rn & Hn & Ho). clear Hf.
  apply bind_ret_inv in Hrun as ([[st4 r4] fd4] & Ho' & Hrun).
  apply bind_ret_inv in Hrun as ([[st5 buf'] r5] & Hr & Hfit). injection Hfit as Hfit.
  unfold names_fit in Hfit. change (N.to_nat 11) with 11%nat in Hslot.
  rewrite Hslot in Hfit. cbn [mbind option_bind] in Hfit. rewrite Htab in Hfit.
  apply bool_decide_eq_true in Hfit as [Hnd Hz].
  rewrite Hn in Hz. apply Forall_app in Hz as [Hz _].
  apply (wp_elim _ _ _ _ (Ho Hnd Hz)) in Ho' as (_ & -> & Hread).
  pose proof (wp_elim _ _ _ _ Hread Hr) as [-> Ht].
  exists st4, st5, buf'. split; [exact Hr|exact Ht].
Defined.

(** A command line that is a list of addresses, and a [fuse_main] that ends
    at once. *)
#[local] Instance toy_fuse : Fuse := {
  fuse_opt_parse argv o spec :=
    match argv with
    | [] => None
    | progname :: ips => Some ([progname],
        MkOptions (opt_block_size_in_kb o) (ips !! 0%nat) (ips !! 1%nat) (opt_show_help o))
    end;
  fuse_opt_add_arg args a := Some (args ++ [a]);
  fuse_main _ := 0%Z;
}.

Lemma main_needs_addresses_witness :
  ∃ res, Program.main [lit "dcfs"; lit "127.0.0.1"] = Ret res ∧
    Options.load_client_ip (Program.option_map res) = lit "127.0.0.1" ∧
    Program.mount (MkOptions 16 (Some (lit "127.0.0.1")) None 0) (Program.option_map res)
      (∅ : Toy.store) = Crash Exited.
Proof.
  pose proof (Program.main_needs_addresses (R := Toy.store) [lit "dcfs"; lit "127.0.0.1"]) as Hm.
  cbv beta iota delta [fuse_opt_parse toy_fuse] in Hm.
  eexists. split; [vm_compute; reflexivity|].
  destruct (Hm _ ∅ ltac:(vm_compute; reflexivity)) as (Hc & _ & Hx).
  split; [exact Hc|]. apply Hx. right. reflexivity.
Defined.
